(** * SCR (Scalable Checkpoint / Restart): a shallow embedding of [src/scr.c]

    The development follows the layout of [scr.c]: C integer arithmetic,
    partner selection ([scr_set_partners]), checkpoint descriptors
    ([scr_ckptdesc_get], the validity rule of
    [scr_ckptdesc_create_from_hash]), the usable-file predicate
    ([scr_bool_have_file]), the XOR encoder's chunk size ([scr_copy_xor]),
    rebuild detection ([scr_attempt_rebuild_xor]) and the application
    entry points ([SCR_Start_checkpoint], [SCR_Route_file],
    [SCR_Complete_checkpoint]).

    Definitions come first, theorems afterwards. *)

From Stdlib Require Import ZArith Lia Bool List.
From stdpp Require Import base tactics option list sorting gmap strings pretty.

Local Open Scope Z_scope.

(** ** C integers *)

Module CInt.

Definition INT_MIN : Z := - 2 ^ 31.
Definition INT_MAX : Z := 2 ^ 31 - 1.
Definition ULONG_MAX : Z := 2 ^ 64 - 1.

(** [int] arithmetic: a result outside the 32-bit range wraps around
    (two's complement). *)
Definition wrap_int (z : Z) : Z := (z + 2 ^ 31) mod 2 ^ 32 - 2 ^ 31.

(** [unsigned long] / [size_t] arithmetic is modulo [2^64]. *)
Definition wrap_ulong (z : Z) : Z := z mod 2 ^ 64.

Definition int_add (a b : Z) : Z := wrap_int (a + b).
Definition int_sub (a b : Z) : Z := wrap_int (a - b).

(** C's [%] truncates towards zero. *)
Definition int_rem (a b : Z) : Z := Z.rem a b.

Definition in_int (z : Z) : Prop := INT_MIN <= z <= INT_MAX.
Definition in_ulong (z : Z) : Prop := 0 <= z <= ULONG_MAX.

(** C truth value of an [int]. *)
Definition truthy (z : Z) : bool := negb (z =? 0).

Definition of_bool (b : bool) : Z := if b then 1 else 0.

End CInt.

Import CInt.

Definition SCR_SUCCESS : Z := 0.
Definition SCR_FAILURE : Z := 1.

(** ** Partner selection: [scr_set_partners] *)

Module Partners.

(** [while (dist > ranks) { dist -= ranks; }] *)
Fixpoint shift_down (fuel : nat) (dist ranks : Z) : option Z :=
  if dist >? ranks then
    match fuel with
    | O => None
    | S fuel' => shift_down fuel' (int_sub dist ranks) ranks
    end
  else Some dist.

(** [while (dist < 0) { dist += ranks; }] *)
Fixpoint shift_up (fuel : nat) (dist ranks : Z) : option Z :=
  if dist <? 0 then
    match fuel with
    | O => None
    | S fuel' => shift_up fuel' (int_add dist ranks) ranks
    end
  else Some dist.

(** The two loops of [scr_set_partners], "shift partner distance to a
    valid range".  Each iteration moves [dist] by [ranks], so [|dist|]
    iterations are enough whenever [ranks >= 1]; [None] stands for a loop
    that has not finished within that bound. *)
Definition shift_dist (dist ranks : Z) : option Z :=
  match shift_down (Z.abs_nat dist) dist ranks with
  | Some d => shift_up (Z.abs_nat dist) d ranks
  | None => None
  end.

(** [lhs = (my_rank + ranks - dist) % ranks;
     rhs = (my_rank + ranks + dist) % ranks;] *)
Definition partner_ranks (my_rank ranks dist : Z) : option (Z * Z) :=
  match shift_dist dist ranks with
  | Some d =>
      let lhs := int_rem (int_sub (int_add my_rank ranks) d) ranks in
      let rhs := int_rem (int_add (int_add my_rank ranks) d) ranks in
      Some (lhs, rhs)
  | None => None
  end.

(** A member of a communicator, as seen by the hostname and world-rank
    exchanges: rank [i] of the communicator is the [i]-th list entry. *)
Record member := { m_hostname : string; m_rank_world : Z }.

Record partners := {
  p_lhs_rank : Z; p_lhs_rank_world : Z; p_lhs_hostname : string;
  p_rhs_rank : Z; p_rhs_rank_world : Z; p_rhs_hostname : string }.

Definition comm_member (comm : list member) (r : Z) : option member :=
  if r <? 0 then None else comm !! Z.to_nat r.

(** [scr_set_partners]: [MPI_Comm_rank] and [MPI_Comm_size] are the
    position [my_rank] and the length of [comm].  The paired
    [MPI_Irecv]/[MPI_Isend] exchanges deliver the hostname and world rank
    of the members at ranks [lhs] and [rhs]; both buffers start out as the
    empty string, and that is what remains when there is no such member. *)
Definition scr_set_partners (comm : list member) (my_rank dist : Z)
  : option partners :=
  let ranks := Z.of_nat (length comm) in
  match partner_ranks my_rank ranks dist with
  | Some (lhs, rhs) =>
      let l := comm_member comm lhs in
      let r := comm_member comm rhs in
      Some {| p_lhs_rank := lhs;
              p_lhs_rank_world := from_option m_rank_world (-1) l;
              p_lhs_hostname := from_option m_hostname EmptyString l;
              p_rhs_rank := rhs;
              p_rhs_rank_world := from_option m_rank_world (-1) r;
              p_rhs_hostname := from_option m_hostname EmptyString r |}
  | None => None
  end.

End Partners.

(** ** Checkpoint descriptors *)

Module Descriptors.

Inductive copy_type_t :=
| SCR_COPY_NULL | SCR_COPY_LOCAL | SCR_COPY_PARTNER | SCR_COPY_XOR.

Global Instance copy_type_eq_dec : EqDecision copy_type_t.
Proof. solve_decision. Defined.

(** [struct scr_ckptdesc].  A [char*] that may be [NULL] is an
    [option string]; the communicator [comm] is not part of the record,
    the functions that use it receive its member list. *)
Record scr_ckptdesc := {
  enabled : Z;
  index : Z;
  interval : Z;
  base : option string;
  directory : option string;
  copy_type : copy_type_t;
  hop_distance : Z;
  set_size : Z;
  groups : Z;
  group_id : Z;
  ranks : Z;
  my_rank : Z;
  lhs_rank : Z;
  lhs_rank_world : Z;
  lhs_hostname : string;
  rhs_rank : Z;
  rhs_rank_world : Z;
  rhs_hostname : string }.

Definition set_enabled (c : scr_ckptdesc) (v : Z) : scr_ckptdesc :=
  {| enabled := v; index := index c; interval := interval c;
     base := base c; directory := directory c; copy_type := copy_type c;
     hop_distance := hop_distance c; set_size := set_size c;
     groups := groups c; group_id := group_id c; ranks := ranks c;
     my_rank := my_rank c;
     lhs_rank := lhs_rank c; lhs_rank_world := lhs_rank_world c;
     lhs_hostname := lhs_hostname c;
     rhs_rank := rhs_rank c; rhs_rank_world := rhs_rank_world c;
     rhs_hostname := rhs_hostname c |}.

Definition set_partner_fields (c : scr_ckptdesc) (p : Partners.partners)
  : scr_ckptdesc :=
  {| enabled := enabled c; index := index c; interval := interval c;
     base := base c; directory := directory c; copy_type := copy_type c;
     hop_distance := hop_distance c; set_size := set_size c;
     groups := groups c; group_id := group_id c; ranks := ranks c;
     my_rank := my_rank c;
     lhs_rank := Partners.p_lhs_rank p;
     lhs_rank_world := Partners.p_lhs_rank_world p;
     lhs_hostname := Partners.p_lhs_hostname p;
     rhs_rank := Partners.p_rhs_rank p;
     rhs_rank_world := Partners.p_rhs_rank_world p;
     rhs_hostname := Partners.p_rhs_hostname p |}.

(** The loop of [scr_ckptdesc_get], started at array position [i] with the
    current choice [c] (a position in the array, [None] for [NULL]) and the
    interval of that choice.  The three conjuncts of the C condition are
    evaluated left to right, so [%] is only reached with a divisor larger
    than [interval]. *)
Fixpoint ckptdesc_get_from (checkpoint_id : Z) (ckpts : list scr_ckptdesc)
    (i : nat) (c : option nat) (interval0 : Z) : option nat :=
  match ckpts with
  | [] => c
  | d :: rest =>
      if truthy (enabled d) then
        if interval0 <? interval d then
          if int_rem checkpoint_id (interval d) =? 0 then
            ckptdesc_get_from checkpoint_id rest (S i) (Some i) (interval d)
          else ckptdesc_get_from checkpoint_id rest (S i) c interval0
        else ckptdesc_get_from checkpoint_id rest (S i) c interval0
      else ckptdesc_get_from checkpoint_id rest (S i) c interval0
  end.

(** [scr_ckptdesc_get(checkpoint_id, nckpts, ckpts)]: the array and its
    length are the list; the returned pointer [&ckpts[i]] is the position
    [i], [NULL] is [None]. *)
Definition scr_ckptdesc_get (checkpoint_id : Z) (ckpts : list scr_ckptdesc)
  : option nat :=
  ckptdesc_get_from checkpoint_id ckpts 0 None 0.

(** The selection rule in the words of the specification: position [i]
    holds an enabled descriptor whose interval divides the checkpoint id
    evenly, no enabled dividing descriptor has a larger interval, and among
    those with the same interval [i] is the earliest. *)
Definition largest_dividing_enabled (checkpoint_id : Z)
    (ckpts : list scr_ckptdesc) (i : nat) : Prop :=
  exists c, ckpts !! i = Some c /\
    enabled c <> 0 /\ (interval c | checkpoint_id) /\
    forall j d, ckpts !! j = Some d ->
      enabled d <> 0 -> (interval d | checkpoint_id) ->
      interval d <= interval c /\ (interval d = interval c -> (i <= j)%nat).

(** ** Validity rule of [scr_ckptdesc_create_from_hash] *)

(** "check that we have a valid partner node (LOCAL needs no partner
    nodes)": the [strcmp] tests on the partner hostnames. *)
Definition check_partner_hostnames (scr_my_hostname : string)
    (c : scr_ckptdesc) : scr_ckptdesc :=
  match copy_type c with
  | SCR_COPY_PARTNER | SCR_COPY_XOR =>
      if bool_decide (lhs_hostname c = EmptyString)
         || bool_decide (rhs_hostname c = EmptyString)
         || bool_decide (lhs_hostname c = scr_my_hostname)
         || bool_decide (rhs_hostname c = scr_my_hostname)
      then set_enabled c 0
      else c
  | _ => c
  end.

(** "find left and right-hand-side partners": PARTNER uses the
    descriptor's hop distance, XOR the distance 1, on the descriptor's
    communicator [comm].  [None] when the distance loops of
    [scr_set_partners] do not finish. *)
Definition find_partners (comm : list Partners.member) (c : scr_ckptdesc)
  : option scr_ckptdesc :=
  match copy_type c with
  | SCR_COPY_PARTNER =>
      p ← Partners.scr_set_partners comm (my_rank c) (hop_distance c);
      Some (set_partner_fields c p)
  | SCR_COPY_XOR =>
      p ← Partners.scr_set_partners comm (my_rank c) 1;
      Some (set_partner_fields c p)
  | _ => Some c
  end.

(** [scr_alltrue]: [MPI_Allreduce] with [MPI_LAND] over the flags of all
    processes of [scr_comm_world]. *)
Definition scr_alltrue (flags : list Z) : Z :=
  of_bool (forallb truthy flags).

(** "if anyone has disabled this checkpoint, everyone needs to". *)
Definition disable_unless_alltrue (all_true : Z) (c : scr_ckptdesc)
  : scr_ckptdesc :=
  if truthy all_true then c else set_enabled c 0.

(** One process of the job while it builds a descriptor: its hostname,
    the descriptor after the copy type and the communicator position have
    been filled in, and the members of the descriptor's communicator. *)
Record process := {
  proc_hostname : string;
  proc_desc : scr_ckptdesc;
  proc_comm : list Partners.member }.

Definition local_topology (p : process) : option scr_ckptdesc :=
  c ← find_partners (proc_comm p) (proc_desc p);
  Some (check_partner_hostnames (proc_hostname p) c).

(** The tail of [scr_ckptdesc_create_from_hash] run by every process of
    the world: partner lookup, validity check, and the concluding
    all-reduce on [enabled]. *)
Definition topology_world (world : list process)
  : option (list scr_ckptdesc) :=
  cs ← mapM local_topology world;
  Some (map (disable_unless_alltrue (scr_alltrue (map enabled cs))) cs).

(** The validity rule: both partner hostnames are non-empty and differ
    from the process's own hostname. *)
Definition valid_partner_hostnames (host : string) (c : scr_ckptdesc)
  : Prop :=
  lhs_hostname c <> EmptyString /\ rhs_hostname c <> EmptyString /\
  lhs_hostname c <> host /\ rhs_hostname c <> host.

Definition cross_node (c : scr_ckptdesc) : Prop :=
  copy_type c = SCR_COPY_PARTNER \/ copy_type c = SCR_COPY_XOR.

(** What MPI guarantees about a process that builds a descriptor: its
    communicator is not empty, and sizes and distances are [int]s. *)
Definition process_wf (p : process) : Prop :=
  (1 <= length (proc_comm p))%nat /\
  Z.of_nat (length (proc_comm p)) <= INT_MAX /\
  in_int (hop_distance (proc_desc p)).

(** Two processes on two nodes with a PARTNER descriptor of hop distance
    1 over the communicator of both, and the same two processes on one
    node. *)
Definition sample_partner_desc (rank : Z) : scr_ckptdesc :=
  {| enabled := 1; index := 0; interval := 1; base := Some "/ram";
     directory := Some "/ram/user/scr.1/index.0";
     copy_type := SCR_COPY_PARTNER;
     hop_distance := 1; set_size := 8; groups := 1; group_id := 0;
     ranks := 2; my_rank := rank;
     lhs_rank := -1; lhs_rank_world := -1; lhs_hostname := "";
     rhs_rank := -1; rhs_rank_world := -1; rhs_hostname := "" |}.

Definition sample_comm (host0 host1 : string) : list Partners.member :=
  [ {| Partners.m_hostname := host0; Partners.m_rank_world := 0 |};
    {| Partners.m_hostname := host1; Partners.m_rank_world := 1 |} ].

Definition sample_world (host0 host1 : string) : list process :=
  [ {| proc_hostname := host0; proc_desc := sample_partner_desc 0;
       proc_comm := sample_comm host0 host1 |};
    {| proc_hostname := host1; proc_desc := sample_partner_desc 1;
       proc_comm := sample_comm host0 host1 |} ].

(** A descriptor with the given [enabled] flag, interval and base, used
    in the examples. *)
Definition mk_desc (en iv : Z) (b : option string) : scr_ckptdesc :=
  {| enabled := en; index := 0; interval := iv; base := b;
     directory := b; copy_type := SCR_COPY_LOCAL;
     hop_distance := 1; set_size := 8; groups := 1; group_id := 0;
     ranks := 1; my_rank := 0;
     lhs_rank := -1; lhs_rank_world := -1; lhs_hostname := "";
     rhs_rank := -1; rhs_rank_world := -1; rhs_hostname := "" |}.

End Descriptors.

(** ** Sidecar metadata and cached files *)

Module Meta.

Definition SCR_META_FILE_FULL : string := "FULL".
Definition SCR_META_FILE_XOR : string := "XOR".

(** Modelled from the spec: the [scr_meta] object of [scr_meta.h], which
    is not part of [scr.c].  The per-file sidecar stores
    [{ filename, filetype, filesize, checkpoint_id, rank, ranks_total,
    complete, crc32? }]; every getter of [scr.c] returns a status, so each
    field may be absent. *)
Record scr_meta := {
  meta_filename : option string;
  meta_filetype : option string;
  meta_filesize : option Z;
  meta_checkpoint_id : option Z;
  meta_rank : option Z;
  meta_ranks : option Z;
  meta_complete : option Z;
  meta_crc32 : option Z }.

(** Modelled from the spec: [scr_meta_new] yields a record with no field
    set. *)
Definition scr_meta_new : scr_meta :=
  {| meta_filename := None; meta_filetype := None; meta_filesize := None;
     meta_checkpoint_id := None; meta_rank := None; meta_ranks := None;
     meta_complete := None; meta_crc32 := None |}.

(** Modelled from the spec: [scr_meta_set] fills the seven fields it is
    given. *)
Definition scr_meta_set (file filetype : string)
    (filesize checkpoint_id rank ranks complete : Z) : scr_meta :=
  {| meta_filename := Some file; meta_filetype := Some filetype;
     meta_filesize := Some filesize;
     meta_checkpoint_id := Some checkpoint_id;
     meta_rank := Some rank; meta_ranks := Some ranks;
     meta_complete := Some complete; meta_crc32 := None |}.

(** Modelled from the spec: [scr_meta_is_complete] succeeds when the
    [complete] flag is present and true. *)
Definition scr_meta_is_complete (m : scr_meta) : Z :=
  match meta_complete m with
  | Some v => if truthy v then SCR_SUCCESS else SCR_FAILURE
  | None => SCR_FAILURE
  end.

(** A file of the node-local cache as [access] and [scr_filesize] see
    it. *)
Record file_info := { f_readable : bool; f_size : Z }.

(** The cached files of a node and their sidecars, the sidecar of a file
    being keyed by the name of the file it describes. *)
Record files := {
  data : gmap string file_info;
  sidecars : gmap string scr_meta }.

(** [access(file, R_OK)]: 0 when the file exists and is readable, -1
    otherwise. *)
Definition access_R_OK (fs : files) (file : string) : Z :=
  match data fs !! file with
  | Some f => if f_readable f then 0 else -1
  | None => -1
  end.

(** Modelled from the spec: [scr_filesize] of [scr_io.h] is the measured
    size of the file, 0 when it cannot be measured. *)
Definition scr_filesize (fs : files) (file : string) : Z :=
  match data fs !! file with
  | Some f => f_size f
  | None => 0
  end.

(** Modelled from the spec: [scr_meta_read] loads the sidecar of [file]
    into a fresh record and fails when there is none. *)
Definition scr_meta_read (fs : files) (file : string) : Z * scr_meta :=
  match sidecars fs !! file with
  | Some m => (SCR_SUCCESS, m)
  | None => (SCR_FAILURE, scr_meta_new)
  end.

(** [scr_bool_have_file(map, ckpt, rank, file, ranks)]: "checks whether
    specified file exists, is readable, and is complete".  A [NULL] file
    name is [None]; the [map] argument is not used by the C function. *)
Definition scr_bool_have_file (fs : files) (ckpt rank : Z)
    (file : option string) (ranks : Z) : Z :=
  match file with
  | None => 0
  | Some file =>
      if bool_decide (file = EmptyString) then 0
      else if access_R_OK fs file <? 0 then 0
      else
        let '(rc, meta) := scr_meta_read fs file in
        if negb (rc =? SCR_SUCCESS) then 0
        else if negb (scr_meta_is_complete meta =? SCR_SUCCESS) then 0
        else
          match meta_checkpoint_id meta with
          | None => 0
          | Some meta_ckpt =>
              if negb (ckpt =? meta_ckpt) then 0
              else
                match meta_rank meta with
                | None => 0
                | Some meta_rank =>
                    if negb (rank =? meta_rank) then 0
                    else
                      match meta_ranks meta with
                      | None => 0
                      | Some meta_ranks =>
                          if negb (ranks =? meta_ranks) then 0
                          else
                            let size := scr_filesize fs file in
                            match meta_filesize meta with
                            | None => 0
                            | Some meta_size =>
                                if negb (size =? meta_size) then 0 else 1
                            end
                      end
                end
          end
  end.

(** The usable-file rule in the words of the specification: the sidecar
    is present, its [complete] flag is true, all six scalar fields match the
    runtime expectations, and the measured size matches [filesize].  The
    expected file name is taken generously: the recorded name may be the
    file's path or any suffix of it (its base name); the expected file
    type is one of the two the sidecar format allows. *)
Definition usable_per_spec (fs : files) (ckpt rank : Z) (file : string)
    (ranks : Z) : Prop :=
  exists m, sidecars fs !! file = Some m /\
    (exists v, meta_complete m = Some v /\ v <> 0) /\
    (exists name dir, meta_filename m = Some name /\ file = dir +:+ name) /\
    (meta_filetype m = Some SCR_META_FILE_FULL \/
     meta_filetype m = Some SCR_META_FILE_XOR) /\
    meta_filesize m = Some (scr_filesize fs file) /\
    meta_checkpoint_id m = Some ckpt /\
    meta_rank m = Some rank /\
    meta_ranks m = Some ranks.

(** What [scr_bool_have_file] checks. *)
Definition usable_per_code (fs : files) (ckpt rank : Z) (file : string)
    (ranks : Z) : Prop :=
  file <> EmptyString /\
  (exists f, data fs !! file = Some f /\ f_readable f = true) /\
  exists m, sidecars fs !! file = Some m /\
    (exists v, meta_complete m = Some v /\ v <> 0) /\
    meta_checkpoint_id m = Some ckpt /\
    meta_rank m = Some rank /\
    meta_ranks m = Some ranks /\
    meta_filesize m = Some (scr_filesize fs file).

(** A cache holding one readable 4-byte file whose sidecar is complete and
    carries the right checkpoint id, rank, rank count and size, but names
    another file and an unknown file type. *)
Definition sample_foreign_sidecar : files :=
  {| data := {[ "/cache/ckpt.7/rank_3.dat" :=
                  {| f_readable := true; f_size := 4 |} ]};
     sidecars := {[ "/cache/ckpt.7/rank_3.dat" :=
                  {| meta_filename := Some "elsewhere.bin";
                     meta_filetype := Some "BOGUS";
                     meta_filesize := Some 4;
                     meta_checkpoint_id := Some 7;
                     meta_rank := Some 3;
                     meta_ranks := Some 8;
                     meta_complete := Some 1;
                     meta_crc32 := None |} ]} |}.

End Meta.

(** ** The XOR encoder: chunk size of [scr_copy_xor] *)

Module XorEncoder.

(** [my_bytes += filesizes[file_count]] over the files of the process, in
    [unsigned long]. *)
Definition sum_filesizes (filesizes : list Z) : Z :=
  fold_left (fun my_bytes s => wrap_ulong (my_bytes + s)) filesizes 0.

(** [MPI_Allreduce(..., MPI_UNSIGNED_LONG, MPI_MAX, c->comm)] over the
    values contributed by the members of the group. *)
Definition allreduce_max_ulong (vals : list Z) : Z := foldr Z.max 0 vals.

(** "compute chunk size according to maximum file length and number of
    ranks in xor set", with [c->ranks - 1] computed in [int] and converted
    to [unsigned long] where the C expression does so. *)
Definition xor_chunk_size (ranks max_bytes : Z) : Z :=
  let chunk_size := max_bytes / wrap_ulong (int_sub ranks 1) in
  let chunk_size :=
    if wrap_ulong (wrap_ulong (int_sub ranks 1) * chunk_size) <? max_bytes
    then wrap_ulong (chunk_size + 1) else chunk_size in
  let chunk_size :=
    if chunk_size =? 0 then wrap_ulong (chunk_size + 1) else chunk_size in
  chunk_size.

(** The chunk size that every member of a group writes into the header of
    its XOR file; [my_bytes] lists the local byte totals of the members,
    one per rank of the group communicator. *)
Definition scr_copy_xor_chunk_size (my_bytes : list Z) : Z :=
  let max_bytes := allreduce_max_ulong my_bytes in
  xor_chunk_size (Z.of_nat (length my_bytes)) max_bytes.

(** Ceiling of [a / b] for [b > 0]. *)
Definition ceil_div (a b : Z) : Z := (a + b - 1) / b.

End XorEncoder.

(** ** The filemap *)

Module FileMap.
Import Descriptors.

(** The hash that [scr_ckptdesc_store_to_hash] builds, one optional value
    per key. *)
Record desc_hash := {
  h_ENABLED : option Z;
  h_INDEX : option Z;
  h_INTERVAL : option Z;
  h_BASE : option string;
  h_DIRECTORY : option string;
  h_TYPE : option string;
  h_GROUPS : option Z;
  h_GROUP_ID : option Z;
  h_GROUP_SIZE : option Z;
  h_GROUP_RANK : option Z;
  h_HOP_DISTANCE : option Z;
  h_SET_SIZE : option Z }.

(** [scr_ckptdesc_store_to_hash] *)
Definition scr_ckptdesc_store_to_hash (c : scr_ckptdesc) : desc_hash :=
  {| h_ENABLED := Some (enabled c);
     h_INDEX := Some (index c);
     h_INTERVAL := Some (interval c);
     h_BASE := base c;
     h_DIRECTORY := directory c;
     h_TYPE := match copy_type c with
               | SCR_COPY_LOCAL => Some "LOCAL"
               | SCR_COPY_PARTNER => Some "PARTNER"
               | SCR_COPY_XOR => Some "XOR"
               | SCR_COPY_NULL => None
               end;
     h_GROUPS := Some (groups c);
     h_GROUP_ID := Some (group_id c);
     h_GROUP_SIZE := Some (ranks c);
     h_GROUP_RANK := Some (my_rank c);
     h_HOP_DISTANCE := Some (hop_distance c);
     h_SET_SIZE := Some (set_size c) |}.

(** Modelled from the spec: the filemap of [scr_filemap.h], which is not
    part of [scr.c].  "A per-node persistent structure mapping
    [checkpoint_id -> rank -> { files: set<path>, expected_count: int,
    descriptor_hash, tags }]". *)
Record rank_entry := {
  files : gset string;
  expected_count : option Z;
  descriptor_hash : option desc_hash;
  tags : gmap string string }.

Definition empty_entry : rank_entry :=
  {| files := ∅; expected_count := None; descriptor_hash := None;
     tags := ∅ |}.

Abbreviation scr_filemap := (gmap Z (gmap Z rank_entry)).

Definition entry (map : scr_filemap) (ckpt rank : Z) : rank_entry :=
  default empty_entry (map !! ckpt ≫= fun ranks => ranks !! rank).

Definition set_entry (map : scr_filemap) (ckpt rank : Z) (e : rank_entry)
  : scr_filemap :=
  <[ckpt := <[rank := e]> (default ∅ (map !! ckpt))]> map.

(** Modelled from the spec: [scr_filemap_add_file]; "a file appears at
    most once per (ckpt, rank)". *)
Definition scr_filemap_add_file (map : scr_filemap) (ckpt rank : Z)
    (file : string) : scr_filemap :=
  let e := entry map ckpt rank in
  set_entry map ckpt rank
    {| files := {[file]} ∪ files e; expected_count := expected_count e;
       descriptor_hash := descriptor_hash e; tags := tags e |}.

(** Modelled from the spec: [scr_filemap_set_desc] stores the descriptor
    hash of (ckpt, rank). *)
Definition scr_filemap_set_desc (map : scr_filemap) (ckpt rank : Z)
    (h : desc_hash) : scr_filemap :=
  let e := entry map ckpt rank in
  set_entry map ckpt rank
    {| files := files e; expected_count := expected_count e;
       descriptor_hash := Some h; tags := tags e |}.

(** Modelled from the spec: [scr_filemap_get_desc] fails when no
    descriptor hash is stored for (ckpt, rank). *)
Definition scr_filemap_get_desc (map : scr_filemap) (ckpt rank : Z)
  : option desc_hash :=
  ranks ← map !! ckpt; e ← ranks !! rank; descriptor_hash e.

(** Modelled from the spec: [scr_filemap_remove_checkpoint]. *)
Definition scr_filemap_remove_checkpoint (map : scr_filemap) (ckpt : Z)
  : scr_filemap :=
  delete ckpt map.

(** Modelled from the spec: [scr_filemap_list_checkpoints] returns "an
    ordered list of the checkpoints currently in cache", in ascending
    checkpoint id. *)
Definition scr_filemap_list_checkpoints (map : scr_filemap) : list Z :=
  merge_sort Z.le (elements (dom map)).

(** Modelled from the spec: the files listed for (ckpt, rank), in the
    order in which [scr_filemap_first_file] and [scr_hash_elem_next] visit
    them. *)
Definition scr_filemap_list_files (map : scr_filemap) (ckpt rank : Z)
  : list string :=
  elements (files (entry map ckpt rank)).

(** Modelled from the spec: the ranks that have an entry for a
    checkpoint, as an ordered list, in ascending rank. *)
Definition scr_filemap_list_ranks_by_checkpoint (map : scr_filemap)
    (ckpt : Z) : list Z :=
  merge_sort Z.le (elements (dom (default ∅ (map !! ckpt)))).

(** Modelled from the spec: [scr_filemap_have_rank_by_checkpoint]. *)
Definition scr_filemap_have_rank_by_checkpoint (map : scr_filemap)
    (ckpt rank : Z) : Z :=
  of_bool (bool_decide (is_Some (map !! ckpt ≫= fun ranks => ranks !! rank))).

(** Modelled from the spec: [scr_filemap_num_expected_files] is the
    recorded [expected_count], -1 when none is recorded. *)
Definition scr_filemap_num_expected_files (map : scr_filemap)
    (ckpt rank : Z) : Z :=
  default (-1) (expected_count (entry map ckpt rank)).

(** Modelled from the spec: [scr_filemap_num_files]. *)
Definition scr_filemap_num_files (map : scr_filemap) (ckpt rank : Z) : Z :=
  Z.of_nat (size (files (entry map ckpt rank))).

(** [scr_ckptdesc_val_from_filemap] for the key BASE. *)
Definition scr_ckptdesc_base_from_filemap (map : scr_filemap)
    (ckpt rank : Z) : option string :=
  h ← scr_filemap_get_desc map ckpt rank; h_BASE h.

(** [scr_ckptdesc_val_from_filemap] for the key DIRECTORY. *)
Definition scr_ckptdesc_dir_from_filemap (map : scr_filemap)
    (ckpt rank : Z) : option string :=
  h ← scr_filemap_get_desc map ckpt rank; h_DIRECTORY h.

(** [scr_bool_have_files(map, ckpt, rank)]: "check whether we have all
    files for a given rank of a given checkpoint". *)
Definition scr_bool_have_files (fs : Meta.files) (scr_ranks_world : Z)
    (map : scr_filemap) (ckpt rank : Z) : Z :=
  if negb (truthy (scr_filemap_have_rank_by_checkpoint map ckpt rank))
  then 0
  else
    let expected_files := scr_filemap_num_expected_files map ckpt rank in
    let num_files := scr_filemap_num_files map ckpt rank in
    if negb (num_files =? expected_files) then 0
    else
      let missing_a_file :=
        fold_left
          (fun missing file =>
             if negb (truthy (Meta.scr_bool_have_file fs ckpt rank
                                (Some file) scr_ranks_world))
             then 1 else missing)
          (scr_filemap_list_files map ckpt rank) 0 in
      if truthy missing_a_file then 0 else 1.

(** [scr_bool_have_xor_file(map, checkpoint_id, xor_file)]: searches the
    files of this rank for one whose sidecar has file type XOR; the result
    is the return code and the name copied to [xor_file]. *)
Fixpoint find_xor_file (fs : Meta.files) (file_list : list string)
  : Z * option string :=
  match file_list with
  | [] => (0, None)
  | file :: rest =>
      let '(_, meta) := Meta.scr_meta_read fs file in
      match Meta.meta_filetype meta with
      | Some filetype =>
          if bool_decide (filetype = Meta.SCR_META_FILE_XOR)
          then (1, Some file)
          else find_xor_file fs rest
      | None => find_xor_file fs rest
      end
  end.

Definition scr_bool_have_xor_file (fs : Meta.files) (map : scr_filemap)
    (checkpoint_id scr_my_rank_world : Z) : Z * option string :=
  find_xor_file fs (scr_filemap_list_files map checkpoint_id scr_my_rank_world).

End FileMap.

(** ** Rebuild detection: [scr_attempt_rebuild_xor] *)

Module Rebuild.
Import FileMap.

(** One process of an XOR set: its world rank, its filemap and the files
    of its cache.  Its rank within the set, [c->my_rank], is its position
    in the list of the set's members. *)
Record xor_process := {
  rp_rank_world : Z;
  rp_map : scr_filemap;
  rp_files : Meta.files }.

(** [MPI_Allreduce(..., MPI_INT, MPI_SUM, c->comm)] *)
Definition allreduce_sum_int (vals : list Z) : Z := foldr int_add 0 vals.

(** [MPI_Allreduce(..., MPI_INT, MPI_MAX, c->comm)] over a communicator
    with at least one member. *)
Definition allreduce_max_int (vals : list Z) : Z :=
  match vals with
  | [] => INT_MIN
  | v :: rest => foldr Z.max v rest
  end.

(** What [scr_attempt_rebuild_xor] did on one process: its return code and
    the [root] with which it called [scr_rebuild_xor], if it called it. *)
Record attempt := { att_rc : Z; att_rebuild_root : option Z }.

Section Attempt.
Variable scr_ranks_world : Z.
Variable checkpoint_id : Z.
(** The return code of [scr_rebuild_xor] on the process at position
    [my_rank] of set number [set], for the given root. *)
Variable scr_rebuild_xor : nat -> nat -> Z -> Z.

(** The first lines of [scr_attempt_rebuild_xor]: "check whether we have
    our files", "check whether we have our XOR file", "check whether I
    have my full checkpoint file, assume I don't". *)
Definition need_rebuild (p : xor_process) : Z :=
  let have_my_files :=
    scr_bool_have_files (rp_files p) scr_ranks_world (rp_map p)
      checkpoint_id (rp_rank_world p) in
  let have_my_files :=
    if negb (truthy (fst (scr_bool_have_xor_file (rp_files p) (rp_map p)
                            checkpoint_id (rp_rank_world p))))
    then 0 else have_my_files in
  let need_rebuild := 1 in
  if truthy have_my_files then 0 else need_rebuild.

(** "count how many in my xor set need to rebuild" *)
Definition total_rebuild (set : list xor_process) : Z :=
  allreduce_sum_int (map need_rebuild set).

Definition set_can_rebuild (set : list xor_process) : Z :=
  of_bool (total_rebuild set <=? 1).

(** [tmp_rank = need_rebuild ? c->my_rank : -1] *)
Definition tmp_rank (my_rank : nat) (p : xor_process) : Z :=
  if truthy (need_rebuild p) then Z.of_nat my_rank else -1.

(** "someone in my set needs to rebuild, determine who" *)
Definition rebuild_rank (set : list xor_process) : Z :=
  allreduce_max_int (imap tmp_rank set).

(** The flags that the processes of the world contribute to the first
    [scr_alltrue]. *)
Definition can_rebuild_flags (world : list (list xor_process)) : list Z :=
  concat (map (fun set => map (fun _ => set_can_rebuild set) set) world).

(** [rc] before the second [scr_alltrue]. *)
Definition local_rc (s : nat) (set : list xor_process) (my_rank : nat)
  : Z :=
  if total_rebuild set >? 0
  then scr_rebuild_xor s my_rank (rebuild_rank set)
  else SCR_SUCCESS.

Definition rebuilt_ok_flags (world : list (list xor_process)) : list Z :=
  concat (imap (fun s set =>
                  imap (fun r _ => of_bool (local_rc s set r =? SCR_SUCCESS))
                    set) world).

(** [scr_attempt_rebuild_xor] as run by the process at position
    [my_rank] of set number [s]; the world is the list of the XOR sets
    of the job.  [None] when there is no such process. *)
Definition scr_attempt_rebuild_xor (world : list (list xor_process))
    (s my_rank : nat) : option attempt :=
  set ← world !! s;
  p ← set !! my_rank;
  let total_rebuild := total_rebuild set in
  if negb (truthy (Descriptors.scr_alltrue (can_rebuild_flags world)))
  then Some {| att_rc := SCR_FAILURE; att_rebuild_root := None |}
  else
    let '(rc, root) :=
      if total_rebuild >? 0
      then
        let rebuild_rank := rebuild_rank set in
        (scr_rebuild_xor s my_rank rebuild_rank, Some rebuild_rank)
      else (SCR_SUCCESS, None) in
    if negb (truthy (Descriptors.scr_alltrue (rebuilt_ok_flags world)))
    then Some {| att_rc := SCR_FAILURE; att_rebuild_root := root |}
    else Some {| att_rc := SCR_SUCCESS; att_rebuild_root := root |}.

End Attempt.

(** An XOR set of two for checkpoint 3 in a job of two ranks: the first
    member holds its XOR file with a matching sidecar, the second has lost
    everything. *)
Definition sample_survivor : xor_process :=
  {| rp_rank_world := 0;
     rp_map :=
       {[ 3 := {[ 0 := {| files := {[ "/ram/1_of_2_in_0.xor" ]};
                          expected_count := Some 1;
                          descriptor_hash := None; tags := ∅ |} ]} ]};
     rp_files :=
       {| Meta.data :=
            {[ "/ram/1_of_2_in_0.xor" :=
                 {| Meta.f_readable := true; Meta.f_size := 5 |} ]};
          Meta.sidecars :=
            {[ "/ram/1_of_2_in_0.xor" :=
                 Meta.scr_meta_set "/ram/1_of_2_in_0.xor"
                   Meta.SCR_META_FILE_XOR 5 3 0 2 1 ]} |} |}.

Definition sample_lost : xor_process :=
  {| rp_rank_world := 1; rp_map := ∅;
     rp_files := {| Meta.data := ∅; Meta.sidecars := ∅ |} |}.

Definition sample_set : list xor_process := [sample_survivor; sample_lost].

End Rebuild.

(** ** Library state *)

Module Library.
Import Descriptors FileMap.

(** An entry of the flush file: the locations recorded for a checkpoint
    id are independent marks. *)
Record flush_entry := {
  loc_CACHE : bool; loc_PFS : bool; loc_FLUSHING : bool }.

(** An entry of [scr_cachedesc_hash]: the values of its BASE and SIZE
    keys, the latter already converted by [atoi]. *)
Record cachedesc := { cd_BASE : option string; cd_SIZE : option Z }.

(** The node-local files that the entry points read and write. *)
Record node_files := {
  cache : Meta.files;
  dirs : gset string;
  (** contents of [scr_map_file], [None] before it is first written *)
  map_file : option scr_filemap;
  (** contents of [scr_flush_file] *)
  flush_file : gmap Z flush_entry }.

(** What one call of [scr_flush_async_test] finds of the transfer that
    runs beside the job: on the master of the node, whether the transfer
    file can be read and lists every file as written; and whether every
    other process contributes "complete" to the all-reduce. *)
Record transfer_poll := {
  own_transfer_complete : bool;
  peers_transfer_complete : bool }.

(** What the process cannot decide by itself. *)
Record environment := {
  (** for a checkpoint id, whether every other process contributes "not
      flushing" to the all-reduce of [scr_bool_is_flushing] *)
  peers_not_flushing : Z -> bool;
  (** whether [scr_mkdir] succeeds on a path *)
  mkdir_succeeds : string -> bool;
  (** whether the asynchronous flush in flight ends with success *)
  async_flush_succeeds : bool;
  (** for a checkpoint id, whether every other process contributes "have
      my files" to the all-reduce of [scr_flush_async_test] and
      [scr_flush_async_complete] *)
  peers_have_files : Z -> bool;
  (** what the coming calls of [scr_flush_async_test] find of the
      transfer, one after the other, while the transfer still changes *)
  transfer_polls : list transfer_poll;
  (** what every call finds once the transfer no longer changes *)
  transfer_end : transfer_poll }.

(** Globals that the entry points only read. *)
Record config := {
  scr_enabled : Z;
  scr_initialized : Z;
  scr_my_rank_world : Z;
  scr_my_rank_local : Z;
  scr_ranks_world : Z;
  scr_log_enable : Z;
  (** [scr_flush]: "how many checkpoints between flushes" *)
  scr_flush : Z;
  scr_ckptdescs : list scr_ckptdesc;
  scr_cachedescs : list cachedesc }.

(** The cache manager's observable actions. *)
Inductive event :=
| EvCheckpointDelete (checkpoint_id : Z)
| EvFlushAsyncWait.

Record scr_state := {
  cfg : config;
  scr_in_checkpoint : Z;
  scr_checkpoint_id : Z;
  scr_map : scr_filemap;
  scr_flush_async_in_progress : Z;
  scr_flush_async_checkpoint_id : Z;
  node : node_files;
  env : environment;
  (** [scr_abort] has called [MPI_Abort] *)
  aborted : bool;
  (** calls of [scr_checkpoint_delete] and [scr_flush_async_wait], oldest
      first *)
  trace : list event }.

Definition with_in_checkpoint (st : scr_state) (v : Z) : scr_state :=
  {| cfg := cfg st; scr_in_checkpoint := v;
     scr_checkpoint_id := scr_checkpoint_id st; scr_map := scr_map st;
     scr_flush_async_in_progress := scr_flush_async_in_progress st;
     scr_flush_async_checkpoint_id := scr_flush_async_checkpoint_id st;
     node := node st; env := env st; aborted := aborted st;
     trace := trace st |}.

Definition with_checkpoint_id (st : scr_state) (v : Z) : scr_state :=
  {| cfg := cfg st; scr_in_checkpoint := scr_in_checkpoint st;
     scr_checkpoint_id := v; scr_map := scr_map st;
     scr_flush_async_in_progress := scr_flush_async_in_progress st;
     scr_flush_async_checkpoint_id := scr_flush_async_checkpoint_id st;
     node := node st; env := env st; aborted := aborted st;
     trace := trace st |}.

Definition with_map (st : scr_state) (m : scr_filemap) : scr_state :=
  {| cfg := cfg st; scr_in_checkpoint := scr_in_checkpoint st;
     scr_checkpoint_id := scr_checkpoint_id st; scr_map := m;
     scr_flush_async_in_progress := scr_flush_async_in_progress st;
     scr_flush_async_checkpoint_id := scr_flush_async_checkpoint_id st;
     node := node st; env := env st; aborted := aborted st;
     trace := trace st |}.

Definition with_async_in_progress (st : scr_state) (v : Z) : scr_state :=
  {| cfg := cfg st; scr_in_checkpoint := scr_in_checkpoint st;
     scr_checkpoint_id := scr_checkpoint_id st; scr_map := scr_map st;
     scr_flush_async_in_progress := v;
     scr_flush_async_checkpoint_id := scr_flush_async_checkpoint_id st;
     node := node st; env := env st; aborted := aborted st;
     trace := trace st |}.

Definition with_node (st : scr_state) (n : node_files) : scr_state :=
  {| cfg := cfg st; scr_in_checkpoint := scr_in_checkpoint st;
     scr_checkpoint_id := scr_checkpoint_id st; scr_map := scr_map st;
     scr_flush_async_in_progress := scr_flush_async_in_progress st;
     scr_flush_async_checkpoint_id := scr_flush_async_checkpoint_id st;
     node := n; env := env st; aborted := aborted st;
     trace := trace st |}.

Definition with_env (st : scr_state) (e : environment) : scr_state :=
  {| cfg := cfg st; scr_in_checkpoint := scr_in_checkpoint st;
     scr_checkpoint_id := scr_checkpoint_id st; scr_map := scr_map st;
     scr_flush_async_in_progress := scr_flush_async_in_progress st;
     scr_flush_async_checkpoint_id := scr_flush_async_checkpoint_id st;
     node := node st; env := e; aborted := aborted st;
     trace := trace st |}.

Definition with_trace (st : scr_state) (t : list event) : scr_state :=
  {| cfg := cfg st; scr_in_checkpoint := scr_in_checkpoint st;
     scr_checkpoint_id := scr_checkpoint_id st; scr_map := scr_map st;
     scr_flush_async_in_progress := scr_flush_async_in_progress st;
     scr_flush_async_checkpoint_id := scr_flush_async_checkpoint_id st;
     node := node st; env := env st; aborted := aborted st;
     trace := t |}.

(** [scr_abort]: prints and calls [MPI_Abort]; the C text after the call
    is what the model runs next. *)
Definition scr_abort (st : scr_state) : scr_state :=
  {| cfg := cfg st; scr_in_checkpoint := scr_in_checkpoint st;
     scr_checkpoint_id := scr_checkpoint_id st; scr_map := scr_map st;
     scr_flush_async_in_progress := scr_flush_async_in_progress st;
     scr_flush_async_checkpoint_id := scr_flush_async_checkpoint_id st;
     node := node st; env := env st; aborted := true;
     trace := trace st |}.

Definition with_cache (n : node_files) (c : Meta.files) : node_files :=
  {| cache := c; dirs := dirs n; map_file := map_file n;
     flush_file := flush_file n |}.

Definition with_dirs (n : node_files) (d : gset string) : node_files :=
  {| cache := cache n; dirs := d; map_file := map_file n;
     flush_file := flush_file n |}.

Definition with_map_file (n : node_files) (m : option scr_filemap)
  : node_files :=
  {| cache := cache n; dirs := dirs n; map_file := m;
     flush_file := flush_file n |}.

Definition with_flush_file (n : node_files) (f : gmap Z flush_entry)
  : node_files :=
  {| cache := cache n; dirs := dirs n; map_file := map_file n;
     flush_file := f |}.

(** The result of running a function of the library: it returns a value,
    or the process dereferences a [NULL] pointer, or the call does not
    return because it waits in a loop that never ends.  The state is the
    one reached at the return, at the dereference, or the one in which
    the loop goes round. *)
Inductive result (A : Type) :=
| Ok (a : A) (st : scr_state)
| Crash (st : scr_state)
| Hang (st : scr_state).
Arguments Ok {A} a st.
Arguments Crash {A} st.
Arguments Hang {A} st.

Definition result_state {A} (r : result A) : scr_state :=
  match r with Ok _ st => st | Crash st => st | Hang st => st end.

(** [scr_filemap_write(scr_map_file, map)] *)
Definition scr_filemap_write (st : scr_state) : scr_state :=
  with_node st (with_map_file (node st) (Some (scr_map st))).

(** [sprintf(dir, "%s/checkpoint.%d", prefix, checkpoint_id)] *)
Definition checkpoint_dir_name (prefix : string) (checkpoint_id : Z)
  : string :=
  prefix +:+ "/checkpoint." +:+ pretty checkpoint_id.

(** [scr_bool_is_flushing]: the master of the node looks up the FLUSHING
    mark in the flush file, then all processes agree through
    [scr_alltrue(is_flushing == 0)]. *)
Definition scr_bool_is_flushing (st : scr_state) (checkpoint_id : Z) : Z :=
  let is_flushing :=
    if scr_my_rank_local (cfg st) =? 0 then
      match flush_file (node st) !! checkpoint_id with
      | Some e => of_bool (loc_FLUSHING e)
      | None => 0
      end
    else 0 in
  if negb (truthy (scr_alltrue
                     [of_bool (is_flushing =? 0);
                      of_bool (peers_not_flushing (env st) checkpoint_id)]))
  then 1 else is_flushing.

(** [strcmp(a, b) == 0] where [b] may be [NULL]: [None] when it is. *)
Definition strcmp_eq (a : string) (b : option string) : option bool :=
  match b with
  | Some b => Some (bool_decide (a = b))
  | None => None
  end.

(** [scr_cachedesc_size(base)]: the SIZE of the first cache descriptor
    whose BASE equals [base], 0 when there is none or it has no SIZE.
    [None] when [strcmp] is reached with a [NULL] base. *)
Fixpoint scr_cachedesc_size (descs : list cachedesc) (base : option string)
  : option Z :=
  match descs with
  | [] => Some 0
  | d :: rest =>
      match cd_BASE d with
      | Some b =>
          eq ← strcmp_eq b base;
          if eq : bool then Some (default 0 (cd_SIZE d))
          else scr_cachedesc_size rest base
      | None => scr_cachedesc_size rest base
      end
  end.

(** The files of every rank recorded for a checkpoint, in the order in
    which [scr_checkpoint_delete] visits them. *)
Definition checkpoint_files (map : scr_filemap) (checkpoint_id : Z)
  : list string :=
  concat (List.map (fun rank => scr_filemap_list_files map checkpoint_id rank)
            (scr_filemap_list_ranks_by_checkpoint map checkpoint_id)).

(** [unlink(file)] followed by [scr_incomplete(file)], which removes the
    sidecar. *)
Definition unlink_with_meta (fs : Meta.files) (file : string) : Meta.files :=
  {| Meta.data := delete file (Meta.data fs);
     Meta.sidecars := delete file (Meta.sidecars fs) |}.

(** [scr_checkpoint_delete(map, checkpoint_id)]: "remove all checkpoint
    files and data associated with specified checkpoint".  The optional
    CRC check before each [unlink] only reports and is left out; [rmdir]
    is taken to find the directory empty. *)
Definition scr_checkpoint_delete (st : scr_state) (checkpoint_id : Z)
  : scr_state :=
  let n := node st in
  let n := with_cache n
             (fold_left unlink_with_meta
                (checkpoint_files (scr_map st) checkpoint_id) (cache n)) in
  let n :=
    match scr_ckptdesc_dir_from_filemap (scr_map st) checkpoint_id
            (scr_my_rank_world (cfg st)) with
    | Some ckpt_dir =>
        if scr_my_rank_local (cfg st) =? 0
        then with_dirs n
               (dirs n ∖ {[checkpoint_dir_name ckpt_dir checkpoint_id]})
        else n
    | None => n
    end in
  let n :=
    if scr_my_rank_local (cfg st) =? 0
    then with_flush_file n (delete checkpoint_id (flush_file n))
    else n in
  let st := with_node st n in
  let st :=
    with_map st
      (scr_filemap_remove_checkpoint (scr_map st) checkpoint_id) in
  let st := scr_filemap_write st in
  with_trace st (trace st ++ [EvCheckpointDelete checkpoint_id]).

(** The three locations that [scr.c] records in the flush file. *)
Inductive location :=
| SCR_FLUSH_KEY_LOCATION_CACHE
| SCR_FLUSH_KEY_LOCATION_PFS
| SCR_FLUSH_KEY_LOCATION_FLUSHING.

Global Instance location_eq_dec : EqDecision location.
Proof. solve_decision. Defined.

Definition at_location (e : flush_entry) (l : location) : bool :=
  match l with
  | SCR_FLUSH_KEY_LOCATION_CACHE => loc_CACHE e
  | SCR_FLUSH_KEY_LOCATION_PFS => loc_PFS e
  | SCR_FLUSH_KEY_LOCATION_FLUSHING => loc_FLUSHING e
  end.

Definition set_location (e : flush_entry) (l : location) (v : bool)
  : flush_entry :=
  match l with
  | SCR_FLUSH_KEY_LOCATION_CACHE =>
      {| loc_CACHE := v; loc_PFS := loc_PFS e;
         loc_FLUSHING := loc_FLUSHING e |}
  | SCR_FLUSH_KEY_LOCATION_PFS =>
      {| loc_CACHE := loc_CACHE e; loc_PFS := v;
         loc_FLUSHING := loc_FLUSHING e |}
  | SCR_FLUSH_KEY_LOCATION_FLUSHING =>
      {| loc_CACHE := loc_CACHE e; loc_PFS := loc_PFS e;
         loc_FLUSHING := v |}
  end.

(** A checkpoint id without locations. *)
Definition no_location : flush_entry :=
  {| loc_CACHE := false; loc_PFS := false; loc_FLUSHING := false |}.

(** [scr_flush_location_set(checkpoint_id, location)]: "adds a location
    for the specified checkpoint id to the flush file"; only the master of
    the node reads and writes the file. *)
Definition scr_flush_location_set (st : scr_state) (checkpoint_id : Z)
    (l : location) : scr_state :=
  if scr_my_rank_local (cfg st) =? 0 then
    let hash := flush_file (node st) in
    let ckpt_hash := default no_location (hash !! checkpoint_id) in
    with_node st
      (with_flush_file (node st)
         (<[checkpoint_id := set_location ckpt_hash l true]> hash))
  else st.

(** [scr_flush_location_unset(checkpoint_id, location)]: a checkpoint id
    that is not in the file stays out of it. *)
Definition scr_flush_location_unset (st : scr_state) (checkpoint_id : Z)
    (l : location) : scr_state :=
  if scr_my_rank_local (cfg st) =? 0 then
    let hash := flush_file (node st) in
    match hash !! checkpoint_id with
    | Some ckpt_hash =>
        with_node st
          (with_flush_file (node st)
             (<[checkpoint_id := set_location ckpt_hash l false]> hash))
    | None => st
    end
  else st.

(** One step of the loop of [scr_check_files]. *)
Definition check_file (fs : Meta.files) (failed_read : Z) (file : string)
  : Z :=
  let failed_read :=
    if Meta.access_R_OK fs file <? 0 then 1 else failed_read in
  let '(rc, meta) := Meta.scr_meta_read fs file in
  if negb (rc =? SCR_SUCCESS) then 1
  else if negb (Meta.scr_meta_is_complete meta =? SCR_SUCCESS) then 1
  else failed_read.

(** [scr_check_files(map, checkpoint_id)]: "returns true iff each file in
    the filemap can be read". *)
Definition scr_check_files (fs : Meta.files) (map : scr_filemap)
    (checkpoint_id : Z) : Z :=
  let failed_read :=
    fold_left (check_file fs) (checkpoint_files map checkpoint_id) 0 in
  if truthy failed_read then SCR_FAILURE else SCR_SUCCESS.

(** ** The asynchronous flush: test, complete and wait *)

(** [scr_alltrue(have_files)] of [scr_flush_async_test] and
    [scr_flush_async_complete]: "test that all of our files for this
    checkpoint are still here", on every process. *)
Definition all_have_files (st : scr_state) (checkpoint_id : Z) : Z :=
  let have_files :=
    if negb (scr_check_files (cache (node st)) (scr_map st) checkpoint_id
             =? SCR_SUCCESS)
    then 0 else 1 in
  scr_alltrue [have_files; of_bool (peers_have_files (env st) checkpoint_id)].

(** [scr_flush_async_test(map, checkpoint_id, bytes)]: "check whether
    the flush from cache to parallel file system has completed", [poll]
    being what this call finds of the transfer.  The byte count is not
    part of the modelled state. *)
Definition scr_flush_async_test (st : scr_state) (checkpoint_id : Z)
    (poll : transfer_poll) : Z :=
  if scr_flush (cfg st) <=? 0 then SCR_FAILURE
  else if negb (truthy (all_have_files st checkpoint_id)) then SCR_FAILURE
  else
    let transfer_complete :=
      if scr_my_rank_local (cfg st) =? 0
      then of_bool (own_transfer_complete poll) else 1 in
    if truthy (scr_alltrue [transfer_complete;
                            of_bool (peers_transfer_complete poll)])
    then SCR_SUCCESS else SCR_FAILURE.

(** The other processes leave [scr_flush_async_complete] together with
    this one, their masters having removed the FLUSHING mark of the
    checkpoint as well. *)
Definition peers_flush_done (e : environment) (checkpoint_id : Z)
  : environment :=
  {| peers_not_flushing :=
       fun id => if id =? checkpoint_id then true else peers_not_flushing e id;
     mkdir_succeeds := mkdir_succeeds e;
     async_flush_succeeds := async_flush_succeeds e;
     peers_have_files := peers_have_files e;
     transfer_polls := transfer_polls e;
     transfer_end := transfer_end e |}.

(** [scr_flush_async_complete(map, checkpoint_id)]: the return code and
    the state.  Past its two early returns it gathers the summary, whose
    outcome [flushed] every process gets from rank 0, marks the checkpoint
    as flushed when that is success, and always ends the flush: "mark that
    we've stopped the flush".  The summary file, the transfer file and the
    log are not part of the modelled state. *)
Definition scr_flush_async_complete (st : scr_state) (checkpoint_id : Z)
  : Z * scr_state :=
  if scr_flush (cfg st) <=? 0 then (SCR_FAILURE, st)
  else if negb (truthy (all_have_files st checkpoint_id))
  then (SCR_FAILURE, st)
  else
    let flushed :=
      if async_flush_succeeds (env st) then SCR_SUCCESS else SCR_FAILURE in
    let st :=
      if flushed =? SCR_SUCCESS
      then scr_flush_location_set st checkpoint_id
             SCR_FLUSH_KEY_LOCATION_PFS
      else st in
    let st := with_async_in_progress st 0 in
    let st :=
      scr_flush_location_unset st checkpoint_id
        SCR_FLUSH_KEY_LOCATION_FLUSHING in
    let st := with_env st (peers_flush_done (env st) checkpoint_id) in
    (flushed, st).

Definition with_transfer_polls (e : environment)
    (polls : list transfer_poll) : environment :=
  {| peers_not_flushing := peers_not_flushing e;
     mkdir_succeeds := mkdir_succeeds e;
     async_flush_succeeds := async_flush_succeeds e;
     peers_have_files := peers_have_files e;
     transfer_polls := polls;
     transfer_end := transfer_end e |}.

(** The loop of [scr_flush_async_wait],
    [while (scr_bool_is_flushing(scr_flush_async_checkpoint_id))]: "test
    whether the flush has completed, and if so complete the flush",
    "otherwise, sleep to get out of the way".  Every round takes the next
    poll of the transfer.  When the transfer no longer changes, a round
    that leaves the checkpoint marked is followed by rounds that do the
    same: the loop does not end. *)
Fixpoint flush_async_wait_loop (polls : list transfer_poll)
    (st : scr_state) : result Z :=
  let id := scr_flush_async_checkpoint_id st in
  if truthy (scr_bool_is_flushing st id) then
    match polls with
    | poll :: polls =>
        let st := with_env st (with_transfer_polls (env st) polls) in
        if scr_flush_async_test st id poll =? SCR_SUCCESS
        then flush_async_wait_loop polls
               (snd (scr_flush_async_complete st id))
        else flush_async_wait_loop polls st
    | [] =>
        if scr_flush_async_test st id (transfer_end (env st)) =? SCR_SUCCESS
        then
          let st := snd (scr_flush_async_complete st id) in
          if truthy (scr_bool_is_flushing st id) then Hang st
          else Ok SCR_SUCCESS st
        else Hang st
    end
  else Ok SCR_SUCCESS st.

(** [scr_flush_async_wait(map)]: "wait until the checkpoint currently
    being flushed completes". *)
Definition scr_flush_async_wait (st : scr_state) : result Z :=
  let st := with_trace st (trace st ++ [EvFlushAsyncWait]) in
  if truthy (scr_flush_async_in_progress st)
  then flush_async_wait_loop (transfer_polls (env st)) st
  else Ok SCR_SUCCESS st.

(** ** [SCR_Start_checkpoint] *)

(** "run through each of our checkpoints and count how many we have in
    this base"; [None] when [strcmp] is reached with a [NULL] base. *)
Fixpoint count_in_base (map : scr_filemap) (rank : Z)
    (cbase : option string) (ckpts : list Z) (nckpts_base : Z) : option Z :=
  match ckpts with
  | [] => Some nckpts_base
  | id :: rest =>
      match scr_ckptdesc_base_from_filemap map id rank with
      | Some base =>
          eq ← strcmp_eq base cbase;
          count_in_base map rank cbase rest
            (if eq : bool then int_add nckpts_base 1 else nckpts_base)
      | None => count_in_base map rank cbase rest nckpts_base
      end
  end.

(** "run through and delete checkpoints from base until we make room for
    the current one": the loop
    [for (i=0; i < nckpts && nckpts_base >= size; i++)], on the part of
    the list that is still to be visited.  It yields the final values of
    [nckpts_base] and [flushing]. *)
Fixpoint evict_until_room (cbase : option string) (size : Z)
    (ckpts : list Z) (st : scr_state) (nckpts_base flushing : Z)
  : result (Z * Z) :=
  match ckpts with
  | [] => Ok (nckpts_base, flushing) st
  | id :: rest =>
      if nckpts_base >=? size then
        match scr_ckptdesc_base_from_filemap (scr_map st) id
                (scr_my_rank_world (cfg st)) with
        | Some base =>
            match strcmp_eq base cbase with
            | None => Crash st
            | Some true =>
                if negb (truthy (scr_bool_is_flushing st id)) then
                  evict_until_room cbase size rest
                    (scr_checkpoint_delete st id)
                    (int_sub nckpts_base 1) flushing
                else if flushing =? -1 then
                  evict_until_room cbase size rest st nckpts_base id
                else
                  evict_until_room cbase size rest st nckpts_base flushing
            | Some false =>
                evict_until_room cbase size rest st nckpts_base flushing
            end
        | None => evict_until_room cbase size rest st nckpts_base flushing
        end
      else Ok (nckpts_base, flushing) st
  end.

(** [scr_checkpoint_dir(c, checkpoint_id, dir)] for a descriptor that is
    not [NULL]: without a directory it calls [scr_abort] and then hands
    the [NULL] string to [sprintf]. *)
Definition scr_checkpoint_dir (c : scr_ckptdesc) (checkpoint_id : Z)
    (st : scr_state) : result string :=
  match directory c with
  | Some d => Ok (checkpoint_dir_name d checkpoint_id) st
  | None => Crash (scr_abort st)
  end.

(** [scr_checkpoint_dir_create(c, checkpoint_id)] *)
Definition scr_checkpoint_dir_create (c : scr_ckptdesc) (checkpoint_id : Z)
    (st : scr_state) : result Z :=
  if scr_my_rank_local (cfg st) =? 0 then
    match scr_checkpoint_dir c checkpoint_id st with
    | Ok dir st =>
        if mkdir_succeeds (env st) dir
        then Ok SCR_SUCCESS
               (with_node st (with_dirs (node st) ({[dir]} ∪ dirs (node st))))
        else Ok SCR_SUCCESS (scr_abort st)
    | Crash st => Crash st
    | Hang st => Hang st
    end
  else Ok SCR_SUCCESS st.

(** The descriptor that a pointer returned by [scr_ckptdesc_get]
    designates. *)
Definition selected_desc (st : scr_state) (checkpoint_id : Z)
  : option scr_ckptdesc :=
  i ← scr_ckptdesc_get checkpoint_id (scr_ckptdescs (cfg st));
  scr_ckptdescs (cfg st) !! i.

(** [SCR_Start_checkpoint()].  Barriers, timers and log calls have no
    effect on the modelled state; the first use of the selected
    descriptor is [c->base]. *)
Definition SCR_Start_checkpoint (st : scr_state) : result Z :=
  if negb (truthy (scr_enabled (cfg st))) then Ok SCR_FAILURE st
  else if negb (truthy (scr_initialized (cfg st)))
  then Ok SCR_FAILURE (scr_abort st)
  else if truthy (scr_in_checkpoint st)
  then Ok SCR_FAILURE (scr_abort st)
  else
    let st := with_in_checkpoint st 1 in
    let st := with_checkpoint_id st (int_add (scr_checkpoint_id st) 1) in
    match selected_desc st (scr_checkpoint_id st) with
    | None => Crash st
    | Some c =>
        let ckpts := scr_filemap_list_checkpoints (scr_map st) in
        match scr_cachedesc_size (scr_cachedescs (cfg st)) (base c) with
        | None => Crash st
        | Some size =>
            match count_in_base (scr_map st) (scr_my_rank_world (cfg st))
                    (base c) ckpts 0 with
            | None => Crash st
            | Some nckpts_base =>
                match evict_until_room (base c) size ckpts st
                        nckpts_base (-1) with
                | Crash st => Crash st
                | Hang st => Hang st
                | Ok (nckpts_base, flushing) st =>
                    let room :=
                      if (nckpts_base >=? size) && negb (flushing =? -1)
                      then
                        match scr_flush_async_wait st with
                        | Ok _ st =>
                            Ok SCR_SUCCESS (scr_checkpoint_delete st flushing)
                        | Crash st => Crash st
                        | Hang st => Hang st
                        end
                      else Ok SCR_SUCCESS st in
                    match room with
                    | Crash st => Crash st
                    | Hang st => Hang st
                    | Ok _ st =>
                        let st :=
                          with_map st
                            (scr_filemap_set_desc (scr_map st)
                               (scr_checkpoint_id st)
                               (scr_my_rank_world (cfg st))
                               (scr_ckptdesc_store_to_hash c)) in
                        let st := scr_filemap_write st in
                        match scr_checkpoint_dir_create c
                                (scr_checkpoint_id st) st with
                        | Ok _ st => Ok SCR_SUCCESS st
                        | Crash st => Crash st
                        | Hang st => Hang st
                        end
                    end
                end
            end
        end
    end.

(** ** [SCR_Route_file] *)

Section RouteFile.
(** [SCR_MAX_FILENAME] of [scr_conf.h] and the path helpers of
    [scr_util.h] are not part of [scr.c]: [scr_split_path] yields the
    path and name components, [scr_build_path n dir name] the return
    code and the composed name. *)
Variable SCR_MAX_FILENAME : Z.
Variable scr_split_path : string -> string * string.
Variable scr_build_path : Z -> string -> string -> Z * string.

(** [scr_route_file(checkpoint_id, file, newfile, n)]: the return code
    and the contents of [newfile] afterwards.  A [NULL] pointer is
    [None]. *)
Definition scr_route_file (st : scr_state) (checkpoint_id : Z)
    (file newfile : option string) (n : Z)
  : result (Z * option string) :=
  match file, newfile with
  | Some f, Some _ =>
      if bool_decide (f = EmptyString) then Ok (SCR_FAILURE, newfile) st
      else
        let st :=
          if Z.of_nat (String.length f) >=? SCR_MAX_FILENAME
          then scr_abort st else st in
        let '(path, name) := scr_split_path f in
        match selected_desc st checkpoint_id with
        | None => Crash (scr_abort st)
        | Some c =>
            match scr_checkpoint_dir c checkpoint_id st with
            | Crash st => Crash st
            | Hang st => Hang st
            | Ok ckpt_dir st =>
                let '(rc, composed) := scr_build_path n ckpt_dir name in
                let st :=
                  if negb (rc =? SCR_SUCCESS) then scr_abort st else st in
                Ok (SCR_SUCCESS, Some composed) st
            end
        end
  | _, _ => Ok (SCR_FAILURE, newfile) st
  end.

(** [SCR_Route_file(file, newfile)] *)
Definition SCR_Route_file (st : scr_state) (file newfile : option string)
  : result (Z * option string) :=
  if negb (truthy (scr_enabled (cfg st))) then Ok (SCR_FAILURE, newfile) st
  else if negb (truthy (scr_initialized (cfg st)))
  then Ok (SCR_FAILURE, newfile) (scr_abort st)
  else
    let n := SCR_MAX_FILENAME in
    match scr_route_file st (scr_checkpoint_id st) file newfile n with
    | Crash st => Crash st
    | Hang st => Hang st
    | Ok (rc, newfile) st =>
        if negb (rc =? SCR_SUCCESS) then Ok (SCR_FAILURE, newfile) st
        else
          match newfile with
          | None => Crash st
          | Some routed =>
              if truthy (scr_in_checkpoint st) then
                let st :=
                  with_map st
                    (scr_filemap_add_file (scr_map st)
                       (scr_checkpoint_id st)
                       (scr_my_rank_world (cfg st)) routed) in
                let st := scr_filemap_write st in
                Ok (SCR_SUCCESS, newfile) st
              else if Meta.access_R_OK (cache (node st)) routed <? 0
              then Ok (SCR_FAILURE, newfile) st
              else Ok (SCR_SUCCESS, newfile) st
          end
    end.

End RouteFile.

(** ** [SCR_Complete_checkpoint] *)

(** "mark each file as complete or not": one step of the loop over the
    files of this rank, [scr_complete] writing the sidecar. *)
Definition complete_file (valid : Z) (st : scr_state) (file : string)
  : scr_state :=
  let fs := cache (node st) in
  let filesize := Meta.scr_filesize fs file in
  let meta :=
    Meta.scr_meta_set file Meta.SCR_META_FILE_FULL filesize
      (scr_checkpoint_id st) (scr_my_rank_world (cfg st))
      (scr_ranks_world (cfg st)) valid in
  with_node st
    (with_cache (node st)
       {| Meta.data := Meta.data fs;
          Meta.sidecars := <[file := meta]> (Meta.sidecars fs) |}).

Section CompleteCheckpoint.
(** The middle of [SCR_Complete_checkpoint], from "apply redundancy
    scheme" to the closing barrier: [scr_copy_files], the cost
    bookkeeping, the flush or the deletion of the checkpoint, and the
    test of an ongoing asynchronous flush.  It yields the return code
    [rc] of [scr_copy_files]. *)
Variable apply_redundancy_and_flush : scr_state -> result Z.

(** [SCR_Complete_checkpoint(valid)] *)
Definition SCR_Complete_checkpoint (st : scr_state) (valid : Z)
  : result Z :=
  if negb (truthy (scr_enabled (cfg st))) then Ok SCR_FAILURE st
  else if negb (truthy (scr_initialized (cfg st)))
  then Ok SCR_FAILURE (scr_abort st)
  else if negb (truthy (scr_in_checkpoint st))
  then Ok SCR_FAILURE (scr_abort st)
  else
    let st :=
      fold_left (complete_file valid)
        (scr_filemap_list_files (scr_map st) (scr_checkpoint_id st)
           (scr_my_rank_world (cfg st))) st in
    match apply_redundancy_and_flush st with
    | Crash st => Crash st
    | Hang st => Hang st
    | Ok rc st => Ok rc (with_in_checkpoint st 0)
    end.

End CompleteCheckpoint.

(** ** Sample states for the examples *)

Definition sample_env : environment :=
  {| peers_not_flushing := fun _ => true;
     mkdir_succeeds := fun _ => true;
     async_flush_succeeds := true;
     peers_have_files := fun _ => true;
     transfer_polls :=
       [{| own_transfer_complete := false;
           peers_transfer_complete := true |}];
     transfer_end :=
       {| own_transfer_complete := true;
          peers_transfer_complete := true |} |}.

Definition sample_config : config :=
  {| scr_enabled := 1; scr_initialized := 1;
     scr_my_rank_world := 0; scr_my_rank_local := 0;
     scr_ranks_world := 4; scr_log_enable := 0; scr_flush := 1;
     scr_ckptdescs := [mk_desc 1 1 (Some "/ram")];
     scr_cachedescs := [{| cd_BASE := Some "/ram"; cd_SIZE := Some 2 |}] |}.

Definition sample_node : node_files :=
  {| cache := {| Meta.data := ∅; Meta.sidecars := ∅ |};
     dirs := ∅; map_file := None; flush_file := ∅ |}.

(** An initialised library between checkpoints, with an empty cache. *)
Definition sample_idle : scr_state :=
  {| cfg := sample_config; scr_in_checkpoint := 0; scr_checkpoint_id := 0;
     scr_map := ∅; scr_flush_async_in_progress := 0;
     scr_flush_async_checkpoint_id := -1; node := sample_node;
     env := sample_env; aborted := false; trace := [] |}.

(** The same library inside checkpoint 1. *)
Definition sample_in_checkpoint : scr_state :=
  with_checkpoint_id (with_in_checkpoint sample_idle 1) 1.

(** A configuration whose only descriptor is disabled. *)
Definition sample_all_disabled : scr_state :=
  {| cfg := {| scr_enabled := 1; scr_initialized := 1;
               scr_my_rank_world := 0; scr_my_rank_local := 0;
               scr_ranks_world := 4; scr_log_enable := 0; scr_flush := 1;
               scr_ckptdescs := [mk_desc 0 1 (Some "/ram")];
               scr_cachedescs := [] |};
     scr_in_checkpoint := 0; scr_checkpoint_id := 0;
     scr_map := ∅; scr_flush_async_in_progress := 0;
     scr_flush_async_checkpoint_id := -1; node := sample_node;
     env := sample_env; aborted := false; trace := [] |}.

(** Path helpers for the examples: the name is the whole argument, and a
    composed name is [dir/name]. *)
Definition sample_split_path (file : string) : string * string :=
  (EmptyString, file).
Definition sample_build_path (n : Z) (dir name : string) : Z * string :=
  (SCR_SUCCESS, dir +:+ "/" +:+ name).

(** ** The eviction pass in closed form *)

(** Whether a cached checkpoint belongs to base [b], as the loops of
    [SCR_Start_checkpoint] test it. *)
Definition in_base (st : scr_state) (b : string) (id : Z) : bool :=
  bool_decide (scr_ckptdesc_base_from_filemap (scr_map st) id
                 (scr_my_rank_world (cfg st)) = Some b).

(** Whether a checkpoint is marked FLUSHING, as [scr_bool_is_flushing]
    reports it. *)
Definition marked_flushing (st : scr_state) (id : Z) : bool :=
  truthy (scr_bool_is_flushing st id).

(** What a state [st'] keeps of [st] while the library waits for the
    flush of the checkpoint [id]: everything but the flag of a flush in
    progress, the trace, the polls that are still to come, the marks of
    [id] in the flush file, and what the other processes report on the
    marks of [id]. *)
Definition kept_by_wait (id : Z) (st st' : scr_state) : Prop :=
  cfg st' = cfg st /\ scr_in_checkpoint st' = scr_in_checkpoint st /\
  scr_checkpoint_id st' = scr_checkpoint_id st /\
  scr_map st' = scr_map st /\ aborted st' = aborted st /\
  scr_flush_async_checkpoint_id st' = scr_flush_async_checkpoint_id st /\
  cache (node st') = cache (node st) /\ dirs (node st') = dirs (node st) /\
  map_file (node st') = map_file (node st) /\
  mkdir_succeeds (env st') = mkdir_succeeds (env st) /\
  async_flush_succeeds (env st') = async_flush_succeeds (env st) /\
  peers_have_files (env st') = peers_have_files (env st) /\
  transfer_end (env st') = transfer_end (env st) /\
  (forall id', id' <> id ->
     flush_file (node st') !! id' = flush_file (node st) !! id' /\
     peers_not_flushing (env st') id' = peers_not_flushing (env st) id').

(** What the eviction of the checkpoints [deleted] from the state [st]
    shows in a later state [st'].  Apart from the entry of the checkpoint
    that [st'] is in, the filemap has lost the deleted checkpoints and
    kept the others as they were; every file listed under a deleted
    checkpoint is gone from the cache together with its sidecar, and the
    files listed under none of them are as they were; on the master of
    the node the flush file has no entry for a deleted checkpoint. *)
Definition evicted (st st' : scr_state) (deleted : list Z) : Prop :=
  (forall id, id <> scr_checkpoint_id st' ->
     scr_map st' !! id
     = if bool_decide (id ∈ deleted) then None else scr_map st !! id) /\
  (forall id file,
     id ∈ deleted -> file ∈ checkpoint_files (scr_map st) id ->
     Meta.data (cache (node st')) !! file = None /\
     Meta.sidecars (cache (node st')) !! file = None) /\
  (forall file,
     (forall id, id ∈ deleted -> file ∉ checkpoint_files (scr_map st) id) ->
     Meta.data (cache (node st')) !! file
     = Meta.data (cache (node st)) !! file /\
     Meta.sidecars (cache (node st')) !! file
     = Meta.sidecars (cache (node st)) !! file) /\
  (scr_my_rank_local (cfg st) = 0 ->
   forall id, id ∈ deleted -> flush_file (node st') !! id = None).

(** The eviction loop on the two tests alone: the ids it deletes, in
    order, and the final [nckpts_base] and [flushing]. *)
Fixpoint eviction_plan (P F : Z -> bool) (size : Z) (ckpts : list Z)
    (nckpts_base flushing : Z) : list Z * Z * Z :=
  match ckpts with
  | [] => ([], nckpts_base, flushing)
  | id :: rest =>
      if nckpts_base >=? size then
        if P id then
          if negb (F id) then
            let '(deleted, n, f) :=
              eviction_plan P F size rest (nckpts_base - 1) flushing in
            (id :: deleted, n, f)
          else if flushing =? -1 then
            eviction_plan P F size rest nckpts_base id
          else eviction_plan P F size rest nckpts_base flushing
        else eviction_plan P F size rest nckpts_base flushing
      else ([], nckpts_base, flushing)
  end.

(** The events that the cache manager is to produce on a start, in the
    words of the specification.  [cached] lists the cached checkpoint ids
    in ascending order, [P] tells which are at the base of the new
    checkpoint and [F] which are marked FLUSHING.  If the count at the base
    has reached [size], the checkpoints at the base that are not flushing
    are evicted oldest first until the count is below [size]; if the count
    is still at [size] or above after that and some checkpoint at the base
    is flushing, the flush is waited for and the oldest flushing
    checkpoint is evicted. *)
Definition eviction_events (P F : Z -> bool) (size : Z) (cached : list Z)
  : list event :=
  let at_base := List.filter P cached in
  let evictable := List.filter (fun id => negb (F id)) at_base in
  let flushing := List.filter F at_base in
  let count := Z.of_nat (length at_base) in
  let k := Z.to_nat (Z.min (Z.of_nat (length evictable)) (count - size + 1)) in
  List.map EvCheckpointDelete (take k evictable) ++
  (if size <=? count - Z.of_nat k then
     match flushing with
     | oldest :: _ => [EvFlushAsyncWait; EvCheckpointDelete oldest]
     | [] => []
     end
   else []).

(** A library with checkpoints 1 and 2 cached at "/ram", whose capacity is
    2; checkpoint 1 is being flushed asynchronously. *)
Definition sample_cached_entry : gmap Z rank_entry :=
  {[ 0 := {| files := ∅; expected_count := Some 0;
             descriptor_hash :=
               Some (scr_ckptdesc_store_to_hash (mk_desc 1 1 (Some "/ram")));
             tags := ∅ |} ]}.

Definition sample_full_cache : scr_state :=
  {| cfg := sample_config; scr_in_checkpoint := 0; scr_checkpoint_id := 2;
     scr_map := {[ 1 := sample_cached_entry; 2 := sample_cached_entry ]};
     scr_flush_async_in_progress := 1;
     scr_flush_async_checkpoint_id := 1;
     node := {| cache := {| Meta.data := ∅; Meta.sidecars := ∅ |};
                dirs := ∅; map_file := None;
                flush_file :=
                  {[ 1 := {| loc_CACHE := true; loc_PFS := false;
                             loc_FLUSHING := true |};
                     2 := {| loc_CACHE := true; loc_PFS := false;
                             loc_FLUSHING := false |} ]} |};
     env := sample_env; aborted := false; trace := [] |}.

(** The same with only checkpoint 1 cached and a capacity of 1. *)
Definition sample_only_flushing : scr_state :=
  {| cfg := {| scr_enabled := 1; scr_initialized := 1;
               scr_my_rank_world := 0; scr_my_rank_local := 0;
               scr_ranks_world := 4; scr_log_enable := 0; scr_flush := 1;
               scr_ckptdescs := [mk_desc 1 1 (Some "/ram")];
               scr_cachedescs :=
                 [{| cd_BASE := Some "/ram"; cd_SIZE := Some 1 |}] |};
     scr_in_checkpoint := 0; scr_checkpoint_id := 1;
     scr_map := {[ 1 := sample_cached_entry ]};
     scr_flush_async_in_progress := 1;
     scr_flush_async_checkpoint_id := 1;
     node := {| cache := {| Meta.data := ∅; Meta.sidecars := ∅ |};
                dirs := ∅; map_file := None;
                flush_file :=
                  {[ 1 := {| loc_CACHE := true; loc_PFS := false;
                             loc_FLUSHING := true |} ]} |};
     env := sample_env; aborted := false; trace := [] |}.

(** The same when the transfer of checkpoint 1 never completes. *)
Definition sample_transfer_stalled : scr_state :=
  with_env sample_only_flushing
    {| peers_not_flushing := fun _ => true;
       mkdir_succeeds := fun _ => true;
       async_flush_succeeds := true;
       peers_have_files := fun _ => true;
       transfer_polls := [];
       transfer_end :=
         {| own_transfer_complete := false;
            peers_transfer_complete := true |} |}.

(** The same when a file of checkpoint 1 has been lost from the cache. *)
Definition sample_flushing_file_lost : scr_state :=
  with_map sample_only_flushing
    {[ 1 := {[ 0 := {| files := {[ "/ram/ckpt.1/rank_0.ckpt" ]};
                       expected_count := Some 1;
                       descriptor_hash :=
                         Some (scr_ckptdesc_store_to_hash
                                 (mk_desc 1 1 (Some "/ram")));
                       tags := ∅ |} ]} ]}.

End Library.

(** ** Further sample data *)

Module Samples.
Import Descriptors.

(** An XOR descriptor, as it is before the partner lookup, for the member
    at position [rank] of a set. *)
Definition sample_xor_desc (rank : Z) : scr_ckptdesc :=
  {| enabled := 1; index := 0; interval := 1; base := Some "/ram";
     directory := Some "/ram/user/scr.1/index.0";
     copy_type := SCR_COPY_XOR;
     hop_distance := 1; set_size := 8; groups := 1; group_id := 0;
     ranks := 1; my_rank := rank;
     lhs_rank := -1; lhs_rank_world := -1; lhs_hostname := "";
     rhs_rank := -1; rhs_rank_world := -1; rhs_hostname := "" |}.

(** A job of one process with an XOR descriptor: its set has one
    member. *)
Definition sample_single_xor : list process :=
  [ {| proc_hostname := "node0"; proc_desc := sample_xor_desc 0;
       proc_comm := [ {| Partners.m_hostname := "node0";
                         Partners.m_rank_world := 0 |} ] |} ].

End Samples.

(** ** XOR sets: the communicator split of [scr_ckptdesc_create_from_hash] *)

Module XorSets.

(** C's [/] on [int] truncates towards zero. *)
Definition int_quot (a b : Z) : Z := wrap_int (Z.quot a b).

Definition int_mul (a b : Z) : Z := wrap_int (a * b).

(** "split the scr_comm_level communicator based on xor set size to create
    our xor communicator":
    [rel_rank = scr_my_rank_level / c->hop_distance;
     mod_rank = scr_my_rank_level % c->hop_distance;
     split_id = (rel_rank / c->set_size) * c->hop_distance + mod_rank;] *)
Definition xor_split_id (scr_my_rank_level hop_distance set_size : Z) : Z :=
  let rel_rank := int_quot scr_my_rank_level hop_distance in
  let mod_rank := int_rem scr_my_rank_level hop_distance in
  let split_id :=
    int_add (int_mul (int_quot rel_rank set_size) hop_distance) mod_rank in
  split_id.

(** [MPI_Comm_split(scr_comm_level, split_id, scr_my_rank_world, &c->comm)]:
    the communicator of the process at level rank [me] holds the processes
    of [scr_comm_level] that pass the same [split_id], ordered by their
    world rank.  [scr_comm_level] is itself ordered by world rank (it is
    split from [scr_comm_world] with that key), so the members are listed
    here by ascending level rank; [c->my_rank] is the position of [me] in
    the list. *)
Definition xor_set_members (scr_ranks_level hop_distance set_size me : Z)
  : list Z :=
  List.filter
    (fun r => xor_split_id r hop_distance set_size
              =? xor_split_id me hop_distance set_size)
    (seqZ 0 scr_ranks_level).

End XorSets.

(** ** Pieces of [SCR_Init] *)

Module Init.
Import Descriptors.

(** "set host_index to the highest rank having the same host_id as we
    do": the loop over the gathered [host_ids], started at rank [i] with
    the current [host_index]. *)
Fixpoint host_index_from (host_ids : list Z) (host_id : Z) (i : Z)
    (host_index : Z) : Z :=
  match host_ids with
  | [] => host_index
  | id :: rest =>
      host_index_from rest host_id (int_add i 1)
        (if id =? host_id then i else host_index)
  end.

(** The colour that a process with host id [host_id] passes to
    [MPI_Comm_split] to obtain [scr_comm_local]. *)
Definition host_index (host_ids : list Z) (host_id : Z) : Z :=
  host_index_from host_ids host_id 0 0.

(** "check that we have an enabled checkpoint descriptor with interval of
    one" *)
Definition found_one (ckpts : list scr_ckptdesc) : Z :=
  fold_left
    (fun found_one d =>
       if truthy (enabled d) && (interval d =? 1) then 1 else found_one)
    ckpts 0.

End Init.

(** ** The flush file *)

Module FlushFile.
Import Library.

(** The value that the master of the node finds in the flush file of the
    node and passes to the processes of the node with [MPI_Bcast]. *)
Definition master_at_location (st : scr_state) (checkpoint_id : Z)
    (l : location) : Z :=
  match flush_file (node st) !! checkpoint_id with
  | Some ckpt_hash => of_bool (at_location ckpt_hash l)
  | None => 0
  end.

(** [scr_flush_location_test(checkpoint_id, location)]: "returns
    SCR_SUCCESS if checkpoint_id is at location". *)
Definition scr_flush_location_test (st : scr_state) (checkpoint_id : Z)
    (l : location) : Z :=
  let at_location := master_at_location st checkpoint_id l in
  if negb (truthy at_location) then SCR_FAILURE else SCR_SUCCESS.

(** [scr_bool_need_flush(checkpoint_id)]: "if we have the checkpoint in
    cache, but not on the parallel file system, then it needs to be
    flushed". *)
Definition scr_bool_need_flush (st : scr_state) (checkpoint_id : Z) : Z :=
  let in_cache :=
    master_at_location st checkpoint_id SCR_FLUSH_KEY_LOCATION_CACHE in
  let in_pfs :=
    master_at_location st checkpoint_id SCR_FLUSH_KEY_LOCATION_PFS in
  if truthy in_cache && negb (truthy in_pfs) then 1 else 0.

End FlushFile.

(** ** Applying the redundancy scheme: [scr_copy_files] *)

Module Redundancy.
Import Descriptors FileMap Library FlushFile.

(** Modelled from the spec: [scr_filemap_set_expected_files] records the
    [expected_count] of (ckpt, rank). *)
Definition scr_filemap_set_expected_files (map : scr_filemap)
    (ckpt rank expect : Z) : scr_filemap :=
  let e := entry map ckpt rank in
  set_entry map ckpt rank
    {| files := files e; expected_count := Some expect;
       descriptor_hash := descriptor_hash e; tags := tags e |}.

Section CopyFiles.
(** [scr_crc_on_copy], and [scr_compute_crc] of [scr_io.h], which is not
    part of [scr.c]. *)
Variable scr_crc_on_copy : Z.
Variable scr_compute_crc : string -> scr_state -> scr_state.
(** What the other processes of the job contribute to the two calls of
    [scr_alltrue]. *)
Variable peers_valid : bool.
Variable peers_valid_copy : bool.
(** [scr_copy_partner] and [scr_copy_xor]. *)
Variable scr_copy_partner : scr_ckptdesc -> Z -> scr_state -> result Z.
Variable scr_copy_xor : scr_ckptdesc -> Z -> scr_state -> result Z.

(** "step through each of my files for the latest checkpoint to scan for
    any incomplete files"; the descriptor pointer [c] is [None] for
    [NULL] and is dereferenced only when [scr_crc_on_copy] is set. *)
Fixpoint copy_files_scan (c : option scr_ckptdesc) (checkpoint_id : Z)
    (file_list : list string) (valid : Z) (st : scr_state) : result Z :=
  match file_list with
  | [] => Ok valid st
  | file :: rest =>
      let valid :=
        if negb (truthy (Meta.scr_bool_have_file (cache (node st))
                           checkpoint_id (scr_my_rank_world (cfg st))
                           (Some file) (scr_ranks_world (cfg st))))
        then 0 else valid in
      if truthy scr_crc_on_copy then
        match c with
        | None => Crash st
        | Some d =>
            if bool_decide (copy_type d <> SCR_COPY_PARTNER)
            then copy_files_scan c checkpoint_id rest valid
                   (scr_compute_crc file st)
            else copy_files_scan c checkpoint_id rest valid st
        end
      else copy_files_scan c checkpoint_id rest valid st
  end.

(** [scr_copy_files(map, c, checkpoint_id, bytes)]: "apply redundancy
    scheme to file".  The byte count and the timers are not part of the
    modelled state. *)
Definition scr_copy_files (c : option scr_ckptdesc) (checkpoint_id : Z)
    (st : scr_state) : result Z :=
  match copy_files_scan c checkpoint_id
          (scr_filemap_list_files (scr_map st) checkpoint_id
             (scr_my_rank_world (cfg st))) 1 st with
  | Crash st => Crash st
  | Hang st => Hang st
  | Ok valid st =>
      let all_valid := scr_alltrue [valid; of_bool peers_valid] in
      if negb (truthy all_valid) then Ok SCR_FAILURE st
      else
        match c with
        | None => Crash st
        | Some d =>
            let applied :=
              match copy_type d with
              | SCR_COPY_LOCAL => Ok SCR_SUCCESS st
              | SCR_COPY_PARTNER => scr_copy_partner d checkpoint_id st
              | SCR_COPY_XOR => scr_copy_xor d checkpoint_id st
              | SCR_COPY_NULL => Ok SCR_FAILURE st
              end in
            match applied with
            | Crash st => Crash st
            | Hang st => Hang st
            | Ok rc st =>
                let num_files :=
                  scr_filemap_num_files (scr_map st) checkpoint_id
                    (scr_my_rank_world (cfg st)) in
                let st :=
                  with_map st
                    (scr_filemap_set_expected_files (scr_map st)
                       checkpoint_id (scr_my_rank_world (cfg st))
                       num_files) in
                let st := scr_filemap_write st in
                let valid_copy := of_bool (rc =? SCR_SUCCESS) in
                let all_valid_copy :=
                  scr_alltrue [valid_copy; of_bool peers_valid_copy] in
                let rc :=
                  if truthy all_valid_copy then SCR_SUCCESS
                  else SCR_FAILURE in
                if (scr_my_rank_world (cfg st) =? 0)
                   && truthy (scr_log_enable (cfg st))
                then
                  match scr_checkpoint_dir d checkpoint_id st with
                  | Crash st => Crash st
                  | Hang st => Hang st
                  | Ok _ st => Ok rc st
                  end
                else Ok rc st
            end
        end
  end.

(** The halt check and the flush check that follow a good copy, and the
    test of an asynchronous flush in progress; the model covers the runs
    in which the halt check returns. *)
Variable scr_bool_check_halt_and_decrement : scr_state -> result Z.
Variable scr_check_flush : scr_state -> result Z.
Variable scr_flush_async_test_and_complete : scr_state -> scr_state.

(** The middle of [SCR_Complete_checkpoint], from "apply redundancy
    scheme" to the closing barrier. *)
Definition copy_and_flush (st : scr_state) : result Z :=
  let c := selected_desc st (scr_checkpoint_id st) in
  match scr_copy_files c (scr_checkpoint_id st) st with
  | Crash st => Crash st
  | Hang st => Hang st
  | Ok rc st =>
      let logged :=
        if (scr_my_rank_world (cfg st) =? 0)
           && truthy (scr_log_enable (cfg st))
        then
          match c with
          | None => Crash st
          | Some d =>
              match scr_checkpoint_dir d (scr_checkpoint_id st) st with
              | Crash st => Crash st
              | Hang st => Hang st
              | Ok _ st => Ok rc st
              end
          end
        else Ok rc st in
      match logged with
      | Crash st => Crash st
      | Hang st => Hang st
      | Ok rc st =>
          let finished :=
            if rc =? SCR_SUCCESS then
              let st :=
                scr_flush_location_set st (scr_checkpoint_id st)
                  SCR_FLUSH_KEY_LOCATION_CACHE in
              match scr_bool_check_halt_and_decrement st with
              | Crash st => Crash st
              | Hang st => Hang st
              | Ok _ st =>
                  match scr_check_flush st with
                  | Crash st => Crash st
                  | Hang st => Hang st
                  | Ok _ st => Ok rc st
                  end
              end
            else Ok rc (scr_checkpoint_delete st (scr_checkpoint_id st)) in
          match finished with
          | Crash st => Crash st
          | Hang st => Hang st
          | Ok rc st =>
              if truthy (scr_flush_async_in_progress st)
              then Ok rc (scr_flush_async_test_and_complete st)
              else Ok rc st
          end
      end
  end.

End CopyFiles.

(** A library inside checkpoint 1 that has routed one file and written
    four bytes to it. *)
Definition sample_one_file : scr_state :=
  {| cfg := sample_config; scr_in_checkpoint := 1; scr_checkpoint_id := 1;
     scr_map :=
       {[ 1 := {[ 0 := {| files := {[ "/ram/checkpoint.1/rank_0.ckpt" ]};
                          expected_count := None;
                          descriptor_hash :=
                            Some (scr_ckptdesc_store_to_hash
                                    (mk_desc 1 1 (Some "/ram")));
                          tags := ∅ |} ]} ]};
     scr_flush_async_in_progress := 0;
     scr_flush_async_checkpoint_id := -1;
     node := {| cache :=
                  {| Meta.data :=
                       {[ "/ram/checkpoint.1/rank_0.ckpt" :=
                            {| Meta.f_readable := true;
                               Meta.f_size := 4 |} ]};
                     Meta.sidecars := ∅ |};
                dirs := {[ "/ram/checkpoint.1" ]};
                map_file := None; flush_file := ∅ |};
     env := sample_env; aborted := false; trace := [] |}.

End Redundancy.

(** ** The XOR scheme: [scr_copy_xor] and [scr_rebuild_xor] *)

Module XorCode.
Import XorEncoder.

(** [for (i = 0; i < count; i++) { send_buf[i] ^= recv_buf[i]; }], on
    the [count] bytes in use of the two buffers. *)
Definition xor_into (send_buf recv_buf : list Z) : list Z :=
  zip_with Z.lxor send_buf recv_buf.

(** [scr_filesize] of each file of a process. *)
Definition filesizes (files : list (list Z)) : list Z :=
  map (fun file => Z.of_nat (length file)) files.

(** Modelled from the spec: [scr_read_pad_n] of [scr_io.h] reads [count]
    bytes "at logical offset [offset] from the concatenation of local
    files (pad with zeros beyond EOF)". *)
Definition scr_read_pad_n (files : list (list Z)) (count offset : Z)
  : list Z :=
  take (Z.to_nat count)
    (drop (Z.to_nat offset) (concat files) ++ replicate (Z.to_nat count) 0).

(** Modelled from the spec: [scr_write_pad_n] of [scr_io.h], the
    counterpart of [scr_read_pad_n]: the bytes of the buffer are written
    at the logical offset into the files, whose sizes are given; bytes
    that fall behind the last file are padding and are dropped.  The
    files under construction are held as their logical concatenation. *)
Definition scr_write_pad_n (sizes : list Z) (logical : list Z)
    (buf : list Z) (count offset : Z) : list Z :=
  let total := foldr Z.add 0 sizes in
  let inside := take (Z.to_nat (Z.min count (total - offset))) buf in
  match inside with
  | [] => logical
  | _ :: _ =>
      take (Z.to_nat offset)
        (logical ++ replicate (Z.to_nat offset - length logical) 0)
      ++ inside
      ++ drop (Z.to_nat offset + length inside) logical
  end.

(** The files that a logical concatenation holds, given their sizes. *)
Fixpoint split_files (sizes : list Z) (logical : list Z)
  : list (list Z) :=
  match sizes with
  | [] => []
  | size :: rest =>
      take (Z.to_nat size) logical
      :: split_files rest (drop (Z.to_nat size) logical)
  end.

(** [c->lhs_rank] and [c->rhs_rank] of an XOR descriptor, as
    [scr_set_partners] computes them for the distance 1. *)
Definition lhs_rank (ranks my_rank : Z) : Z :=
  int_rem (int_sub (int_add my_rank ranks) 1) ranks.
Definition rhs_rank (ranks my_rank : Z) : Z :=
  int_rem (int_add (int_add my_rank ranks) 1) ranks.

(** [count = chunk_size - nread; if (count > scr_mpi_buf_size) count =
    scr_mpi_buf_size;] *)
Definition block_count (chunk_size nread scr_mpi_buf_size : Z) : Z :=
  let count := wrap_ulong (chunk_size - nread) in
  if count >? scr_mpi_buf_size then scr_mpi_buf_size else count.

(** The header of an XOR file: the chunk size, the sizes of the files of
    its owner (CURRENT) and of the owner's left partner (PARTNER). *)
Record xor_header := {
  hdr_chunk_size : Z;
  hdr_current : list Z;
  hdr_partner : list Z }.

Record xor_file := { xf_header : xor_header; xf_payload : list Z }.

(** *** Encoding *)

(** The body of the loop over [chunk_id] in [scr_copy_xor], up to the
    exchange: the contents of [send_buf]. *)
Definition copy_xor_send_buf (ranks my_rank chunk_size : Z)
    (files : list (list Z)) (nread count chunk_id : Z) (recv_buf : list Z)
  : list Z :=
  let send_buf :=
    if chunk_id >? 0 then
      let chunk_id_rel :=
        int_rem (int_add (int_add my_rank ranks) chunk_id) ranks in
      let chunk_id_rel :=
        if chunk_id_rel >? my_rank then int_sub chunk_id_rel 1
        else chunk_id_rel in
      let offset :=
        wrap_ulong (wrap_ulong (chunk_size * wrap_ulong chunk_id_rel)
                    + nread) in
      scr_read_pad_n files count offset
    else replicate (Z.to_nat count) 0 in
  if chunk_id <? int_sub ranks 1 then xor_into send_buf recv_buf
  else send_buf.

(** [MPI_Irecv] from [c->lhs_rank], [MPI_Isend] to [c->rhs_rank] and
    [MPI_Waitall] by every member of the set: the receive buffer of a
    member holds what its left partner sent. *)
Definition ring_exchange (ranks : Z) (send_bufs : list (list Z))
  : list (list Z) :=
  imap (fun my_rank _ =>
          default [] (send_bufs
                        !! Z.to_nat (lhs_rank ranks (Z.of_nat my_rank))))
    send_bufs.

(** [for (chunk_id = c->ranks-1; chunk_id >= 0; chunk_id--)], run by the
    members of the set in step; the result is what each member writes to
    its chunk file. *)
Fixpoint reduce_scatter_block (set : list (list (list Z)))
    (ranks chunk_size nread count : Z) (chunk_id : nat)
    (recv_bufs : list (list Z)) : list (list Z) :=
  let send_bufs :=
    imap (fun my_rank files =>
            copy_xor_send_buf ranks (Z.of_nat my_rank) chunk_size files
              nread count (Z.of_nat chunk_id)
              (default [] (recv_bufs !! my_rank)))
      set in
  match chunk_id with
  | O => send_bufs
  | S next =>
      reduce_scatter_block set ranks chunk_size nread count next
        (ring_exchange ranks send_bufs)
  end.

(** [while (nread < chunk_size)] of [scr_copy_xor]; [None] when the loop
    has not finished within [fuel] iterations. *)
Fixpoint reduce_scatter (fuel : nat) (set : list (list (list Z)))
    (ranks chunk_size scr_mpi_buf_size nread : Z)
    (chunk_files : list (list Z)) : option (list (list Z)) :=
  if nread <? chunk_size then
    match fuel with
    | O => None
    | S fuel' =>
        let count := block_count chunk_size nread scr_mpi_buf_size in
        let written :=
          reduce_scatter_block set ranks chunk_size nread count
            (Z.to_nat (int_sub ranks 1)) (map (fun _ => []) set) in
        reduce_scatter fuel' set ranks chunk_size scr_mpi_buf_size
          (wrap_ulong (nread + count)) (zip_with app chunk_files written)
    end
  else Some chunk_files.

(** [scr_copy_xor] run by the members of one XOR set, each given by the
    contents of its files: the XOR files that the members write.  The
    header of a member records the chunk size, its own file sizes and
    those received from its left partner. *)
Definition scr_copy_xor (scr_mpi_buf_size : Z)
    (set : list (list (list Z))) : option (list xor_file) :=
  let ranks := Z.of_nat (length set) in
  let my_bytes := map (fun files => sum_filesizes (filesizes files)) set in
  let chunk_size := scr_copy_xor_chunk_size my_bytes in
  payloads ←
    reduce_scatter (Z.to_nat chunk_size) set ranks chunk_size
      scr_mpi_buf_size 0 (map (fun _ => []) set);
  Some
    (imap (fun my_rank payload =>
             {| xf_header :=
                  {| hdr_chunk_size := chunk_size;
                     hdr_current :=
                       filesizes (default [] (set !! my_rank));
                     hdr_partner :=
                       filesizes
                         (default []
                            (set !! Z.to_nat
                                      (lhs_rank ranks
                                         (Z.of_nat my_rank)))) |};
                xf_payload := payload |})
       payloads).

(** *** Rebuilding *)

(** A member of the set that takes part in a rebuild with its files and
    its XOR file. *)
Record survivor := { sv_files : list (list Z); sv_xor : xor_file }.

(** The read positions of a member during the rebuild: [offset] into its
    logical file and the position in the payload of its XOR file. *)
Record read_pos := { rd_offset : Z; rd_chunk : Z }.

(** What a member other than the root reads for one block: "read the next
    set of bytes for this chunk from my file into send_buf". *)
Definition rebuild_read (my_rank chunk_id count : Z) (m : survivor)
    (pos : read_pos) : list Z * read_pos :=
  if negb (chunk_id =? my_rank) then
    (scr_read_pad_n (sv_files m) count (rd_offset pos),
     {| rd_offset := wrap_ulong (rd_offset pos + count);
        rd_chunk := rd_chunk pos |})
  else
    (take (Z.to_nat count)
       (drop (Z.to_nat (rd_chunk pos)) (xf_payload (sv_xor m))),
     {| rd_offset := rd_offset pos;
        rd_chunk := rd_chunk pos + count |}).

(** The pipeline of one block: the member [my_rank] reads [count] bytes,
    [count] taken from the chunk size of its own header, merges what its
    left partner sent unless that partner is the root, and sends to its
    right partner; after [hops] members the buffer reaches the root.  The
    members run their loops in step: every header of a set records the
    same chunk size. *)
Fixpoint rebuild_pipeline (members : list survivor)
    (ranks root scr_mpi_buf_size chunk_id nread : Z) (hops : nat)
    (my_rank : Z) (recv_buf : list Z) (positions : list read_pos)
  : list Z * list read_pos :=
  match hops with
  | O => (recv_buf, positions)
  | S hops' =>
      match members !! Z.to_nat my_rank, positions !! Z.to_nat my_rank with
      | Some m, Some pos =>
          let chunk_size := hdr_chunk_size (xf_header (sv_xor m)) in
          let count := block_count chunk_size nread scr_mpi_buf_size in
          let '(send_buf, pos) := rebuild_read my_rank chunk_id count m pos in
          let send_buf :=
            if negb (root =? lhs_rank ranks my_rank)
            then xor_into send_buf recv_buf else send_buf in
          rebuild_pipeline members ranks root scr_mpi_buf_size chunk_id
            nread hops' (rhs_rank ranks my_rank) send_buf
            (<[Z.to_nat my_rank := pos]> positions)
      | _, _ => (recv_buf, positions)
      end
  end.

(** What the root has written so far: the logical concatenation of its
    files, its write offset, and the payload of its XOR file. *)
Record root_state := {
  rt_logical : list Z; rt_offset : Z; rt_payload : list Z }.

(** "root of rebuild, just receive incoming chunks and write them out" *)
Definition rebuild_write (sizes : list Z) (root chunk_id count : Z)
    (recv_buf : list Z) (s : root_state) : root_state :=
  if negb (chunk_id =? root) then
    {| rt_logical :=
         scr_write_pad_n sizes (rt_logical s) recv_buf count (rt_offset s);
       rt_offset := wrap_ulong (rt_offset s + count);
       rt_payload := rt_payload s |}
  else
    {| rt_logical := rt_logical s; rt_offset := rt_offset s;
       rt_payload := rt_payload s ++ recv_buf |}.

(** [while (nread < chunk_size)] of [scr_rebuild_xor] for one
    [chunk_id]. *)
Fixpoint rebuild_chunk (fuel : nat) (members : list survivor)
    (sizes : list Z) (ranks root chunk_size scr_mpi_buf_size : Z)
    (chunk_id nread : Z) (positions : list read_pos) (s : root_state)
  : option (list read_pos * root_state) :=
  if nread <? chunk_size then
    match fuel with
    | O => None
    | S fuel' =>
        let count := block_count chunk_size nread scr_mpi_buf_size in
        let '(recv_buf, positions) :=
          rebuild_pipeline members ranks root scr_mpi_buf_size chunk_id
            nread (Z.to_nat (ranks - 1)) (rhs_rank ranks root) []
            positions in
        rebuild_chunk fuel' members sizes ranks root chunk_size
          scr_mpi_buf_size chunk_id (wrap_ulong (nread + count)) positions
          (rebuild_write sizes root chunk_id count recv_buf s)
    end
  else Some (positions, s).

(** [for (chunk_id = 0; chunk_id < c->ranks; chunk_id++)]; [todo] counts
    the chunk ids that are left. *)
Fixpoint rebuild_chunks (todo : nat) (members : list survivor)
    (sizes : list Z) (ranks root chunk_size scr_mpi_buf_size : Z)
    (chunk_id : Z) (positions : list read_pos) (s : root_state)
  : option root_state :=
  match todo with
  | O => Some s
  | S todo' =>
      '(positions, s) ←
        rebuild_chunk (Z.to_nat chunk_size) members sizes ranks root
          chunk_size scr_mpi_buf_size chunk_id 0 positions s;
      rebuild_chunks todo' members sizes ranks root chunk_size
        scr_mpi_buf_size (int_add chunk_id 1) positions s
  end.

(** [scr_rebuild_xor] run by the members of one XOR set for the member
    [root] that lost its files.  The entry of the root in [members] stands
    for what is left on its node and is not read.  The root takes its
    header from its right partner, "rename PARTNER to CURRENT", and the
    PARTNER section from the CURRENT section of its left partner.  The
    result is the files and the XOR file that the root has written. *)
Definition scr_rebuild_xor (scr_mpi_buf_size : Z) (members : list survivor)
    (root : Z) : option (list (list Z) * xor_file) :=
  let ranks := Z.of_nat (length members) in
  rhs ← members !! Z.to_nat (rhs_rank ranks root);
  lhs ← members !! Z.to_nat (lhs_rank ranks root);
  let header :=
    {| hdr_chunk_size := hdr_chunk_size (xf_header (sv_xor rhs));
       hdr_current := hdr_partner (xf_header (sv_xor rhs));
       hdr_partner := hdr_current (xf_header (sv_xor lhs)) |} in
  let sizes := hdr_current header in
  let chunk_size := hdr_chunk_size header in
  s ←
    rebuild_chunks (length members) members sizes ranks root chunk_size
      scr_mpi_buf_size 0
      (map (fun _ => {| rd_offset := 0; rd_chunk := 0 |}) members)
      {| rt_logical := []; rt_offset := 0; rt_payload := [] |};
  Some (split_files sizes (rt_logical s),
        {| xf_header := header; xf_payload := rt_payload s |}).

(** The members as they are after the encoding when the member [root] has
    lost its files: every member holds its files and its XOR file, the
    root holds [lost] in their place. *)
Definition after_loss (set : list (list (list Z))) (xors : list xor_file)
    (root : nat) (lost : survivor) : list survivor :=
  <[root := lost]>
    (zip_with (fun files xor => {| sv_files := files; sv_xor := xor |})
       set xors).

(** *** The parity in closed form *)

(** The XOR of byte buffers of [count] bytes. *)
Definition xor_all (count : nat) (bufs : list (list Z)) : list Z :=
  foldr xor_into (replicate count 0) bufs.

(** The members of a set of [ranks] other than the one of rank [slot]. *)
Definition others (ranks slot : Z) : list Z :=
  List.filter (fun r => negb (r =? slot)) (seqZ 0 ranks).

(** Which chunk of its logical file a member contributes to the parity
    that the member of rank [slot] stores: a member splits its logical
    file into [ranks - 1] chunks, one for every other member, in the order
    of their ranks. *)
Definition slot_index (slot my_rank : Z) : Z :=
  if slot <? my_rank then slot else slot - 1.

(** The [count] bytes at [nread] in the chunk that the member [my_rank]
    contributes to [slot], read from its zero-padded logical file. *)
Definition contribution (chunk_size : Z) (set : list (list (list Z)))
    (nread count slot my_rank : Z) : list Z :=
  scr_read_pad_n (default [] (set !! Z.to_nat my_rank)) count
    (chunk_size * slot_index slot my_rank + nread).

(** The parity of [slot]: the XOR of the contributions of the other
    members, for the [count] bytes at [nread] and for the whole chunk. *)
Definition parity_block (chunk_size : Z) (set : list (list (list Z)))
    (nread count slot : Z) : list Z :=
  xor_all (Z.to_nat count)
    (map (contribution chunk_size set nread count slot)
       (others (Z.of_nat (length set)) slot)).

Definition xor_parity (chunk_size : Z) (set : list (list (list Z)))
    (slot : Z) : list Z :=
  parity_block chunk_size set 0 chunk_size slot.

(** The XOR file that the member [my_rank] is to hold for a chunk size:
    the header with its own file sizes and those of its left partner, and
    the parity of its slot. *)
Definition xor_file_of (chunk_size : Z) (set : list (list (list Z)))
    (my_rank : Z) : xor_file :=
  {| xf_header :=
       {| hdr_chunk_size := chunk_size;
          hdr_current := filesizes (default [] (set !! Z.to_nat my_rank));
          hdr_partner :=
            filesizes
              (default []
                 (set !! Z.to_nat
                           ((my_rank - 1) mod Z.of_nat (length set)))) |};
     xf_payload := xor_parity chunk_size set my_rank |}.

(** The byte at [pos] of the zero-padded logical file of a member. *)
Definition padded_byte (files : list (list Z)) (pos : Z) : Z :=
  nth (Z.to_nat pos) (concat files) 0.

(** The byte at [p] of the parity of [slot]: the XOR over the other
    members of the byte at [p] of the chunk they contribute. *)
Definition parity_byte (chunk_size : Z) (set : list (list (list Z)))
    (slot p : Z) : Z :=
  foldr Z.lxor 0
    (map (fun r =>
            padded_byte (default [] (set !! Z.to_nat r))
              (chunk_size * slot_index slot r + p))
       (others (Z.of_nat (length set)) slot)).

(** *** The positions during a rebuild *)

(** Where the member [my_rank] stands at the start of the block at
    [nread] of [chunk_id]: it has read one chunk of its logical file for
    every chunk id before [chunk_id] other than its own and [nread] bytes
    of the present one, and the chunk of its XOR file once [chunk_id] has
    passed its rank. *)
Definition read_pos_at (chunk_size chunk_id nread my_rank : Z) : read_pos :=
  {| rd_offset :=
       chunk_size * (if chunk_id <=? my_rank then chunk_id else chunk_id - 1)
       + (if chunk_id =? my_rank then 0 else nread);
     rd_chunk :=
       if my_rank <? chunk_id then chunk_size
       else if chunk_id =? my_rank then nread else 0 |}.

(** What the root has written at that point when nothing went wrong: the
    front of its logical file and of the payload of its XOR file. *)
Definition root_state_at (chunk_size : Z) (set : list (list (list Z)))
    (root chunk_id nread : Z) : root_state :=
  let pos := read_pos_at chunk_size chunk_id nread root in
  {| rt_logical :=
       take (Z.to_nat (rd_offset pos))
         (concat (default [] (set !! Z.to_nat root)));
     rt_offset := rd_offset pos;
     rt_payload :=
       take (Z.to_nat (rd_chunk pos)) (xor_parity chunk_size set root) |}.

(** Three members with files of unequal sizes; the second member holds
    two files, the third an empty one. *)
Definition sample_xor_set : list (list (list Z)) :=
  [ [[1; 2; 3; 4; 5]]; [[6; 7]; [8]]; [[]] ].

Definition sample_lost : survivor :=
  {| sv_files := [];
     sv_xor := {| xf_header := {| hdr_chunk_size := 0; hdr_current := [];
                                  hdr_partner := [] |};
                  xf_payload := [] |} |}.

End XorCode.

(** ** Streaming a file to a partner: the loops of [scr_swap_files] *)

Module Swap.

(** Modelled from the spec: the file contents are streamed "in fixed-size
    chunks"; [scr_read] of [scr_io.h] returns the bytes of the file from
    the position of the descriptor on, [count] of them or, at the end of
    the file, those that are left. *)
Definition scr_read (content : list Z) (pos count : Z) : list Z :=
  take (Z.to_nat count) (drop (Z.to_nat pos) content).

(** Modelled from the spec: [scr_write] of [scr_io.h] at the position
    [pos] of the descriptor: the bytes replace those of the file from
    [pos] on and extend it where it ends; a gap before [pos] reads as
    zeros, and nothing changes when no byte is written. *)
Definition write_at (content : list Z) (pos : Z) (buf : list Z) : list Z :=
  match buf with
  | [] => content
  | _ :: _ =>
      take (Z.to_nat pos)
        (content ++ replicate (Z.to_nat pos - length content) 0)
      ++ buf
      ++ drop (Z.to_nat pos + length buf) content
  end.

(** [truncate(file, size)] *)
Definition truncate (content : list Z) (size : Z) : list Z :=
  take (Z.to_nat size)
    (content ++ replicate (Z.to_nat size - length content) 0).

(** The state of the loop [while (sending || receiving)]: the two flags,
    the positions, the contents of the file that is written, the messages
    of [rank_recv] that are still to be received and the messages sent to
    [rank_send] so far. *)
Record swap_state := {
  sending : Z;
  receiving : Z;
  read_pos : Z;
  write_pos : Z;
  written : list Z;
  incoming : list (list Z);
  outgoing : list (list Z) }.

(** [nread = scr_read(...); if (nread < 0) nread = 0;] with [nread] an
    [int]. *)
Definition bytes_read (buf_send : list Z) : Z :=
  let nread := wrap_int (Z.of_nat (length buf_send)) in
  if nread <? 0 then 0 else nread.

(** The sending half of a pass for [COPY_FILES]: [file_send] is read
    through its own descriptor, whose position is [read_pos]. *)
Definition copy_send (scr_mpi_buf_size : Z) (file_send : list Z)
    (s : swap_state) : swap_state :=
  if truthy (sending s) then
    let buf_send := scr_read file_send (read_pos s) scr_mpi_buf_size in
    let nread := bytes_read buf_send in
    {| sending := if nread <? scr_mpi_buf_size then 0 else sending s;
       receiving := receiving s;
       read_pos := read_pos s + Z.of_nat (length buf_send);
       write_pos := write_pos s;
       written := written s;
       incoming := incoming s;
       outgoing := outgoing s ++ [take (Z.to_nat nread) buf_send] |}
  else s.

(** The receiving half for [COPY_FILES]: what is received is appended to
    [file_recv].  [None]: [MPI_Wait] does not return, no message being
    left to receive. *)
Definition copy_recv (scr_mpi_buf_size : Z) (s : swap_state)
  : option swap_state :=
  if truthy (receiving s) then
    match incoming s with
    | [] => None
    | buf_recv :: rest =>
        let nwrite := wrap_int (Z.of_nat (length buf_recv)) in
        Some {| sending := sending s;
                receiving :=
                  if nwrite <? scr_mpi_buf_size then 0 else receiving s;
                read_pos := read_pos s;
                write_pos := write_pos s;
                written := written s ++ take (Z.to_nat nwrite) buf_recv;
                incoming := rest;
                outgoing := outgoing s |}
    end
  else Some s.

Definition copy_step (scr_mpi_buf_size : Z) (file_send : list Z)
    (s : swap_state) : option swap_state :=
  copy_recv scr_mpi_buf_size (copy_send scr_mpi_buf_size file_send s).

(** The sending half of a pass for [MOVE_FILES]: one descriptor, the
    file [written] is read at [read_pos]. *)
Definition move_send (scr_mpi_buf_size filesize_send : Z) (s : swap_state)
  : swap_state :=
  if truthy (sending s) then
    let count := wrap_ulong (filesize_send - read_pos s) in
    let count :=
      if count >? scr_mpi_buf_size then scr_mpi_buf_size else count in
    let buf_send := scr_read (written s) (read_pos s) count in
    let nread := bytes_read buf_send in
    let read_pos := read_pos s + nread in
    {| sending :=
         if (filesize_send =? read_pos) && (count <? scr_mpi_buf_size)
         then 0 else sending s;
       receiving := receiving s;
       read_pos := read_pos;
       write_pos := write_pos s;
       written := written s;
       incoming := incoming s;
       outgoing := outgoing s ++ [take (Z.to_nat nread) buf_send] |}
  else s.

(** The receiving half for [MOVE_FILES]: the file is overwritten at
    [write_pos]. *)
Definition move_recv (scr_mpi_buf_size : Z) (s : swap_state)
  : option swap_state :=
  if truthy (receiving s) then
    match incoming s with
    | [] => None
    | buf_recv :: rest =>
        let nwrite := wrap_int (Z.of_nat (length buf_recv)) in
        Some {| sending := sending s;
                receiving :=
                  if nwrite <? scr_mpi_buf_size then 0 else receiving s;
                read_pos := read_pos s;
                write_pos := write_pos s + nwrite;
                written :=
                  write_at (written s) (write_pos s)
                    (take (Z.to_nat nwrite) buf_recv);
                incoming := rest;
                outgoing := outgoing s |}
    end
  else Some s.

Definition move_step (scr_mpi_buf_size filesize_send : Z) (s : swap_state)
  : option swap_state :=
  move_recv scr_mpi_buf_size (move_send scr_mpi_buf_size filesize_send s).

(** [while (sending || receiving)]; [None] when a receive blocks or the
    loop has not ended within [fuel] passes. *)
Fixpoint swap_loop (step : swap_state -> option swap_state) (fuel : nat)
    (s : swap_state) : option swap_state :=
  if truthy (sending s) || truthy (receiving s) then
    match fuel with
    | O => None
    | S fuel' => s ← step s; swap_loop step fuel' s
    end
  else Some s.

(** What the exchange leaves: the messages sent, the messages of the
    partner that were not received, and the two files. *)
Record swap_result := {
  sw_outgoing : list (list Z);
  sw_unreceived : list (list Z);
  sw_file_send : option (list Z);
  sw_file_recv : option (list Z) }.

(** The loop is entered with [sending = have_outgoing] and [receiving =
    have_incoming]. *)
Definition swap_start (file : list Z) (have_outgoing have_incoming : bool)
    (messages : list (list Z)) : swap_state :=
  {| sending := if have_outgoing then 1 else 0;
     receiving := if have_incoming then 1 else 0;
     read_pos := 0; write_pos := 0; written := file;
     incoming := messages; outgoing := [] |}.

(** A pass either ends the sending or reads [scr_mpi_buf_size] bytes, and
    it receives one message: so many passes are enough for every file and
    every list of messages. *)
Definition swap_fuel (file_send : option (list Z))
    (messages : option (list (list Z))) : nat :=
  S (length (default [] file_send) + length (default [] messages)).

(** [scr_swap_files(COPY_FILES, ...)], the exchange of the contents:
    [file_send] is the file to send if there is one, [messages] what
    [rank_recv] sends if a file is expected.  [file_recv] is opened with
    [O_TRUNC]. *)
Definition swap_copy (scr_mpi_buf_size : Z) (file_send : option (list Z))
    (messages : option (list (list Z))) : option swap_result :=
  s ← swap_loop (copy_step scr_mpi_buf_size (default [] file_send))
         (swap_fuel file_send messages)
         (swap_start [] (bool_decide (is_Some file_send))
            (bool_decide (is_Some messages)) (default [] messages));
  Some {| sw_outgoing := outgoing s;
          sw_unreceived := incoming s;
          sw_file_send := file_send;
          sw_file_recv :=
            if bool_decide (is_Some messages) then Some (written s)
            else None |}.

(** [scr_swap_files(MOVE_FILES, ...)]: with a file to send, the file is
    opened [O_RDWR] and overwritten in place, then truncated to
    [write_pos] and renamed to [file_recv], or unlinked when nothing was
    to be received; without one, [file_recv] is written from scratch. *)
Definition swap_move (scr_mpi_buf_size : Z) (file_send : option (list Z))
    (messages : option (list (list Z))) : option swap_result :=
  let filesize_send := Z.of_nat (length (default [] file_send)) in
  s ← swap_loop (move_step scr_mpi_buf_size filesize_send)
         (swap_fuel file_send messages)
         (swap_start (default [] file_send)
            (bool_decide (is_Some file_send))
            (bool_decide (is_Some messages)) (default [] messages));
  Some {| sw_outgoing := outgoing s;
          sw_unreceived := incoming s;
          sw_file_send := None;
          sw_file_recv :=
            match file_send, messages with
            | Some _, Some _ => Some (truncate (written s) (write_pos s))
            | Some _, None => None
            | None, Some _ => Some (written s)
            | None, None => None
            end |}.

(** The messages that carry a file: chunks of [scr_mpi_buf_size] bytes and
    a last, shorter one, which is empty when the size of the file is a
    multiple of the buffer size. *)
Fixpoint frame_from (fuel : nat) (scr_mpi_buf_size : Z) (content : list Z)
  : list (list Z) :=
  let chunk := take (Z.to_nat scr_mpi_buf_size) content in
  if Z.of_nat (length chunk) <? scr_mpi_buf_size then [chunk]
  else
    match fuel with
    | O => [chunk]
    | S fuel' =>
        chunk :: frame_from fuel' scr_mpi_buf_size
                   (drop (Z.to_nat scr_mpi_buf_size) content)
    end.

Definition frame (scr_mpi_buf_size : Z) (content : list Z)
  : list (list Z) :=
  frame_from (length content) scr_mpi_buf_size content.

End Swap.

(** ** The schedule of [scr_distribute_files] *)

Module Distribute.
Import Descriptors FileMap Rebuild.

(** A process at the restart: its cache, and its filemap as
    [scr_clean_files] has left it. *)
Record holder := { hl_cache : Meta.files; hl_map : scr_filemap }.

(** "walk backwards through the list of ranks, and set our start index to
    the rank which is the first rank that is equal to or higher than our
    own rank", and "check that the rank is within range": the final
    [start_index] and [invalid_rank_found]. *)
Definition scan_ranks (scr_ranks_world scr_my_rank_world : Z)
    (ranks : list Z) : Z * Z :=
  fold_left
    (fun '(start_index, invalid_rank_found) '(i, rank) =>
       (if rank >=? scr_my_rank_world then i else start_index,
        if (rank <? 0) || (rank >=? scr_ranks_world) then 1
        else invalid_rank_found))
    (rev (imap (fun i rank => (Z.of_nat i, rank)) ranks)) (0, 0).

(** [index = (start_index + round) % nranks; rank = ranks[index];] *)
Definition have_rank_by_round (ranks : list Z) (start_index round : Z)
  : option Z :=
  ranks !! Z.to_nat (int_rem (int_add start_index round)
                       (Z.of_nat (length ranks))).

(** Modelled from the spec: [scr_hash_exchange] is the "all-to-all
    exchange [send_hash], producing [recv_hash[src_rank] =
    round_src_will_send]".  The hash of a process pairs a destination rank
    with a round; what the process [scr_my_rank_world] receives pairs
    every source that addressed it with the round that the source gave,
    the sources in the order of their ranks. *)
Definition scr_hash_exchange (send_hashes : list (list (Z * Z)))
    (scr_my_rank_world : Z) : list (Z * Z) :=
  omap id
    (imap (fun src send_hash =>
             match List.find (fun '(rank, _) => rank =? scr_my_rank_world)
                     send_hash with
             | Some (_, round) => Some (Z.of_nat src, round)
             | None => None
             end)
       send_hashes).

(** "search for the minimum round we can get our files" *)
Definition retrieve (recv_hash : list (Z * Z)) : Z * Z :=
  fold_left
    (fun '(retrieve_rank, retrieve_round) '(rank, round) =>
       if (round <? retrieve_round) || (retrieve_round =? -1)
       then (rank, round) else (retrieve_rank, retrieve_round))
    recv_hash (-1, -1).

(** "determine which ranks want to fetch their files from us" *)
Definition send_flags (nranks : Z) (recv_hash : list (Z * Z)) : list Z :=
  fold_left
    (fun send_flag_by_round '(_, round) =>
       if (round >=? 0) && (round <? nranks)
       then <[Z.to_nat round := 1]> send_flag_by_round
       else send_flag_by_round)
    recv_hash (replicate (Z.to_nat nranks) 0).

Section Schedule.
Variable world : list holder.
Variable checkpoint_id : Z.

Definition scr_ranks_world : Z := Z.of_nat (length world).

(** "for this checkpoint, get list of ranks we have data for" *)
Definition held (h : holder) : list Z :=
  scr_filemap_list_ranks_by_checkpoint (hl_map h) checkpoint_id.

Definition start_index (scr_my_rank_world : Z) (h : holder) : Z :=
  fst (scan_ranks scr_ranks_world scr_my_rank_world (held h)).

Definition invalid_rank_found (scr_my_rank_world : Z) (h : holder) : Z :=
  snd (scan_ranks scr_ranks_world scr_my_rank_world (held h)).

(** "check that we have all of the files for each rank, and determine the
    round we can send them": the pairs of a rank and a round that the
    process puts into its [send_hash]. *)
Definition offers (scr_my_rank_world : Z) (h : holder) : list (Z * Z) :=
  omap (fun round =>
          match have_rank_by_round (held h)
                  (start_index scr_my_rank_world h) round with
          | Some rank =>
              if truthy (scr_bool_have_files (hl_cache h) scr_ranks_world
                           (hl_map h) checkpoint_id rank)
              then Some (rank, round) else None
          | None => None
          end)
    (seqZ 0 (Z.of_nat (length (held h)))).

Definition all_offers : list (list (Z * Z)) :=
  imap (fun rank h => offers (Z.of_nat rank) h) world.

(** [retrieve_rank] and [retrieve_round] of a process. *)
Definition retrieve_of (scr_my_rank_world : Z) : Z * Z :=
  retrieve (scr_hash_exchange all_offers scr_my_rank_world).

(** "tell destination which round we'll take our files in" *)
Definition request (scr_my_rank_world : Z) : list (Z * Z) :=
  let '(retrieve_rank, retrieve_round) := retrieve_of scr_my_rank_world in
  if negb (retrieve_rank =? -1) then [(retrieve_rank, retrieve_round)]
  else [].

Definition all_requests : list (list (Z * Z)) :=
  imap (fun rank _ => request (Z.of_nat rank)) world.

Definition send_flag_by_round (scr_my_rank_world : Z) (h : holder)
  : list Z :=
  send_flags (Z.of_nat (length (held h)))
    (scr_hash_exchange all_requests scr_my_rank_world).

(** "get the maximum retrieve round" *)
Definition max_rounds : Z :=
  allreduce_max_int
    (imap (fun rank _ => snd (retrieve_of (Z.of_nat rank))) world).

(** Whether the function goes on to the rounds: no process has found an
    invalid rank, and, unless the scheme is XOR, every process can get its
    files. *)
Definition reaches_rounds (copy_type : copy_type_t) : bool :=
  truthy (scr_alltrue
            (imap (fun rank h =>
                     of_bool (invalid_rank_found (Z.of_nat rank) h =? 0))
               world))
  && (bool_decide (copy_type = SCR_COPY_XOR)
      || truthy (scr_alltrue
                   (imap (fun rank _ =>
                            of_bool
                              (negb (fst (retrieve_of (Z.of_nat rank))
                                     =? -1)))
                      world))).

(** The process to send to in a round, [None] for [MPI_PROC_NULL]. *)
Definition send_rank (scr_my_rank_world : Z) (h : holder) (round : Z)
  : option Z :=
  if round <? Z.of_nat (length (held h)) then
    if truthy (default 0 (send_flag_by_round scr_my_rank_world h
                            !! Z.to_nat round))
    then have_rank_by_round (held h) (start_index scr_my_rank_world h)
           round
    else None
  else None.

(** The process to receive from in a round. *)
Definition recv_rank (scr_my_rank_world : Z) (round : Z) : option Z :=
  if snd (retrieve_of scr_my_rank_world) =? round
  then Some (fst (retrieve_of scr_my_rank_world)) else None.

End Schedule.

(** Three processes restart with checkpoint 1 in cache.  Every cached file
    has four bytes and a complete sidecar; process 0 holds the files of the
    ranks 1 and 2, process 1 those of rank 0, and process 2 nothing. *)
Definition sample_file (rank : Z) : string :=
  "/ram/ckpt.1/rank_" +:+
  match rank with 0 => "0" | 1 => "1" | _ => "2" end.

Definition sample_meta (rank : Z) : Meta.scr_meta :=
  {| Meta.meta_filename := Some (sample_file rank);
     Meta.meta_filetype := Some Meta.SCR_META_FILE_FULL;
     Meta.meta_filesize := Some 4;
     Meta.meta_checkpoint_id := Some 1;
     Meta.meta_rank := Some rank;
     Meta.meta_ranks := Some 3;
     Meta.meta_complete := Some 1;
     Meta.meta_crc32 := None |}.

Definition sample_holder (ranks : list Z) : holder :=
  {| hl_cache :=
       {| Meta.data :=
            list_to_map
              (map (fun r => (sample_file r,
                              {| Meta.f_readable := true;
                                 Meta.f_size := 4 |})) ranks);
          Meta.sidecars :=
            list_to_map (map (fun r => (sample_file r, sample_meta r))
                           ranks) |};
     hl_map :=
       {[ 1 := list_to_map
                 (map (fun r => (r, {| files := {[ sample_file r ]};
                                       expected_count := Some 1;
                                       descriptor_hash := None;
                                       tags := ∅ |})) ranks) ]} |}.

Definition sample_restart : list holder :=
  [sample_holder [1; 2]; sample_holder [0]; sample_holder []].

End Distribute.

(** ** The partner copy: [scr_copy_partner] *)

Module PartnerCopy.
Import Descriptors FileMap Library Redundancy.

(** Modelled from the spec: the tag of the filemap that names the node of
    the partner, "tags: {PARTNER: hostname, ...}". *)
Definition SCR_FILEMAP_KEY_PARTNER : string := "PARTNER".

(** Modelled from the spec: [scr_filemap_set_tag] records a tag of
    (ckpt, rank). *)
Definition scr_filemap_set_tag (map : scr_filemap) (ckpt rank : Z)
    (key value : string) : scr_filemap :=
  let e := entry map ckpt rank in
  set_entry map ckpt rank
    {| files := files e; expected_count := expected_count e;
       descriptor_hash := descriptor_hash e;
       tags := <[key := value]> (tags e) |}.

(** A process of the communicator of the descriptor: its descriptor, its
    rank in the world and its filemap. *)
Record party := {
  pt_desc : scr_ckptdesc;
  pt_rank_world : Z;
  pt_map : scr_filemap }.

(** The arguments of a call of [scr_swap_files]: [None] is [NULL] for a
    file to send, [MPI_PROC_NULL] for a rank, and a [file_partner] that
    has not been set. *)
Record swap_call := {
  sc_file_send : option string;
  sc_rank_send : option Z;
  sc_file_recv : option string;
  sc_rank_recv : option Z }.

(** What [scr_copy_partner] leaves: its return code, the filemap, the
    filemap last written to [scr_map_file], and its calls of
    [scr_swap_files] in order. *)
Record copy_result := {
  cp_rc : Z;
  cp_map : scr_filemap;
  cp_map_file : scr_filemap;
  cp_swaps : list swap_call }.

(** The name that [scr_swap_file_names] sends: "determine whether we have
    a file to send". *)
Definition outgoing_name (file_send : option string) (rank_send : option Z)
  : option string :=
  match rank_send, file_send with
  | Some _, Some file =>
      if bool_decide (file <> EmptyString) then Some file else None
  | _, _ => None
  end.

Section CopyPartner.
(** [SCR_MAX_FILENAME] and the path helpers are not part of [scr.c]. *)
Variable SCR_MAX_FILENAME : Z.
Variable scr_split_path : string -> string * string.
Variable scr_build_path : Z -> string -> string -> Z * string.
(** What the call of [scr_swap_files] in a step of the loop returns. *)
Variable swap_rc : nat -> Z.
(** The processes of [c->comm], by their rank in it; all of them are in
    [scr_copy_partner] for the same checkpoint. *)
Variable comm : list party.
Variable checkpoint_id : Z.

Definition peer (rank : Z) : option party :=
  if rank <? 0 then None else comm !! Z.to_nat rank.

(** "get a list of our files" *)
Definition own_files (p : party) : list string :=
  scr_filemap_list_files (pt_map p) checkpoint_id (pt_rank_world p).

(** [MPI_Sendrecv] and [scr_hash_sendrecv] to [c->rhs_rank] and from
    [c->lhs_rank]: what the left partner sends.  The call returns when
    the left partner sends to this process and the right partner receives
    from it; [None] when a partner is not a rank of the communicator or
    addresses another process. *)
Definition sendrecv {A} (c : scr_ckptdesc) (payload : party -> A)
  : option A :=
  lhs ← peer (lhs_rank c);
  rhs ← peer (rhs_rank c);
  if (rhs_rank (pt_desc lhs) =? my_rank c)
     && (lhs_rank (pt_desc rhs) =? my_rank c)
  then Some (payload lhs) else None.

(** The file and the rank that a process passes to [scr_swap_file_names]
    in a step: "if we have a file left to send, get the filename and
    destination rank", its [send_num] having gone down by one in every
    step before. *)
Definition send_in_step (p : party) (step : nat)
  : option string * option Z :=
  let numfiles := Z.of_nat (length (own_files p)) in
  let send_num := numfiles - Z.of_nat step in
  if send_num >? 0
  then (own_files p !! Z.to_nat (int_sub numfiles send_num),
        Some (rhs_rank (pt_desc p)))
  else (None, None).

(** [scr_swap_file_names(file_send, rank_send, file_recv, size_recv,
    rank_recv, dir_recv, comm)] as the receiver sees it, [sent] being the
    name that the process [rank_recv] sends in its own call: [file_recv]
    afterwards, [Some None] when it is left as it was.  The receive takes
    at most [SCR_MAX_FILENAME] bytes, and the wait does not end without a
    message; the return code of [scr_build_path] is not looked at. *)
Definition scr_swap_file_names (sent : option string)
    (rank_recv : option Z) (dir_recv : string) : option (option string) :=
  let have_incoming :=
    bool_decide (is_Some rank_recv)
    && bool_decide (dir_recv <> EmptyString) in
  if have_incoming then
    match sent with
    | Some file_recv_orig =>
        if Z.of_nat (String.length file_recv_orig) + 1 <=? SCR_MAX_FILENAME
        then
          let '(path, name) := scr_split_path file_recv_orig in
          Some (Some (snd (scr_build_path SCR_MAX_FILENAME dir_recv name)))
        else None
    | None => None
    end
  else Some None.

(** "for each potential file, step through a call to swap" *)
Fixpoint copy_loop (fuel : nat) (c : scr_ckptdesc) (lhs : party)
    (files : list string) (ckpt_dir : string) (step : nat)
    (send_num recv_num rc : Z) (map map_file : scr_filemap)
    (swaps : list swap_call) : option copy_result :=
  if (send_num >? 0) || (recv_num >? 0) then
    match fuel with
    | O => None
    | S fuel =>
        let numfiles := Z.of_nat (length files) in
        let '(file, send_rank, send_num) :=
          if send_num >? 0
          then (files !! Z.to_nat (int_sub numfiles send_num),
                Some (rhs_rank c), int_sub send_num 1)
          else (None, None, send_num) in
        let '(recv_rank, recv_num) :=
          if recv_num >? 0
          then (Some (lhs_rank c), int_sub recv_num 1)
          else (None, recv_num) in
        let '(file_lhs, rank_lhs) := send_in_step lhs step in
        match scr_swap_file_names (outgoing_name file_lhs rank_lhs)
                recv_rank ckpt_dir with
        | None => None
        | Some file_partner =>
            let recorded :=
              match recv_rank, file_partner with
              | Some _, Some name =>
                  let map :=
                    scr_filemap_add_file map checkpoint_id
                      (lhs_rank_world c) name in
                  Some (map, map)
              | Some _, None => None
              | None, _ => Some (map, map_file)
              end in
            match recorded with
            | None => None
            | Some (map, map_file) =>
                let rc :=
                  if negb (swap_rc step =? SCR_SUCCESS) then SCR_FAILURE
                  else rc in
                copy_loop fuel c lhs files ckpt_dir (S step) send_num
                  recv_num rc map map_file
                  (swaps ++ [{| sc_file_send := file;
                                sc_rank_send := send_rank;
                                sc_file_recv := file_partner;
                                sc_rank_recv := recv_rank |}])
            end
        end
    end
  else Some {| cp_rc := rc; cp_map := map; cp_map_file := map_file;
               cp_swaps := swaps |}.

(** [scr_copy_partner(map, c, checkpoint_id)] on the process [p]; [None]
    when the call does not return with a defined result. *)
Definition scr_copy_partner (p : party) : option copy_result :=
  let c := pt_desc p in
  let files := own_files p in
  let send_num := Z.of_nat (length files) in
  lhs ← peer (lhs_rank c);
  recv_num ← sendrecv c (fun q => Z.of_nat (length (own_files q)));
  let map :=
    scr_filemap_set_expected_files (pt_map p) checkpoint_id
      (lhs_rank_world c) recv_num in
  let map :=
    scr_filemap_set_tag map checkpoint_id (lhs_rank_world c)
      SCR_FILEMAP_KEY_PARTNER (lhs_hostname c) in
  lhs_desc_hash ← sendrecv c (fun q => scr_ckptdesc_store_to_hash (pt_desc q));
  let map :=
    scr_filemap_set_desc map checkpoint_id (lhs_rank_world c)
      lhs_desc_hash in
  dir ← directory c;
  copy_loop (Z.to_nat (Z.max send_num recv_num)) c lhs files
    (checkpoint_dir_name dir checkpoint_id) 0 send_num recv_num
    SCR_SUCCESS map map [].

(** The loop in closed form.  The name under which the file of a partner
    is stored in [ckpt_dir]: *)
Definition partner_name (ckpt_dir file : string) : string :=
  snd (scr_build_path SCR_MAX_FILENAME ckpt_dir (snd (scr_split_path file))).

(** the call of [scr_swap_files] in a step of the process [p] whose left
    partner is [lhs]: *)
Definition swap_in_step (p lhs : party) (ckpt_dir : string) (step : nat)
  : swap_call :=
  {| sc_file_send := own_files p !! step;
     sc_rank_send :=
       if decide (step < length (own_files p))%nat
       then Some (rhs_rank (pt_desc p)) else None;
     sc_file_recv := partner_name ckpt_dir <$> own_files lhs !! step;
     sc_rank_recv :=
       if decide (step < length (own_files lhs))%nat
       then Some (lhs_rank (pt_desc p)) else None |}.

(** and the return code after the given steps. *)
Definition rc_after (rc : Z) (steps : list nat) : Z :=
  fold_left
    (fun rc step =>
       if negb (swap_rc step =? SCR_SUCCESS) then SCR_FAILURE else rc)
    steps rc.

(** The communicator as [scr_set_partners] leaves it: every process is at
    its rank, it is the right partner of its left partner and the left
    partner of its right partner. *)
Definition partners_agree : Prop :=
  forall (i : nat) (p : party), comm !! i = Some p ->
    my_rank (pt_desc p) = Z.of_nat i /\
    exists lhs rhs,
      peer (lhs_rank (pt_desc p)) = Some lhs /\
      peer (rhs_rank (pt_desc p)) = Some rhs /\
      rhs_rank (pt_desc lhs) = Z.of_nat i /\
      lhs_rank (pt_desc rhs) = Z.of_nat i.

(** The files of a process can be sent: their count is an [int], no name
    is empty, and every name with its final zero fits the receive buffer. *)
Definition files_fit (p : party) : Prop :=
  Z.of_nat (length (own_files p)) <= INT_MAX /\
  Forall (fun file =>
            file <> EmptyString /\
            Z.of_nat (String.length file) + 1 <= SCR_MAX_FILENAME)
    (own_files p).

End CopyPartner.

(** Two processes that are partners of each other: process 0 has routed
    two files of checkpoint 1 and process 1 one. *)
Definition sample_party (rank : Z) (file_names : list string) : party :=
  {| pt_desc :=
       {| enabled := 1; index := 0; interval := 1; base := Some "/ram";
          directory := Some "/ram/scr"; copy_type := SCR_COPY_PARTNER;
          hop_distance := 1; set_size := 8; groups := 1; group_id := 0;
          ranks := 2; my_rank := rank;
          lhs_rank := 1 - rank; lhs_rank_world := 1 - rank;
          lhs_hostname := if rank =? 0 then "node1" else "node0";
          rhs_rank := 1 - rank; rhs_rank_world := 1 - rank;
          rhs_hostname := if rank =? 0 then "node1" else "node0" |};
     pt_rank_world := rank;
     pt_map :=
       {[ 1 := {[ rank := {| files := list_to_set file_names;
                             expected_count := None;
                             descriptor_hash := None; tags := ∅ |} ]} ]} |}.

Definition sample_pair : list party :=
  [sample_party 0 ["a.ckpt"; "b.ckpt"]; sample_party 1 ["c.ckpt"]].

End PartnerCopy.
(** * Theorems *)

(** ** Facts about C integers *)

Module CIntFacts.

(** Side conditions "this value is representable". *)
Ltac int_range :=
  cbv [in_int in_ulong INT_MIN INT_MAX ULONG_MAX] in *; lia.

Lemma wrap_int_id z : in_int z -> wrap_int z = z.
Proof.
  unfold in_int, INT_MIN, INT_MAX, wrap_int.
  change (2 ^ 31) with 2147483648. change (2 ^ 32) with 4294967296.
  intros Hz. rewrite Z.mod_small; lia.
Qed.

Lemma wrap_ulong_id z : in_ulong z -> wrap_ulong z = z.
Proof.
  unfold in_ulong, ULONG_MAX, wrap_ulong.
  change (2 ^ 64) with 18446744073709551616.
  intros Hz. rewrite Z.mod_small; lia.
Qed.

Lemma int_rem_nonneg a b : 0 <= a -> 0 < b -> int_rem a b = a mod b.
Proof. intros Ha Hb. unfold int_rem. apply Z.rem_mod_nonneg; lia. Qed.

(** For a positive divisor, C's [a % b == 0] is divisibility. *)
Lemma int_rem_zero_divide a b : 0 < b -> int_rem a b = 0 <-> (b | a).
Proof.
  intros Hb. unfold int_rem. split.
  - intros H. apply Z.rem_divide; [lia | exact H].
  - intros H. apply Z.rem_divide; [lia | exact H].
Qed.

End CIntFacts.

(** ** Partner selection *)

Module PartnersFacts.
Import Partners CIntFacts.

Example partner_ranks_wraps_large_hop :
  partner_ranks 1 4 9 = Some (0, 2).
Proof. reflexivity. Qed.

Example partner_ranks_reflects_negative_hop :
  partner_ranks 1 4 (-3) = Some (0, 2).
Proof. reflexivity. Qed.

Example partner_ranks_hop_equal_to_size :
  partner_ranks 2 4 4 = Some (2, 2).
Proof. reflexivity. Qed.

Lemma shift_down_steps ranks fuel : forall dist,
  1 <= ranks -> dist <= INT_MAX ->
  dist - ranks <= Z.of_nat fuel ->
  exists k, 0 <= k /\
    shift_down fuel dist ranks = Some (dist - k * ranks) /\
    dist - k * ranks <= ranks /\
    (dist <= ranks -> k = 0) /\
    (ranks < dist -> 0 < dist - k * ranks).
Proof.
  induction fuel as [|fuel IH]; intros dist Hr Hmax Hfuel.
  - exists 0. simpl. destruct (Z.gtb_spec dist ranks); [lia|].
    repeat split; try lia. f_equal; lia.
  - simpl. destruct (Z.gtb_spec dist ranks) as [Hgt|Hle].
    + assert (Hsub : int_sub dist ranks = dist - ranks).
      { apply wrap_int_id. int_range. }
      rewrite Hsub.
      destruct (IH (dist - ranks)) as (k & Hk & Heq & Hub & Hz & Hpos);
        [lia | lia | lia |].
      exists (k + 1). split; [lia|].
      replace (dist - (k + 1) * ranks) with (dist - ranks - k * ranks) by lia.
      split; [exact Heq|]. split; [lia|]. split; [lia|].
      intros _. destruct (Z_le_gt_dec (dist - ranks) ranks) as [Hsmall|Hbig].
      * rewrite (Hz Hsmall). lia.
      * apply Hpos. lia.
    + exists 0. repeat split; try lia. f_equal; lia.
Qed.

Lemma shift_up_steps ranks fuel : forall dist,
  1 <= ranks -> ranks <= INT_MAX -> INT_MIN <= dist <= INT_MAX ->
  - dist <= Z.of_nat fuel ->
  exists k, 0 <= k /\
    shift_up fuel dist ranks = Some (dist + k * ranks) /\
    0 <= dist + k * ranks /\
    (0 <= dist -> k = 0) /\
    (dist < 0 -> dist + k * ranks < ranks).
Proof.
  induction fuel as [|fuel IH]; intros dist Hr Hrmax Hd Hfuel.
  - exists 0. simpl. destruct (Z.ltb_spec dist 0); [lia|].
    repeat split; try lia. f_equal; lia.
  - simpl. destruct (Z.ltb_spec dist 0) as [Hneg|Hpos].
    + assert (Hadd : int_add dist ranks = dist + ranks).
      { apply wrap_int_id. int_range. }
      rewrite Hadd.
      destruct (IH (dist + ranks)) as (k & Hk & Heq & Hlb & Hz & Hlt);
        [lia | lia | unfold INT_MIN, INT_MAX in *; lia | lia |].
      exists (k + 1). split; [lia|].
      replace (dist + (k + 1) * ranks) with (dist + ranks + k * ranks) by lia.
      split; [exact Heq|]. split; [lia|]. split; [lia|].
      intros _. destruct (Z_lt_ge_dec (dist + ranks) 0) as [Hstill|Hdone].
      * apply Hlt. exact Hstill.
      * rewrite Hz by lia. lia.
    + exists 0. repeat split; try lia. f_equal; lia.
Qed.

(** The two loops leave a distance in [0, ranks] that differs from the
    given one by a multiple of [ranks]. *)
Lemma shift_dist_spec dist ranks :
  1 <= ranks -> ranks <= INT_MAX -> in_int dist ->
  exists d q, shift_dist dist ranks = Some d /\
    0 <= d <= ranks /\ d = dist + q * ranks.
Proof.
  intros Hr Hrmax [Hlo Hhi]. unfold shift_dist.
  destruct (shift_down_steps ranks (Z.abs_nat dist) dist)
    as (k & Hk & Heq & Hub & Hz & Hpos); [lia | lia | lia |].
  rewrite Heq.
  destruct (shift_up_steps ranks (Z.abs_nat dist) (dist - k * ranks))
    as (j & Hj & Heq' & Hlb & Hz' & Hlt); [lia | lia | | |].
  - destruct (Z_le_gt_dec dist ranks) as [Hs|Hb].
    + rewrite (Hz Hs). lia.
    + specialize (Hpos ltac:(lia)). unfold INT_MIN. nia.
  - destruct (Z_le_gt_dec dist ranks) as [Hs|Hb].
    + rewrite (Hz Hs). lia.
    + specialize (Hpos ltac:(lia)). lia.
  - rewrite Heq'. exists (dist - k * ranks + j * ranks), (j - k).
    split; [reflexivity|]. split; [|lia].
    split; [lia|].
    destruct (Z_lt_ge_dec (dist - k * ranks) 0) as [Hn|Hp].
    + specialize (Hlt Hn). lia.
    + rewrite (Hz' ltac:(lia)). lia.
Qed.

(** C7.  Partner selection in [scr_set_partners]: for a communicator of
    [ranks >= 1] members, a position [0 <= my_rank < ranks] and every
    [int] hop distance [dist] (larger than the communicator, equal to it,
    zero or negative), the left partner is [(my_rank - dist) mod ranks]
    and the right partner is [(my_rank + dist) mod ranks].  The sums
    [my_rank + ranks -/+ dist] are formed in [int]; the statement covers
    the communicator sizes for which they are representable. *)
Theorem partner_ranks_modular (my_rank ranks dist : Z) :
  1 <= ranks -> 0 <= my_rank < ranks -> in_int dist ->
  my_rank + 2 * ranks <= INT_MAX ->
  partner_ranks my_rank ranks dist
    = Some ((my_rank - dist) mod ranks, (my_rank + dist) mod ranks).
Proof.
  intros Hr Hme Hd Hfit. unfold partner_ranks.
  destruct (shift_dist_spec dist ranks) as (d & q & Heq & Hrange & Hd');
    [lia | lia | exact Hd |].
  rewrite Heq. cbv zeta.
  assert (H1 : int_add my_rank ranks = my_rank + ranks).
  { apply wrap_int_id. int_range. }
  rewrite H1.
  assert (H2 : int_sub (my_rank + ranks) d = my_rank + ranks - d).
  { apply wrap_int_id. int_range. }
  assert (H3 : int_add (my_rank + ranks) d = my_rank + ranks + d).
  { apply wrap_int_id. int_range. }
  rewrite H2, H3.
  rewrite !int_rem_nonneg by lia.
  f_equal. f_equal.
  - replace (my_rank + ranks - d) with (my_rank - dist + (1 - q) * ranks)
      by lia.
    apply Z.mod_add. lia.
  - replace (my_rank + ranks + d) with (my_rank + dist + (1 + q) * ranks)
      by lia.
    apply Z.mod_add. lia.
Qed.

Lemma partner_ranks_modular_witness :
  partner_ranks 1 4 9 = Some ((1 - 9) mod 4, (1 + 9) mod 4).
Proof.
  apply (partner_ranks_modular 1 4 9);
    unfold in_int, INT_MIN, INT_MAX; lia.
Defined.

End PartnersFacts.

(** ** Descriptor selection *)

Module DescriptorFacts.
Import Descriptors CIntFacts.

Example get_prefers_larger_interval :
  scr_ckptdesc_get 6 [mk_desc 1 1 None; mk_desc 1 3 None; mk_desc 1 4 None]
  = Some 1%nat.
Proof. reflexivity. Qed.

Example get_skips_disabled :
  scr_ckptdesc_get 6 [mk_desc 1 1 None; mk_desc 0 3 None] = Some 0%nat.
Proof. reflexivity. Qed.

Example get_tie_takes_first :
  scr_ckptdesc_get 6 [mk_desc 1 3 (Some "a"); mk_desc 1 3 (Some "b")]
  = Some 0%nat.
Proof. reflexivity. Qed.

(** The three tests of the loop body as one condition. *)
Lemma ckptdesc_get_from_cons id d rest i c iv :
  ckptdesc_get_from id (d :: rest) i c iv
  = if truthy (enabled d) && (iv <? interval d)
       && (int_rem id (interval d) =? 0)
    then ckptdesc_get_from id rest (S i) (Some i) (interval d)
    else ckptdesc_get_from id rest (S i) c iv.
Proof.
  cbn [ckptdesc_get_from].
  destruct (truthy (enabled d)), (iv <? interval d),
    (int_rem id (interval d) =? 0); reflexivity.
Qed.

Lemma ckptdesc_get_test_spec id d iv :
  0 <= iv ->
  truthy (enabled d) && (iv <? interval d) && (int_rem id (interval d) =? 0)
  = true
  <-> enabled d <> 0 /\ iv < interval d /\ (interval d | id).
Proof.
  intros Hiv. unfold truthy. rewrite !andb_true_iff, negb_true_iff.
  rewrite Z.eqb_neq, Z.ltb_lt, Z.eqb_eq. split.
  - intros [[He Hlt] Hrem]. repeat split; try assumption.
    apply int_rem_zero_divide; [lia|exact Hrem].
  - intros (He & Hlt & Hdiv). repeat split; try assumption.
    apply int_rem_zero_divide; [lia|exact Hdiv].
Qed.

(** What the loop of [scr_ckptdesc_get] computes on the rest of the array:
    either it keeps the choice it started with, and then no enabled
    descriptor of the rest with a positive dividing interval exceeds
    [iv]; or it ends on a descriptor of the rest that beats [iv] and every
    such descriptor of the rest, the earliest one on ties. *)
Lemma ckptdesc_get_from_spec id ckpts : forall i c iv,
  0 <= iv ->
  (ckptdesc_get_from id ckpts i c iv = c /\
   forall j d, ckpts !! j = Some d -> enabled d <> 0 ->
     0 < interval d -> (interval d | id) -> interval d <= iv)
  \/
  (exists j d, ckptdesc_get_from id ckpts i c iv = Some (i + j)%nat /\
     ckpts !! j = Some d /\ enabled d <> 0 /\ iv < interval d /\
     (interval d | id) /\
     forall j' d', ckpts !! j' = Some d' -> enabled d' <> 0 ->
       0 < interval d' -> (interval d' | id) ->
       interval d' <= interval d /\
       (interval d' = interval d -> (j <= j')%nat)).
Proof.
  induction ckpts as [|d rest IH]; intros i c iv Hiv.
  - left. split; [reflexivity|]. intros j d Hj. discriminate.
  - rewrite ckptdesc_get_from_cons.
    destruct (truthy (enabled d) && (iv <? interval d)
              && (int_rem id (interval d) =? 0)) eqn:Htest.
    + (* the head is taken as the new choice *)
      apply ckptdesc_get_test_spec in Htest as (Hen & Hlt & Hdiv);
        [|exact Hiv].
      right.
      destruct (IH (S i) (Some i) (interval d) ltac:(lia))
        as [[Hr Hall]|(j & d2 & Hr & Hj & He & Hlt2 & Hdiv2 & Hmax)].
      * exists 0%nat, d. rewrite Nat.add_0_r.
        split; [exact Hr|]. split; [reflexivity|].
        split; [exact Hen|]. split; [exact Hlt|]. split; [exact Hdiv|].
        intros [|j'] d' Hj' Hen' Hpos' Hdiv'; cbn in Hj'.
        -- inversion Hj'; subst d'. split; [lia|]. intros _. lia.
        -- split; [eapply Hall; eauto|]. intros _. lia.
      * exists (S j), d2. rewrite Nat.add_succ_r.
        split; [exact Hr|]. split; [exact Hj|].
        split; [exact He|]. split; [lia|]. split; [exact Hdiv2|].
        intros [|j'] d' Hj' Hen' Hpos' Hdiv'; cbn in Hj'.
        -- inversion Hj'; subst d'. split; lia.
        -- destruct (Hmax j' d' Hj' Hen' Hpos' Hdiv') as [Hle Htie].
           split; [exact Hle|]. intros Heq. apply le_n_S, Htie, Heq.
    + (* the head is passed over: it does not beat [iv] *)
      assert (Hhead : enabled d <> 0 -> (interval d | id) ->
                      interval d <= iv).
      { intros Hen Hdiv. destruct (Z_le_gt_dec (interval d) iv); [lia|].
        assert (Hyes : truthy (enabled d) && (iv <? interval d)
                       && (int_rem id (interval d) =? 0) = true).
        { apply ckptdesc_get_test_spec; [exact Hiv|]. repeat split; auto; lia. }
        congruence. }
      destruct (IH (S i) c iv Hiv)
        as [[Hr Hall]|(j & d2 & Hr & Hj & He & Hlt & Hdiv & Hmax)].
      * left. split; [exact Hr|].
        intros [|j] d' Hj Hen' Hpos' Hdiv'; cbn in Hj.
        -- inversion Hj; subst d'. auto.
        -- eauto.
      * right. exists (S j), d2. rewrite Nat.add_succ_r.
        split; [exact Hr|]. split; [exact Hj|].
        split; [exact He|]. split; [exact Hlt|]. split; [exact Hdiv|].
        intros [|j'] d' Hj' Hen' Hpos' Hdiv'; cbn in Hj'.
        -- inversion Hj'; subst d'. specialize (Hhead Hen' Hdiv').
           split; lia.
        -- destruct (Hmax j' d' Hj' Hen' Hpos' Hdiv') as [Hle Htie].
           split; [exact Hle|]. intros Heq. apply le_n_S, Htie, Heq.
Qed.

(** Selection fails exactly when no enabled descriptor has a positive
    interval dividing the id; otherwise it returns a position holding an
    enabled descriptor with a positive dividing interval that is maximal,
    and earliest among the maximal ones. *)
Lemma scr_ckptdesc_get_cases id ckpts :
  (scr_ckptdesc_get id ckpts = None /\
   forall d, d ∈ ckpts -> enabled d <> 0 -> (interval d | id) ->
     interval d <= 0)
  \/
  (exists i c, scr_ckptdesc_get id ckpts = Some i /\
     ckpts !! i = Some c /\ enabled c <> 0 /\ 0 < interval c /\
     (interval c | id) /\
     forall j d, ckpts !! j = Some d -> enabled d <> 0 ->
       (interval d | id) ->
       interval d <= interval c /\ (interval d = interval c -> (i <= j)%nat)).
Proof.
  unfold scr_ckptdesc_get.
  destruct (ckptdesc_get_from_spec id ckpts 0 None 0 ltac:(lia))
    as [[Hr Hall]|(j & d & Hr & Hj & He & Hlt & Hdiv & Hmax)].
  - left. split; [exact Hr|]. intros d Hin Hen Hdiv.
    apply list_elem_of_lookup in Hin as [j Hj].
    destruct (Z_le_gt_dec (interval d) 0) as [|Hpos]; [assumption|].
    eapply Hall; eauto. lia.
  - right. exists j, d.
    split; [exact Hr|]. split; [exact Hj|]. split; [exact He|].
    split; [lia|]. split; [exact Hdiv|].
    intros j' d' Hj' Hen' Hdiv'.
    destruct (Z_le_gt_dec (interval d') 0) as [Hnonpos|Hpos].
    + split; lia.
    + apply (Hmax j' d' Hj' Hen' ltac:(lia) Hdiv').
Qed.

(** C4 (as amended).  For every checkpoint id and every array of
    descriptors, [scr_ckptdesc_get] considers the enabled descriptors
    whose interval is positive and divides the id evenly.  When there is
    one, it returns the descriptor with the largest interval dividing the
    id among all enabled descriptors, the earliest in array order when
    several have that interval.  When there is none (in particular when
    the only enabled dividing descriptors have an interval of zero or
    less), it returns [NULL]. *)
Theorem scr_ckptdesc_get_largest_positive_interval id ckpts :
  match scr_ckptdesc_get id ckpts with
  | Some i =>
      largest_dividing_enabled id ckpts i /\
      exists c, ckpts !! i = Some c /\ 0 < interval c
  | None =>
      forall d, d ∈ ckpts -> enabled d <> 0 -> (interval d | id) ->
        interval d <= 0
  end.
Proof.
  destruct (scr_ckptdesc_get_cases id ckpts)
    as [[Hr Hall]|(i & c & Hr & Hi & He & Hpos & Hdiv & Hmax)];
    rewrite Hr.
  - exact Hall.
  - split; [|exists c; auto].
    exists c. repeat split; try assumption; eapply Hmax; eauto.
Qed.

(** C4, counterexample to the claim as stated.  The single descriptor is
    enabled and its interval -1 divides 5, so it is the enabled descriptor
    with the largest dividing interval; [scr_ckptdesc_get] returns
    [NULL]. *)
Lemma scr_ckptdesc_get_rejects_negative_interval :
  largest_dividing_enabled 5 [mk_desc 1 (-1) None] 0
  /\ scr_ckptdesc_get 5 [mk_desc 1 (-1) None] = None.
Proof.
  split; [|reflexivity].
  exists (mk_desc 1 (-1) None). split; [reflexivity|].
  split; [discriminate|]. split; [exists (-5); reflexivity|].
  intros [|j] d Hj; cbn in Hj; [|discriminate].
  inversion Hj; subst. cbn. split; [lia|]. intros _. lia.
Qed.

End DescriptorFacts.

(** ** Topology: the validity rule and the all-reduce on [enabled] *)

Module TopologyFacts.
Import Descriptors CIntFacts.

Lemma check_partner_hostnames_fields host c :
  copy_type (check_partner_hostnames host c) = copy_type c /\
  lhs_hostname (check_partner_hostnames host c) = lhs_hostname c /\
  rhs_hostname (check_partner_hostnames host c) = rhs_hostname c.
Proof.
  unfold check_partner_hostnames.
  destruct (copy_type c) eqn:Hc; auto;
    match goal with |- context [if ?b then _ else _] => destruct b end;
    auto.
Qed.

Lemma check_partner_hostnames_valid host c :
  cross_node c ->
  valid_partner_hostnames host (check_partner_hostnames host c)
  \/ enabled (check_partner_hostnames host c) = 0.
Proof.
  intros Hx. unfold check_partner_hostnames.
  assert (Hgoal :
    valid_partner_hostnames host
      (if bool_decide (lhs_hostname c = EmptyString)
          || bool_decide (rhs_hostname c = EmptyString)
          || bool_decide (lhs_hostname c = host)
          || bool_decide (rhs_hostname c = host)
       then set_enabled c 0 else c)
    \/ enabled
      (if bool_decide (lhs_hostname c = EmptyString)
          || bool_decide (rhs_hostname c = EmptyString)
          || bool_decide (lhs_hostname c = host)
          || bool_decide (rhs_hostname c = host)
       then set_enabled c 0 else c) = 0).
  { repeat case_bool_decide; cbn [orb]; try (right; reflexivity).
    left. unfold valid_partner_hostnames. auto. }
  destruct Hx as [Hx|Hx]; rewrite Hx; exact Hgoal.
Qed.

Lemma disable_unless_alltrue_cases a c :
  (truthy a = true /\ disable_unless_alltrue a c = c)
  \/ (truthy a = false /\ enabled (disable_unless_alltrue a c) = 0).
Proof.
  unfold disable_unless_alltrue. destruct (truthy a); [left|right]; auto.
Qed.

Lemma scr_alltrue_flags flags :
  truthy (scr_alltrue flags) = true -> forall f, f ∈ flags -> f <> 0.
Proof.
  unfold scr_alltrue. intros H f Hin.
  destruct (forallb truthy flags) eqn:Hall; [|discriminate].
  rewrite forallb_forall in Hall.
  apply list_elem_of_In in Hin. specialize (Hall f Hin).
  unfold truthy in Hall. destruct (Z.eqb_spec f 0); [discriminate|assumption].
Qed.

(** With a non-empty communicator and [int] distances the partner lookup
    always finishes. *)
Lemma local_topology_total p :
  process_wf p -> is_Some (local_topology p).
Proof.
  intros (Hlen & Hmax & Hd). unfold local_topology, find_partners.
  assert (Hsp : forall dist, in_int dist ->
    is_Some (Partners.scr_set_partners (proc_comm p)
               (my_rank (proc_desc p)) dist)).
  { intros dist Hdist. unfold Partners.scr_set_partners, Partners.partner_ranks.
    destruct (PartnersFacts.shift_dist_spec dist
                (Z.of_nat (length (proc_comm p))))
      as (d & q & Heq & _); [lia | lia | exact Hdist |].
    rewrite Heq. eexists; reflexivity. }
  destruct (copy_type (proc_desc p)).
  - eexists; reflexivity.
  - eexists; reflexivity.
  - destruct (Hsp (hop_distance (proc_desc p)) Hd) as [x Hx].
    rewrite Hx. eexists; reflexivity.
  - destruct (Hsp 1) as [x Hx];
      [unfold in_int, INT_MIN, INT_MAX; lia|].
    rewrite Hx. eexists; reflexivity.
Qed.

Lemma local_topology_valid p c :
  local_topology p = Some c -> cross_node c ->
  valid_partner_hostnames (proc_hostname p) c \/ enabled c = 0.
Proof.
  unfold local_topology. intros H Hx.
  destruct (find_partners (proc_comm p) (proc_desc p)) as [c1|] eqn:Hf;
    [|discriminate].
  cbn in H. inversion H; subst c. clear H.
  apply check_partner_hostnames_valid.
  destruct (check_partner_hostnames_fields (proc_hostname p) c1) as (Hct & _).
  unfold cross_node in *. rewrite Hct in Hx. exact Hx.
Qed.

(** C6.  Every process of the world runs the tail of
    [scr_ckptdesc_create_from_hash].  (1) After the partner lookup and the
    hostname check of a PARTNER or XOR descriptor, either both partner
    hostnames are non-empty and differ from the process's own hostname, or
    the descriptor's [enabled] flag is 0.  (2) After the concluding
    all-reduce the descriptor is enabled on every process or on none.
    (3) Hence on every process an enabled PARTNER or XOR descriptor has
    partner hostnames that are non-empty and differ from its own. *)
Theorem topology_partner_hostnames_valid (world : list process) :
  Forall process_wf world ->
  exists cs, topology_world world = Some cs /\
    (forall p c, p ∈ world -> local_topology p = Some c -> cross_node c ->
       valid_partner_hostnames (proc_hostname p) c \/ enabled c = 0) /\
    ((forall c, c ∈ cs -> enabled c <> 0) \/
     (forall c, c ∈ cs -> enabled c = 0)) /\
    (forall i p c, world !! i = Some p -> cs !! i = Some c ->
       cross_node c -> enabled c <> 0 ->
       valid_partner_hostnames (proc_hostname p) c).
Proof.
  intros Hwf. unfold topology_world.
  assert (Hsome : is_Some (mapM local_topology world)).
  { apply mapM_is_Some. eapply Forall_impl; [exact Hwf|].
    intros p Hp. apply local_topology_total, Hp. }
  destruct Hsome as [cs0 Hcs0]. rewrite Hcs0. cbn.
  eexists. split; [reflexivity|].
  apply mapM_Some in Hcs0.
  split; [intros p c _; apply local_topology_valid|].
  set (a := scr_alltrue (map enabled cs0)).
  split.
  - destruct (truthy a) eqn:Ha.
    + left. intros c Hin. apply list_elem_of_In, in_map_iff in Hin
        as (c0 & Hc & Hin0).
      destruct (disable_unless_alltrue_cases a c0) as [[_ Heq]|[Hf _]];
        [|congruence].
      subst c. rewrite Heq.
      apply (scr_alltrue_flags _ Ha).
      apply list_elem_of_In, in_map, Hin0.
    + right. intros c Hin. apply list_elem_of_In, in_map_iff in Hin
        as (c0 & Hc & Hin0).
      destruct (disable_unless_alltrue_cases a c0) as [[Ht _]|[_ He]];
        [congruence|].
      subst c. exact He.
  - intros i p c Hp Hc Hx Hen.
    change (map (disable_unless_alltrue a) cs0)
      with (disable_unless_alltrue a <$> cs0) in Hc.
    rewrite list_lookup_fmap in Hc.
    destruct (cs0 !! i) as [c0|] eqn:Hc0; [|discriminate].
    cbn in Hc. inversion Hc; subst c; clear Hc.
    destruct (disable_unless_alltrue_cases a c0) as [[_ Heq]|[_ He]];
      [|congruence].
    rewrite Heq in *.
    pose proof (Forall2_lookup_lr _ _ _ _ _ _ Hcs0 Hp Hc0) as Hloc.
    destruct (local_topology_valid p c0 Hloc Hx) as [Hv|He]; [exact Hv|].
    congruence.
Qed.

Example partners_on_two_nodes_stay_enabled :
  map enabled <$> topology_world (sample_world "node0" "node1")
  = Some [1; 1].
Proof. vm_compute. reflexivity. Qed.

Example partners_on_one_node_are_disabled :
  map enabled <$> topology_world (sample_world "node0" "node0")
  = Some [0; 0].
Proof. vm_compute. reflexivity. Qed.

Lemma topology_partner_hostnames_valid_witness :
  exists cs, topology_world (sample_world "node0" "node1") = Some cs /\
    (forall p c, p ∈ sample_world "node0" "node1" ->
       local_topology p = Some c -> cross_node c ->
       valid_partner_hostnames (proc_hostname p) c \/ enabled c = 0) /\
    ((forall c, c ∈ cs -> enabled c <> 0) \/
     (forall c, c ∈ cs -> enabled c = 0)) /\
    (forall i p c, sample_world "node0" "node1" !! i = Some p ->
       cs !! i = Some c -> cross_node c -> enabled c <> 0 ->
       valid_partner_hostnames (proc_hostname p) c).
Proof.
  apply (topology_partner_hostnames_valid (sample_world "node0" "node1")).
  repeat constructor; cbn; unfold INT_MAX, INT_MIN; lia.
Defined.

End TopologyFacts.

(** ** The usable-file predicate *)

Module MetaFacts.
Import Meta.

Example have_file_sample :
  scr_bool_have_file sample_foreign_sidecar 7 3
    (Some "/cache/ckpt.7/rank_3.dat") 8 = 1.
Proof. vm_compute. reflexivity. Qed.

Example have_file_wrong_rank :
  scr_bool_have_file sample_foreign_sidecar 7 2
    (Some "/cache/ckpt.7/rank_3.dat") 8 = 0.
Proof. vm_compute. reflexivity. Qed.

Example have_file_null_name :
  scr_bool_have_file sample_foreign_sidecar 7 3 None 8 = 0.
Proof. reflexivity. Qed.

Lemma scr_meta_is_complete_success m :
  scr_meta_is_complete m = SCR_SUCCESS <->
  exists v, meta_complete m = Some v /\ v <> 0.
Proof.
  unfold scr_meta_is_complete, truthy, SCR_SUCCESS, SCR_FAILURE.
  destruct (meta_complete m) as [v|].
  - destruct (Z.eqb_spec v 0) as [Hv|Hv]; cbn.
    + split; [discriminate|]. intros (w & Hw & Hne). congruence.
    + split; [eauto|reflexivity].
  - split; [discriminate|]. intros (w & Hw & _). discriminate.
Qed.

Lemma access_R_OK_readable fs file :
  (access_R_OK fs file <? 0) = false <->
  exists f, data fs !! file = Some f /\ f_readable f = true.
Proof.
  unfold access_R_OK. destruct (data fs !! file) as [f|].
  - destruct (f_readable f) eqn:Hr; cbn.
    + split; [eauto|reflexivity].
    + split; [discriminate|]. intros (g & Hg & Hrg). congruence.
  - cbn. split; [discriminate|]. intros (g & Hg & _). discriminate.
Qed.

(** [scr_bool_have_file] answers 1 exactly on the files that pass its
    checks, and 0 on all others. *)
Lemma scr_bool_have_file_spec fs ckpt rank file ranks :
  (scr_bool_have_file fs ckpt rank (Some file) ranks = 1 /\
   usable_per_code fs ckpt rank file ranks)
  \/
  (scr_bool_have_file fs ckpt rank (Some file) ranks = 0 /\
   ~ usable_per_code fs ckpt rank file ranks).
Proof.
  unfold scr_bool_have_file, usable_per_code.
  case_bool_decide as Hname; [right; split; [reflexivity|tauto]|].
  destruct (access_R_OK fs file <? 0) eqn:Hacc.
  { right. split; [reflexivity|]. intros (_ & Hr & _).
    apply access_R_OK_readable in Hr. congruence. }
  apply access_R_OK_readable in Hacc.
  unfold scr_meta_read.
  destruct (sidecars fs !! file) as [m|] eqn:Hm.
  2:{ right. split; [reflexivity|]. intros (_ & _ & m & Hm' & _).
      discriminate. }
  change (SCR_SUCCESS =? SCR_SUCCESS) with true. cbn [negb].
  destruct (Z.eqb_spec (scr_meta_is_complete m) SCR_SUCCESS) as [Hc|Hc];
    cbn [negb].
  2:{ right. split; [reflexivity|]. intros (_ & _ & m' & Hm' & Hc' & _).
      inversion Hm'; subst m'. apply Hc.
      apply scr_meta_is_complete_success. exact Hc'. }
  apply scr_meta_is_complete_success in Hc.
  destruct (meta_checkpoint_id m) as [mc|] eqn:Hmc.
  2:{ right. split; [reflexivity|].
      intros (_ & _ & m' & Hm' & _ & Hx & _).
      inversion Hm'; subst m'. congruence. }
  destruct (Z.eqb_spec ckpt mc) as [Hck|Hck]; cbn [negb].
  2:{ right. split; [reflexivity|].
      intros (_ & _ & m' & Hm' & _ & Hx & _).
      inversion Hm'; subst m'. congruence. }
  destruct (meta_rank m) as [mr|] eqn:Hmr.
  2:{ right. split; [reflexivity|].
      intros (_ & _ & m' & Hm' & _ & _ & Hx & _).
      inversion Hm'; subst m'. congruence. }
  destruct (Z.eqb_spec rank mr) as [Hrk|Hrk]; cbn [negb].
  2:{ right. split; [reflexivity|].
      intros (_ & _ & m' & Hm' & _ & _ & Hx & _).
      inversion Hm'; subst m'. congruence. }
  destruct (meta_ranks m) as [mrs|] eqn:Hmrs.
  2:{ right. split; [reflexivity|].
      intros (_ & _ & m' & Hm' & _ & _ & _ & Hx & _).
      inversion Hm'; subst m'. congruence. }
  destruct (Z.eqb_spec ranks mrs) as [Hrks|Hrks]; cbn [negb].
  2:{ right. split; [reflexivity|].
      intros (_ & _ & m' & Hm' & _ & _ & _ & Hx & _).
      inversion Hm'; subst m'. congruence. }
  destruct (meta_filesize m) as [ms|] eqn:Hms.
  2:{ right. split; [reflexivity|].
      intros (_ & _ & m' & Hm' & _ & _ & _ & _ & Hx).
      inversion Hm'; subst m'. congruence. }
  destruct (Z.eqb_spec (scr_filesize fs file) ms) as [Hsz|Hsz]; cbn [negb].
  2:{ right. split; [reflexivity|].
      intros (_ & _ & m' & Hm' & _ & _ & _ & _ & Hx).
      inversion Hm'; subst m'. congruence. }
  left. split; [reflexivity|]. subst.
  split; [assumption|]. split; [assumption|].
  exists m. auto 10.
Qed.

(** C3 (as amended).  [scr_bool_have_file] returns true exactly when the
    file name is given and non-empty, the file is readable, its sidecar
    can be read, the sidecar's [complete] flag is true, the sidecar's
    checkpoint id, rank and rank count are present and equal the expected
    ones, and the sidecar's file size is present and equals the measured
    size of the file.  The sidecar's file name and file type are not
    examined. *)
Theorem scr_bool_have_file_checks fs ckpt rank file ranks :
  scr_bool_have_file fs ckpt rank file ranks <> 0 <->
  exists name, file = Some name /\ usable_per_code fs ckpt rank name ranks.
Proof.
  destruct file as [name|].
  - destruct (scr_bool_have_file_spec fs ckpt rank name ranks)
      as [[Hr Hu]|[Hr Hu]]; rewrite Hr.
    + split; [eauto|discriminate].
    + split; [congruence|]. intros (n & Hn & Hu'). inversion Hn; subst.
      tauto.
  - cbn. split; [congruence|]. intros (n & Hn & _). discriminate.
Qed.

(** C3, counterexample to the claim as stated.  The file is accepted
    although its sidecar records the name of another file and a file type
    that is neither FULL nor XOR. *)
Lemma scr_bool_have_file_ignores_name_and_type :
  scr_bool_have_file sample_foreign_sidecar 7 3
    (Some "/cache/ckpt.7/rank_3.dat") 8 = 1
  /\ ~ usable_per_spec sample_foreign_sidecar 7 3
         "/cache/ckpt.7/rank_3.dat" 8.
Proof.
  split; [vm_compute; reflexivity|].
  intros (m & Hm & _ & _ & Htype & _).
  cbn in Hm. rewrite lookup_singleton_eq in Hm. inversion Hm; subst m.
  cbn in Htype. destruct Htype as [H|H]; discriminate.
Qed.

End MetaFacts.

(** ** The XOR encoder's chunk size *)

Module XorEncoderFacts.
Import XorEncoder CIntFacts.

Example chunk_size_uneven :
  scr_copy_xor_chunk_size [10; 7; 3] = 5.
Proof. reflexivity. Qed.

Example chunk_size_even :
  scr_copy_xor_chunk_size [10; 12; 3; 0] = 4.
Proof. reflexivity. Qed.

Example chunk_size_all_empty :
  scr_copy_xor_chunk_size [0; 0; 0] = 1.
Proof. reflexivity. Qed.

Lemma sum_filesizes_in_ulong filesizes : in_ulong (sum_filesizes filesizes).
Proof.
  unfold sum_filesizes.
  assert (H : forall l acc, in_ulong acc ->
    in_ulong (fold_left (fun b s => wrap_ulong (b + s)) l acc)).
  { induction l as [|s l IH]; intros acc Hacc; cbn; [exact Hacc|].
    apply IH. unfold in_ulong, ULONG_MAX, wrap_ulong.
    change (2 ^ 64) with 18446744073709551616.
    pose proof (Z.mod_pos_bound (acc + s) 18446744073709551616). lia. }
  apply H. unfold in_ulong, ULONG_MAX. lia.
Qed.

Lemma allreduce_max_ulong_bounds vals :
  Forall in_ulong vals ->
  in_ulong (allreduce_max_ulong vals) /\
  (forall v, v ∈ vals -> v <= allreduce_max_ulong vals) /\
  (vals <> [] -> allreduce_max_ulong vals ∈ vals).
Proof.
  induction 1 as [|v vals Hv Hvals IH]; cbn.
  - split; [unfold in_ulong, ULONG_MAX; lia|].
    split; [intros v Hin; inversion Hin|congruence].
  - destruct IH as (Hin & Hub & Hmem).
    fold (allreduce_max_ulong vals).
    split; [unfold in_ulong in *; lia|]. split.
    + intros w Hw. apply elem_of_cons in Hw as [->|Hw]; [lia|].
      specialize (Hub w Hw). lia.
    + intros _. destruct (Z.max_spec v (allreduce_max_ulong vals))
        as [[Hlt ->]|[Hge ->]]; [|left].
      destruct vals as [|w vals]; [cbn in *; unfold in_ulong in *; lia|].
      right. apply Hmem. discriminate.
Qed.

Lemma ceil_div_floor a b :
  0 <= a -> 0 < b ->
  ceil_div a b = if b * (a / b) <? a then a / b + 1 else a / b.
Proof.
  intros Ha Hb. unfold ceil_div.
  pose proof (Z.div_mod a b ltac:(lia)) as Hdm.
  pose proof (Z.mod_pos_bound a b Hb) as Hmod.
  destruct (Z.ltb_spec (b * (a / b)) a) as [Hlt|Hge].
  - symmetry. apply (Z.div_unique _ _ _ (a mod b - 1)); lia.
  - symmetry. apply (Z.div_unique _ _ _ (b - 1)); lia.
Qed.

Lemma xor_chunk_size_ceil ranks max_bytes :
  2 <= ranks <= INT_MAX -> in_ulong max_bytes ->
  xor_chunk_size ranks max_bytes
    = Z.max 1 (ceil_div max_bytes (ranks - 1)).
Proof.
  intros Hr Hm. unfold xor_chunk_size.
  assert (Hk : wrap_ulong (int_sub ranks 1) = ranks - 1).
  { unfold int_sub. rewrite wrap_int_id
      by int_range.
    apply wrap_ulong_id. unfold in_ulong, ULONG_MAX, INT_MAX in *. lia. }
  rewrite Hk.
  set (k := ranks - 1). assert (Hkpos : 0 < k) by (unfold k; lia).
  set (q := max_bytes / k).
  pose proof (Z.div_mod max_bytes k ltac:(lia)) as Hdm. fold q in Hdm.
  pose proof (Z.mod_pos_bound max_bytes k Hkpos) as Hmod.
  assert (Hq : 0 <= q) by (apply Z.div_pos; unfold in_ulong in *; lia).
  assert (Hkq : wrap_ulong (k * q) = k * q).
  { apply wrap_ulong_id. unfold in_ulong in *. nia. }
  rewrite Hkq, (ceil_div_floor max_bytes k) by (unfold in_ulong in *; lia).
  fold q. cbv zeta.
  destruct (Z.ltb_spec (k * q) max_bytes) as [Hlt|Hge].
  - assert (Hq1 : wrap_ulong (q + 1) = q + 1).
    { apply wrap_ulong_id. unfold in_ulong in *. nia. }
    rewrite Hq1. destruct (Z.eqb_spec (q + 1) 0); lia.
  - destruct (Z.eqb_spec q 0) as [Hz|Hnz].
    + rewrite Hz, wrap_ulong_id by (unfold in_ulong, ULONG_MAX; lia). lia.
    + lia.
Qed.

(** C2.  In the XOR encoder, for every group of at least two members and
    every combination of local byte totals, the chunk size stored in the
    header is the larger of 1 and the ceiling of [max_bytes / (group_size
    - 1)], where [max_bytes] is the result of the MAX all-reduce: the
    largest of the members' local byte totals.  A group whose files are all
    empty gets chunk size 1. *)
Theorem scr_copy_xor_chunk_size_ceiling (my_bytes : list Z) :
  (2 <= length my_bytes)%nat ->
  Z.of_nat (length my_bytes) <= INT_MAX ->
  Forall in_ulong my_bytes ->
  let max_bytes := allreduce_max_ulong my_bytes in
  let group_size := Z.of_nat (length my_bytes) in
  max_bytes ∈ my_bytes /\
  (forall b, b ∈ my_bytes -> b <= max_bytes) /\
  scr_copy_xor_chunk_size my_bytes
    = Z.max 1 (ceil_div max_bytes (group_size - 1)) /\
  1 <= scr_copy_xor_chunk_size my_bytes /\
  (max_bytes = 0 -> scr_copy_xor_chunk_size my_bytes = 1).
Proof.
  intros Hlen Hmax Hall. cbv zeta.
  destruct (allreduce_max_ulong_bounds my_bytes Hall) as (Hin & Hub & Hmem).
  assert (Heq : scr_copy_xor_chunk_size my_bytes
    = Z.max 1 (ceil_div (allreduce_max_ulong my_bytes)
                 (Z.of_nat (length my_bytes) - 1))).
  { unfold scr_copy_xor_chunk_size.
    apply xor_chunk_size_ceil; [lia|exact Hin]. }
  split. { apply Hmem. destruct my_bytes; [cbn in Hlen; lia|discriminate]. }
  split; [exact Hub|]. split; [exact Heq|]. split; [rewrite Heq; lia|].
  intros Hz. rewrite Heq, Hz. unfold ceil_div.
  rewrite Z.div_small by lia. reflexivity.
Qed.

Lemma scr_copy_xor_chunk_size_ceiling_witness :
  scr_copy_xor_chunk_size [10; 7; 3] = Z.max 1 (ceil_div 10 (3 - 1)).
Proof.
  apply (scr_copy_xor_chunk_size_ceiling [10; 7; 3]).
  - cbn. lia.
  - unfold INT_MAX. cbn. lia.
  - repeat constructor; unfold in_ulong, ULONG_MAX; lia.
Defined.

End XorEncoderFacts.

(** ** Rebuild detection *)

Module RebuildFacts.
Import FileMap Rebuild CIntFacts.

Lemma scr_alltrue_zero_flag flags :
  0 ∈ flags -> Descriptors.scr_alltrue flags = 0.
Proof.
  intros Hin. unfold Descriptors.scr_alltrue.
  destruct (forallb truthy flags) eqn:Hall; [|reflexivity].
  rewrite forallb_forall in Hall. apply list_elem_of_In in Hin.
  specialize (Hall 0 Hin). discriminate.
Qed.

Lemma allreduce_max_int_spec v vals :
  allreduce_max_int (v :: vals) ∈ v :: vals /\
  forall w, w ∈ v :: vals -> w <= allreduce_max_int (v :: vals).
Proof.
  cbn. induction vals as [|u vals IH]; cbn.
  - split; [left|]. intros w Hw. apply list_elem_of_singleton in Hw. lia.
  - destruct IH as [Hin Hub].
    split.
    + destruct (Z.max_spec u (foldr Z.max v vals)) as [[_ ->]|[_ ->]].
      * apply elem_of_cons in Hin as [Heq|Hin]; [rewrite Heq; left|].
        right. right. exact Hin.
      * right. left.
    + intros w Hw. apply elem_of_cons in Hw as [->|Hw].
      * specialize (Hub v ltac:(left)). lia.
      * apply elem_of_cons in Hw as [->|Hw]; [lia|].
        specialize (Hub w ltac:(right; exact Hw)). lia.
Qed.

Lemma filter_length_one {A} (P : A -> Prop) `{!forall x, Decision (P x)}
    (l : list A) :
  length (filter P l) = 1%nat ->
  exists root p, l !! root = Some p /\ P p /\
    forall r q, l !! r = Some q -> P q -> r = root.
Proof.
  induction l as [|x l IH]; intros Hlen; [discriminate|].
  rewrite filter_cons in Hlen. destruct (decide (P x)) as [Hx|Hx].
  - exists 0%nat, x. split; [reflexivity|]. split; [exact Hx|].
    intros [|r] q Hr Hq; [reflexivity|]. exfalso.
    cbn in Hlen. assert (Hnil : filter P l = []).
    { destruct (filter P l); [reflexivity|discriminate]. }
    cbn in Hr. apply list_elem_of_lookup_2 in Hr.
    assert (Hin : q ∈ filter P l) by (apply list_elem_of_filter; auto).
    rewrite Hnil in Hin. inversion Hin.
  - destruct (IH Hlen) as (root & p & Hroot & Hp & Huniq).
    exists (S root), p. split; [exact Hroot|]. split; [exact Hp|].
    intros [|r] q Hr Hq; cbn in Hr.
    + inversion Hr; subst. contradiction.
    + f_equal. eapply Huniq; eauto.
Qed.

Section Attempt.
Variable scr_ranks_world : Z.
Variable checkpoint_id : Z.
Variable scr_rebuild_xor : nat -> nat -> Z -> Z.

Local Abbreviation need_rebuild := (need_rebuild scr_ranks_world checkpoint_id).
Local Abbreviation total_rebuild :=
  (total_rebuild scr_ranks_world checkpoint_id).
Local Abbreviation rebuild_rank := (rebuild_rank scr_ranks_world checkpoint_id).
Local Abbreviation attempt_at :=
  (scr_attempt_rebuild_xor scr_ranks_world checkpoint_id scr_rebuild_xor).

(** [need_rebuild] is the negation of "have all files and the XOR
    file". *)
Lemma need_rebuild_negates p :
  need_rebuild p
  = of_bool (negb
      (truthy (scr_bool_have_files (rp_files p) scr_ranks_world (rp_map p)
                 checkpoint_id (rp_rank_world p))
       && truthy (fst (scr_bool_have_xor_file (rp_files p) (rp_map p)
                         checkpoint_id (rp_rank_world p))))).
Proof.
  unfold Rebuild.need_rebuild.
  destruct (truthy (fst (scr_bool_have_xor_file _ _ _ _))); cbn;
    destruct (truthy (scr_bool_have_files _ _ _ _ _)); reflexivity.
Qed.

Lemma need_rebuild_01 p : need_rebuild p = 0 \/ need_rebuild p = 1.
Proof.
  rewrite need_rebuild_negates.
  match goal with |- context [negb ?b] => destruct b end; cbn; auto.
Qed.

(** The SUM all-reduce counts the members that need to rebuild. *)
Lemma total_rebuild_counts set :
  Z.of_nat (length set) <= INT_MAX ->
  total_rebuild set
  = Z.of_nat (length (filter (fun p => need_rebuild p <> 0) set)).
Proof.
  unfold Rebuild.total_rebuild, allreduce_sum_int.
  induction set as [|p set IH]; intros Hlen; [reflexivity|].
  cbn [map foldr]. rewrite IH by (cbn [length] in Hlen; lia).
  rewrite filter_cons.
  pose proof (length_filter (fun p => need_rebuild p <> 0) set) as Hle.
  unfold int_add. rewrite wrap_int_id.
  - destruct (need_rebuild_01 p) as [Hp|Hp]; rewrite Hp;
      destruct (decide _) as [Hd|Hd]; cbn [length]; lia.
  - cbn [length] in Hlen. unfold in_int, INT_MIN, INT_MAX in *.
    destruct (need_rebuild_01 p) as [Hp|Hp]; rewrite Hp; lia.
Qed.

Lemma rebuild_rank_of_single set root p :
  set !! root = Some p -> need_rebuild p <> 0 ->
  (forall r q, set !! r = Some q -> need_rebuild q <> 0 -> r = root) ->
  rebuild_rank set = Z.of_nat root.
Proof.
  intros Hroot Hp Huniq. unfold Rebuild.rebuild_rank.
  destruct (imap (tmp_rank scr_ranks_world checkpoint_id) set)
    as [|v vals] eqn:Himap.
  { apply (f_equal length) in Himap. rewrite length_imap in Himap.
    apply lookup_lt_Some in Hroot. cbn in Himap. lia. }
  destruct (allreduce_max_int_spec v vals) as [Hin Hub].
  rewrite <- Himap in Hin, Hub |- *.
  set (M := allreduce_max_int _) in *. clearbody M.
  assert (Hge : Z.of_nat root <= M).
  { apply Hub. apply list_elem_of_lookup. exists root.
    rewrite list_lookup_imap, Hroot. cbn. unfold tmp_rank, truthy.
    destruct (Z.eqb_spec (need_rebuild p) 0); [contradiction|reflexivity]. }
  apply list_elem_of_lookup in Hin as [r Hr].
  rewrite list_lookup_imap in Hr.
  destruct (set !! r) as [q|] eqn:Hq; [|discriminate].
  cbn in Hr.
  assert (Hval : tmp_rank scr_ranks_world checkpoint_id r q = M)
    by congruence.
  clear Hr. unfold tmp_rank, truthy in Hval.
  destruct (Z.eqb_spec (need_rebuild q) 0) as [Hz|Hnz]; cbn in Hval.
  - lia.
  - rewrite (Huniq r q Hq Hnz) in Hval. lia.
Qed.

Lemma attempt_defined world s set r :
  world !! s = Some set -> (r < length set)%nat ->
  is_Some (attempt_at world s r).
Proof.
  intros Hs Hr. unfold scr_attempt_rebuild_xor. rewrite Hs. cbn.
  apply lookup_lt_is_Some in Hr as [p Hp]. rewrite Hp. cbn.
  repeat match goal with
         | |- context [if ?b then _ else _] => destruct b
         end; cbn; eauto.
Qed.

(** When some set of the world has more than one member to rebuild,
    the first [scr_alltrue] fails. *)
Lemma unrecoverable_set_fails_alltrue world s set :
  world !! s = Some set -> 1 < total_rebuild set ->
  Z.of_nat (length set) <= INT_MAX ->
  Descriptors.scr_alltrue
    (can_rebuild_flags scr_ranks_world checkpoint_id world) = 0.
Proof.
  intros Hs Htot Hlen. apply scr_alltrue_zero_flag.
  unfold can_rebuild_flags.
  destruct set as [|p set].
  { cbn in Htot. lia. }
  apply list_elem_of_In, in_concat.
  exists (map (fun _ => set_can_rebuild scr_ranks_world checkpoint_id
                          (p :: set)) (p :: set)).
  split.
  - apply in_map_iff. exists (p :: set). split; [reflexivity|].
    apply list_elem_of_In, list_elem_of_lookup. eauto.
  - cbn [map]. left. unfold set_can_rebuild.
    destruct (Z.leb_spec (total_rebuild (p :: set)) 1); [lia|reflexivity].
Qed.

(** C1.  Rebuild detection for an XOR set of the world.  (1) Each
    process computes [need_rebuild] as the negation of having all of its
    files and its XOR file.  (2) The SUM all-reduce within the set counts
    the members that need to rebuild.  (3) Every member of the set gets
    an outcome.  (4) If the sum is 0, no member of the set calls
    [scr_rebuild_xor].  (5) If the sum is greater than 1, the all-reduce
    across the world fails and every process of the world returns
    failure without rebuilding.  (6) If the sum is exactly 1, exactly one
    member needs to rebuild, the MAX all-reduce of [need_rebuild ?
    my_rank : -1] is its rank in the set, and each member either calls
    [scr_rebuild_xor] with that rank as root or, when another set is
    unrecoverable, returns failure without rebuilding. *)
Theorem scr_attempt_rebuild_xor_detection world s set :
  world !! s = Some set ->
  Z.of_nat (length set) <= INT_MAX ->
  (forall p, need_rebuild p
     = of_bool (negb
         (truthy (scr_bool_have_files (rp_files p) scr_ranks_world
                    (rp_map p) checkpoint_id (rp_rank_world p))
          && truthy (fst (scr_bool_have_xor_file (rp_files p) (rp_map p)
                            checkpoint_id (rp_rank_world p)))))) /\
  total_rebuild set
    = Z.of_nat (length (filter (fun p => need_rebuild p <> 0) set)) /\
  (forall r, (r < length set)%nat -> is_Some (attempt_at world s r)) /\
  (total_rebuild set = 0 ->
     forall r a, attempt_at world s r = Some a ->
       att_rebuild_root a = None) /\
  (1 < total_rebuild set ->
     forall s' r a, attempt_at world s' r = Some a ->
       att_rc a = SCR_FAILURE /\ att_rebuild_root a = None) /\
  (total_rebuild set = 1 ->
     exists root p,
       set !! root = Some p /\ need_rebuild p <> 0 /\
       (forall r q, set !! r = Some q -> need_rebuild q <> 0 -> r = root) /\
       rebuild_rank set = Z.of_nat root /\
       forall r a, attempt_at world s r = Some a ->
         att_rebuild_root a = Some (Z.of_nat root) \/
         (att_rc a = SCR_FAILURE /\ att_rebuild_root a = None /\
          Descriptors.scr_alltrue
            (can_rebuild_flags scr_ranks_world checkpoint_id world) = 0)).
Proof.
  intros Hs Hlen.
  split; [apply need_rebuild_negates|].
  split; [apply total_rebuild_counts; exact Hlen|].
  split; [intros r Hr; eapply attempt_defined; eauto|].
  split; [|split].
  - intros Hz r a Ha. unfold scr_attempt_rebuild_xor in Ha.
    rewrite Hs in Ha. cbn in Ha.
    destruct (set !! r) as [p|]; [|discriminate]. cbn in Ha.
    rewrite Hz in Ha. cbn in Ha.
    repeat match type of Ha with
           | context [if ?b then _ else _] => destruct b
           end; inversion Ha; reflexivity.
  - intros Hgt s' r a Ha.
    pose proof (unrecoverable_set_fails_alltrue world s set Hs Hgt Hlen)
      as Hall.
    unfold scr_attempt_rebuild_xor in Ha.
    destruct (world !! s') as [set'|]; [|discriminate]. cbn in Ha.
    destruct (set' !! r) as [p|]; [|discriminate]. cbn in Ha.
    rewrite Hall in Ha. cbn in Ha. inversion Ha. auto.
  - intros Hone.
    assert (Hcount : length (filter (fun p => need_rebuild p <> 0) set)
                     = 1%nat).
    { pose proof (total_rebuild_counts set Hlen) as Hc. lia. }
    destruct (filter_length_one _ set Hcount)
      as (root & p & Hroot & Hp & Huniq).
    exists root, p. split; [exact Hroot|]. split; [exact Hp|].
    split; [exact Huniq|].
    pose proof (rebuild_rank_of_single set root p Hroot Hp Huniq) as Hrank.
    split; [exact Hrank|].
    intros r a Ha. unfold scr_attempt_rebuild_xor in Ha.
    rewrite Hs in Ha. cbn in Ha.
    destruct (set !! r) as [q|]; [|discriminate]. cbn in Ha.
    destruct (truthy (Descriptors.scr_alltrue
                (can_rebuild_flags scr_ranks_world checkpoint_id world)))
      eqn:Hall; cbn in Ha.
    + left. rewrite Hone, Hrank in Ha. cbn in Ha.
      destruct (truthy _) in Ha; inversion Ha; reflexivity.
    + right. inversion Ha. cbn. split; [reflexivity|].
      split; [reflexivity|].
      unfold truthy in Hall.
      destruct (Z.eqb_spec (Descriptors.scr_alltrue
        (can_rebuild_flags scr_ranks_world checkpoint_id world)) 0);
        [assumption|discriminate].
Qed.

End Attempt.

Example survivor_needs_no_rebuild : need_rebuild 2 3 sample_survivor = 0.
Proof. vm_compute. reflexivity. Qed.

Example lost_member_needs_rebuild : need_rebuild 2 3 sample_lost = 1.
Proof. vm_compute. reflexivity. Qed.

Example lost_member_is_root :
  scr_attempt_rebuild_xor 2 3 (fun _ _ _ => SCR_SUCCESS) [sample_set] 0 0
  = Some {| att_rc := SCR_SUCCESS; att_rebuild_root := Some 1 |}.
Proof. vm_compute. reflexivity. Qed.

Example two_lost_members_fail_everywhere :
  scr_attempt_rebuild_xor 2 3 (fun _ _ _ => SCR_SUCCESS)
    [sample_set; [sample_lost; sample_lost]] 0 0
  = Some {| att_rc := SCR_FAILURE; att_rebuild_root := None |}.
Proof. vm_compute. reflexivity. Qed.

Lemma scr_attempt_rebuild_xor_detection_witness :
  total_rebuild 2 3 sample_set
  = Z.of_nat (length (filter (fun p => need_rebuild 2 3 p <> 0) sample_set)).
Proof.
  apply (scr_attempt_rebuild_xor_detection 2 3 (fun _ _ _ => SCR_SUCCESS)
           [sample_set] 0 sample_set).
  - reflexivity.
  - unfold INT_MAX. cbn. lia.
Defined.

End RebuildFacts.

(** ** The application entry points *)

Module LibraryFacts.
Import Descriptors FileMap Library CIntFacts.

Example start_on_idle_library_succeeds :
  exists st, SCR_Start_checkpoint sample_idle = Ok SCR_SUCCESS st
    /\ scr_in_checkpoint st = 1 /\ scr_checkpoint_id st = 1
    /\ trace st = [].
Proof. eexists. split; [vm_compute; reflexivity|]. auto. Qed.

Example route_in_checkpoint_records_file :
  exists st,
    SCR_Route_file 1024 sample_split_path sample_build_path
      sample_in_checkpoint (Some "rank_0.ckpt") (Some "")
    = Ok (SCR_SUCCESS, Some "/ram/checkpoint.1/rank_0.ckpt") st
    /\ scr_filemap_list_files (scr_map st) 1 0
       = ["/ram/checkpoint.1/rank_0.ckpt"].
Proof. eexists. split; vm_compute; reflexivity. Qed.

Example route_outside_checkpoint_missing_file :
  SCR_Route_file 1024 sample_split_path sample_build_path
    (with_checkpoint_id sample_idle 1) (Some "rank_0.ckpt") (Some "")
  = Ok (SCR_FAILURE, Some "/ram/checkpoint.1/rank_0.ckpt")
      (with_checkpoint_id sample_idle 1).
Proof. vm_compute. reflexivity. Qed.

Lemma scr_ckptdesc_get_in_range id ckpts i :
  scr_ckptdesc_get id ckpts = Some i -> is_Some (ckpts !! i).
Proof.
  intros Hget.
  destruct (DescriptorFacts.scr_ckptdesc_get_cases id ckpts)
    as [[Hr _]|(j & c & Hr & Hj & _)]; [congruence|].
  rewrite Hr in Hget. inversion Hget; subst. eauto.
Qed.

Lemma selected_desc_none st id :
  selected_desc st id = None <->
  scr_ckptdesc_get id (scr_ckptdescs (cfg st)) = None.
Proof.
  unfold selected_desc.
  destruct (scr_ckptdesc_get id (scr_ckptdescs (cfg st))) as [i|] eqn:Hget;
    cbn; [|tauto].
  destruct (scr_ckptdesc_get_in_range _ _ _ Hget) as [c Hc].
  rewrite Hc. split; discriminate.
Qed.

Section Complete.
Variable apply_redundancy_and_flush : scr_state -> result Z.

Local Abbreviation complete :=
  (SCR_Complete_checkpoint apply_redundancy_and_flush).

(** A call that does not pass the three guards returns failure and
    leaves the state as it was, up to the abort mark. *)
Lemma complete_rejected st valid :
  truthy (scr_enabled (cfg st)) = false
  \/ truthy (scr_initialized (cfg st)) = false
  \/ scr_in_checkpoint st = 0 ->
  exists st', complete st valid = Ok SCR_FAILURE st' /\
    (st' = st \/ st' = scr_abort st).
Proof.
  intros H. unfold SCR_Complete_checkpoint.
  destruct (truthy (scr_enabled (cfg st))); cbn [negb]; [|eauto].
  destruct (truthy (scr_initialized (cfg st))); cbn [negb]; [|eauto].
  destruct H as [H|[H|H]]; try discriminate.
  rewrite H. cbn. eauto.
Qed.

(** C8.  (1) [SCR_Complete_checkpoint] called while no checkpoint is in
    progress returns failure, and the library state is what it was,
    except that the abort of the job may have been requested: no file is
    marked, no redundancy is applied, nothing is flushed.  (2) After a
    call of [SCR_Complete_checkpoint] has returned, a second call
    without a start in between is rejected in that way.  (3)
    [SCR_Start_checkpoint] called while a checkpoint is in progress
    returns failure and leaves the state as it was, up to the abort
    mark.  (4) When the library is enabled and initialised, both
    rejections call [scr_abort] before they return failure. *)
Theorem checkpoint_calls_out_of_turn_rejected st valid :
  (scr_in_checkpoint st = 0 ->
     exists st', complete st valid = Ok SCR_FAILURE st' /\
       (st' = st \/ st' = scr_abort st)) /\
  (forall rc st1 valid2, complete st valid = Ok rc st1 ->
     exists st2, complete st1 valid2 = Ok SCR_FAILURE st2 /\
       (st2 = st1 \/ st2 = scr_abort st1)) /\
  (scr_in_checkpoint st <> 0 ->
     exists st', SCR_Start_checkpoint st = Ok SCR_FAILURE st' /\
       (st' = st \/ st' = scr_abort st)) /\
  (truthy (scr_enabled (cfg st)) = true ->
   truthy (scr_initialized (cfg st)) = true ->
   (scr_in_checkpoint st = 0 ->
      complete st valid = Ok SCR_FAILURE (scr_abort st)) /\
   (scr_in_checkpoint st <> 0 ->
      SCR_Start_checkpoint st = Ok SCR_FAILURE (scr_abort st))).
Proof.
  split; [|split; [|split]].
  4:{ intros He Hi. unfold SCR_Complete_checkpoint, SCR_Start_checkpoint.
      rewrite He, Hi. cbn [negb]. split.
      - intros ->. reflexivity.
      - intros Hne. unfold truthy.
        destruct (Z.eqb_spec (scr_in_checkpoint st) 0); [contradiction|].
        reflexivity. }
  - intros H. apply complete_rejected. auto.
  - intros rc st1 valid2 Hfirst. apply complete_rejected.
    unfold SCR_Complete_checkpoint in Hfirst.
    destruct (truthy (scr_enabled (cfg st))) eqn:He; cbn [negb] in Hfirst.
    2:{ inversion Hfirst; subst. auto. }
    destruct (truthy (scr_initialized (cfg st))) eqn:Hi;
      cbn [negb] in Hfirst.
    2:{ inversion Hfirst; subst. cbn. auto. }
    destruct (truthy (scr_in_checkpoint st)) eqn:Hc; cbn [negb] in Hfirst.
    2:{ inversion Hfirst; subst. cbn. right. right.
        unfold truthy in Hc. destruct (Z.eqb_spec (scr_in_checkpoint st) 0);
          [assumption|discriminate]. }
    destruct (apply_redundancy_and_flush _) as [rc' st'|st'|st'];
      [|discriminate|discriminate].
    inversion Hfirst; subst. cbn. auto.
  - intros H. unfold SCR_Start_checkpoint.
    destruct (truthy (scr_enabled (cfg st))); cbn [negb]; [|eauto].
    destruct (truthy (scr_initialized (cfg st))); cbn [negb]; [|eauto].
    unfold truthy at 1. destruct (Z.eqb_spec (scr_in_checkpoint st) 0);
      [contradiction|]. cbn. eauto.
Qed.

End Complete.

Lemma checkpoint_calls_out_of_turn_rejected_witness :
  (exists st', SCR_Complete_checkpoint (fun st => Ok SCR_SUCCESS st)
                 sample_idle 1 = Ok SCR_FAILURE st' /\
     (st' = sample_idle \/ st' = scr_abort sample_idle)) /\
  (exists st', SCR_Start_checkpoint sample_in_checkpoint
               = Ok SCR_FAILURE st' /\
     (st' = sample_in_checkpoint \/ st' = scr_abort sample_in_checkpoint)).
Proof.
  split.
  - apply (checkpoint_calls_out_of_turn_rejected
             (fun st => Ok SCR_SUCCESS st) sample_idle 1).
    reflexivity.
  - apply (checkpoint_calls_out_of_turn_rejected
             (fun st => Ok SCR_SUCCESS st) sample_in_checkpoint 1).
    cbn. lia.
Defined.

(** *** [SCR_Route_file] *)

Lemma entry_set_entry (map : scr_filemap) ckpt rank e :
  entry (set_entry map ckpt rank e) ckpt rank = e.
Proof.
  unfold entry, set_entry. rewrite lookup_insert_eq. cbn.
  rewrite lookup_insert_eq. reflexivity.
Qed.

Lemma scr_filemap_add_file_lists (map : scr_filemap) ckpt rank file :
  file ∈ files (entry (scr_filemap_add_file map ckpt rank file) ckpt rank).
Proof.
  unfold scr_filemap_add_file. rewrite entry_set_entry. cbn. set_solver.
Qed.

Section Route.
Variable SCR_MAX_FILENAME : Z.
Variable scr_split_path : string -> string * string.
Variable scr_build_path : Z -> string -> string -> Z * string.

Local Abbreviation route :=
  (scr_route_file SCR_MAX_FILENAME scr_split_path scr_build_path).
Local Abbreviation Route_file :=
  (SCR_Route_file SCR_MAX_FILENAME scr_split_path scr_build_path).

(** Routing changes nothing but, possibly, the abort mark. *)
Lemma scr_route_file_state st id file newfile n rc out st1 :
  route st id file newfile n = Ok (rc, out) st1 ->
  st1 = st \/ st1 = scr_abort st.
Proof.
  unfold scr_route_file. intros H.
  destruct file as [f|]; [|inversion H; auto].
  destruct newfile as [nf|]; [|inversion H; auto].
  case_bool_decide; [inversion H; auto|].
  destruct (scr_split_path f) as [path name].
  set (st0 := if Z.of_nat (String.length f) >=? SCR_MAX_FILENAME
              then scr_abort st else st) in *.
  assert (Hst0 : st0 = st \/ st0 = scr_abort st).
  { unfold st0. destruct (_ >=? _); auto. }
  destruct (selected_desc st0 id) as [c|]; [|discriminate].
  unfold scr_checkpoint_dir in H.
  destruct (directory c) as [d|]; [|discriminate].
  destruct (scr_build_path n _ name) as [rc' composed].
  inversion H; subst.
  destruct (negb (rc' =? SCR_SUCCESS)); [|exact Hst0].
  right. destruct Hst0 as [->| ->]; reflexivity.
Qed.

(** Routing succeeds for a non-empty file name whenever the descriptor
    selected for the checkpoint has a directory; the routed path is the
    name component of the file placed in the checkpoint directory. *)
Lemma scr_route_file_succeeds st id f buf n c d :
  f <> EmptyString ->
  selected_desc st id = Some c -> directory c = Some d ->
  exists st1,
    route st id (Some f) (Some buf) n
    = Ok (SCR_SUCCESS,
          Some (snd (scr_build_path n (checkpoint_dir_name d id)
                       (snd (scr_split_path f))))) st1.
Proof.
  intros Hf Hsel Hdir. unfold scr_route_file.
  rewrite bool_decide_eq_false_2 by exact Hf.
  destruct (scr_split_path f) as [path name]. cbn [snd].
  assert (Hsel' : forall st', cfg st' = cfg st ->
            selected_desc st' id = Some c).
  { intros st' Hcfg. unfold selected_desc in *. rewrite Hcfg. exact Hsel. }
  rewrite Hsel' by (destruct (_ >=? _); reflexivity).
  unfold scr_checkpoint_dir. rewrite Hdir.
  destruct (scr_build_path n (checkpoint_dir_name d id) name) as [rc composed].
  cbn [snd]. eauto.
Qed.

(** C9.  Let routing succeed with the path [routed].  (1) Outside an
    active checkpoint [SCR_Route_file] leaves the filemap and its file
    untouched, and it returns failure exactly when the routed file is not
    readable, success otherwise.  (2) During an active checkpoint it
    returns success after adding [routed] to the filemap under the
    current checkpoint id and the world rank of the process, and after
    writing that filemap to the filemap file. *)
Theorem SCR_Route_file_records_or_checks st file newfile routed st1 :
  truthy (scr_enabled (cfg st)) = true ->
  truthy (scr_initialized (cfg st)) = true ->
  route st (scr_checkpoint_id st) file newfile SCR_MAX_FILENAME
    = Ok (SCR_SUCCESS, Some routed) st1 ->
  (scr_in_checkpoint st = 0 ->
     exists rc, Route_file st file newfile = Ok (rc, Some routed) st1 /\
       scr_map st1 = scr_map st /\
       map_file (node st1) = map_file (node st) /\
       (rc = SCR_FAILURE <->
          Meta.access_R_OK (cache (node st)) routed < 0) /\
       (rc = SCR_SUCCESS <->
          0 <= Meta.access_R_OK (cache (node st)) routed)) /\
  (scr_in_checkpoint st <> 0 ->
     exists st2,
       Route_file st file newfile = Ok (SCR_SUCCESS, Some routed) st2 /\
       scr_map st2
         = scr_filemap_add_file (scr_map st) (scr_checkpoint_id st)
             (scr_my_rank_world (cfg st)) routed /\
       routed ∈ files (entry (scr_map st2) (scr_checkpoint_id st)
                         (scr_my_rank_world (cfg st))) /\
       map_file (node st2) = Some (scr_map st2)).
Proof.
  intros He Hi Hroute.
  pose proof (scr_route_file_state _ _ _ _ _ _ _ _ Hroute) as Hst1.
  assert (Hsame : scr_map st1 = scr_map st /\ node st1 = node st /\
                  scr_in_checkpoint st1 = scr_in_checkpoint st /\
                  scr_checkpoint_id st1 = scr_checkpoint_id st /\
                  cfg st1 = cfg st).
  { destruct Hst1 as [->| ->]; cbn; auto. }
  destruct Hsame as (Hmap & Hnode & Hin & Hid & Hcfg).
  unfold SCR_Route_file. rewrite He, Hi. cbn [negb]. rewrite Hroute.
  change (SCR_SUCCESS =? SCR_SUCCESS) with true. cbn [negb].
  rewrite ?Hin, ?Hnode. split.
  - intros Hz. rewrite Hz. cbn [truthy Z.eqb negb].
    destruct (Z.ltb_spec (Meta.access_R_OK (cache (node st)) routed) 0)
      as [Hlt|Hge].
    + exists SCR_FAILURE. split; [reflexivity|]. rewrite ?Hmap, ?Hnode.
      unfold SCR_FAILURE, SCR_SUCCESS. repeat split; auto; lia.
    + exists SCR_SUCCESS. split; [reflexivity|]. rewrite ?Hmap, ?Hnode.
      unfold SCR_FAILURE, SCR_SUCCESS. repeat split; auto; lia.
  - intros Hnz. unfold truthy.
    destruct (Z.eqb_spec (scr_in_checkpoint st) 0); [contradiction|].
    cbn [negb]. eexists. split; [reflexivity|].
    cbn. rewrite ?Hmap, ?Hid, ?Hcfg. split; [reflexivity|].
    split; [apply scr_filemap_add_file_lists|reflexivity].
Qed.

End Route.

Lemma SCR_Route_file_records_or_checks_witness :
  exists st2,
    SCR_Route_file 1024 sample_split_path sample_build_path
      sample_in_checkpoint (Some "rank_0.ckpt") (Some "")
    = Ok (SCR_SUCCESS, Some "/ram/checkpoint.1/rank_0.ckpt") st2 /\
    scr_map st2
      = scr_filemap_add_file (scr_map sample_in_checkpoint) 1 0
          "/ram/checkpoint.1/rank_0.ckpt" /\
    "/ram/checkpoint.1/rank_0.ckpt" ∈ files (entry (scr_map st2) 1 0) /\
    map_file (node st2) = Some (scr_map st2).
Proof.
  apply (SCR_Route_file_records_or_checks 1024 sample_split_path
           sample_build_path sample_in_checkpoint (Some "rank_0.ckpt")
           (Some "") "/ram/checkpoint.1/rank_0.ckpt" sample_in_checkpoint).
  - reflexivity.
  - reflexivity.
  - vm_compute. reflexivity.
  - cbn. lia.
Defined.

(** *** Descriptor selection inside [SCR_Start_checkpoint] *)

Lemma scr_ckptdesc_get_none_without_candidate id ckpts :
  (forall d, d ∈ ckpts -> enabled d <> 0 -> ~ (interval d | id)) ->
  scr_ckptdesc_get id ckpts = None.
Proof.
  intros Hno.
  destruct (DescriptorFacts.scr_ckptdesc_get_cases id ckpts)
    as [[Hr _]|(i & c & Hr & Hi & He & Hpos & Hdiv & _)]; [exact Hr|].
  exfalso. apply (Hno c); auto. apply list_elem_of_lookup. eauto.
Qed.

(** C10.  (1) For every checkpoint id that no enabled descriptor's
    interval divides evenly, [scr_ckptdesc_get] returns [NULL]; this is so
    in particular when every descriptor is disabled.  (2)
    [SCR_Start_checkpoint], once past its guards, increments the
    checkpoint id and uses the descriptor selected for it without a [NULL]
    check: when no enabled descriptor's interval divides the new id, the
    call dereferences [NULL].  (3) Hence whenever the call returns
    success, some enabled descriptor's interval divides the new id. *)
Theorem SCR_Start_checkpoint_needs_descriptor st :
  (forall id,
     (forall d, d ∈ scr_ckptdescs (cfg st) -> enabled d <> 0 ->
        ~ (interval d | id)) ->
     scr_ckptdesc_get id (scr_ckptdescs (cfg st)) = None) /\
  (forall id,
     (forall d, d ∈ scr_ckptdescs (cfg st) -> enabled d = 0) ->
     scr_ckptdesc_get id (scr_ckptdescs (cfg st)) = None) /\
  (truthy (scr_enabled (cfg st)) = true ->
   truthy (scr_initialized (cfg st)) = true ->
   scr_in_checkpoint st = 0 ->
   (forall d, d ∈ scr_ckptdescs (cfg st) -> enabled d <> 0 ->
      ~ (interval d | int_add (scr_checkpoint_id st) 1)) ->
   exists st', SCR_Start_checkpoint st = Crash st') /\
  (forall st', SCR_Start_checkpoint st = Ok SCR_SUCCESS st' ->
     exists d, d ∈ scr_ckptdescs (cfg st) /\ enabled d <> 0 /\
       (interval d | int_add (scr_checkpoint_id st) 1)).
Proof.
  split; [|split; [|split]].
  - intros id. apply scr_ckptdesc_get_none_without_candidate.
  - intros id Hdis. apply scr_ckptdesc_get_none_without_candidate.
    intros d Hin Hen. specialize (Hdis d Hin). contradiction.
  - intros He Hi Hc Hno. unfold SCR_Start_checkpoint.
    rewrite He, Hi, Hc. cbn [negb truthy Z.eqb].
    set (st1 := with_checkpoint_id _ _).
    assert (Hsel : selected_desc st1 (scr_checkpoint_id st1) = None).
    { apply selected_desc_none. cbn.
      apply scr_ckptdesc_get_none_without_candidate. exact Hno. }
    rewrite Hsel. eauto.
  - intros st' Hok. unfold SCR_Start_checkpoint in Hok.
    destruct (truthy (scr_enabled (cfg st))); cbn [negb] in Hok;
      [|discriminate].
    destruct (truthy (scr_initialized (cfg st))); cbn [negb] in Hok;
      [|discriminate].
    destruct (truthy (scr_in_checkpoint st)); [discriminate|].
    set (st1 := with_checkpoint_id _ _) in Hok.
    destruct (selected_desc st1 (scr_checkpoint_id st1)) as [c|] eqn:Hsel;
      [|discriminate].
    unfold selected_desc in Hsel. cbn in Hsel.
    destruct (DescriptorFacts.scr_ckptdesc_get_cases
                (int_add (scr_checkpoint_id st) 1) (scr_ckptdescs (cfg st)))
      as [[Hr _]|(i & d & Hr & Hd & Hen & Hpos & Hdiv & _)].
    + rewrite Hr in Hsel. discriminate.
    + exists d. split; [apply list_elem_of_lookup; eauto|]. auto.
Qed.

Lemma SCR_Start_checkpoint_needs_descriptor_witness :
  exists st', SCR_Start_checkpoint sample_all_disabled = Crash st'.
Proof.
  apply (SCR_Start_checkpoint_needs_descriptor sample_all_disabled).
  - reflexivity.
  - reflexivity.
  - reflexivity.
  - intros d Hin Hen. apply list_elem_of_singleton in Hin. subst d.
    cbn in Hen. congruence.
Defined.

(** *** Cache eviction in [SCR_Start_checkpoint] *)

Example start_evicts_oldest_not_flushing :
  trace (result_state (SCR_Start_checkpoint sample_full_cache))
  = [EvCheckpointDelete 2].
Proof. vm_compute. reflexivity. Qed.

Example start_waits_for_flushing_checkpoint :
  trace (result_state (SCR_Start_checkpoint sample_only_flushing))
  = [EvFlushAsyncWait; EvCheckpointDelete 1].
Proof. vm_compute. reflexivity. Qed.

Lemma scr_filemap_list_checkpoints_ascending (map : scr_filemap) :
  StronglySorted Z.le (scr_filemap_list_checkpoints map) /\
  NoDup (scr_filemap_list_checkpoints map).
Proof.
  unfold scr_filemap_list_checkpoints. split.
  - apply StronglySorted_merge_sort; apply _.
  - rewrite merge_sort_Permutation. apply NoDup_elements.
Qed.

Lemma scr_filemap_list_ranks_elem (map : scr_filemap) ckpt rank :
  rank ∈ scr_filemap_list_ranks_by_checkpoint map ckpt <->
  rank ∈ dom (default ∅ (map !! ckpt)).
Proof.
  unfold scr_filemap_list_ranks_by_checkpoint.
  rewrite merge_sort_Permutation. apply elem_of_elements.
Qed.

Lemma scr_filemap_list_ranks_ascending (map : scr_filemap) ckpt :
  StronglySorted Z.le (scr_filemap_list_ranks_by_checkpoint map ckpt) /\
  NoDup (scr_filemap_list_ranks_by_checkpoint map ckpt).
Proof.
  unfold scr_filemap_list_ranks_by_checkpoint. split.
  - apply StronglySorted_merge_sort; apply _.
  - rewrite merge_sort_Permutation. apply NoDup_elements.
Qed.

Lemma scr_checkpoint_delete_trace st id :
  trace (scr_checkpoint_delete st id)
  = trace st ++ [EvCheckpointDelete id].
Proof. reflexivity. Qed.

(** What the two marks of [scr_flush_async_complete] leave alone. *)
Lemma scr_flush_location_set_frame st id l :
  let st' := scr_flush_location_set st id l in
  cfg st' = cfg st /\ scr_in_checkpoint st' = scr_in_checkpoint st /\
  scr_checkpoint_id st' = scr_checkpoint_id st /\
  scr_map st' = scr_map st /\ aborted st' = aborted st /\
  trace st' = trace st /\ env st' = env st /\
  scr_flush_async_in_progress st' = scr_flush_async_in_progress st /\
  scr_flush_async_checkpoint_id st' = scr_flush_async_checkpoint_id st /\
  cache (node st') = cache (node st) /\ dirs (node st') = dirs (node st) /\
  map_file (node st') = map_file (node st) /\
  forall id', id' <> id ->
    flush_file (node st') !! id' = flush_file (node st) !! id'.
Proof.
  unfold scr_flush_location_set.
  destruct (scr_my_rank_local (cfg st) =? 0); cbn; repeat split; auto.
  intros id' Hne. rewrite lookup_insert_ne by congruence. reflexivity.
Qed.

Lemma scr_flush_location_unset_frame st id l :
  let st' := scr_flush_location_unset st id l in
  cfg st' = cfg st /\ scr_in_checkpoint st' = scr_in_checkpoint st /\
  scr_checkpoint_id st' = scr_checkpoint_id st /\
  scr_map st' = scr_map st /\ aborted st' = aborted st /\
  trace st' = trace st /\ env st' = env st /\
  scr_flush_async_in_progress st' = scr_flush_async_in_progress st /\
  scr_flush_async_checkpoint_id st' = scr_flush_async_checkpoint_id st /\
  cache (node st') = cache (node st) /\ dirs (node st') = dirs (node st) /\
  map_file (node st') = map_file (node st) /\
  forall id', id' <> id ->
    flush_file (node st') !! id' = flush_file (node st) !! id'.
Proof.
  unfold scr_flush_location_unset.
  destruct (scr_my_rank_local (cfg st) =? 0); cbn; [|repeat split; auto].
  destruct (flush_file (node st) !! id); cbn; repeat split; auto.
  intros id' Hne. rewrite lookup_insert_ne by congruence. reflexivity.
Qed.

Lemma kept_by_wait_refl id st : kept_by_wait id st st.
Proof. unfold kept_by_wait. repeat split; reflexivity. Qed.

Lemma kept_by_wait_trans id st1 st2 st3 :
  kept_by_wait id st1 st2 -> kept_by_wait id st2 st3 ->
  kept_by_wait id st1 st3.
Proof.
  intros (A1 & A2 & A3 & A4 & A5 & A6 & A7 & A8 & A9 & A10 & A11 & A12
          & A13 & A14)
         (B1 & B2 & B3 & B4 & B5 & B6 & B7 & B8 & B9 & B10 & B11 & B12
          & B13 & B14).
  unfold kept_by_wait.
  rewrite B1, B2, B3, B4, B5, B6, B7, B8, B9, B10, B11, B12, B13.
  do 13 (split; [assumption|]).
  intros id' Hne. destruct (B14 id' Hne) as [-> ->]. apply (A14 id' Hne).
Qed.

(** [scr_bool_is_flushing] looks at the rank of the process on its node,
    at the entry of the checkpoint in the flush file and at what the
    other processes report for it. *)
Lemma scr_bool_is_flushing_ext st st' id :
  cfg st' = cfg st ->
  flush_file (node st') !! id = flush_file (node st) !! id ->
  peers_not_flushing (env st') id = peers_not_flushing (env st) id ->
  scr_bool_is_flushing st' id = scr_bool_is_flushing st id.
Proof.
  intros Hc Hf Hp. unfold scr_bool_is_flushing. rewrite Hc, Hf, Hp.
  reflexivity.
Qed.

Lemma scr_flush_async_test_kept id st st' checkpoint_id poll :
  kept_by_wait id st st' ->
  scr_flush_async_test st' checkpoint_id poll
  = scr_flush_async_test st checkpoint_id poll /\
  all_have_files st' checkpoint_id = all_have_files st checkpoint_id.
Proof.
  intros (A1 & A2 & A3 & A4 & A5 & A6 & A7 & A8 & A9 & A10 & A11 & A12
          & A13 & A14).
  unfold scr_flush_async_test, all_have_files.
  rewrite A1, A4, A7, A12. split; reflexivity.
Qed.

(** [scr_flush_async_complete] touches the flush in progress and the
    marks of its checkpoint, nothing else. *)
Lemma scr_flush_async_complete_kept st id :
  kept_by_wait id st (snd (scr_flush_async_complete st id)) /\
  trace (snd (scr_flush_async_complete st id)) = trace st.
Proof.
  unfold scr_flush_async_complete.
  destruct (scr_flush (cfg st) <=? 0);
    [split; [apply kept_by_wait_refl|reflexivity]|].
  destruct (negb (truthy (all_have_files st id)));
    [split; [apply kept_by_wait_refl|reflexivity]|].
  cbn [snd].
  set (st1 := if _ =? SCR_SUCCESS then _ else st).
  assert (H1 : cfg st1 = cfg st /\ scr_in_checkpoint st1 = scr_in_checkpoint st
    /\ scr_checkpoint_id st1 = scr_checkpoint_id st /\
    scr_map st1 = scr_map st /\ aborted st1 = aborted st /\
    trace st1 = trace st /\ env st1 = env st /\
    scr_flush_async_in_progress st1 = scr_flush_async_in_progress st /\
    scr_flush_async_checkpoint_id st1 = scr_flush_async_checkpoint_id st /\
    cache (node st1) = cache (node st) /\ dirs (node st1) = dirs (node st) /\
    map_file (node st1) = map_file (node st) /\
    forall id', id' <> id ->
      flush_file (node st1) !! id' = flush_file (node st) !! id').
  { unfold st1. destruct (_ =? SCR_SUCCESS); [|repeat split; auto].
    apply scr_flush_location_set_frame. }
  destruct H1 as (A1 & A2 & A3 & A4 & A5 & A6 & A7 & A8 & A9 & A10 & A11
                  & A12 & A13).
  set (st2 := with_async_in_progress st1 0).
  pose proof (scr_flush_location_unset_frame st2 id
                SCR_FLUSH_KEY_LOCATION_FLUSHING) as H3.
  cbv zeta in H3.
  set (st3 := scr_flush_location_unset st2 id
                SCR_FLUSH_KEY_LOCATION_FLUSHING) in *.
  destruct H3 as (B1 & B2 & B3 & B4 & B5 & B6 & B7 & B8 & B9 & B10 & B11
                  & B12 & B13).
  change (cfg st2) with (cfg st1) in *.
  change (scr_in_checkpoint st2) with (scr_in_checkpoint st1) in *.
  change (scr_checkpoint_id st2) with (scr_checkpoint_id st1) in *.
  change (scr_map st2) with (scr_map st1) in *.
  change (aborted st2) with (aborted st1) in *.
  change (trace st2) with (trace st1) in *.
  change (env st2) with (env st1) in *.
  change (scr_flush_async_checkpoint_id st2)
    with (scr_flush_async_checkpoint_id st1) in *.
  change (node st2) with (node st1) in *.
  unfold kept_by_wait. cbn.
  rewrite B1, B2, B3, B4, B5, B6, B7, B9, B10, B11, B12,
    A1, A2, A3, A4, A5, A6, A7, A9, A10, A11, A12.
  repeat split; auto.
  - rewrite (B13 id' H). apply A13. exact H.
  - destruct (Z.eqb_spec id' id); [contradiction|reflexivity].
Qed.

(** After a call of [scr_flush_async_complete] that has passed its two
    early returns the checkpoint is no longer marked as being flushed. *)
Lemma scr_flush_async_complete_clears st id :
  (scr_flush (cfg st) <=? 0) = false ->
  truthy (all_have_files st id) = true ->
  truthy (scr_bool_is_flushing (snd (scr_flush_async_complete st id)) id)
  = false.
Proof.
  intros Hflush Hfiles. unfold scr_flush_async_complete.
  rewrite Hflush, Hfiles. cbn [negb snd].
  set (st1 := if _ =? SCR_SUCCESS then _ else st).
  assert (Hc1 : cfg st1 = cfg st).
  { unfold st1. destruct (_ =? SCR_SUCCESS); [|reflexivity].
    apply scr_flush_location_set_frame. }
  unfold scr_bool_is_flushing. cbn [env with_env peers_flush_done
    peers_not_flushing cfg].
  rewrite Z.eqb_refl.
  assert (Hlocal :
    (if scr_my_rank_local
          (cfg (scr_flush_location_unset (with_async_in_progress st1 0) id
                  SCR_FLUSH_KEY_LOCATION_FLUSHING)) =? 0
     then match flush_file
                  (node (scr_flush_location_unset
                           (with_async_in_progress st1 0) id
                           SCR_FLUSH_KEY_LOCATION_FLUSHING)) !! id with
          | Some e => of_bool (loc_FLUSHING e)
          | None => 0
          end
     else 0) = 0).
  { unfold scr_flush_location_unset. cbn [cfg with_async_in_progress node].
    destruct (scr_my_rank_local (cfg st1) =? 0) eqn:Hm;
      [|cbn; rewrite Hm; reflexivity].
    destruct (flush_file (node st1) !! id) as [e|] eqn:He.
    - cbn. rewrite Hm, lookup_insert_eq. reflexivity.
    - cbn. rewrite Hm, He. reflexivity. }
  cbn [cfg with_env node] in *. rewrite Hlocal. reflexivity.
Qed.

Lemma scr_flush_async_test_success st id poll :
  scr_flush_async_test st id poll = SCR_SUCCESS ->
  (scr_flush (cfg st) <=? 0) = false /\
  truthy (all_have_files st id) = true.
Proof.
  unfold scr_flush_async_test.
  destruct (scr_flush (cfg st) <=? 0); [discriminate|].
  destruct (truthy (all_have_files st id)); [auto|discriminate].
Qed.

(** The loop of [scr_flush_async_wait] returns success with the
    checkpoint no longer marked, or it does not return and the checkpoint
    is still marked; it never dereferences [NULL]. *)
Lemma flush_async_wait_loop_spec : forall polls st,
  let id := scr_flush_async_checkpoint_id st in
  exists st',
    kept_by_wait id st st' /\ trace st' = trace st /\
    ((flush_async_wait_loop polls st = Ok SCR_SUCCESS st' /\
      truthy (scr_bool_is_flushing st' id) = false) \/
     (flush_async_wait_loop polls st = Hang st' /\
      truthy (scr_bool_is_flushing st' id) = true)).
Proof.
  induction polls as [|poll polls IH]; intros st id;
    cbn [flush_async_wait_loop]; fold id.
  - destruct (truthy (scr_bool_is_flushing st id)) eqn:Hfl.
    2:{ exists st. split; [apply kept_by_wait_refl|]. split; auto. }
    destruct (scr_flush_async_test st id (transfer_end (env st))
              =? SCR_SUCCESS) eqn:Htest.
    2:{ exists st. split; [apply kept_by_wait_refl|]. split; auto. }
    apply Z.eqb_eq, scr_flush_async_test_success in Htest as [Hf Hh].
    rewrite (scr_flush_async_complete_clears st id Hf Hh).
    exists (snd (scr_flush_async_complete st id)).
    split; [apply scr_flush_async_complete_kept|].
    split; [apply scr_flush_async_complete_kept|].
    left. split; [reflexivity|].
    apply scr_flush_async_complete_clears; assumption.
  - destruct (truthy (scr_bool_is_flushing st id)) eqn:Hfl.
    2:{ exists st. split; [apply kept_by_wait_refl|]. split; auto. }
    set (st0 := with_env st (with_transfer_polls (env st) polls)).
    assert (K0 : kept_by_wait id st st0).
    { unfold kept_by_wait, st0. cbn. repeat split; reflexivity. }
    destruct (scr_flush_async_test st0 id poll =? SCR_SUCCESS).
    + set (st1 := snd (scr_flush_async_complete st0 id)).
      destruct (scr_flush_async_complete_kept st0 id) as [K1 T1].
      fold st1 in K1, T1.
      assert (Hid1 : scr_flush_async_checkpoint_id st1 = id).
      { destruct K1 as (_ & _ & _ & _ & _ & -> & _). reflexivity. }
      destruct (IH st1) as (st' & K & T & Hcase). cbv zeta in K, Hcase.
      rewrite Hid1 in K, Hcase.
      exists st'. split.
      { eapply kept_by_wait_trans; [exact K0|].
        eapply kept_by_wait_trans; [exact K1|exact K]. }
      split; [rewrite T, T1; reflexivity|exact Hcase].
    + destruct (IH st0) as (st' & K & T & Hcase). cbv zeta in K, Hcase.
      change (scr_flush_async_checkpoint_id st0) with id in K, Hcase.
      exists st'. split.
      { eapply kept_by_wait_trans; [exact K0|exact K]. }
      split; [rewrite T; reflexivity|exact Hcase].
Qed.

(** [scr_flush_async_wait]: the same, with the call recorded, and with an
    immediate return when no flush is in progress. *)
Lemma scr_flush_async_wait_spec st :
  let id := scr_flush_async_checkpoint_id st in
  exists st',
    kept_by_wait id st st' /\
    trace st' = trace st ++ [EvFlushAsyncWait] /\
    ((scr_flush_async_wait st = Ok SCR_SUCCESS st' /\
      (truthy (scr_flush_async_in_progress st) = true ->
       truthy (scr_bool_is_flushing st' id) = false)) \/
     (scr_flush_async_wait st = Hang st' /\
      truthy (scr_flush_async_in_progress st) = true /\
      truthy (scr_bool_is_flushing st' id) = true)).
Proof.
  intros id. unfold scr_flush_async_wait.
  set (st0 := with_trace st (trace st ++ [EvFlushAsyncWait])).
  assert (K0 : kept_by_wait id st st0).
  { unfold kept_by_wait, st0. cbn. repeat split; reflexivity. }
  change (scr_flush_async_in_progress st0)
    with (scr_flush_async_in_progress st).
  destruct (truthy (scr_flush_async_in_progress st)) eqn:Hin.
  - destruct (flush_async_wait_loop_spec (transfer_polls (env st0)) st0)
      as (st' & K & T & Hcase). cbv zeta in K, Hcase.
    change (scr_flush_async_checkpoint_id st0) with id in K, Hcase.
    exists st'. split; [exact (kept_by_wait_trans id st st0 st' K0 K)|].
    split; [rewrite T; reflexivity|].
    destruct Hcase as [[Hrun Hfl]|[Hrun Hfl]]; [left|right]; auto.
  - exists st0. split; [exact K0|]. split; [reflexivity|].
    left. split; [reflexivity|intros Hcontra; discriminate Hcontra].
Qed.

(** What the test of the flush reads is kept by the wait, so its answer to
    a given poll is the same in every round. *)
Lemma scr_flush_async_test_failure st id :
  scr_flush (cfg st) <= 0 \/ truthy (all_have_files st id) = false ->
  forall poll, scr_flush_async_test st id poll = SCR_FAILURE.
Proof.
  intros Hstuck poll. unfold scr_flush_async_test.
  destruct (Z.leb_spec (scr_flush (cfg st)) 0) as [_|Hpos]; [reflexivity|].
  destruct Hstuck as [Hle|Hfiles]; [lia|]. rewrite Hfiles. reflexivity.
Qed.

(** The loop returns once the transfer has completed: it is enough that
    the test succeeds on the poll that the transfer ends in. *)
Lemma flush_async_wait_loop_returns : forall polls st,
  scr_flush_async_test st (scr_flush_async_checkpoint_id st)
    (transfer_end (env st)) = SCR_SUCCESS ->
  exists st', flush_async_wait_loop polls st = Ok SCR_SUCCESS st'.
Proof.
  induction polls as [|poll polls IH]; intros st Hend;
    cbn [flush_async_wait_loop];
    set (id := scr_flush_async_checkpoint_id st) in *.
  - destruct (truthy (scr_bool_is_flushing st id)); [|eauto].
    rewrite Hend, Z.eqb_refl.
    apply scr_flush_async_test_success in Hend as [Hf Hh].
    rewrite (scr_flush_async_complete_clears st id Hf Hh). eauto.
  - destruct (truthy (scr_bool_is_flushing st id)); [|eauto].
    set (st0 := with_env st (with_transfer_polls (env st) polls)).
    assert (K0 : kept_by_wait id st st0).
    { unfold kept_by_wait, st0. cbn. repeat split; reflexivity. }
    assert (Hend0 : scr_flush_async_test st0 id (transfer_end (env st0))
                    = SCR_SUCCESS).
    { rewrite (proj1 (scr_flush_async_test_kept id st st0 id _ K0)).
      exact Hend. }
    destruct (scr_flush_async_test st0 id poll =? SCR_SUCCESS).
    + destruct (scr_flush_async_complete_kept st0 id) as [K1 _].
      apply IH.
      pose proof K1 as (_ & _ & _ & _ & _ & Hid & _ & _ & _ & _ & _ & _
                        & Hte & _).
      rewrite Hid, Hte.
      rewrite (proj1 (scr_flush_async_test_kept id _ _ id _ K1)).
      exact Hend0.
    + apply IH. exact Hend0.
Qed.

(** The loop does not return while the checkpoint is marked and the test
    fails on every poll. *)
Lemma flush_async_wait_loop_hangs : forall polls st,
  truthy (scr_bool_is_flushing st (scr_flush_async_checkpoint_id st))
  = true ->
  (forall poll,
     scr_flush_async_test st (scr_flush_async_checkpoint_id st) poll
     = SCR_FAILURE) ->
  exists st', flush_async_wait_loop polls st = Hang st'.
Proof.
  induction polls as [|poll polls IH]; intros st Hfl Hfail;
    cbn [flush_async_wait_loop]; rewrite Hfl.
  - rewrite Hfail. cbn. eauto.
  - set (id := scr_flush_async_checkpoint_id st) in *.
    set (st0 := with_env st (with_transfer_polls (env st) polls)).
    assert (K0 : kept_by_wait id st st0).
    { unfold kept_by_wait, st0. cbn. repeat split; reflexivity. }
    assert (Hfail0 : forall poll, scr_flush_async_test st0 id poll
                                  = SCR_FAILURE).
    { intros p.
      rewrite (proj1 (scr_flush_async_test_kept id st st0 id p K0)).
      apply Hfail. }
    rewrite Hfail0. cbn. apply IH; [exact Hfl|exact Hfail0].
Qed.

(** [scr_flush_async_wait] returns when the test succeeds at the end of
    the transfer. *)
Lemma scr_flush_async_wait_returns st :
  scr_flush_async_test st (scr_flush_async_checkpoint_id st)
    (transfer_end (env st)) = SCR_SUCCESS ->
  exists st', scr_flush_async_wait st = Ok SCR_SUCCESS st'.
Proof.
  intros Hend. unfold scr_flush_async_wait.
  set (st0 := with_trace st (trace st ++ [EvFlushAsyncWait])).
  destruct (truthy (scr_flush_async_in_progress st0)); [|eauto].
  apply flush_async_wait_loop_returns. exact Hend.
Qed.

(** [scr_flush_async_wait] does not return when a flush is in progress,
    its checkpoint is marked and the test cannot succeed: flushes are
    switched off, or a file of the checkpoint is missing on some
    process. *)
Lemma scr_flush_async_wait_hangs st :
  truthy (scr_flush_async_in_progress st) = true ->
  truthy (scr_bool_is_flushing st (scr_flush_async_checkpoint_id st))
  = true ->
  scr_flush (cfg st) <= 0 \/
  truthy (all_have_files st (scr_flush_async_checkpoint_id st)) = false ->
  exists st', scr_flush_async_wait st = Hang st'.
Proof.
  intros Hin Hfl Hstuck. unfold scr_flush_async_wait.
  set (st0 := with_trace st (trace st ++ [EvFlushAsyncWait])).
  change (scr_flush_async_in_progress st0)
    with (scr_flush_async_in_progress st). rewrite Hin.
  apply flush_async_wait_loop_hangs; [exact Hfl|].
  apply (scr_flush_async_test_failure st0). exact Hstuck.
Qed.

(** Deleting one checkpoint does not change what the loop tests on the
    others. *)
Lemma scr_checkpoint_delete_in_base st b id id' :
  id' <> id ->
  in_base (scr_checkpoint_delete st id) b id' = in_base st b id'.
Proof.
  intros Hne. unfold in_base, scr_checkpoint_delete. cbn.
  unfold scr_ckptdesc_base_from_filemap, scr_filemap_get_desc,
    scr_filemap_remove_checkpoint.
  rewrite lookup_delete_ne by congruence. reflexivity.
Qed.

Lemma scr_checkpoint_delete_marked_flushing st id id' :
  id' <> id ->
  marked_flushing (scr_checkpoint_delete st id) id'
  = marked_flushing st id'.
Proof.
  intros Hne. unfold marked_flushing, scr_bool_is_flushing,
    scr_checkpoint_delete. cbn.
  destruct (scr_my_rank_local (cfg st) =? 0) eqn:Hloc; [|reflexivity].
  destruct (scr_ckptdesc_dir_from_filemap _ _ _); cbn;
    rewrite lookup_delete_ne by congruence; reflexivity.
Qed.

Lemma scr_cachedesc_size_defined descs b :
  is_Some (scr_cachedesc_size descs (Some b)).
Proof.
  induction descs as [|d descs IH]; cbn; [eauto|].
  destruct (cd_BASE d) as [b'|]; [|exact IH]. cbn.
  case_bool_decide; [eauto|exact IH].
Qed.

(** The counting loop counts the cached checkpoints at the base. *)
Lemma count_in_base_counts st b : forall ckpts n,
  0 <= n -> n + Z.of_nat (length ckpts) <= INT_MAX ->
  count_in_base (scr_map st) (scr_my_rank_world (cfg st)) (Some b) ckpts n
  = Some (n + Z.of_nat (length (List.filter (in_base st b) ckpts))).
Proof.
  induction ckpts as [|id rest IH]; intros n Hn Hmax.
  - cbn. f_equal. lia.
  - cbn [count_in_base List.filter length] in *. unfold in_base at 1.
    destruct (scr_ckptdesc_base_from_filemap _ id _) as [base|] eqn:Hb.
    + cbn [strcmp_eq mbind option_bind].
      case_bool_decide as Heq.
      * subst base. rewrite bool_decide_eq_true_2 by reflexivity.
        rewrite IH.
        -- f_equal. unfold int_add.
           rewrite wrap_int_id
             by int_range.
           cbn [length]. lia.
        -- unfold int_add.
           rewrite wrap_int_id
             by int_range. lia.
        -- unfold int_add.
           rewrite wrap_int_id
             by int_range. lia.
      * rewrite bool_decide_eq_false_2 by congruence.
        apply IH; lia.
    + rewrite bool_decide_eq_false_2 by congruence. apply IH; lia.
Qed.

(** The eviction loop in closed form: it deletes the first [k] evictable
    checkpoints, and if the count is still at [size] or above when it ends,
    [flushing] is the first flushing checkpoint at the base. *)
Lemma eviction_plan_closed P F size : forall ckpts nb fl,
  Z.of_nat (length (List.filter P ckpts)) <= nb ->
  (forall id, id ∈ ckpts -> id <> -1) ->
  let evictable := List.filter (fun id => negb (F id)) (List.filter P ckpts) in
  let flushing := List.filter F (List.filter P ckpts) in
  let k := Z.to_nat (Z.min (Z.of_nat (length evictable)) (nb - size + 1)) in
  fst (fst (eviction_plan P F size ckpts nb fl)) = take k evictable /\
  snd (fst (eviction_plan P F size ckpts nb fl)) = nb - Z.of_nat k /\
  (size <= nb - Z.of_nat k ->
     snd (eviction_plan P F size ckpts nb fl)
     = if fl =? -1 then hd (-1) flushing else fl).
Proof.
  induction ckpts as [|id rest IH]; intros nb fl Hnb Hids; cbv zeta.
  - cbn [eviction_plan List.filter fst snd length hd].
    rewrite take_nil. split; [reflexivity|]. split; [lia|].
    intros _. destruct (Z.eqb_spec fl (-1)); [assumption|reflexivity].
  - assert (Hids' : forall id', id' ∈ rest -> id' <> -1).
    { intros id' Hin. apply Hids. right. exact Hin. }
    assert (Hid : id <> -1) by (apply Hids; left).
    cbn [eviction_plan]. destruct (Z.geb_spec nb size) as [Hge|Hlt].
    2:{ cbn. rewrite Z2Nat.inj_min.
        replace (Z.to_nat (nb - size + 1)) with 0%nat by lia.
        rewrite Nat.min_0_r. cbn. split; [reflexivity|].
        split; [lia|]. intros Hcontra. lia. }
    cbn [List.filter] in *. destruct (P id) eqn:HP.
    2:{ apply IH; assumption. }
    cbn [length] in Hnb. cbn [List.filter]. destruct (F id) eqn:HF; cbn [negb].
    + (* flushing: remembered if it is the first *)
      destruct (Z.eqb_spec fl (-1)) as [Hfl|Hfl].
      * destruct (IH nb id ltac:(lia) Hids') as (Hd & Hn & Hf).
        split; [exact Hd|]. split; [exact Hn|].
        intros Hsz. rewrite (Hf Hsz).
        destruct (Z.eqb_spec id (-1)); [contradiction|reflexivity].
      * destruct (IH nb fl ltac:(lia) Hids') as (Hd & Hn & Hf).
        split; [exact Hd|]. split; [exact Hn|].
        intros Hsz. rewrite (Hf Hsz).
        destruct (Z.eqb_spec fl (-1)); [contradiction|reflexivity].
    + (* not flushing: deleted *)
      destruct (IH (nb - 1) fl ltac:(lia) Hids') as (Hd & Hn & Hf).
      destruct (eviction_plan P F size rest (nb - 1) fl) as [[d n] f].
      cbn [fst snd length] in *.
      set (E := List.filter (fun id0 => negb (F id0))
                  (List.filter P rest)) in *.
      assert (Hk : Z.to_nat (Z.min (Z.of_nat (S (length E))) (nb - size + 1))
                   = S (Z.to_nat (Z.min (Z.of_nat (length E))
                                    (nb - 1 - size + 1)))) by lia.
      rewrite Hk. cbn [take]. split; [f_equal; exact Hd|].
      split; [lia|]. intros Hsz. apply Hf. lia.
Qed.

(** The eviction loop of [SCR_Start_checkpoint] never dereferences
    [NULL] when the base is set, deletes the checkpoints of the plan in
    the order of the plan, and ends with the plan's counters. *)
Lemma evict_until_room_follows_plan b size P F : forall ckpts st nb fl,
  NoDup ckpts ->
  (forall id, id ∈ ckpts ->
     in_base st b id = P id /\ marked_flushing st id = F id) ->
  Z.of_nat (length (List.filter P ckpts)) <= nb -> nb <= INT_MAX ->
  exists st',
    evict_until_room (Some b) size ckpts st nb fl
    = Ok (snd (fst (eviction_plan P F size ckpts nb fl)),
          snd (eviction_plan P F size ckpts nb fl)) st' /\
    trace st' = trace st ++
      List.map EvCheckpointDelete
        (fst (fst (eviction_plan P F size ckpts nb fl))).
Proof.
  induction ckpts as [|id rest IH]; intros st nb fl Hnd Hag Hnb Hmax.
  - cbn. exists st. rewrite app_nil_r. auto.
  - apply NoDup_cons in Hnd as [Hnotin Hnd].
    assert (Hag' : forall st2,
      (forall id', id' <> id -> in_base st2 b id' = in_base st b id' /\
         marked_flushing st2 id' = marked_flushing st id') ->
      forall id', id' ∈ rest ->
        in_base st2 b id' = P id' /\ marked_flushing st2 id' = F id').
    { intros st2 Hst2 id' Hin.
      assert (Hne : id' <> id) by (intros ->; contradiction).
      destruct (Hst2 id' Hne) as [-> ->]. apply Hag. right. exact Hin. }
    assert (Hsame : forall id', id' ∈ rest ->
              in_base st b id' = P id' /\ marked_flushing st id' = F id').
    { intros id' Hin. apply Hag. right. exact Hin. }
    destruct (Hag id ltac:(left)) as [HP HF].
    cbn [evict_until_room eviction_plan].
    destruct (nb >=? size).
    2:{ exists st. cbn. rewrite app_nil_r. auto. }
    cbn [List.filter] in Hnb. unfold in_base in HP.
    destruct (scr_ckptdesc_base_from_filemap (scr_map st) id
                (scr_my_rank_world (cfg st))) as [base|] eqn:Hbase.
    + cbn [strcmp_eq]. destruct (decide (base = b)) as [->|Hneq].
      * rewrite bool_decide_eq_true_2 in HP by reflexivity.
        rewrite bool_decide_eq_true_2 by reflexivity.
        rewrite <- HP in *. cbn [length] in Hnb.
        unfold marked_flushing in HF. rewrite HF.
        destruct (F id); cbn [negb].
        -- destruct (fl =? -1); apply IH; auto; lia.
        -- assert (Hsub : int_sub nb 1 = nb - 1).
           { apply wrap_int_id. int_range. }
           rewrite Hsub.
           destruct (IH (scr_checkpoint_delete st id) (nb - 1) fl Hnd)
             as (st' & Hrun & Htr).
           { apply Hag'. intros id' Hne. split.
             - apply scr_checkpoint_delete_in_base. exact Hne.
             - apply scr_checkpoint_delete_marked_flushing. exact Hne. }
           { lia. }
           { lia. }
           exists st'. rewrite Hrun, Htr.
           destruct (eviction_plan P F size rest (nb - 1) fl) as [[d n] f].
           cbn [fst snd]. split; [reflexivity|].
           rewrite scr_checkpoint_delete_trace, <- app_assoc. reflexivity.
      * rewrite bool_decide_eq_false_2 in HP by congruence.
        rewrite bool_decide_eq_false_2 by congruence.
        rewrite <- HP in *. apply IH; auto.
    + rewrite bool_decide_eq_false_2 in HP by congruence.
      rewrite <- HP in *. apply IH; auto.
Qed.

Example eviction_events_skip_flushing :
  eviction_events (fun _ => true) (fun id => id =? 1) 2 [1; 2; 3]
  = [EvCheckpointDelete 2; EvCheckpointDelete 3].
Proof. reflexivity. Qed.

Example eviction_events_wait_when_all_flushing :
  eviction_events (fun _ => true) (fun _ => true) 2 [4; 6]
  = [EvFlushAsyncWait; EvCheckpointDelete 4].
Proof. reflexivity. Qed.

Example eviction_events_other_base_untouched :
  eviction_events (fun id => id =? 5) (fun _ => false) 1 [3; 5; 8]
  = [EvCheckpointDelete 5].
Proof. reflexivity. Qed.

(** Below the capacity nothing is evicted and nothing is waited for. *)
Lemma eviction_events_below_capacity P F size cached :
  Z.of_nat (length (List.filter P cached)) < size ->
  eviction_events P F size cached = [].
Proof.
  intros Hlt. unfold eviction_events.
  set (E := List.filter (fun id => negb (F id)) (List.filter P cached)).
  replace (Z.to_nat (Z.min (Z.of_nat (length E))
             (Z.of_nat (length (List.filter P cached)) - size + 1)))
    with 0%nat by lia.
  rewrite take_0. cbn [List.map app].
  destruct (Z.leb_spec size
              (Z.of_nat (length (List.filter P cached)) - Z.of_nat 0));
    [lia|reflexivity].
Qed.

Lemma scr_checkpoint_dir_create_trace c id st :
  trace (result_state
           (match scr_checkpoint_dir_create c id st with
            | Ok _ st' => Ok SCR_SUCCESS st'
            | Crash st' => Crash st'
            | Hang st' => Hang st'
            end)) = trace st.
Proof.
  unfold scr_checkpoint_dir_create, scr_checkpoint_dir.
  destruct (scr_my_rank_local (cfg st) =? 0); [|reflexivity].
  destruct (directory c); [|reflexivity].
  destruct (mkdir_succeeds _ _); reflexivity.
Qed.

End LibraryFacts.

(** ** Partner rings *)

Module RingFacts.
Import Partners Descriptors Samples CIntFacts.

(** Two positions of a communicator that differ by a multiple of its size
    are the same position. *)
Lemma position_unique a b q n :
  0 <= a < n -> 0 <= b < n -> a = b + q * n -> a = b.
Proof. intros Ha Hb Heq. assert (q = 0) by nia. subst q. lia. Qed.

(** The partner ranks are positions of the communicator that differ from
    [my_rank - dist] and [my_rank + dist] by multiples of its size. *)
Lemma partner_ranks_congruent my_rank ranks dist :
  1 <= ranks -> 0 <= my_rank < ranks -> in_int dist ->
  my_rank + 2 * ranks <= INT_MAX ->
  exists l r ql qr, partner_ranks my_rank ranks dist = Some (l, r) /\
    0 <= l < ranks /\ 0 <= r < ranks /\
    l = my_rank - dist + ql * ranks /\ r = my_rank + dist + qr * ranks.
Proof.
  intros Hr Hme Hd Hfit. unfold partner_ranks.
  destruct (PartnersFacts.shift_dist_spec dist ranks)
    as (d & q & Heq & Hrange & Hd'); [lia | lia | exact Hd |].
  rewrite Heq. cbv zeta.
  assert (H1 : int_add my_rank ranks = my_rank + ranks).
  { apply wrap_int_id. int_range. }
  rewrite H1.
  assert (H2 : int_sub (my_rank + ranks) d = my_rank + ranks - d).
  { apply wrap_int_id. int_range. }
  assert (H3 : int_add (my_rank + ranks) d = my_rank + ranks + d).
  { apply wrap_int_id. int_range. }
  rewrite H2, H3, !int_rem_nonneg by lia.
  pose proof (Z.mod_pos_bound (my_rank + ranks - d) ranks ltac:(lia)) as Hl.
  pose proof (Z.mod_pos_bound (my_rank + ranks + d) ranks ltac:(lia)) as Hrr.
  pose proof (Z.div_mod (my_rank + ranks - d) ranks ltac:(lia)) as Hdl.
  pose proof (Z.div_mod (my_rank + ranks + d) ranks ltac:(lia)) as Hdr.
  eexists _, _, (1 - q - (my_rank + ranks - d) / ranks),
    (1 + q - (my_rank + ranks + d) / ranks).
  split; [reflexivity|]. split; [exact Hl|]. split; [exact Hrr|].
  split; lia.
Qed.

(** The members found at the partner positions. *)
Lemma scr_set_partners_fields (comm : list member) my_rank dist :
  1 <= Z.of_nat (length comm) ->
  0 <= my_rank < Z.of_nat (length comm) -> in_int dist ->
  my_rank + 2 * Z.of_nat (length comm) <= INT_MAX ->
  exists p ml mr ql qr,
    scr_set_partners comm my_rank dist = Some p /\
    0 <= p_lhs_rank p < Z.of_nat (length comm) /\
    0 <= p_rhs_rank p < Z.of_nat (length comm) /\
    p_lhs_rank p = my_rank - dist + ql * Z.of_nat (length comm) /\
    p_rhs_rank p = my_rank + dist + qr * Z.of_nat (length comm) /\
    comm !! Z.to_nat (p_lhs_rank p) = Some ml /\
    comm !! Z.to_nat (p_rhs_rank p) = Some mr /\
    p_lhs_hostname p = m_hostname ml /\
    p_lhs_rank_world p = m_rank_world ml /\
    p_rhs_hostname p = m_hostname mr /\
    p_rhs_rank_world p = m_rank_world mr.
Proof.
  intros Hn Hme Hd Hfit. unfold scr_set_partners.
  destruct (partner_ranks_congruent my_rank (Z.of_nat (length comm)) dist)
    as (l & r & ql & qr & Heq & Hl & Hr & Hql & Hqr); try assumption.
  rewrite Heq.
  destruct (lookup_lt_is_Some_2 comm (Z.to_nat l) ltac:(lia)) as [ml Hml].
  destruct (lookup_lt_is_Some_2 comm (Z.to_nat r) ltac:(lia)) as [mr Hmr].
  eexists _, ml, mr, ql, qr. split; [reflexivity|]. cbn.
  unfold comm_member.
  destruct (Z.ltb_spec l 0); [lia|]. destruct (Z.ltb_spec r 0); [lia|].
  rewrite Hml, Hmr. cbn. repeat split; try lia; assumption.
Qed.

(** X1.  [scr_set_partners] builds a ring.  In a communicator of [n >= 1]
    members with [3 n <= INT_MAX], for every member and every [int]
    distance: both partner ranks are positions of the communicator, the
    hostname and world rank received from each side are those of the
    member at that position (never the empty default), the left
    partner's right partner is the member itself and so is the right
    partner's left partner, and what those two partners receive from it is
    its own hostname and world rank.  So every send of the four exchanges
    is matched by the receive that the addressed partner posts. *)
Theorem scr_set_partners_ring (comm : list member) (my_rank dist : Z) :
  3 * Z.of_nat (length comm) <= INT_MAX ->
  0 <= my_rank < Z.of_nat (length comm) -> in_int dist ->
  exists p pl pr me ml mr,
    comm !! Z.to_nat my_rank = Some me /\
    scr_set_partners comm my_rank dist = Some p /\
    comm !! Z.to_nat (p_lhs_rank p) = Some ml /\
    comm !! Z.to_nat (p_rhs_rank p) = Some mr /\
    0 <= p_lhs_rank p < Z.of_nat (length comm) /\
    0 <= p_rhs_rank p < Z.of_nat (length comm) /\
    p_lhs_hostname p = m_hostname ml /\
    p_lhs_rank_world p = m_rank_world ml /\
    p_rhs_hostname p = m_hostname mr /\
    p_rhs_rank_world p = m_rank_world mr /\
    scr_set_partners comm (p_lhs_rank p) dist = Some pl /\
    scr_set_partners comm (p_rhs_rank p) dist = Some pr /\
    p_rhs_rank pl = my_rank /\ p_lhs_rank pr = my_rank /\
    p_rhs_hostname pl = m_hostname me /\
    p_rhs_rank_world pl = m_rank_world me /\
    p_lhs_hostname pr = m_hostname me /\
    p_lhs_rank_world pr = m_rank_world me.
Proof.
  intros Hfit Hme Hd.
  set (n := Z.of_nat (length comm)) in *.
  destruct (lookup_lt_is_Some_2 comm (Z.to_nat my_rank) ltac:(lia))
    as [me Hmy].
  destruct (scr_set_partners_fields comm my_rank dist)
    as (p & ml & mr & ql & qr & Hp & Hl & Hr & Hql & Hqr & Hml & Hmr
        & Hlh & Hlw & Hrh & Hrw); try assumption; try (fold n; lia).
  fold n in Hl, Hr, Hql, Hqr.
  destruct (scr_set_partners_fields comm (p_lhs_rank p) dist)
    as (pl & mll & mlr & qll & qlr & Hpl & _ & Hlr & _ & Hqlr & _ & Hmlr
        & _ & _ & Hlrh & Hlrw); try assumption; try (fold n; lia).
  destruct (scr_set_partners_fields comm (p_rhs_rank p) dist)
    as (pr & mrl & mrr & qrl & qrr & Hpr & Hrl & _ & Hqrl & _ & Hmrl & _
        & Hrlh & Hrlw & _ & _); try assumption; try (fold n; lia).
  fold n in Hlr, Hqlr, Hrl, Hqrl.
  assert (Hback_l : p_rhs_rank pl = my_rank).
  { apply (position_unique _ _ (ql + qlr) n); lia. }
  assert (Hback_r : p_lhs_rank pr = my_rank).
  { apply (position_unique _ _ (qr + qrl) n); lia. }
  rewrite Hback_l, Hmy in Hmlr. rewrite Hback_r, Hmy in Hmrl.
  inversion Hmlr; subst mlr. inversion Hmrl; subst mrl.
  exists p, pl, pr, me, ml, mr. repeat split; assumption || lia.
Qed.

(** X2.  A partner is the process itself exactly when the distance is a
    multiple of the size of the communicator; this covers the distance 0,
    a distance equal to the size, and every distance in a communicator of
    one member. *)
Theorem partner_is_self_iff (my_rank ranks dist l r : Z) :
  1 <= ranks -> 0 <= my_rank < ranks -> in_int dist ->
  my_rank + 2 * ranks <= INT_MAX ->
  partner_ranks my_rank ranks dist = Some (l, r) ->
  (l = my_rank <-> (ranks | dist)) /\ (r = my_rank <-> (ranks | dist)).
Proof.
  intros Hr Hme Hd Hfit Hpr.
  destruct (partner_ranks_congruent my_rank ranks dist)
    as (l' & r' & ql & qr & Heq & Hl & Hrr & Hql & Hqr); try assumption.
  rewrite Heq in Hpr. inversion Hpr; subst l' r'. clear Hpr.
  split; split.
  - intros ->. exists ql. lia.
  - intros [k Hk]. apply (position_unique _ _ (ql - k) ranks); lia.
  - intros ->. exists (- qr). lia.
  - intros [k Hk]. apply (position_unique _ _ (qr + k) ranks); lia.
Qed.

Lemma partner_is_self_iff_witness :
  (2 = 2 <-> (4 | 8)) /\ (2 = 2 <-> (4 | 8)).
Proof.
  apply (partner_is_self_iff 2 4 8 2 2);
    try (unfold in_int, INT_MIN, INT_MAX; lia).
  reflexivity.
Defined.

Lemma scr_set_partners_ring_witness :
  exists p pl pr me ml mr,
    sample_comm "node0" "node1" !! Z.to_nat 0 = Some me /\
    scr_set_partners (sample_comm "node0" "node1") 0 1 = Some p /\
    sample_comm "node0" "node1" !! Z.to_nat (p_lhs_rank p) = Some ml /\
    sample_comm "node0" "node1" !! Z.to_nat (p_rhs_rank p) = Some mr /\
    0 <= p_lhs_rank p < Z.of_nat (length (sample_comm "node0" "node1")) /\
    0 <= p_rhs_rank p < Z.of_nat (length (sample_comm "node0" "node1")) /\
    p_lhs_hostname p = m_hostname ml /\
    p_lhs_rank_world p = m_rank_world ml /\
    p_rhs_hostname p = m_hostname mr /\
    p_rhs_rank_world p = m_rank_world mr /\
    scr_set_partners (sample_comm "node0" "node1") (p_lhs_rank p) 1
      = Some pl /\
    scr_set_partners (sample_comm "node0" "node1") (p_rhs_rank p) 1
      = Some pr /\
    p_rhs_rank pl = 0 /\ p_lhs_rank pr = 0 /\
    p_rhs_hostname pl = m_hostname me /\
    p_rhs_rank_world pl = m_rank_world me /\
    p_lhs_hostname pr = m_hostname me /\
    p_lhs_rank_world pr = m_rank_world me.
Proof.
  apply (scr_set_partners_ring (sample_comm "node0" "node1") 0 1);
    cbn; unfold in_int, INT_MIN, INT_MAX; lia.
Defined.

(** A process whose left partner is itself fails the hostname check. *)
Lemma local_topology_self_partner (p : process) :
  process_wf p -> cross_node (proc_desc p) ->
  3 * Z.of_nat (length (proc_comm p)) <= INT_MAX ->
  0 <= my_rank (proc_desc p) < Z.of_nat (length (proc_comm p)) ->
  m_hostname <$> proc_comm p !! Z.to_nat (my_rank (proc_desc p))
    = Some (proc_hostname p) ->
  (Z.of_nat (length (proc_comm p)) |
     match copy_type (proc_desc p) with
     | SCR_COPY_PARTNER => hop_distance (proc_desc p)
     | _ => 1
     end) ->
  exists c, local_topology p = Some c /\ enabled c = 0.
Proof.
  intros (Hlen & Hmax & Hhop) Hx Hfit Hme Hhost Hdiv.
  set (n := Z.of_nat (length (proc_comm p))) in *.
  assert (Hself : forall dist, in_int dist -> (n | dist) ->
    exists q, scr_set_partners (proc_comm p) (my_rank (proc_desc p)) dist
              = Some q /\ p_lhs_hostname q = proc_hostname p).
  { intros dist Hd [k Hk].
    destruct (scr_set_partners_fields (proc_comm p)
                (my_rank (proc_desc p)) dist)
      as (q & ml & mr & ql & qr & Hq & Hl & _ & Hql & _ & Hml & _ & Hlh & _);
      try assumption; try (fold n; lia).
    fold n in Hl, Hql.
    assert (Hsame : p_lhs_rank q = my_rank (proc_desc p)).
    { apply (position_unique _ _ (ql - k) n); lia. }
    rewrite Hsame in Hml. rewrite Hml in Hhost. cbn in Hhost.
    exists q. split; [exact Hq|]. congruence. }
  assert (Hcheck : forall c q, copy_type c = copy_type (proc_desc p) ->
    p_lhs_hostname q = proc_hostname p ->
    enabled (check_partner_hostnames (proc_hostname p)
               (set_partner_fields c q)) = 0).
  { intros c q Hct Hq. unfold check_partner_hostnames.
    cbn [copy_type lhs_hostname rhs_hostname set_partner_fields].
    rewrite Hq.
    assert (Hb : forall a b d : bool,
      a || b || bool_decide (proc_hostname p = proc_hostname p) || d = true).
    { intros a b d. rewrite bool_decide_eq_true_2 by reflexivity.
      rewrite orb_true_r. reflexivity. }
    rewrite Hb. destruct Hx as [Hx|Hx]; rewrite Hct, Hx; reflexivity. }
  unfold local_topology, find_partners.
  destruct Hx as [Hx|Hx]; rewrite Hx in *.
  - destruct (Hself (hop_distance (proc_desc p)) Hhop Hdiv) as (q & Hq & Hqh).
    rewrite Hq. cbn. eexists. split; [reflexivity|].
    apply Hcheck; [exact Hx|exact Hqh].
  - destruct (Hself 1 ltac:(unfold in_int, INT_MIN, INT_MAX; lia) Hdiv)
      as (q & Hq & Hqh).
    rewrite Hq. cbn. eexists. split; [reflexivity|].
    apply Hcheck; [exact Hx|exact Hqh].
Qed.

(** X3.  A PARTNER descriptor whose hop distance is a multiple of the size
    of its communicator, and an XOR descriptor whose set has a single
    member, make the process its own partner.  Its hostname check then
    fails, and after the all-reduce the descriptor is disabled on every
    process of the job. *)
Theorem degenerate_distance_disables_descriptor (world : list process)
    (p : process) :
  Forall process_wf world -> p ∈ world ->
  cross_node (proc_desc p) ->
  3 * Z.of_nat (length (proc_comm p)) <= INT_MAX ->
  0 <= my_rank (proc_desc p) < Z.of_nat (length (proc_comm p)) ->
  m_hostname <$> proc_comm p !! Z.to_nat (my_rank (proc_desc p))
    = Some (proc_hostname p) ->
  (Z.of_nat (length (proc_comm p)) |
     match copy_type (proc_desc p) with
     | SCR_COPY_PARTNER => hop_distance (proc_desc p)
     | _ => 1
     end) ->
  exists cs, topology_world world = Some cs /\
    length cs = length world /\
    forall c, c ∈ cs -> enabled c = 0.
Proof.
  intros Hwf Hin Hx Hfit Hme Hhost Hdiv. unfold topology_world.
  assert (Hsome : is_Some (mapM local_topology world)).
  { apply mapM_is_Some. eapply Forall_impl; [exact Hwf|].
    intros p' Hp'. apply TopologyFacts.local_topology_total, Hp'. }
  destruct Hsome as [cs0 Hcs0]. rewrite Hcs0. cbn.
  eexists. split; [reflexivity|].
  apply mapM_Some in Hcs0.
  pose proof (Forall2_length _ _ _ Hcs0) as Hlen.
  split; [rewrite length_map; lia|].
  destruct (local_topology_self_partner p) as (c0 & Hc0 & Hen);
    try assumption.
  { rewrite Forall_forall in Hwf. apply Hwf. exact Hin. }
  apply list_elem_of_lookup in Hin as [i Hi].
  destruct (Forall2_lookup_l _ _ _ _ _ Hcs0 Hi) as (c1 & Hc1 & Hloc).
  assert (c1 = c0) by congruence. subst c1.
  assert (Hzero : Descriptors.scr_alltrue (map enabled cs0) = 0).
  { apply RebuildFacts.scr_alltrue_zero_flag. rewrite <- Hen.
    apply list_elem_of_In, in_map, list_elem_of_In.
    eapply list_elem_of_lookup_2, Hc1. }
  rewrite Hzero. intros c Hc.
  apply list_elem_of_In, in_map_iff in Hc as (c' & <- & _). reflexivity.
Qed.

Lemma degenerate_distance_disables_descriptor_witness :
  exists cs, topology_world sample_single_xor = Some cs /\
    length cs = length sample_single_xor /\
    forall c, c ∈ cs -> enabled c = 0.
Proof.
  apply (degenerate_distance_disables_descriptor sample_single_xor
           {| proc_hostname := "node0";
              proc_desc := sample_xor_desc 0;
              proc_comm := [ {| m_hostname := "node0";
                                m_rank_world := 0 |} ] |}).
  - repeat constructor; cbn; unfold INT_MAX, INT_MIN; lia.
  - left.
  - right. reflexivity.
  - cbn. unfold INT_MAX. lia.
  - cbn. lia.
  - reflexivity.
  - cbn. exists 1. lia.
Defined.

End RingFacts.

(** ** XOR sets *)

Module XorSetsFacts.
Import XorSets CIntFacts.

Example xor_sets_of_eight_hop_one :
  xor_set_members 8 1 4 5 = [4; 5; 6; 7].
Proof. reflexivity. Qed.

Example xor_sets_of_eight_hop_two :
  xor_set_members 8 2 2 5 = [5; 7] /\ xor_set_members 8 2 2 2 = [0; 2].
Proof. split; reflexivity. Qed.

Example xor_set_incomplete_last :
  xor_set_members 6 1 4 5 = [4; 5].
Proof. reflexivity. Qed.

(** Without overflow the split id is the block number of the rank scaled
    by the hop distance, plus the rank's residue. *)
Lemma xor_split_id_value r h s :
  0 <= r <= INT_MAX -> 1 <= h -> 1 <= s ->
  xor_split_id r h s = r / h / s * h + r mod h /\
  0 <= r / h / s * h + r mod h <= r.
Proof.
  intros Hr Hh Hs. unfold xor_split_id, int_quot, int_mul, int_add, int_rem.
  rewrite (Z.quot_div_nonneg r h), (Z.rem_mod_nonneg r h) by lia.
  pose proof (Z.div_pos r h ltac:(lia) ltac:(lia)) as Hq0.
  pose proof (Z.mul_div_le r h ltac:(lia)) as Hq1.
  pose proof (Z.mod_pos_bound r h ltac:(lia)) as Hm.
  pose proof (Z.div_mod r h ltac:(lia)) as Hdm.
  pose proof (Z.div_pos (r / h) s ltac:(lia) ltac:(lia)) as Hb0.
  pose proof (Z.mul_div_le (r / h) s ltac:(lia)) as Hb1.
  assert (Hqle : r / h <= r) by nia.
  assert (Hble : r / h / s <= r / h) by nia.
  assert (Hprod : 0 <= r / h / s * h <= r / h * h) by nia.
  rewrite (wrap_int_id (r / h)) by int_range.
  rewrite (Z.quot_div_nonneg (r / h) s) by lia.
  rewrite (wrap_int_id (r / h / s)) by int_range.
  rewrite (wrap_int_id (r / h / s * h)) by int_range.
  rewrite wrap_int_id by int_range.
  split; [reflexivity|lia].
Qed.

(** Two ranks obtain the same split id exactly when they are congruent
    modulo the hop distance and lie in the same block of [h * s]
    consecutive level ranks. *)
Lemma xor_split_id_eq_iff (r r' h s : Z) :
  0 <= r <= INT_MAX -> 0 <= r' <= INT_MAX -> 1 <= h -> 1 <= s ->
  xor_split_id r h s = xor_split_id r' h s <->
  r mod h = r' mod h /\ r / (h * s) = r' / (h * s).
Proof.
  intros Hr Hr' Hh Hs.
  destruct (xor_split_id_value r h s) as [-> _]; try assumption.
  destruct (xor_split_id_value r' h s) as [-> _]; try assumption.
  rewrite !Z.div_div by lia.
  pose proof (Z.mod_pos_bound r h ltac:(lia)) as Hm.
  pose proof (Z.mod_pos_bound r' h ltac:(lia)) as Hm'.
  split.
  - intros Heq.
    assert (Hq : r / (h * s) = r' / (h * s)) by nia.
    split; [nia|exact Hq].
  - intros [-> ->]. reflexivity.
Qed.

(** The ranks of a block that are congruent to [me] modulo [h]. *)
Lemma same_block_and_residue (r me h s : Z) :
  0 <= r -> 0 <= me -> 1 <= h -> 1 <= s ->
  r mod h = me mod h /\ r / (h * s) = me / (h * s) <->
  exists j, 0 <= j < s /\
    r = me / (h * s) * (h * s) + me mod h + j * h.
Proof.
  intros Hr Hme Hh Hs.
  pose proof (Z.mod_pos_bound me h ltac:(lia)) as Hm.
  pose proof (Z.div_mod r h ltac:(lia)) as Hdr.
  pose proof (Z.mod_pos_bound r h ltac:(lia)) as Hmr.
  set (q := me / (h * s)) in *. set (m := me mod h) in *.
  split.
  - intros [Hres Hblk]. rewrite <- Z.div_div in Hblk by lia.
    pose proof (Z.div_mod (r / h) s ltac:(lia)) as Hds.
    pose proof (Z.mod_pos_bound (r / h) s ltac:(lia)) as Hms.
    exists ((r / h) mod s). split; [lia|].
    rewrite Hblk in Hds. rewrite Hres in Hdr. nia.
  - intros (j & Hj & ->).
    assert (Hq0 : 0 <= q).
    { unfold q. apply Z.div_pos; nia. }
    replace (q * (h * s) + m + j * h) with (m + (q * s + j) * h) by ring.
    split.
    + rewrite Z.mod_add by lia. apply Z.mod_small. lia.
    + rewrite <- Z.div_div by lia.
      rewrite Z.div_add by lia. rewrite (Z.div_small m h) by lia.
      rewrite Z.add_0_l, Z.add_comm, Z.div_add by lia.
      rewrite (Z.div_small j s) by lia. lia.
Qed.

(** X4.  The XOR sets.  For a level communicator of at most [INT_MAX]
    processes, a hop distance [h >= 1] and a set size [s >= 1], the
    communicator that the split gives to the process at level rank [me]
    consists of the level ranks [base + j * h] for [0 <= j < s] that exist,
    where [base] is the start of the block of [h * s] consecutive ranks
    that holds [me], plus the residue of [me] modulo [h].  So the members
    of a set are [h] apart, the process is a member of its own set, and a
    set has at least one and at most [s] members. *)
Theorem xor_set_members_spec (n h s me : Z) :
  0 <= me < n -> n <= INT_MAX -> 1 <= h -> 1 <= s ->
  (forall r, r ∈ xor_set_members n h s me <->
     0 <= r < n /\
     exists j, 0 <= j < s /\
       r = me / (h * s) * (h * s) + me mod h + j * h) /\
  me ∈ xor_set_members n h s me /\
  1 <= Z.of_nat (length (xor_set_members n h s me)) <= s.
Proof.
  intros Hme Hn Hh Hs.
  assert (Hmem : forall r, r ∈ xor_set_members n h s me <->
     0 <= r < n /\
     exists j, 0 <= j < s /\
       r = me / (h * s) * (h * s) + me mod h + j * h).
  { intros r. unfold xor_set_members.
    rewrite list_elem_of_In, filter_In, <- list_elem_of_In, elem_of_seqZ.
    rewrite Z.eqb_eq. split.
    - intros [Hr Heq]. split; [lia|].
      apply same_block_and_residue; try lia.
      apply xor_split_id_eq_iff; first [lia | exact Heq].
    - intros [Hr Hj]. split; [lia|].
      apply xor_split_id_eq_iff; try lia.
      apply same_block_and_residue; first [lia | exact Hj]. }
  assert (Hin : me ∈ xor_set_members n h s me).
  { unfold xor_set_members.
    rewrite list_elem_of_In, filter_In, <- list_elem_of_In, elem_of_seqZ.
    split; [lia|]. apply Z.eqb_refl. }
  split; [exact Hmem|]. split; [exact Hin|]. split.
  - destruct (xor_set_members n h s me); [inversion Hin|cbn; lia].
  - set (f := fun j => me / (h * s) * (h * s) + me mod h + j * h).
    assert (Hsub : xor_set_members n h s me ⊆+ f <$> seqZ 0 s).
    { apply NoDup_submseteq.
      - unfold xor_set_members.
        apply NoDup_ListNoDup, List.NoDup_filter, NoDup_ListNoDup, NoDup_seqZ.
      - intros r Hr. apply Hmem in Hr as (_ & j & Hj & ->).
        apply list_elem_of_fmap. exists j. split; [reflexivity|].
        apply elem_of_seqZ. lia. }
    apply submseteq_length in Hsub.
    rewrite length_fmap, length_seqZ in Hsub. lia.
Qed.

Lemma xor_set_members_spec_witness :
  (forall r, r ∈ xor_set_members 8 2 2 5 <->
     0 <= r < 8 /\
     exists j, 0 <= j < 2 /\
       r = 5 / (2 * 2) * (2 * 2) + 5 mod 2 + j * 2) /\
  5 ∈ xor_set_members 8 2 2 5 /\
  1 <= Z.of_nat (length (xor_set_members 8 2 2 5)) <= 2.
Proof.
  apply (xor_set_members_spec 8 2 2 5); unfold INT_MAX; lia.
Defined.

End XorSetsFacts.

(** ** Pieces of [SCR_Init] *)

Module InitFacts.
Import Descriptors Init CIntFacts.

Example host_index_groups_by_host :
  map (host_index [10; 20; 10; 30; 20]) [10; 20; 10; 30; 20]
  = [2; 4; 2; 3; 4].
Proof. reflexivity. Qed.

(** The loop returns the last position holding the host id, or the value
    it started with when there is none. *)
Lemma host_index_from_spec host_id : forall host_ids i hi,
  0 <= i -> i + Z.of_nat (length host_ids) <= INT_MAX ->
  (host_index_from host_ids host_id i hi = hi /\
   forall k, host_ids !! k <> Some host_id)
  \/
  (exists k, host_index_from host_ids host_id i hi = i + Z.of_nat k /\
     host_ids !! k = Some host_id /\
     forall k', host_ids !! k' = Some host_id -> (k' <= k)%nat).
Proof.
  induction host_ids as [|id rest IH]; intros i hi Hi Hfit.
  - left. split; [reflexivity|]. intros k. rewrite lookup_nil. discriminate.
  - cbn [host_index_from length] in *.
    assert (Hadd : int_add i 1 = i + 1).
    { apply wrap_int_id. int_range. }
    rewrite Hadd.
    destruct (IH (i + 1) (if id =? host_id then i else hi))
      as [[Hr Hnone]|(k & Hr & Hk & Hlast)]; [lia | lia | |].
    + destruct (Z.eqb_spec id host_id) as [->|Hne].
      * right. exists 0%nat. rewrite Hr. split; [lia|].
        split; [reflexivity|].
        intros [|k'] Hk'; [lia|]. cbn in Hk'. exfalso. eapply Hnone, Hk'.
      * left. split; [exact Hr|].
        intros [|k]; cbn; [congruence|apply Hnone].
    + right. exists (S k). rewrite Hr. split; [lia|]. split; [exact Hk|].
      intros [|k'] Hk'; [lia|]. cbn in Hk'. apply le_n_S, Hlast, Hk'.
Qed.

(** X5.  Grouping the processes by node in [SCR_Init].  In a job of at
    most [INT_MAX] processes, the colour computed for the process of rank
    [i] is the highest rank whose host id equals that of [i]; so two
    processes pass the same colour, and end up in the same
    [scr_comm_local], exactly when their host ids are equal. *)
Theorem host_index_same_node (host_ids : list Z) (i j : nat) (a b : Z) :
  Z.of_nat (length host_ids) <= INT_MAX ->
  host_ids !! i = Some a -> host_ids !! j = Some b ->
  (exists k, host_index host_ids a = Z.of_nat k /\
     host_ids !! k = Some a /\ (i <= k)%nat /\
     forall k', host_ids !! k' = Some a -> (k' <= k)%nat) /\
  (host_index host_ids a = host_index host_ids b <-> a = b).
Proof.
  intros Hfit Hi Hj.
  assert (Hlast : forall i a, host_ids !! i = Some a ->
    exists k, host_index host_ids a = Z.of_nat k /\
      host_ids !! k = Some a /\ (i <= k)%nat /\
      forall k', host_ids !! k' = Some a -> (k' <= k)%nat).
  { clear i j a b Hi Hj. intros i a Hi. unfold host_index.
    destruct (host_index_from_spec a host_ids 0 0 ltac:(lia) ltac:(lia))
      as [[_ Hnone]|(k & Hr & Hk & Hmax)].
    - exfalso. eapply Hnone, Hi.
    - exists k. split; [lia|]. split; [exact Hk|].
      split; [apply Hmax, Hi|exact Hmax]. }
  split; [apply (Hlast i a Hi)|].
  split; [|intros ->; reflexivity].
  destruct (Hlast i a Hi) as (k & Hr & Hk & _).
  destruct (Hlast j b Hj) as (k' & Hr' & Hk' & _).
  intros Heq. assert (k = k') by lia. subst k'. congruence.
Qed.

Lemma host_index_same_node_witness :
  (exists k, host_index [10; 20; 10] 10 = Z.of_nat k /\
     [10; 20; 10] !! k = Some 10 /\ (0 <= k)%nat /\
     forall k', [10; 20; 10] !! k' = Some 10 -> (k' <= k)%nat) /\
  (host_index [10; 20; 10] 10 = host_index [10; 20; 10] 20 <-> 10 = 20).
Proof.
  apply (host_index_same_node [10; 20; 10] 0 1 10 20).
  - cbn. unfold INT_MAX. lia.
  - reflexivity.
  - reflexivity.
Defined.

Lemma found_one_spec ckpts :
  found_one ckpts = 1 /\
    (exists d, d ∈ ckpts /\ enabled d <> 0 /\ interval d = 1)
  \/ found_one ckpts = 0 /\
    (forall d, d ∈ ckpts -> enabled d <> 0 -> interval d <> 1).
Proof.
  unfold found_one.
  assert (Hgen : forall f0, (f0 = 0 \/ f0 = 1) ->
    let f := fold_left
      (fun found_one d =>
         if truthy (enabled d) && (interval d =? 1) then 1 else found_one)
      ckpts f0 in
    (f = 1 /\ (f0 = 1 \/
       exists d, d ∈ ckpts /\ enabled d <> 0 /\ interval d = 1))
    \/ (f = 0 /\ f0 = 0 /\
        forall d, d ∈ ckpts -> enabled d <> 0 -> interval d <> 1)).
  { induction ckpts as [|c rest IH]; intros f0 Hf0; cbn.
    - destruct Hf0 as [->| ->]; [right|left]; split; auto.
      split; [reflexivity|]. intros d Hd. inversion Hd.
    - destruct (truthy (enabled c) && (interval c =? 1)) eqn:Htest.
      + apply andb_true_iff in Htest as [Hen Hiv].
        apply Z.eqb_eq in Hiv. unfold truthy in Hen.
        apply negb_true_iff, Z.eqb_neq in Hen.
        destruct (IH 1 ltac:(auto)) as [[Hf _]|[_ [Hcontra _]]];
          [|discriminate].
        left. split; [exact Hf|]. right. exists c.
        split; [left|]. auto.
      + destruct (IH f0 Hf0) as [[Hf Hex]|(Hf & Hz & Hall)].
        * left. split; [exact Hf|]. destruct Hex as [?|(d & Hd & Hp)];
            [auto|]. right. exists d. split; [right; exact Hd|exact Hp].
        * right. split; [exact Hf|]. split; [exact Hz|].
          intros d Hd Hen Hiv. apply elem_of_cons in Hd as [Heq|Hd].
          -- subst c. unfold truthy in Htest.
             destruct (Z.eqb_spec (enabled d) 0); [contradiction|].
             rewrite Hiv in Htest. discriminate.
          -- exact (Hall d Hd Hen Hiv). }
  destruct (Hgen 0 ltac:(auto)) as [[Hf [Hc|Hex]]|(Hf & _ & Hall)].
  - discriminate.
  - left. auto.
  - right. auto.
Qed.

(** X6.  The descriptor check of [SCR_Init] is exactly what makes
    descriptor selection total: an enabled descriptor with interval 1 is
    found if and only if [scr_ckptdesc_get] returns a descriptor for every
    checkpoint id, and that holds if and only if it returns one for the
    checkpoint id 1.  The descriptor returned is enabled and its positive
    interval divides the id. *)
Theorem found_one_iff_selection_total (ckpts : list scr_ckptdesc) :
  (truthy (found_one ckpts) = true <->
   forall id, exists i c, scr_ckptdesc_get id ckpts = Some i /\
     ckpts !! i = Some c /\ enabled c <> 0 /\ 0 < interval c /\
     (interval c | id)) /\
  (truthy (found_one ckpts) = true <-> scr_ckptdesc_get 1 ckpts <> None).
Proof.
  assert (Hfwd : truthy (found_one ckpts) = true ->
    forall id, exists i c, scr_ckptdesc_get id ckpts = Some i /\
      ckpts !! i = Some c /\ enabled c <> 0 /\ 0 < interval c /\
      (interval c | id)).
  { intros Hf id.
    destruct (found_one_spec ckpts) as [[_ (d & Hd & Hen & Hiv)]|[Hz _]].
    2:{ rewrite Hz in Hf. discriminate. }
    destruct (DescriptorFacts.scr_ckptdesc_get_cases id ckpts)
      as [[_ Hall]|(i & c & Hr & Hi & He & Hpos & Hdiv & _)].
    - exfalso. specialize (Hall d Hd Hen). rewrite Hiv in Hall.
      specialize (Hall (Z.divide_1_l id)). lia.
    - exists i, c. auto. }
  assert (Hback : scr_ckptdesc_get 1 ckpts <> None ->
    truthy (found_one ckpts) = true).
  { intros Hsel.
    destruct (DescriptorFacts.scr_ckptdesc_get_cases 1 ckpts)
      as [[Hr _]|(i & c & Hr & Hi & He & Hpos & Hdiv & _)];
      [contradiction|].
    assert (Hone : interval c = 1).
    { apply Z.divide_1_r_nonneg in Hdiv; lia. }
    destruct (found_one_spec ckpts) as [[-> _]|[_ Hall]]; [reflexivity|].
    exfalso. apply (Hall c); auto. eapply list_elem_of_lookup_2, Hi. }
  split; split.
  - exact Hfwd.
  - intros Hall. apply Hback. destruct (Hall 1) as (i & c & Hr & _).
    congruence.
  - intros Hf. destruct (Hfwd Hf 1) as (i & c & Hr & _). congruence.
  - exact Hback.
Qed.

End InitFacts.

(** ** Files of a checkpoint *)

Module FileFacts.
Import Meta FileMap Library Redundancy CIntFacts.

(** A flag that a loop sets to 1 on some elements ends up set exactly
    when it was set before or the loop met such an element. *)
Lemma fold_left_flag {A} (bad : A -> bool) (l : list A) (flag : Z) :
  fold_left (fun flag x => if bad x then 1 else flag) l flag
  = if existsb bad l then 1 else flag.
Proof.
  revert flag. induction l as [|x l IH]; intros flag; cbn; [reflexivity|].
  rewrite IH. destruct (bad x); cbn; [|reflexivity].
  destruct (existsb bad l); reflexivity.
Qed.

Lemma scr_bool_have_file_truthy fs ckpt rank file ranks :
  truthy (scr_bool_have_file fs ckpt rank (Some file) ranks) = true <->
  usable_per_code fs ckpt rank file ranks.
Proof.
  destruct (MetaFacts.scr_bool_have_file_spec fs ckpt rank file ranks)
    as [[-> Hu]|[-> Hu]]; cbn; split; auto; try discriminate; tauto.
Qed.

(** X7.  [scr_bool_have_files] answers 0 or 1, and it answers 1 exactly
    when the filemap has an entry for the rank under the checkpoint, an
    expected file count is recorded and equals the number of files listed
    (an entry without a recorded count never passes, the count read being
    -1), and every listed file passes [scr_bool_have_file]. *)
Theorem scr_bool_have_files_iff (fs : Meta.files) (scr_ranks_world : Z)
    (map : scr_filemap) (ckpt rank : Z) :
  (scr_bool_have_files fs scr_ranks_world map ckpt rank = 1 \/
   scr_bool_have_files fs scr_ranks_world map ckpt rank = 0) /\
  (scr_bool_have_files fs scr_ranks_world map ckpt rank = 1 <->
   is_Some (map !! ckpt ≫= fun ranks => ranks !! rank) /\
   expected_count (entry map ckpt rank)
     = Some (Z.of_nat (size (files (entry map ckpt rank)))) /\
   forall file, file ∈ files (entry map ckpt rank) ->
     usable_per_code fs ckpt rank file scr_ranks_world).
Proof.
  unfold scr_bool_have_files, scr_filemap_have_rank_by_checkpoint,
    scr_filemap_num_expected_files, scr_filemap_num_files,
    scr_filemap_list_files.
  rewrite (fold_left_flag
             (fun file => negb (truthy (scr_bool_have_file fs ckpt rank
                                          (Some file) scr_ranks_world)))).
  case_bool_decide as Hentry; cbn [of_bool truthy Z.eqb negb].
  2:{ split; [auto|]. split; [discriminate|]. tauto. }
  set (e := entry map ckpt rank).
  destruct (Z.eqb_spec (Z.of_nat (size (files e)))
              (default (-1) (expected_count e))) as [Hcount|Hcount];
    cbn [negb].
  2:{ split; [auto|]. split; [discriminate|].
      intros (_ & Hexp & _). rewrite Hexp in Hcount. cbn in Hcount. lia. }
  assert (Hexp : expected_count e = Some (Z.of_nat (size (files e)))).
  { destruct (expected_count e) as [n|]; cbn in Hcount; [|lia].
    f_equal. lia. }
  destruct (existsb _ (elements (files e))) eqn:Hbad; cbn.
  - split; [auto|]. split; [discriminate|]. intros (_ & _ & Hall).
    apply existsb_exists in Hbad as (file & Hin & Hf).
    apply list_elem_of_In, elem_of_elements, Hall in Hin.
    apply scr_bool_have_file_truthy in Hin. rewrite Hin in Hf. discriminate.
  - split; [auto|]. split; [|reflexivity]. intros _.
    split; [exact Hentry|]. split; [exact Hexp|].
    intros file Hin. apply scr_bool_have_file_truthy.
    destruct (truthy _) eqn:Ht; [reflexivity|]. exfalso.
    assert (Hex : existsb
      (fun file => negb (truthy (scr_bool_have_file fs ckpt rank
                                   (Some file) scr_ranks_world)))
      (elements (files e)) = true).
    { apply existsb_exists. exists file.
      split; [apply list_elem_of_In, elem_of_elements, Hin|].
      rewrite Ht. reflexivity. }
    congruence.
Qed.

(** The XOR file type as [scr_bool_have_xor_file] tests it. *)
Lemma find_xor_file_step fs file rest :
  find_xor_file fs (file :: rest)
  = if bool_decide (meta_filetype (snd (scr_meta_read fs file))
                    = Some SCR_META_FILE_XOR)
    then (1, Some file) else find_xor_file fs rest.
Proof.
  cbn [find_xor_file]. destruct (scr_meta_read fs file) as [rc meta].
  cbn [snd]. destruct (meta_filetype meta) as [t|].
  - repeat case_bool_decide; congruence.
  - rewrite bool_decide_eq_false_2 by discriminate. reflexivity.
Qed.

Lemma find_xor_file_spec fs : forall file_list,
  (exists l1 file l2, file_list = l1 ++ file :: l2 /\
     find_xor_file fs file_list = (1, Some file) /\
     meta_filetype (snd (scr_meta_read fs file)) = Some SCR_META_FILE_XOR /\
     forall g, g ∈ l1 ->
       meta_filetype (snd (scr_meta_read fs g)) <> Some SCR_META_FILE_XOR)
  \/
  (find_xor_file fs file_list = (0, None) /\
   forall g, g ∈ file_list ->
     meta_filetype (snd (scr_meta_read fs g)) <> Some SCR_META_FILE_XOR).
Proof.
  induction file_list as [|file rest IH].
  - right. split; [reflexivity|]. intros g Hg. inversion Hg.
  - rewrite find_xor_file_step. case_bool_decide as Hx.
    + left. exists [], file, rest. split; [reflexivity|].
      split; [reflexivity|]. split; [exact Hx|].
      intros g Hg. inversion Hg.
    + destruct IH as [(l1 & f & l2 & -> & Hr & Hf & Hl1)|[Hr Hall]].
      * left. exists (file :: l1), f, l2. split; [reflexivity|].
        split; [exact Hr|]. split; [exact Hf|].
        intros g Hg. apply elem_of_cons in Hg as [->|Hg]; auto.
      * right. split; [exact Hr|].
        intros g Hg. apply elem_of_cons in Hg as [->|Hg]; auto.
Qed.

(** X8.  [scr_bool_have_xor_file] returns 1 together with the first file
    listed for this rank whose sidecar can be read and records the file
    type XOR, and 0 without a file name when no listed file has such a
    sidecar. *)
Theorem scr_bool_have_xor_file_first (fs : Meta.files) (map : scr_filemap)
    (checkpoint_id scr_my_rank_world : Z) :
  let listed := scr_filemap_list_files map checkpoint_id scr_my_rank_world in
  let is_xor := fun file =>
    exists m, sidecars fs !! file = Some m /\
      meta_filetype m = Some SCR_META_FILE_XOR in
  (exists l1 file l2, listed = l1 ++ file :: l2 /\
     scr_bool_have_xor_file fs map checkpoint_id scr_my_rank_world
       = (1, Some file) /\
     file ∈ files (entry map checkpoint_id scr_my_rank_world) /\
     is_xor file /\ forall g, g ∈ l1 -> ~ is_xor g)
  \/
  (scr_bool_have_xor_file fs map checkpoint_id scr_my_rank_world = (0, None)
   /\ forall g, g ∈ files (entry map checkpoint_id scr_my_rank_world) ->
        ~ is_xor g).
Proof.
  intros listed is_xor.
  assert (Hty : forall file,
    meta_filetype (snd (scr_meta_read fs file)) = Some SCR_META_FILE_XOR
    <-> is_xor file).
  { intros file. unfold is_xor, scr_meta_read.
    destruct (sidecars fs !! file) as [m|]; cbn.
    - split; [eauto|]. intros (m' & Hm' & Ht). congruence.
    - split; [discriminate|]. intros (m' & Hm' & _). discriminate. }
  unfold scr_bool_have_xor_file. fold listed.
  destruct (find_xor_file_spec fs listed)
    as [(l1 & f & l2 & Hl & Hr & Hf & Hl1)|[Hr Hall]].
  - left. exists l1, f, l2. split; [exact Hl|]. split; [exact Hr|].
    split.
    + apply elem_of_elements. fold (scr_filemap_list_files map
        checkpoint_id scr_my_rank_world). fold listed. rewrite Hl.
      apply elem_of_app. right. left.
    + split; [apply Hty, Hf|]. intros g Hg Hx. apply (Hl1 g Hg), Hty, Hx.
  - right. split; [exact Hr|]. intros g Hg Hx.
    apply (Hall g); [|apply Hty, Hx].
    apply elem_of_elements in Hg. exact Hg.
Qed.

(** *** Marking the files in [SCR_Complete_checkpoint] *)

(** The marking loop changes the sidecars of the files it visits and
    nothing else. *)
Lemma complete_file_fold valid : forall (l : list string) (st : scr_state),
  exists S,
    fold_left (complete_file valid) l st
    = with_node st
        (with_cache (node st)
           {| data := data (cache (node st)); sidecars := S |}) /\
    forall file,
      S !! file
      = if bool_decide (file ∈ l)
        then Some (scr_meta_set file SCR_META_FILE_FULL
                     (scr_filesize (cache (node st)) file)
                     (scr_checkpoint_id st) (scr_my_rank_world (cfg st))
                     (scr_ranks_world (cfg st)) valid)
        else sidecars (cache (node st)) !! file.
Proof.
  induction l as [|x l IH]; intros st.
  - exists (sidecars (cache (node st))). split.
    + destruct st as [? ? ? ? ? ? [[? ?] ? ? ?] ? ? ?]. reflexivity.
    + intros file. rewrite bool_decide_eq_false_2; [reflexivity|].
      intros H. inversion H.
  - cbn [fold_left].
    destruct (IH (complete_file valid st x)) as (S & Heq & HS).
    exists S. split; [rewrite Heq; reflexivity|].
    intros file. rewrite HS. cbn.
    destruct (decide (file ∈ l)) as [Hin|Hnin].
    + rewrite !bool_decide_eq_true_2; [reflexivity| |exact Hin].
      right. exact Hin.
    + rewrite (bool_decide_eq_false_2 (file ∈ l)) by exact Hnin.
      destruct (decide (file = x)) as [->|Hne].
      * rewrite lookup_insert_eq, bool_decide_eq_true_2 by left.
        reflexivity.
      * rewrite lookup_insert_ne by congruence.
        rewrite bool_decide_eq_false_2; [reflexivity|].
        intros H. apply elem_of_cons in H as [?|?]; contradiction.
Qed.

(** What [scr_bool_have_file] answers on a file whose sidecar was written
    by [scr_meta_set] with the measured size and the expected checkpoint
    id, rank and rank count. *)
Lemma scr_bool_have_file_marked fs file filetype ckpt rank ranks valid :
  sidecars fs !! file
    = Some (scr_meta_set file filetype (scr_filesize fs file) ckpt rank
              ranks valid) ->
  scr_bool_have_file fs ckpt rank (Some file) ranks
  = of_bool (truthy valid && negb (bool_decide (file = EmptyString))
             && negb (access_R_OK fs file <? 0)).
Proof.
  intros Hm. unfold scr_bool_have_file, scr_meta_read. rewrite Hm.
  case_bool_decide; cbn [negb]; [rewrite andb_false_r; reflexivity|].
  destruct (access_R_OK fs file <? 0); cbn [negb];
    [rewrite andb_false_r; reflexivity|].
  rewrite !andb_true_r.
  change (SCR_SUCCESS =? SCR_SUCCESS) with true. cbn [negb].
  unfold scr_meta_is_complete, scr_meta_set.
  cbn [meta_complete meta_checkpoint_id meta_rank meta_ranks meta_filesize].
  destruct (truthy valid); cbn; [|reflexivity].
  rewrite !Z.eqb_refl. reflexivity.
Qed.

(** The part of the marking loop that the later steps rely on. *)
Lemma complete_marks_every_file_aux (st : scr_state) (valid : Z) :
  let id := scr_checkpoint_id st in
  let rank := scr_my_rank_world (cfg st) in
  let st' :=
    fold_left (complete_file valid)
      (scr_filemap_list_files (scr_map st) id rank) st in
  scr_map st' = scr_map st /\ cfg st' = cfg st /\
  forall file, file ∈ files (entry (scr_map st) id rank) ->
    scr_bool_have_file (cache (node st')) id rank (Some file)
      (scr_ranks_world (cfg st))
    = of_bool (truthy valid && negb (bool_decide (file = EmptyString))
               && negb (access_R_OK (cache (node st)) file <? 0)).
Proof.
  intros id rank st'.
  destruct (complete_file_fold valid
              (scr_filemap_list_files (scr_map st) id rank) st)
    as (S & Heq & HS).
  fold st' in Heq. rewrite Heq. cbn.
  split; [reflexivity|]. split; [reflexivity|].
  intros file Hin.
  apply (scr_bool_have_file_marked
           {| data := data (cache (node st)); sidecars := S |}
           file SCR_META_FILE_FULL).
  rewrite HS, bool_decide_eq_true_2; [reflexivity|].
  unfold scr_filemap_list_files. rewrite elem_of_elements. exact Hin.
Qed.

(** X9.  The marking loop of [SCR_Complete_checkpoint].  It leaves the
    filemap, the data files and the sidecars of all other files as they
    were.  Every file listed for this rank under the current checkpoint
    obtains the sidecar that records its name, the type FULL, its measured
    size, the checkpoint id, the rank, the number of ranks and the [valid]
    flag of the call; afterwards [scr_bool_have_file] accepts the file
    exactly when [valid] is true, the name is not empty and the file is
    readable. *)
Theorem complete_marks_every_file (st : scr_state) (valid : Z) :
  let id := scr_checkpoint_id st in
  let rank := scr_my_rank_world (cfg st) in
  let st' :=
    fold_left (complete_file valid)
      (scr_filemap_list_files (scr_map st) id rank) st in
  scr_map st' = scr_map st /\
  data (cache (node st')) = data (cache (node st)) /\
  (forall file, file ∉ files (entry (scr_map st) id rank) ->
     sidecars (cache (node st')) !! file
     = sidecars (cache (node st)) !! file) /\
  (forall file, file ∈ files (entry (scr_map st) id rank) ->
     sidecars (cache (node st')) !! file
     = Some (scr_meta_set file SCR_META_FILE_FULL
               (scr_filesize (cache (node st)) file) id rank
               (scr_ranks_world (cfg st)) valid) /\
     scr_bool_have_file (cache (node st')) id rank (Some file)
       (scr_ranks_world (cfg st))
     = of_bool (truthy valid && negb (bool_decide (file = EmptyString))
                && negb (access_R_OK (cache (node st)) file <? 0))).
Proof.
  intros id rank st'.
  destruct (complete_file_fold valid
              (scr_filemap_list_files (scr_map st) id rank) st)
    as (S & Heq & HS).
  fold st' in Heq. rewrite Heq. cbn.
  split; [reflexivity|]. split; [reflexivity|]. split.
  - intros file Hnin. rewrite HS, bool_decide_eq_false_2; [reflexivity|].
    unfold scr_filemap_list_files. rewrite elem_of_elements. exact Hnin.
  - intros file Hin.
    assert (Hside : S !! file
      = Some (scr_meta_set file SCR_META_FILE_FULL
                (scr_filesize (cache (node st)) file) id rank
                (scr_ranks_world (cfg st)) valid)).
    { rewrite HS, bool_decide_eq_true_2; [reflexivity|].
      unfold scr_filemap_list_files. rewrite elem_of_elements. exact Hin. }
    split; [exact Hside|].
    apply (scr_bool_have_file_marked
             {| data := data (cache (node st)); sidecars := S |}
             file SCR_META_FILE_FULL).
    exact Hside.
Qed.

Lemma complete_marks_every_file_witness :
  let st' :=
    fold_left (complete_file 1)
      (scr_filemap_list_files (scr_map sample_one_file) 1 0)
      sample_one_file in
  sidecars (cache (node st')) !! "/ram/checkpoint.1/rank_0.ckpt"
  = Some (scr_meta_set "/ram/checkpoint.1/rank_0.ckpt" SCR_META_FILE_FULL
            4 1 0 4 1) /\
  scr_bool_have_file (cache (node st')) 1 0
    (Some "/ram/checkpoint.1/rank_0.ckpt") 4 = 1.
Proof.
  apply (complete_marks_every_file sample_one_file 1).
  vm_compute. reflexivity.
Defined.

(** *** Deleting a checkpoint *)

Lemma unlink_fold_spec : forall (l : list string) (fs : Meta.files) file,
  data (fold_left unlink_with_meta l fs) !! file
  = (if bool_decide (file ∈ l) then None else data fs !! file) /\
  sidecars (fold_left unlink_with_meta l fs) !! file
  = (if bool_decide (file ∈ l) then None else sidecars fs !! file).
Proof.
  induction l as [|x l IH]; intros fs file.
  - rewrite bool_decide_eq_false_2; [split; reflexivity|].
    intros H. inversion H.
  - cbn [fold_left]. destruct (IH (unlink_with_meta fs x) file) as [-> ->].
    cbn [unlink_with_meta data sidecars].
    destruct (decide (file ∈ l)) as [Hin|Hnin].
    + rewrite !bool_decide_eq_true_2; [split; reflexivity| |exact Hin].
      right. exact Hin.
    + rewrite (bool_decide_eq_false_2 (file ∈ l)) by exact Hnin.
      destruct (decide (file = x)) as [->|Hne].
      * rewrite !lookup_delete_eq, bool_decide_eq_true_2 by left.
        split; reflexivity.
      * rewrite !lookup_delete_ne by congruence.
        rewrite bool_decide_eq_false_2; [split; reflexivity|].
        intros H. apply elem_of_cons in H as [?|?]; contradiction.
Qed.

Lemma scr_filemap_list_checkpoints_elem (map : scr_filemap) id :
  id ∈ scr_filemap_list_checkpoints map <-> is_Some (map !! id).
Proof.
  unfold scr_filemap_list_checkpoints.
  rewrite merge_sort_Permutation, elem_of_elements, elem_of_dom.
  reflexivity.
Qed.

(** The files of a rank are among the files of its checkpoint. *)
Lemma checkpoint_files_rank (map : scr_filemap) id rank file :
  file ∈ files (entry map id rank) ->
  file ∈ checkpoint_files map id.
Proof.
  intros Hin. unfold checkpoint_files.
  apply list_elem_of_In, in_concat.
  exists (scr_filemap_list_files map id rank). split.
  - apply in_map_iff. exists rank. split; [reflexivity|].
    apply list_elem_of_In, LibraryFacts.scr_filemap_list_ranks_elem.
    apply elem_of_dom.
    unfold entry in Hin. destruct (map !! id) as [ranks|]; cbn in *.
    + destruct (ranks !! rank); [eauto|]. cbn in Hin. set_solver.
    + set_solver.
  - apply list_elem_of_In. unfold scr_filemap_list_files.
    apply elem_of_elements. exact Hin.
Qed.

(** The state after [scr_checkpoint_delete]. *)
Lemma scr_checkpoint_delete_state (st : scr_state) (id : Z) :
  scr_map (scr_checkpoint_delete st id) = delete id (scr_map st) /\
  map_file (node (scr_checkpoint_delete st id))
    = Some (scr_map (scr_checkpoint_delete st id)) /\
  (forall file, file ∈ checkpoint_files (scr_map st) id ->
     data (cache (node (scr_checkpoint_delete st id))) !! file = None /\
     sidecars (cache (node (scr_checkpoint_delete st id))) !! file = None) /\
  trace (scr_checkpoint_delete st id) = trace st ++ [EvCheckpointDelete id]
  /\ scr_checkpoint_id (scr_checkpoint_delete st id) = scr_checkpoint_id st.
Proof.
  assert (Hcache : cache (node (scr_checkpoint_delete st id))
    = fold_left unlink_with_meta (checkpoint_files (scr_map st) id)
        (cache (node st))).
  { unfold scr_checkpoint_delete. cbn.
    destruct (scr_ckptdesc_dir_from_filemap (scr_map st) id
                (scr_my_rank_world (cfg st)));
      destruct (scr_my_rank_local (cfg st) =? 0); reflexivity. }
  split; [reflexivity|]. split.
  { unfold scr_checkpoint_delete. cbn.
    destruct (scr_ckptdesc_dir_from_filemap (scr_map st) id
                (scr_my_rank_world (cfg st)));
      destruct (scr_my_rank_local (cfg st) =? 0); reflexivity. }
  split; [|split; reflexivity].
  intros file Hin. rewrite Hcache.
  destruct (unlink_fold_spec (checkpoint_files (scr_map st) id)
              (cache (node st)) file) as [-> ->].
  rewrite bool_decide_eq_true_2 by exact Hin. split; reflexivity.
Qed.

(** X10.  [scr_checkpoint_delete] removes the checkpoint and nothing else.
    The checkpoint leaves the filemap, whose other checkpoints keep their
    entries, and the filemap file is rewritten with the new map.  Every
    file listed under the checkpoint for any rank is unlinked together
    with its sidecar; files listed nowhere under the checkpoint keep their
    contents and sidecars.  Afterwards [scr_bool_have_files] answers 0 for
    every rank of the checkpoint, and on the master of the node the flush
    file has lost the entry of the checkpoint and no other. *)
Theorem scr_checkpoint_delete_effects (st : scr_state) (id : Z) :
  let st' := scr_checkpoint_delete st id in
  scr_map st' = delete id (scr_map st) /\
  map_file (node st') = Some (scr_map st') /\
  (id ∉ scr_filemap_list_checkpoints (scr_map st')) /\
  (forall id', id' <> id ->
     (id' ∈ scr_filemap_list_checkpoints (scr_map st') <->
      id' ∈ scr_filemap_list_checkpoints (scr_map st)) /\
     forall rank, entry (scr_map st') id' rank = entry (scr_map st) id' rank)
  /\
  (forall file, file ∈ checkpoint_files (scr_map st) id ->
     data (cache (node st')) !! file = None /\
     sidecars (cache (node st')) !! file = None) /\
  (forall file, file ∉ checkpoint_files (scr_map st) id ->
     data (cache (node st')) !! file = data (cache (node st)) !! file /\
     sidecars (cache (node st')) !! file
     = sidecars (cache (node st)) !! file) /\
  (forall rank ranks_world,
     scr_bool_have_files (cache (node st')) ranks_world (scr_map st') id rank
     = 0) /\
  (scr_my_rank_local (cfg st) = 0 ->
   flush_file (node st') = delete id (flush_file (node st))).
Proof.
  intros st'.
  assert (Hmap : scr_map st' = delete id (scr_map st)) by reflexivity.
  assert (Hcache : cache (node st')
    = fold_left unlink_with_meta (checkpoint_files (scr_map st) id)
        (cache (node st))).
  { unfold st', scr_checkpoint_delete. cbn.
    destruct (scr_ckptdesc_dir_from_filemap (scr_map st) id
                (scr_my_rank_world (cfg st)));
      destruct (scr_my_rank_local (cfg st) =? 0); reflexivity. }
  split; [exact Hmap|]. split.
  { unfold st', scr_checkpoint_delete. cbn.
    destruct (scr_ckptdesc_dir_from_filemap (scr_map st) id
                (scr_my_rank_world (cfg st)));
      destruct (scr_my_rank_local (cfg st) =? 0); reflexivity. }
  split.
  { rewrite scr_filemap_list_checkpoints_elem, Hmap, lookup_delete_eq.
    intros [x Hx]. discriminate. }
  split.
  { intros id' Hne. split.
    - rewrite !scr_filemap_list_checkpoints_elem, Hmap.
      rewrite lookup_delete_ne by congruence. reflexivity.
    - intros rank. unfold entry. rewrite Hmap.
      rewrite lookup_delete_ne by congruence. reflexivity. }
  split.
  { intros file Hin. rewrite Hcache.
    destruct (unlink_fold_spec (checkpoint_files (scr_map st) id)
                (cache (node st)) file) as [-> ->].
    rewrite bool_decide_eq_true_2 by exact Hin. split; reflexivity. }
  split.
  { intros file Hnin. rewrite Hcache.
    destruct (unlink_fold_spec (checkpoint_files (scr_map st) id)
                (cache (node st)) file) as [-> ->].
    rewrite bool_decide_eq_false_2 by exact Hnin. split; reflexivity. }
  split.
  { intros rank ranks_world. unfold scr_bool_have_files,
      scr_filemap_have_rank_by_checkpoint.
    rewrite Hmap, lookup_delete_eq. reflexivity. }
  intros Hmaster. unfold st', scr_checkpoint_delete. cbn.
  rewrite Hmaster. cbn.
  destruct (scr_ckptdesc_dir_from_filemap (scr_map st) id
              (scr_my_rank_world (cfg st))); reflexivity.
Qed.

Lemma scr_bool_have_files_intro (fs : Meta.files) ranks_world
    (map : scr_filemap) ckpt rank :
  is_Some (map !! ckpt ≫= fun ranks => ranks !! rank) ->
  expected_count (entry map ckpt rank)
    = Some (Z.of_nat (size (files (entry map ckpt rank)))) ->
  (forall file, file ∈ files (entry map ckpt rank) ->
     scr_bool_have_file fs ckpt rank (Some file) ranks_world = 1) ->
  scr_bool_have_files fs ranks_world map ckpt rank = 1.
Proof.
  intros Hentry Hexp Hall.
  unfold scr_bool_have_files, scr_filemap_have_rank_by_checkpoint,
    scr_filemap_num_expected_files, scr_filemap_num_files,
    scr_filemap_list_files.
  rewrite (fold_left_flag
             (fun file => negb (truthy (scr_bool_have_file fs ckpt rank
                                          (Some file) ranks_world)))).
  rewrite bool_decide_eq_true_2 by exact Hentry.
  cbn [of_bool truthy Z.eqb negb]. rewrite Hexp. cbn [default].
  rewrite Z.eqb_refl. cbn [negb].
  destruct (existsb _ _) eqn:Hbad; [|reflexivity]. exfalso.
  apply existsb_exists in Hbad as (file & Hin & Hf).
  apply list_elem_of_In, elem_of_elements, Hall in Hin.
  rewrite Hin in Hf. discriminate.
Qed.

(** *** [scr_copy_files] *)

Section CopyFiles.
Variable scr_crc_on_copy : Z.
Variable scr_compute_crc : string -> scr_state -> scr_state.
Variable peers_valid : bool.
Variable peers_valid_copy : bool.
Variable scr_copy_partner : Descriptors.scr_ckptdesc -> Z -> scr_state -> result Z.
Variable scr_copy_xor : Descriptors.scr_ckptdesc -> Z -> scr_state -> result Z.
Variable scr_bool_check_halt_and_decrement : scr_state -> result Z.
Variable scr_check_flush : scr_state -> result Z.
Variable scr_flush_async_test_and_complete : scr_state -> scr_state.

Local Abbreviation scan :=
  (copy_files_scan scr_crc_on_copy scr_compute_crc).
Local Abbreviation copy_files :=
  (scr_copy_files scr_crc_on_copy scr_compute_crc peers_valid
     peers_valid_copy scr_copy_partner scr_copy_xor).
Local Abbreviation middle :=
  (copy_and_flush scr_crc_on_copy scr_compute_crc peers_valid
     peers_valid_copy scr_copy_partner scr_copy_xor
     scr_bool_check_halt_and_decrement scr_check_flush
     scr_flush_async_test_and_complete).

(** Without CRC computation the scan changes nothing and clears [valid]
    exactly when some file fails [scr_bool_have_file]. *)
Lemma copy_files_scan_no_crc c id st :
  truthy scr_crc_on_copy = false ->
  forall l valid,
    scan c id l valid st
    = Ok (if existsb
               (fun file =>
                  negb (truthy (scr_bool_have_file (cache (node st)) id
                                  (scr_my_rank_world (cfg st)) (Some file)
                                  (scr_ranks_world (cfg st))))) l
          then 0 else valid) st.
Proof.
  intros Hcrc. induction l as [|file rest IH]; intros valid;
    cbn [copy_files_scan existsb]; [reflexivity|].
  rewrite Hcrc, IH.
  destruct (negb (truthy (scr_bool_have_file _ _ _ _ _))); cbn [orb];
    [|reflexivity].
  destruct (existsb _ rest); reflexivity.
Qed.

(** X11.  A checkpoint kept with the LOCAL scheme is usable once it is
    complete.  Let the files routed by this process be readable and have
    non-empty names, and let [SCR_Complete_checkpoint] be called with a
    true [valid] flag.  After the marking loop, [scr_copy_files] with a
    LOCAL descriptor and CRC computation switched off returns success if
    and only if the other processes report valid files and a valid copy.
    Whenever they report valid files, it records the number of files of
    this rank as the expected count and writes the filemap, and
    [scr_bool_have_files] then accepts this rank's files of the
    checkpoint. *)
Theorem local_checkpoint_is_usable (st : scr_state) (valid : Z)
    (c : Descriptors.scr_ckptdesc) :
  let id := scr_checkpoint_id st in
  let rank := scr_my_rank_world (cfg st) in
  truthy scr_crc_on_copy = false ->
  Descriptors.copy_type c = Descriptors.SCR_COPY_LOCAL ->
  is_Some (Descriptors.directory c) ->
  valid <> 0 ->
  (forall file, file ∈ files (entry (scr_map st) id rank) ->
     file <> EmptyString /\ access_R_OK (cache (node st)) file = 0) ->
  let st1 :=
    fold_left (complete_file valid)
      (scr_filemap_list_files (scr_map st) id rank) st in
  exists st2,
    copy_files (Some c) id st1
    = Ok (if peers_valid && peers_valid_copy then SCR_SUCCESS
          else SCR_FAILURE) st2 /\
    (peers_valid = true ->
     scr_bool_have_files (cache (node st2)) (scr_ranks_world (cfg st2))
       (scr_map st2) id rank = 1 /\
     files (entry (scr_map st2) id rank) = files (entry (scr_map st) id rank)
     /\
     expected_count (entry (scr_map st2) id rank)
     = Some (Z.of_nat (size (files (entry (scr_map st) id rank)))) /\
     map_file (node st2) = Some (scr_map st2)).
Proof.
  intros id rank Hcrc Hlocal [dir Hdir] Hvalid Hfiles st1.
  destruct (complete_marks_every_file_aux st valid)
    as (Hmap1 & Hcfg1 & Hhave).
  fold id rank st1 in Hmap1, Hcfg1, Hhave.
  assert (Hgood : forall file, file ∈ files (entry (scr_map st) id rank) ->
    scr_bool_have_file (cache (node st1)) id rank (Some file)
      (scr_ranks_world (cfg st)) = 1).
  { intros file Hin. rewrite (Hhave file Hin).
    destruct (Hfiles file Hin) as [Hname Hacc].
    rewrite Hacc. unfold truthy.
    destruct (Z.eqb_spec valid 0); [contradiction|].
    rewrite bool_decide_eq_false_2 by exact Hname. reflexivity. }
  unfold scr_copy_files.
  rewrite copy_files_scan_no_crc by exact Hcrc.
  rewrite Hmap1, Hcfg1. fold rank.
  assert (Hscan : existsb
    (fun file =>
       negb (truthy (scr_bool_have_file (cache (node st1)) id rank
                       (Some file) (scr_ranks_world (cfg st)))))
    (scr_filemap_list_files (scr_map st) id rank) = false).
  { destruct (existsb _ _) eqn:Hbad; [|reflexivity]. exfalso.
    apply existsb_exists in Hbad as (file & Hin & Hf).
    apply list_elem_of_In in Hin. unfold scr_filemap_list_files in Hin.
    apply elem_of_elements, Hgood in Hin.
    rewrite Hin in Hf. discriminate. }
  rewrite Hscan.
  destruct peers_valid; cbn [Descriptors.scr_alltrue forallb truthy of_bool
                              Z.eqb negb andb].
  2:{ exists st1. split; [reflexivity|]. discriminate. }
  rewrite Hlocal. rewrite Hmap1, Hcfg1. fold rank.
  set (st2 := scr_filemap_write
                (with_map st1
                   (scr_filemap_set_expected_files (scr_map st) id rank
                      (scr_filemap_num_files (scr_map st) id rank)))).
  exists st2. split.
  - change (SCR_SUCCESS =? SCR_SUCCESS) with true.
    change (cfg st2) with (cfg st1). rewrite Hcfg1.
    unfold scr_checkpoint_dir. rewrite Hdir.
    destruct ((scr_my_rank_world (cfg st) =? 0)
              && truthy (scr_log_enable (cfg st)));
      destruct peers_valid_copy; reflexivity.
  - intros _.
    assert (Hentry : entry (scr_map st2) id rank
      = {| files := files (entry (scr_map st) id rank);
           expected_count :=
             Some (scr_filemap_num_files (scr_map st) id rank);
           descriptor_hash := descriptor_hash (entry (scr_map st) id rank);
           tags := tags (entry (scr_map st) id rank) |}).
    { unfold st2. cbn. unfold scr_filemap_set_expected_files.
      apply LibraryFacts.entry_set_entry. }
    split; [|rewrite Hentry; cbn; auto].
    apply scr_bool_have_files_intro.
    + unfold st2. cbn. unfold scr_filemap_set_expected_files, set_entry.
      rewrite lookup_insert_eq. cbn. rewrite lookup_insert_eq. eauto.
    + rewrite Hentry. reflexivity.
    + rewrite Hentry. cbn [files]. intros file Hin.
      change (cache (node st2)) with (cache (node st1)).
      change (cfg st2) with (cfg st1). rewrite Hcfg1.
      apply Hgood, Hin.
Qed.

(** X12.  A checkpoint completed as invalid is discarded.  When
    [SCR_Complete_checkpoint] is called with [valid = 0] by a process that
    has routed at least one file, the marking loop records the files as
    incomplete, [scr_copy_files] fails before any redundancy scheme is
    applied, and the checkpoint is deleted from the cache: the call
    returns failure, the checkpoint has left the filemap and the filemap
    file, the files of this rank and their sidecars are unlinked, and the
    library is outside a checkpoint again.  Stated with CRC computation
    and logging switched off and no asynchronous flush in progress. *)
Theorem invalid_checkpoint_is_discarded (st : scr_state) :
  let id := scr_checkpoint_id st in
  let rank := scr_my_rank_world (cfg st) in
  truthy (scr_enabled (cfg st)) = true ->
  truthy (scr_initialized (cfg st)) = true ->
  truthy (scr_in_checkpoint st) = true ->
  truthy scr_crc_on_copy = false ->
  truthy (scr_log_enable (cfg st)) = false ->
  truthy (scr_flush_async_in_progress st) = false ->
  files (entry (scr_map st) id rank) <> ∅ ->
  exists st',
    SCR_Complete_checkpoint middle st 0 = Ok SCR_FAILURE st' /\
    scr_in_checkpoint st' = 0 /\
    scr_checkpoint_id st' = id /\
    scr_map st' = delete id (scr_map st) /\
    map_file (node st') = Some (scr_map st') /\
    (forall file, file ∈ files (entry (scr_map st) id rank) ->
       data (cache (node st')) !! file = None /\
       sidecars (cache (node st')) !! file = None) /\
    trace st' = trace st ++ [EvCheckpointDelete id].
Proof.
  intros id rank He Hi Hc Hcrc Hlog Hasync Hfiles.
  unfold SCR_Complete_checkpoint. rewrite He, Hi, Hc. cbn [negb].
  fold id rank.
  set (st1 := fold_left (complete_file 0)
                (scr_filemap_list_files (scr_map st) id rank) st).
  destruct (complete_marks_every_file_aux st 0) as (Hmap1 & Hcfg1 & Hhave).
  fold id rank st1 in Hmap1, Hcfg1, Hhave.
  destruct (complete_file_fold 0
              (scr_filemap_list_files (scr_map st) id rank) st)
    as (S & Heq & _).
  fold st1 in Heq.
  assert (Hid1 : scr_checkpoint_id st1 = id) by (rewrite Heq; reflexivity).
  assert (Hasync1 : scr_flush_async_in_progress st1
                    = scr_flush_async_in_progress st)
    by (rewrite Heq; reflexivity).
  assert (Htrace1 : trace st1 = trace st) by (rewrite Heq; reflexivity).
  assert (Hscan : existsb
    (fun file =>
       negb (truthy (scr_bool_have_file (cache (node st1)) id rank
                       (Some file) (scr_ranks_world (cfg st)))))
    (scr_filemap_list_files (scr_map st) id rank) = true).
  { apply set_choose_L in Hfiles as [file Hin].
    apply existsb_exists. exists file. split.
    - apply list_elem_of_In. unfold scr_filemap_list_files.
      apply elem_of_elements. exact Hin.
    - rewrite (Hhave file Hin). reflexivity. }
  unfold copy_and_flush, scr_copy_files.
  rewrite copy_files_scan_no_crc by exact Hcrc.
  rewrite Hid1, Hmap1, Hcfg1. fold rank. rewrite Hscan.
  cbn [Descriptors.scr_alltrue forallb truthy of_bool Z.eqb negb andb].
  rewrite Hcfg1, Hlog, andb_false_r.
  change (SCR_FAILURE =? SCR_SUCCESS) with false. cbv iota.
  rewrite ?Hid1.
  change (scr_flush_async_in_progress (scr_checkpoint_delete st1 id))
    with (scr_flush_async_in_progress st1).
  rewrite Hasync1, Hasync.
  eexists. split; [reflexivity|].
  destruct (scr_checkpoint_delete_state st1 id)
    as (Hm & Hf & Hdel & Htr & Hidd).
  cbn [scr_in_checkpoint scr_checkpoint_id scr_map node trace
       with_in_checkpoint].
  split; [reflexivity|]. split; [rewrite Hidd; exact Hid1|].
  split; [rewrite Hm, Hmap1; reflexivity|]. split; [exact Hf|].
  split; [|rewrite Htr, Htrace1; reflexivity].
  intros file Hin. apply Hdel. rewrite Hmap1.
  apply checkpoint_files_rank with (rank := rank). exact Hin.
Qed.

End CopyFiles.

Lemma local_checkpoint_is_usable_witness :
  exists st2,
    scr_copy_files 0 (fun _ st => st) true true
      (fun _ _ st => Ok SCR_SUCCESS st) (fun _ _ st => Ok SCR_SUCCESS st)
      (Some (Descriptors.mk_desc 1 1 (Some "/ram"))) 1
      (fold_left (complete_file 1)
         (scr_filemap_list_files (scr_map sample_one_file) 1 0)
         sample_one_file)
    = Ok SCR_SUCCESS st2 /\
    (true = true ->
     scr_bool_have_files (cache (node st2)) (scr_ranks_world (cfg st2))
       (scr_map st2) 1 0 = 1 /\
     files (entry (scr_map st2) 1 0)
     = files (entry (scr_map sample_one_file) 1 0) /\
     expected_count (entry (scr_map st2) 1 0)
     = Some (Z.of_nat (size (files (entry (scr_map sample_one_file) 1 0))))
     /\
     map_file (node st2) = Some (scr_map st2)).
Proof.
  apply (local_checkpoint_is_usable 0 (fun _ st => st) true true
           (fun _ _ st => Ok SCR_SUCCESS st)
           (fun _ _ st => Ok SCR_SUCCESS st)
           sample_one_file 1 (Descriptors.mk_desc 1 1 (Some "/ram"))).
  - reflexivity.
  - reflexivity.
  - eexists. reflexivity.
  - lia.
  - intros file Hin.
    assert (Hfile : file = "/ram/checkpoint.1/rank_0.ckpt").
    { apply (proj1 (elem_of_singleton (C:=gset string) file
                      "/ram/checkpoint.1/rank_0.ckpt")).
      exact Hin. }
    subst file. split; [discriminate|reflexivity].
Defined.

Lemma invalid_checkpoint_is_discarded_witness :
  exists st',
    SCR_Complete_checkpoint
      (copy_and_flush 0 (fun _ st => st) true true
         (fun _ _ st => Ok SCR_SUCCESS st) (fun _ _ st => Ok SCR_SUCCESS st)
         (fun st => Ok 0 st) (fun st => Ok SCR_SUCCESS st) (fun st => st))
      sample_one_file 0 = Ok SCR_FAILURE st' /\
    scr_in_checkpoint st' = 0 /\
    scr_checkpoint_id st' = scr_checkpoint_id sample_one_file /\
    scr_map st'
    = delete (scr_checkpoint_id sample_one_file) (scr_map sample_one_file) /\
    map_file (node st') = Some (scr_map st') /\
    (forall file,
       file ∈ files (entry (scr_map sample_one_file)
                       (scr_checkpoint_id sample_one_file)
                       (scr_my_rank_world (cfg sample_one_file))) ->
       data (cache (node st')) !! file = None /\
       sidecars (cache (node st')) !! file = None) /\
    trace st'
    = trace sample_one_file
      ++ [EvCheckpointDelete (scr_checkpoint_id sample_one_file)].
Proof.
  apply (invalid_checkpoint_is_discarded 0 (fun _ st => st) true true
           (fun _ _ st => Ok SCR_SUCCESS st)
           (fun _ _ st => Ok SCR_SUCCESS st)
           (fun st => Ok 0 st) (fun st => Ok SCR_SUCCESS st)
           (fun st => st) sample_one_file).
  - reflexivity.
  - reflexivity.
  - reflexivity.
  - reflexivity.
  - reflexivity.
  - reflexivity.
  - intros Hempty.
    assert (Hin : "/ram/checkpoint.1/rank_0.ckpt"
                  ∈ files (entry (scr_map sample_one_file)
                             (scr_checkpoint_id sample_one_file)
                             (scr_my_rank_world (cfg sample_one_file)))).
    { apply (proj2 (elem_of_singleton (C:=gset string)
                      "/ram/checkpoint.1/rank_0.ckpt"
                      "/ram/checkpoint.1/rank_0.ckpt")).
      reflexivity. }
    rewrite Hempty in Hin. apply elem_of_empty in Hin. exact Hin.
Defined.

End FileFacts.

(** ** The flush file *)

Module FlushFileFacts.
Import Library FlushFile CIntFacts.

Lemma at_location_set_location e l v l' :
  at_location (set_location e l v) l'
  = if bool_decide (l' = l) then v else at_location e l'.
Proof. destruct l, l'; reflexivity. Qed.

(** What the master finds after a mark was set. *)
Lemma master_at_location_set st id l id' l' :
  scr_my_rank_local (cfg st) = 0 ->
  master_at_location (scr_flush_location_set st id l) id' l'
  = if bool_decide (id' = id /\ l' = l) then 1
    else master_at_location st id' l'.
Proof.
  intros Hmaster. unfold master_at_location, scr_flush_location_set.
  rewrite Hmaster. cbn.
  destruct (decide (id' = id)) as [->|Hne].
  - rewrite lookup_insert_eq, at_location_set_location.
    destruct (decide (l' = l)) as [->|Hl].
    + rewrite bool_decide_eq_true_2 by reflexivity.
      rewrite bool_decide_eq_true_2 by auto. reflexivity.
    + rewrite (bool_decide_eq_false_2 (l' = l)) by exact Hl.
      rewrite bool_decide_eq_false_2 by tauto.
      destruct (flush_file (node st) !! id);
        [reflexivity|destruct l'; reflexivity].
  - rewrite lookup_insert_ne by congruence.
    rewrite bool_decide_eq_false_2 by tauto. reflexivity.
Qed.

(** What the master finds after a mark was removed. *)
Lemma master_at_location_unset st id l id' l' :
  scr_my_rank_local (cfg st) = 0 ->
  master_at_location (scr_flush_location_unset st id l) id' l'
  = if bool_decide (id' = id /\ l' = l) then 0
    else master_at_location st id' l'.
Proof.
  intros Hmaster. unfold master_at_location, scr_flush_location_unset.
  rewrite Hmaster. cbn.
  destruct (flush_file (node st) !! id) as [e|] eqn:He; cbn.
  - destruct (decide (id' = id)) as [->|Hne].
    + rewrite lookup_insert_eq, at_location_set_location, He.
      destruct (decide (l' = l)) as [->|Hl].
      * rewrite bool_decide_eq_true_2 by reflexivity.
        rewrite bool_decide_eq_true_2 by auto. reflexivity.
      * rewrite (bool_decide_eq_false_2 (l' = l)) by exact Hl.
        rewrite bool_decide_eq_false_2 by tauto. reflexivity.
    + rewrite lookup_insert_ne by congruence.
      rewrite bool_decide_eq_false_2 by tauto. reflexivity.
  - destruct (decide (id' = id)) as [->|Hne].
    + rewrite He. destruct (bool_decide _); reflexivity.
    + rewrite bool_decide_eq_false_2 by tauto. reflexivity.
Qed.

(** X13.  The marks of the flush file are independent.  On the master of
    a node, a location that was set for a checkpoint tests as present and
    one that was unset tests as absent, whatever the file held before, and
    setting or unsetting one location of one checkpoint changes the result
    of the test for no other location and no other checkpoint. *)
Theorem flush_location_marks_independent (st : scr_state) (id : Z)
    (l : location) :
  scr_my_rank_local (cfg st) = 0 ->
  scr_flush_location_test (scr_flush_location_set st id l) id l
    = SCR_SUCCESS /\
  scr_flush_location_test (scr_flush_location_unset st id l) id l
    = SCR_FAILURE /\
  forall id' l', (id' <> id \/ l' <> l) ->
    scr_flush_location_test (scr_flush_location_set st id l) id' l'
      = scr_flush_location_test st id' l' /\
    scr_flush_location_test (scr_flush_location_unset st id l) id' l'
      = scr_flush_location_test st id' l'.
Proof.
  intros Hmaster. unfold scr_flush_location_test.
  split; [|split].
  - rewrite master_at_location_set by exact Hmaster.
    rewrite bool_decide_eq_true_2 by auto. reflexivity.
  - rewrite master_at_location_unset by exact Hmaster.
    rewrite bool_decide_eq_true_2 by auto. reflexivity.
  - intros id' l' Hother.
    rewrite master_at_location_set, master_at_location_unset
      by exact Hmaster.
    rewrite bool_decide_eq_false_2 by tauto. split; reflexivity.
Qed.

Lemma flush_location_marks_independent_witness :
  scr_flush_location_test
    (scr_flush_location_set sample_idle 3 SCR_FLUSH_KEY_LOCATION_PFS) 3
    SCR_FLUSH_KEY_LOCATION_PFS = SCR_SUCCESS /\
  scr_flush_location_test
    (scr_flush_location_unset sample_idle 3 SCR_FLUSH_KEY_LOCATION_PFS) 3
    SCR_FLUSH_KEY_LOCATION_PFS = SCR_FAILURE /\
  forall id' l', (id' <> 3 \/ l' <> SCR_FLUSH_KEY_LOCATION_PFS) ->
    scr_flush_location_test
      (scr_flush_location_set sample_idle 3 SCR_FLUSH_KEY_LOCATION_PFS)
      id' l'
      = scr_flush_location_test sample_idle id' l' /\
    scr_flush_location_test
      (scr_flush_location_unset sample_idle 3 SCR_FLUSH_KEY_LOCATION_PFS)
      id' l'
      = scr_flush_location_test sample_idle id' l'.
Proof.
  apply (flush_location_marks_independent sample_idle 3
           SCR_FLUSH_KEY_LOCATION_PFS).
  reflexivity.
Defined.

Lemma scr_bool_need_flush_value st id :
  scr_bool_need_flush st id
  = of_bool
      (truthy (master_at_location st id SCR_FLUSH_KEY_LOCATION_CACHE)
       && negb (truthy (master_at_location st id
                          SCR_FLUSH_KEY_LOCATION_PFS))).
Proof.
  unfold scr_bool_need_flush. destruct (_ && _); reflexivity.
Qed.

(** X14.  When a checkpoint needs a flush.  [scr_bool_need_flush] is true
    exactly when the CACHE mark tests as present and the PFS mark as
    absent.  On the master of a node: after the CACHE mark written by a
    successful [SCR_Complete_checkpoint], the checkpoint needs a flush
    unless it already has the PFS mark; after the marks written when a
    flush has succeeded (PFS set, FLUSHING unset) and after those written
    by a fetch (CACHE and PFS set, FLUSHING unset) it needs none; setting
    or removing the FLUSHING mark never changes the answer; and after
    [scr_checkpoint_delete] it needs none and tests as absent at every
    location. *)
Theorem need_flush_follows_marks (st : scr_state) (id : Z) :
  scr_my_rank_local (cfg st) = 0 ->
  (scr_bool_need_flush st id = 1 <->
     scr_flush_location_test st id SCR_FLUSH_KEY_LOCATION_CACHE
       = SCR_SUCCESS /\
     scr_flush_location_test st id SCR_FLUSH_KEY_LOCATION_PFS
       = SCR_FAILURE) /\
  (scr_bool_need_flush
     (scr_flush_location_set st id SCR_FLUSH_KEY_LOCATION_CACHE) id = 1 <->
   scr_flush_location_test st id SCR_FLUSH_KEY_LOCATION_PFS = SCR_FAILURE)
  /\
  scr_bool_need_flush
    (scr_flush_location_unset
       (scr_flush_location_set st id SCR_FLUSH_KEY_LOCATION_PFS) id
       SCR_FLUSH_KEY_LOCATION_FLUSHING) id = 0 /\
  scr_bool_need_flush
    (scr_flush_location_unset
       (scr_flush_location_set
          (scr_flush_location_set st id SCR_FLUSH_KEY_LOCATION_CACHE) id
          SCR_FLUSH_KEY_LOCATION_PFS) id
       SCR_FLUSH_KEY_LOCATION_FLUSHING) id = 0 /\
  scr_bool_need_flush
    (scr_flush_location_set st id SCR_FLUSH_KEY_LOCATION_FLUSHING) id
    = scr_bool_need_flush st id /\
  scr_bool_need_flush
    (scr_flush_location_unset st id SCR_FLUSH_KEY_LOCATION_FLUSHING) id
    = scr_bool_need_flush st id /\
  scr_bool_need_flush (scr_checkpoint_delete st id) id = 0 /\
  forall l, scr_flush_location_test (scr_checkpoint_delete st id) id l
            = SCR_FAILURE.
Proof.
  intros Hmaster.
  assert (Hset : forall st0 l, scr_my_rank_local (cfg st0) = 0 ->
    scr_my_rank_local (cfg (scr_flush_location_set st0 id l)) = 0).
  { intros st0 l H0. unfold scr_flush_location_set. rewrite H0. exact H0. }
  assert (H01 : forall l, master_at_location st id l = 0 \/
                          master_at_location st id l = 1).
  { intros l. unfold master_at_location.
    destruct (flush_file (node st) !! id) as [e|]; [|auto].
    destruct (at_location e l); auto. }
  rewrite !scr_bool_need_flush_value. unfold scr_flush_location_test.
  rewrite !master_at_location_unset, !master_at_location_set
    by auto using Hset.
  rewrite !bool_decide_and.
  rewrite !(bool_decide_eq_true_2 (id = id)) by reflexivity.
  cbn [andb bool_decide decide_rel location_eq_dec location_rect
       location_rec sumbool_rec sumbool_rect].
  split; [|split; [|split; [|split; [|split; [|split; [|split]]]]]].
  - destruct (H01 SCR_FLUSH_KEY_LOCATION_CACHE) as [-> | ->],
      (H01 SCR_FLUSH_KEY_LOCATION_PFS) as [-> | ->]; cbn;
      split; try discriminate; try tauto; intros [? ?]; discriminate.
  - destruct (H01 SCR_FLUSH_KEY_LOCATION_PFS) as [-> | ->]; cbn;
      split; try discriminate; reflexivity.
  - destruct (H01 SCR_FLUSH_KEY_LOCATION_CACHE) as [-> | ->]; reflexivity.
  - reflexivity.
  - reflexivity.
  - reflexivity.
  - unfold master_at_location, scr_checkpoint_delete. cbn.
    rewrite Hmaster. cbn.
    destruct (FileMap.scr_ckptdesc_dir_from_filemap (scr_map st) id
                (scr_my_rank_world (cfg st))); cbn;
      rewrite lookup_delete_eq; reflexivity.
  - intros l. unfold master_at_location, scr_checkpoint_delete. cbn.
    rewrite Hmaster. cbn.
    destruct (FileMap.scr_ckptdesc_dir_from_filemap (scr_map st) id
                (scr_my_rank_world (cfg st))); cbn;
      rewrite lookup_delete_eq; reflexivity.
Qed.

Lemma need_flush_follows_marks_witness :
  (scr_bool_need_flush sample_idle 3 = 1 <->
     scr_flush_location_test sample_idle 3 SCR_FLUSH_KEY_LOCATION_CACHE
       = SCR_SUCCESS /\
     scr_flush_location_test sample_idle 3 SCR_FLUSH_KEY_LOCATION_PFS
       = SCR_FAILURE) /\
  (scr_bool_need_flush
     (scr_flush_location_set sample_idle 3 SCR_FLUSH_KEY_LOCATION_CACHE) 3 = 1 <->
   scr_flush_location_test sample_idle 3 SCR_FLUSH_KEY_LOCATION_PFS = SCR_FAILURE)
  /\
  scr_bool_need_flush
    (scr_flush_location_unset
       (scr_flush_location_set sample_idle 3 SCR_FLUSH_KEY_LOCATION_PFS) 3
       SCR_FLUSH_KEY_LOCATION_FLUSHING) 3 = 0 /\
  scr_bool_need_flush
    (scr_flush_location_unset
       (scr_flush_location_set
          (scr_flush_location_set sample_idle 3 SCR_FLUSH_KEY_LOCATION_CACHE) 3
          SCR_FLUSH_KEY_LOCATION_PFS) 3
       SCR_FLUSH_KEY_LOCATION_FLUSHING) 3 = 0 /\
  scr_bool_need_flush
    (scr_flush_location_set sample_idle 3 SCR_FLUSH_KEY_LOCATION_FLUSHING) 3
    = scr_bool_need_flush sample_idle 3 /\
  scr_bool_need_flush
    (scr_flush_location_unset sample_idle 3 SCR_FLUSH_KEY_LOCATION_FLUSHING) 3
    = scr_bool_need_flush sample_idle 3 /\
  scr_bool_need_flush (scr_checkpoint_delete sample_idle 3) 3 = 0 /\
  forall l, scr_flush_location_test (scr_checkpoint_delete sample_idle 3) 3 l
            = SCR_FAILURE.
Proof.
  apply (need_flush_follows_marks sample_idle 3). reflexivity.
Defined.

End FlushFileFacts.

(** ** A checkpoint from start to complete *)

Module SessionFacts.
Import Descriptors FileMap Library CIntFacts.

(** What the eviction loop leaves alone. *)
Lemma evict_until_room_frame cbase size : forall ckpts st nb fl r st',
  evict_until_room cbase size ckpts st nb fl = Ok r st' ->
  cfg st' = cfg st /\ scr_in_checkpoint st' = scr_in_checkpoint st /\
  scr_checkpoint_id st' = scr_checkpoint_id st /\ env st' = env st /\
  aborted st' = aborted st.
Proof.
  induction ckpts as [|id rest IH]; intros st nb fl r st' Hrun;
    cbn [evict_until_room] in Hrun.
  - inversion Hrun; subst. auto.
  - destruct (nb >=? size); [|inversion Hrun; subst; auto].
    destruct (scr_ckptdesc_base_from_filemap _ _ _); [|eauto].
    destruct (strcmp_eq _ _) as [[|]|]; [| eauto | discriminate].
    destruct (negb (truthy (scr_bool_is_flushing st id))).
    + apply IH in Hrun as (H1 & H2 & H3 & H4 & H5).
      rewrite H1, H2, H3, H4, H5. auto.
    + destruct (fl =? -1); eauto.
Qed.

Lemma scr_filemap_get_desc_set_desc (map : scr_filemap) ckpt rank h :
  scr_filemap_get_desc (scr_filemap_set_desc map ckpt rank h) ckpt rank
  = Some h.
Proof.
  unfold scr_filemap_get_desc, scr_filemap_set_desc, set_entry.
  rewrite lookup_insert_eq. cbn. rewrite lookup_insert_eq. reflexivity.
Qed.

(** The two ways in which [SCR_Start_checkpoint] returns. *)
Lemma SCR_Start_checkpoint_cases (st st' : scr_state) (rc : Z) :
  SCR_Start_checkpoint st = Ok rc st' ->
  (rc = SCR_FAILURE /\ (st' = st \/ st' = scr_abort st)) \/
  (rc = SCR_SUCCESS /\
   truthy (scr_enabled (cfg st)) = true /\
   truthy (scr_initialized (cfg st)) = true /\
   scr_in_checkpoint st = 0 /\ scr_in_checkpoint st' = 1 /\
   scr_checkpoint_id st' = int_add (scr_checkpoint_id st) 1 /\
   cfg st' = cfg st /\
   exists c,
     selected_desc st (scr_checkpoint_id st') = Some c /\
     scr_filemap_get_desc (scr_map st') (scr_checkpoint_id st')
       (scr_my_rank_world (cfg st))
       = Some (scr_ckptdesc_store_to_hash c) /\
     scr_ckptdesc_base_from_filemap (scr_map st') (scr_checkpoint_id st')
       (scr_my_rank_world (cfg st)) = base c /\
     scr_ckptdesc_dir_from_filemap (scr_map st') (scr_checkpoint_id st')
       (scr_my_rank_world (cfg st)) = directory c /\
     map_file (node st') = Some (scr_map st') /\
     (scr_my_rank_local (cfg st) = 0 ->
      exists d, directory c = Some d /\
        (checkpoint_dir_name d (scr_checkpoint_id st') ∈ dirs (node st')
         \/ aborted st' = true))).
Proof.
  unfold SCR_Start_checkpoint. intros Hrun.
  destruct (truthy (scr_enabled (cfg st))) eqn:Hen; cbn [negb] in Hrun.
  2:{ inversion Hrun; subst. left. auto. }
  destruct (truthy (scr_initialized (cfg st))) eqn:Hinit; cbn [negb] in Hrun.
  2:{ inversion Hrun; subst. left. auto. }
  destruct (truthy (scr_in_checkpoint st)) eqn:Hin.
  { inversion Hrun; subst. left. auto. }
  assert (Hin0 : scr_in_checkpoint st = 0).
  { unfold truthy in Hin. destruct (Z.eqb_spec (scr_in_checkpoint st) 0);
      [assumption|discriminate]. }
  set (st1 := with_checkpoint_id (with_in_checkpoint st 1)
                (int_add (scr_checkpoint_id (with_in_checkpoint st 1)) 1))
    in Hrun.
  destruct (selected_desc st1 (scr_checkpoint_id st1)) as [c|] eqn:Hsel;
    [|discriminate].
  destruct (scr_cachedesc_size _ _) as [size|]; [|discriminate].
  destruct (count_in_base _ _ _ _ _) as [nb0|]; [|discriminate].
  destruct (evict_until_room _ _ _ _ _ _) as [[nb fl] st2| |] eqn:Hevict;
    [|discriminate|discriminate].
  apply evict_until_room_frame in Hevict as (Hc2 & Hi2 & Hid2 & _).
  destruct (if (nb >=? size) && negb (fl =? -1) then _ else _)
    as [rc3 st3| |] eqn:Hroom; [|discriminate|discriminate].
  assert (H3 : cfg st3 = cfg st /\ scr_in_checkpoint st3 = 1 /\
               scr_checkpoint_id st3 = int_add (scr_checkpoint_id st) 1).
  { destruct (_ && _).
    - destruct (LibraryFacts.scr_flush_async_wait_spec st2)
        as (stw & K & _ & [[Hw _]|[Hw _]]); rewrite Hw in Hroom;
        [|discriminate].
      inversion Hroom; subst rc3 st3.
      destruct K as (K1 & K2 & K3 & _). cbn.
      rewrite K1, K2, K3, Hc2, Hi2, Hid2. auto.
    - inversion Hroom; subst rc3 st3. rewrite Hc2, Hi2, Hid2. auto. }
  destruct H3 as (Hc3 & Hi3 & Hid3).
  set (st5 := scr_filemap_write
                (with_map st3
                   (scr_filemap_set_desc (scr_map st3)
                      (scr_checkpoint_id st3) (scr_my_rank_world (cfg st3))
                      (scr_ckptdesc_store_to_hash c)))) in Hrun.
  change (scr_checkpoint_id st5) with (scr_checkpoint_id st3) in Hrun.
  destruct (scr_checkpoint_dir_create c (scr_checkpoint_id st3) st5)
    as [rc' st6| |] eqn:Hdir; [|discriminate|discriminate].
  inversion Hrun; subst rc st'. clear Hrun. right.
  split; [reflexivity|]. split; [reflexivity|]. split; [reflexivity|].
  split; [exact Hin0|].
  assert (Hdesc : scr_filemap_get_desc (scr_map st5)
                    (int_add (scr_checkpoint_id st) 1)
                    (scr_my_rank_world (cfg st))
                  = Some (scr_ckptdesc_store_to_hash c)).
  { unfold st5. cbn. rewrite Hid3, Hc3.
    apply scr_filemap_get_desc_set_desc. }
  assert (Hfile : map_file (node st5) = Some (scr_map st5)) by reflexivity.
  assert (H6 : scr_in_checkpoint st6 = 1 /\
    scr_checkpoint_id st6 = int_add (scr_checkpoint_id st) 1 /\
    cfg st6 = cfg st /\ scr_map st6 = scr_map st5 /\
    map_file (node st6) = map_file (node st5) /\
    (scr_my_rank_local (cfg st) = 0 ->
     exists d, directory c = Some d /\
       (checkpoint_dir_name d (int_add (scr_checkpoint_id st) 1)
          ∈ dirs (node st6) \/ aborted st6 = true))).
  { unfold scr_checkpoint_dir_create, scr_checkpoint_dir in Hdir.
    change (cfg st5) with (cfg st3) in Hdir. rewrite Hc3, Hid3 in Hdir.
    destruct (Z.eqb_spec (scr_my_rank_local (cfg st)) 0) as [Hm|Hm].
    - destruct (directory c) as [d|]; [|discriminate].
      destruct (mkdir_succeeds _ _); inversion Hdir; subst st6; cbn;
        rewrite ?Hi3, ?Hid3, ?Hc3; repeat split; auto;
        intros _; exists d; split; auto.
      left. set_solver.
    - inversion Hdir; subst st6. cbn. rewrite ?Hi3, ?Hid3, ?Hc3.
      repeat split; auto. intros Hcontra. contradiction. }
  destruct H6 as (Hi6 & Hid6 & Hc6 & Hm6 & Hf6 & Hd6).
  split; [exact Hi6|]. split; [exact Hid6|]. split; [exact Hc6|].
  exists c. rewrite Hid6, Hm6, Hf6.
  split; [exact Hsel|]. split; [exact Hdesc|].
  unfold scr_ckptdesc_base_from_filemap, scr_ckptdesc_dir_from_filemap.
  rewrite Hdesc. cbn. auto.
Qed.

(** X15.  What a successful [SCR_Start_checkpoint] establishes.  A call
    that returns success has raised the checkpoint id by one (in [int]
    arithmetic) and entered the checkpoint.  The descriptor selected for
    the new id is recorded, as a hash, in the filemap under the new id and
    the rank of the process, and the filemap file holds that filemap, so
    that a later run finds the directory of a checkpoint that was never
    completed.  On the master of the node the descriptor has a directory,
    and the checkpoint directory below it was created unless the job was
    aborted.  A call that returns failure did nothing but, possibly,
    request the abort. *)
Theorem SCR_Start_checkpoint_establishes (st st' : scr_state) (rc : Z) :
  SCR_Start_checkpoint st = Ok rc st' ->
  (rc = SCR_FAILURE /\ (st' = st \/ st' = scr_abort st)) \/
  (rc = SCR_SUCCESS /\
   scr_in_checkpoint st = 0 /\ scr_in_checkpoint st' = 1 /\
   scr_checkpoint_id st' = int_add (scr_checkpoint_id st) 1 /\
   cfg st' = cfg st /\
   exists c,
     selected_desc st (scr_checkpoint_id st') = Some c /\
     scr_filemap_get_desc (scr_map st') (scr_checkpoint_id st')
       (scr_my_rank_world (cfg st))
       = Some (scr_ckptdesc_store_to_hash c) /\
     scr_ckptdesc_base_from_filemap (scr_map st') (scr_checkpoint_id st')
       (scr_my_rank_world (cfg st)) = base c /\
     scr_ckptdesc_dir_from_filemap (scr_map st') (scr_checkpoint_id st')
       (scr_my_rank_world (cfg st)) = directory c /\
     map_file (node st') = Some (scr_map st') /\
     (scr_my_rank_local (cfg st) = 0 ->
      exists d, directory c = Some d /\
        (checkpoint_dir_name d (scr_checkpoint_id st') ∈ dirs (node st')
         \/ aborted st' = true))).
Proof.
  intros Hrun.
  destruct (SCR_Start_checkpoint_cases st st' rc Hrun)
    as [Hfail|(Hrc & _ & _ & Hrest)]; [left; exact Hfail|right].
  split; [exact Hrc|exact Hrest].
Qed.

Lemma SCR_Start_checkpoint_establishes_witness :
  (SCR_SUCCESS = SCR_FAILURE /\
   (result_state (SCR_Start_checkpoint sample_idle) = sample_idle \/
    result_state (SCR_Start_checkpoint sample_idle)
    = scr_abort sample_idle)) \/
  (SCR_SUCCESS = SCR_SUCCESS /\
   scr_in_checkpoint sample_idle = 0 /\
   scr_in_checkpoint (result_state (SCR_Start_checkpoint sample_idle)) = 1
   /\
   scr_checkpoint_id (result_state (SCR_Start_checkpoint sample_idle))
   = int_add (scr_checkpoint_id sample_idle) 1 /\
   cfg (result_state (SCR_Start_checkpoint sample_idle)) = cfg sample_idle
   /\
   exists c,
     selected_desc sample_idle
       (scr_checkpoint_id
          (result_state (SCR_Start_checkpoint sample_idle))) = Some c /\
     scr_filemap_get_desc
       (scr_map (result_state (SCR_Start_checkpoint sample_idle)))
       (scr_checkpoint_id
          (result_state (SCR_Start_checkpoint sample_idle)))
       (scr_my_rank_world (cfg sample_idle))
       = Some (scr_ckptdesc_store_to_hash c) /\
     scr_ckptdesc_base_from_filemap
       (scr_map (result_state (SCR_Start_checkpoint sample_idle)))
       (scr_checkpoint_id
          (result_state (SCR_Start_checkpoint sample_idle)))
       (scr_my_rank_world (cfg sample_idle)) = base c /\
     scr_ckptdesc_dir_from_filemap
       (scr_map (result_state (SCR_Start_checkpoint sample_idle)))
       (scr_checkpoint_id
          (result_state (SCR_Start_checkpoint sample_idle)))
       (scr_my_rank_world (cfg sample_idle)) = directory c /\
     map_file (node (result_state (SCR_Start_checkpoint sample_idle)))
     = Some (scr_map (result_state (SCR_Start_checkpoint sample_idle))) /\
     (scr_my_rank_local (cfg sample_idle) = 0 ->
      exists d, directory c = Some d /\
        (checkpoint_dir_name d
           (scr_checkpoint_id
              (result_state (SCR_Start_checkpoint sample_idle)))
           ∈ dirs (node (result_state (SCR_Start_checkpoint sample_idle)))
         \/ aborted (result_state (SCR_Start_checkpoint sample_idle))
            = true))).
Proof.
  apply (SCR_Start_checkpoint_establishes sample_idle
           (result_state (SCR_Start_checkpoint sample_idle)) SCR_SUCCESS).
  vm_compute. reflexivity.
Defined.

Section StartThenRoute.
Variable SCR_MAX_FILENAME : Z.
Variable scr_split_path : string -> string * string.
Variable scr_build_path : Z -> string -> string -> Z * string.

Local Abbreviation Route_file :=
  (SCR_Route_file SCR_MAX_FILENAME scr_split_path scr_build_path).

(** Routing a non-empty name that is shorter than [SCR_MAX_FILENAME] and
    for which [scr_build_path] succeeds leaves the state as it is: no call
    of [scr_abort]. *)
Lemma scr_route_file_quiet st id f buf c d :
  f <> EmptyString ->
  Z.of_nat (String.length f) < SCR_MAX_FILENAME ->
  selected_desc st id = Some c -> directory c = Some d ->
  fst (scr_build_path SCR_MAX_FILENAME (checkpoint_dir_name d id)
         (snd (scr_split_path f))) = SCR_SUCCESS ->
  scr_route_file SCR_MAX_FILENAME scr_split_path scr_build_path st id
    (Some f) (Some buf) SCR_MAX_FILENAME
  = Ok (SCR_SUCCESS,
        Some (snd (scr_build_path SCR_MAX_FILENAME (checkpoint_dir_name d id)
                     (snd (scr_split_path f))))) st.
Proof.
  intros Hf Hlen Hsel Hdir Hbuild. unfold scr_route_file.
  rewrite bool_decide_eq_false_2 by exact Hf.
  replace (Z.of_nat (String.length f) >=? SCR_MAX_FILENAME) with false
    by (symmetry; rewrite Z.geb_leb; apply Z.leb_gt; exact Hlen).
  destruct (scr_split_path f) as [path name]. cbn [snd] in *.
  rewrite Hsel. unfold scr_checkpoint_dir. rewrite Hdir.
  destruct (scr_build_path SCR_MAX_FILENAME (checkpoint_dir_name d id) name)
    as [rc composed]. cbn [fst snd] in *. subst rc. reflexivity.
Qed.

(** X16.  Routing a file after a start.  On the master of a node, after
    [SCR_Start_checkpoint] has returned success without a call of
    [scr_abort], [SCR_Route_file] called with a file name that is not
    empty, is shorter than [SCR_MAX_FILENAME] and for which
    [scr_build_path] succeeds in the checkpoint directory returns success,
    again without a call of [scr_abort].  The path it
    hands out is the name component of the file placed in the directory
    [<directory>/checkpoint.<id>] of the descriptor selected for the new
    checkpoint id; the path is listed in the filemap under the new
    checkpoint and the rank of the process, next to the descriptor
    recorded by the start, and the filemap file holds that filemap. *)
Theorem start_then_route (st st1 : scr_state) (f buf : string) :
  SCR_Start_checkpoint st = Ok SCR_SUCCESS st1 ->
  aborted st1 = false ->
  scr_my_rank_local (cfg st) = 0 ->
  f <> EmptyString ->
  Z.of_nat (String.length f) < SCR_MAX_FILENAME ->
  (forall c d,
     selected_desc st (scr_checkpoint_id st1) = Some c ->
     directory c = Some d ->
     fst (scr_build_path SCR_MAX_FILENAME
            (checkpoint_dir_name d (scr_checkpoint_id st1))
            (snd (scr_split_path f))) = SCR_SUCCESS) ->
  exists c d st2,
    selected_desc st (scr_checkpoint_id st1) = Some c /\
    directory c = Some d /\
    Route_file st1 (Some f) (Some buf)
    = Ok (SCR_SUCCESS,
          Some (snd (scr_build_path SCR_MAX_FILENAME
                       (checkpoint_dir_name d (scr_checkpoint_id st1))
                       (snd (scr_split_path f))))) st2 /\
    aborted st2 = false /\
    snd (scr_build_path SCR_MAX_FILENAME
           (checkpoint_dir_name d (scr_checkpoint_id st1))
           (snd (scr_split_path f)))
      ∈ files (entry (scr_map st2) (scr_checkpoint_id st1)
                 (scr_my_rank_world (cfg st))) /\
    scr_filemap_get_desc (scr_map st2) (scr_checkpoint_id st1)
      (scr_my_rank_world (cfg st))
      = Some (scr_ckptdesc_store_to_hash c) /\
    map_file (node st2) = Some (scr_map st2) /\
    scr_in_checkpoint st2 = 1 /\
    scr_checkpoint_id st2 = scr_checkpoint_id st1.
Proof.
  intros Hstart Hquiet Hmaster Hf Hlen Hbuild.
  destruct (SCR_Start_checkpoint_cases st st1 SCR_SUCCESS Hstart)
    as [[Hrc _]|(_ & Hen & Hinit & _ & Hin1 & Hid1 & Hcfg1 & c & Hsel
                 & Hdesc & _ & _ & Hfile & Hdir)]; [discriminate|].
  destruct (Hdir Hmaster) as (d & Hd & _).
  exists c, d.
  assert (Hsel1 : selected_desc st1 (scr_checkpoint_id st1) = Some c).
  { unfold selected_desc in *. rewrite Hcfg1. exact Hsel. }
  pose proof (scr_route_file_quiet st1 (scr_checkpoint_id st1) f buf c d
                Hf Hlen Hsel1 Hd (Hbuild c d Hsel Hd)) as Hroute.
  set (routed := snd (scr_build_path SCR_MAX_FILENAME
                        (checkpoint_dir_name d (scr_checkpoint_id st1))
                        (snd (scr_split_path f)))) in *.
  unfold SCR_Route_file. rewrite Hcfg1, Hen, Hinit. cbn [negb].
  rewrite Hroute.
  change (SCR_SUCCESS =? SCR_SUCCESS) with true. cbn [negb].
  rewrite Hin1. cbn [truthy Z.eqb negb].
  eexists. split; [exact Hsel|]. split; [exact Hd|].
  split; [reflexivity|]. cbn.
  rewrite Hcfg1.
  split; [exact Hquiet|].
  split; [apply LibraryFacts.scr_filemap_add_file_lists|].
  split; [|split; [reflexivity|split; [congruence|reflexivity]]].
  unfold scr_filemap_get_desc, scr_filemap_add_file, set_entry.
  rewrite lookup_insert_eq. cbn. rewrite lookup_insert_eq. cbn.
  unfold scr_filemap_get_desc in Hdesc. unfold entry.
  destruct (scr_map st1 !! scr_checkpoint_id st1) as [ranks|]; cbn in *;
    [|discriminate].
  destruct (ranks !! scr_my_rank_world (cfg st)) as [e|]; cbn in *;
    [exact Hdesc|discriminate].
Qed.

End StartThenRoute.

Lemma start_then_route_witness :
  exists c d st2,
    selected_desc sample_idle
      (scr_checkpoint_id (result_state (SCR_Start_checkpoint sample_idle)))
      = Some c /\
    directory c = Some d /\
    SCR_Route_file 1024 sample_split_path sample_build_path
      (result_state (SCR_Start_checkpoint sample_idle))
      (Some "rank_0.ckpt") (Some "")
    = Ok (SCR_SUCCESS,
          Some (snd (sample_build_path 1024
                       (checkpoint_dir_name d
                          (scr_checkpoint_id
                             (result_state
                                (SCR_Start_checkpoint sample_idle))))
                       (snd (sample_split_path "rank_0.ckpt"))))) st2 /\
    aborted st2 = false /\
    snd (sample_build_path 1024
           (checkpoint_dir_name d
              (scr_checkpoint_id
                 (result_state (SCR_Start_checkpoint sample_idle))))
           (snd (sample_split_path "rank_0.ckpt")))
      ∈ files (entry (scr_map st2)
                 (scr_checkpoint_id
                    (result_state (SCR_Start_checkpoint sample_idle)))
                 (scr_my_rank_world (cfg sample_idle))) /\
    scr_filemap_get_desc (scr_map st2)
      (scr_checkpoint_id (result_state (SCR_Start_checkpoint sample_idle)))
      (scr_my_rank_world (cfg sample_idle))
      = Some (scr_ckptdesc_store_to_hash c) /\
    map_file (node st2) = Some (scr_map st2) /\
    scr_in_checkpoint st2 = 1 /\
    scr_checkpoint_id st2
    = scr_checkpoint_id (result_state (SCR_Start_checkpoint sample_idle)).
Proof.
  apply (start_then_route 1024 sample_split_path sample_build_path
           sample_idle (result_state (SCR_Start_checkpoint sample_idle))
           "rank_0.ckpt" "").
  - vm_compute. reflexivity.
  - reflexivity.
  - reflexivity.
  - discriminate.
  - vm_compute. reflexivity.
  - intros c d _ _. reflexivity.
Defined.

End SessionFacts.

(** ** The XOR scheme *)

Module XorCodeFacts.
Import XorEncoder XorCode CIntFacts XorEncoderFacts.

Example xor_encode_sample :
  map xf_payload <$> scr_copy_xor 2 sample_xor_set
  = Some [ [6; 7; 8]; [1; 2; 3]; [4; 5; 0] ].
Proof. vm_compute. reflexivity. Qed.

Example xor_rebuild_sample :
  forall root, (root < 3)%nat ->
  exists xors,
    scr_copy_xor 2 sample_xor_set = Some xors /\
    scr_rebuild_xor 2 (after_loss sample_xor_set xors root sample_lost)
      (Z.of_nat root)
    = (files ← sample_xor_set !! root; xor ← xors !! root;
       Some (files, xor)).
Proof.
  intros root Hroot. eexists. split; [vm_compute; reflexivity|].
  destruct root as [|[|[|root]]]; try lia; vm_compute; reflexivity.
Qed.

(** *** The algebra of [xor_into] *)

Lemma xor_into_comm a b : xor_into a b = xor_into b a.
Proof.
  unfold xor_into. revert b.
  induction a as [|x a IH]; intros [|y b]; cbn; try reflexivity.
  rewrite Z.lxor_comm, IH. reflexivity.
Qed.

Lemma xor_into_assoc a b c :
  xor_into a (xor_into b c) = xor_into (xor_into a b) c.
Proof.
  unfold xor_into. revert b c.
  induction a as [|x a IH]; intros [|y b] [|z c]; cbn; try reflexivity.
  rewrite Z.lxor_assoc, IH. reflexivity.
Qed.

Lemma xor_into_zeros a count :
  (length a <= count)%nat -> xor_into a (replicate count 0) = a.
Proof.
  unfold xor_into. revert count.
  induction a as [|x a IH]; intros [|count] Hlen; cbn in *;
    try reflexivity; try lia.
  rewrite Z.lxor_0_r, IH by lia. reflexivity.
Qed.

Lemma xor_into_self a : xor_into a a = replicate (length a) 0.
Proof.
  unfold xor_into. induction a as [|x a IH]; cbn; [reflexivity|].
  rewrite Z.lxor_nilpotent, IH. reflexivity.
Qed.

Lemma xor_into_length a b :
  length (xor_into a b) = Nat.min (length a) (length b).
Proof. apply length_zip_with. Qed.

Lemma xor_into_take k a b :
  take k (xor_into a b) = xor_into (take k a) (take k b).
Proof.
  unfold xor_into. revert k b.
  induction a as [|x a IH]; intros [|k] [|y b]; cbn; try reflexivity.
  rewrite IH. reflexivity.
Qed.

Lemma xor_into_drop k a b :
  drop k (xor_into a b) = xor_into (drop k a) (drop k b).
Proof.
  unfold xor_into. revert k b.
  induction a as [|x a IH]; intros [|k] [|y b]; cbn; try reflexivity.
  - destruct (drop k a); reflexivity.
  - apply IH.
Qed.

Lemma xor_all_length count bufs :
  Forall (fun buf => length buf = count) bufs ->
  length (xor_all count bufs) = count.
Proof.
  induction 1 as [|buf bufs Hbuf _ IH]; cbn.
  - apply length_replicate.
  - fold (xor_all count bufs). rewrite xor_into_length, Hbuf, IH. lia.
Qed.

Lemma xor_all_Permutation count bufs bufs' :
  bufs ≡ₚ bufs' -> xor_all count bufs = xor_all count bufs'.
Proof.
  induction 1 as [|x l l' _ IH|x y l|l l' l'' _ IH1 _ IH2]; cbn.
  - reflexivity.
  - fold (xor_all count l) (xor_all count l'). rewrite IH. reflexivity.
  - fold (xor_all count l).
    rewrite !xor_into_assoc, (xor_into_comm y x). reflexivity.
  - congruence.
Qed.

Lemma xor_all_singleton count buf :
  length buf = count -> xor_all count [buf] = buf.
Proof. intros H. cbn. apply xor_into_zeros. lia. Qed.

(** A buffer merged twice cancels. *)
Lemma xor_into_cancel a b :
  length a = length b -> xor_into (xor_into a b) b = a.
Proof.
  intros H. rewrite <- xor_into_assoc, xor_into_self.
  apply xor_into_zeros. lia.
Qed.

Lemma xor_all_take_drop count bufs nread k :
  (nread + k <= count)%nat ->
  take k (drop nread (xor_all count bufs))
  = xor_all k (map (fun buf => take k (drop nread buf)) bufs).
Proof.
  intros Hle. induction bufs as [|buf bufs IH]; cbn.
  - rewrite drop_replicate, take_replicate. f_equal. lia.
  - fold (xor_all count bufs).
    fold (xor_all k (map (fun buf => take k (drop nread buf)) bufs)).
    rewrite xor_into_drop, xor_into_take, IH. reflexivity.
Qed.

(** *** Reading the zero-padded logical file *)

Lemma scr_read_pad_n_length files count offset :
  length (scr_read_pad_n files count offset) = Z.to_nat count.
Proof.
  unfold scr_read_pad_n.
  rewrite length_take, length_app, length_replicate. lia.
Qed.

Lemma scr_read_pad_n_block files chunk_size offset nread count :
  0 <= offset -> 0 <= nread -> 0 <= count -> nread + count <= chunk_size ->
  scr_read_pad_n files count (offset + nread)
  = take (Z.to_nat count)
      (drop (Z.to_nat nread) (scr_read_pad_n files chunk_size offset)).
Proof.
  intros Ho Hn Hc Hle. unfold scr_read_pad_n.
  set (data := concat files).
  apply list_eq. intros i.
  rewrite !lookup_take, lookup_drop, lookup_take.
  repeat case_decide; try lia; try reflexivity.
  destruct (decide (Z.to_nat offset + (Z.to_nat nread + i)
                    < length data)%nat) as [Hin|Hout].
  - rewrite !lookup_app_l by (rewrite length_drop; lia).
    rewrite !lookup_drop. f_equal. lia.
  - rewrite !lookup_app_r by (rewrite length_drop; lia).
    rewrite !lookup_replicate_2; [reflexivity| |];
      rewrite length_drop; lia.
Qed.

(** *** The ring of an XOR set *)

Section Ring.
Variable ranks : Z.
Hypothesis Hranks : 2 <= ranks.
Hypothesis Hint : 3 * ranks <= INT_MAX.

Lemma mod_cases a :
  - ranks <= a < 2 * ranks ->
  a mod ranks
  = if a <? 0 then a + ranks else if a <? ranks then a else a - ranks.
Proof.
  intros Ha. destruct (Z.ltb_spec a 0); [|destruct (Z.ltb_spec a ranks)].
  - symmetry. apply (Z.mod_unique_pos _ _ (-1)); lia.
  - apply Z.mod_small. lia.
  - symmetry. apply (Z.mod_unique_pos _ _ 1); lia.
Qed.

Lemma lhs_rank_mod r :
  0 <= r < ranks -> lhs_rank ranks r = (r - 1) mod ranks.
Proof.
  intros Hr. unfold lhs_rank, int_add, int_sub.
  rewrite (wrap_int_id (r + ranks)) by int_range.
  rewrite wrap_int_id by int_range.
  rewrite int_rem_nonneg by lia.
  replace (r + ranks - 1) with (r - 1 + 1 * ranks) by lia.
  apply Z_mod_plus_full.
Qed.

Lemma rhs_rank_mod r :
  0 <= r < ranks -> rhs_rank ranks r = (r + 1) mod ranks.
Proof.
  intros Hr. unfold rhs_rank, int_add.
  rewrite (wrap_int_id (r + ranks)) by int_range.
  rewrite wrap_int_id by int_range.
  rewrite int_rem_nonneg by lia.
  replace (r + ranks + 1) with (r + 1 + 1 * ranks) by lia.
  apply Z_mod_plus_full.
Qed.

Lemma slot_mod r k :
  0 <= r < ranks -> 0 <= k < ranks ->
  int_rem (int_add (int_add r ranks) k) ranks = (r + k) mod ranks.
Proof.
  intros Hr Hk. unfold int_add.
  rewrite (wrap_int_id (r + ranks)) by int_range.
  rewrite wrap_int_id by int_range.
  rewrite int_rem_nonneg by lia.
  replace (r + ranks + k) with (r + k + 1 * ranks) by lia.
  apply Z_mod_plus_full.
Qed.

Lemma mod_in_ring a : 0 <= a mod ranks < ranks.
Proof. apply Z.mod_pos_bound. lia. Qed.

Lemma others_spec slot r :
  r ∈ others ranks slot <-> 0 <= r < ranks /\ r <> slot.
Proof.
  unfold others. rewrite list_elem_of_In, List.filter_In, <- list_elem_of_In.
  rewrite elem_of_seqZ, negb_true_iff, Z.eqb_neq. lia.
Qed.

Lemma others_NoDup slot : NoDup (others ranks slot).
Proof.
  unfold others. apply NoDup_ListNoDup, List.NoDup_filter, NoDup_ListNoDup.
  apply NoDup_seqZ.
Qed.

(** The members met when walking [len] steps to the left from [r]... *)
Lemma walk_down_cons r len :
  0 <= r < ranks -> 0 <= len ->
  map (fun j => (r - j) mod ranks) (seqZ 0 (len + 1))
  = r :: map (fun j => ((r - 1) mod ranks - j) mod ranks) (seqZ 0 len).
Proof.
  intros Hr Hlen. rewrite seqZ_cons by lia. cbn [map].
  rewrite Z.sub_0_r, Z.mod_small by lia. f_equal.
  replace (Z.pred (len + 1)) with len by lia.
  change (Z.succ 0) with (1 + 0). rewrite <- fmap_add_seqZ.
  rewrite <- list_fmap_compose. apply list_fmap_ext. intros _ j _. cbn.
  rewrite Zminus_mod_idemp_l. f_equal. lia.
Qed.

(** ... and to the right. *)
Lemma walk_up_snoc r len :
  0 <= len ->
  map (fun j => (r + j) mod ranks) (seqZ 0 (len + 1))
  = map (fun j => (r + j) mod ranks) (seqZ 0 len) ++ [(r + len) mod ranks].
Proof.
  intros Hlen. rewrite (seqZ_app 0 len 1) by lia. rewrite map_app.
  rewrite (seqZ_cons _ 1) by lia.
  rewrite (seqZ_nil _ (Z.pred 1)) by lia. reflexivity.
Qed.

(** A walk of [ranks - 1] steps to the left from the left partner of
    [slot] meets every other member once. *)
Lemma walk_down_others slot :
  0 <= slot < ranks ->
  map (fun j => ((slot - 1) mod ranks - j) mod ranks) (seqZ 0 (ranks - 1))
  ≡ₚ others ranks slot.
Proof.
  intros Hs.
  assert (Hf : forall j, 0 <= j < ranks - 1 ->
    ((slot - 1) mod ranks - j) mod ranks
    = if slot - 1 - j <? 0 then slot - 1 - j + ranks else slot - 1 - j).
  { intros j Hj. rewrite Zminus_mod_idemp_l, mod_cases by lia.
    destruct (Z.ltb_spec (slot - 1 - j) 0); [reflexivity|].
    destruct (Z.ltb_spec (slot - 1 - j) ranks); lia. }
  apply NoDup_Permutation.
  - apply NoDup_fmap_2_strong; [|apply NoDup_seqZ].
    intros j j' Hj Hj'. apply elem_of_seqZ in Hj, Hj'.
    rewrite !Hf by lia.
    destruct (Z.ltb_spec (slot - 1 - j) 0);
      destruct (Z.ltb_spec (slot - 1 - j') 0); lia.
  - apply others_NoDup.
  - intros r. rewrite others_spec, list_elem_of_fmap. split.
    + intros (j & -> & Hj). apply elem_of_seqZ in Hj.
      rewrite Hf by lia. destruct (Z.ltb_spec (slot - 1 - j) 0); lia.
    + intros (Hr & Hne).
      exists (if r <? slot then slot - 1 - r else slot - 1 - r + ranks).
      rewrite elem_of_seqZ.
      destruct (Z.ltb_spec r slot); (split; [rewrite Hf by lia|lia]).
      * destruct (Z.ltb_spec (slot - 1 - (slot - 1 - r)) 0); lia.
      * destruct (Z.ltb_spec (slot - 1 - (slot - 1 - r + ranks)) 0); lia.
Qed.

(** A walk of [ranks - 1] steps to the right from the right partner of
    [root] meets every other member once. *)
Lemma walk_up_others root :
  0 <= root < ranks ->
  map (fun j => (root + 1 + j) mod ranks) (seqZ 0 (ranks - 1))
  ≡ₚ others ranks root.
Proof.
  intros Hs.
  assert (Hf : forall j, 0 <= j < ranks - 1 ->
    (root + 1 + j) mod ranks
    = if root + 1 + j <? ranks then root + 1 + j else root + 1 + j - ranks).
  { intros j Hj. rewrite mod_cases by lia.
    destruct (Z.ltb_spec (root + 1 + j) 0); [lia|reflexivity]. }
  apply NoDup_Permutation.
  - apply NoDup_fmap_2_strong; [|apply NoDup_seqZ].
    intros j j' Hj Hj'. apply elem_of_seqZ in Hj, Hj'.
    rewrite !Hf by lia.
    destruct (Z.ltb_spec (root + 1 + j) ranks);
      destruct (Z.ltb_spec (root + 1 + j') ranks); lia.
  - apply others_NoDup.
  - intros r. rewrite others_spec, list_elem_of_fmap. split.
    + intros (j & -> & Hj). apply elem_of_seqZ in Hj.
      rewrite Hf by lia. destruct (Z.ltb_spec (root + 1 + j) ranks); lia.
    + intros (Hr & Hne).
      exists (if root <? r then r - root - 1 else r - root - 1 + ranks).
      rewrite elem_of_seqZ.
      destruct (Z.ltb_spec root r); (split; [rewrite Hf by lia|lia]).
      * destruct (Z.ltb_spec (root + 1 + (r - root - 1)) ranks); lia.
      * destruct (Z.ltb_spec (root + 1 + (r - root - 1 + ranks)) ranks); lia.
Qed.

Lemma others_split a b rest :
  0 <= b < ranks -> a <> b -> NoDup rest ->
  (forall r, r ∈ rest <-> 0 <= r < ranks /\ r <> a /\ r <> b) ->
  others ranks a ≡ₚ b :: rest.
Proof.
  intros Hb Hab Hnd Hrest. apply NoDup_Permutation.
  - apply others_NoDup.
  - apply NoDup_cons. split; [rewrite Hrest; lia|exact Hnd].
  - intros r. rewrite others_spec, elem_of_cons, Hrest. lia.
Qed.

End Ring.

(** *** The reduce-scatter of [scr_copy_xor] *)

Section Encode.
Variable set : list (list (list Z)).
Variable chunk_size : Z.
Local Abbreviation ranks := (Z.of_nat (length set)).
Hypothesis Hranks : 2 <= ranks.
Hypothesis Hint : 3 * ranks <= INT_MAX.
Hypothesis Hchunk : 1 <= chunk_size.
Hypothesis Hfit : chunk_size * (ranks - 1) <= ULONG_MAX.

(** What member [r] sends at step [k]: its contribution to the slot
    [(r + k) mod ranks] merged with those of the members to its left. *)
Local Abbreviation partial nread count k r :=
  (xor_all (Z.to_nat count)
     (map (contribution chunk_size set nread count ((r + k) mod ranks))
        (map (fun j => (r - j) mod ranks) (seqZ 0 (ranks - k))))).

Lemma contribution_length nread count slot r :
  length (contribution chunk_size set nread count slot r) = Z.to_nat count.
Proof. apply scr_read_pad_n_length. Qed.

Lemma contributions_length nread count slot (rs : list Z) :
  Forall (fun buf => length buf = Z.to_nat count)
    (map (contribution chunk_size set nread count slot) rs).
Proof.
  apply Forall_fmap, Forall_forall. intros r _. apply contribution_length.
Qed.

Lemma copy_xor_send_buf_spec r k nread count recv_buf files :
  0 <= r < ranks -> 0 <= k < ranks -> 0 <= nread < chunk_size ->
  set !! Z.to_nat r = Some files ->
  copy_xor_send_buf ranks r chunk_size files nread count k recv_buf
  = let own :=
      if k >? 0
      then contribution chunk_size set nread count ((r + k) mod ranks) r
      else replicate (Z.to_nat count) 0 in
    if k <? ranks - 1 then xor_into own recv_buf else own.
Proof.
  intros Hr Hk Hnread Hfiles. unfold copy_xor_send_buf. cbv zeta.
  assert (Hsub : int_sub ranks 1 = ranks - 1).
  { unfold int_sub. apply wrap_int_id. int_range. }
  rewrite Hsub.
  destruct (Z.gtb_spec k 0) as [Hpos|Hzero]; [|reflexivity].
  rewrite slot_mod by lia.
  unfold contribution. rewrite Hfiles. cbn [default].
  set (slot := (r + k) mod ranks).
  assert (Hslot : 0 <= slot < ranks /\ slot <> r).
  { unfold slot. rewrite mod_cases by lia.
    destruct (Z.ltb_spec (r + k) 0); [lia|].
    destruct (Z.ltb_spec (r + k) ranks); lia. }
  assert (Hrel : (if slot >? r then int_sub slot 1 else slot)
                 = slot_index slot r).
  { unfold slot_index, int_sub.
    destruct (Z.gtb_spec slot r), (Z.ltb_spec slot r); try lia.
    apply wrap_int_id. int_range. }
  rewrite Hrel.
  assert (Hidx : 0 <= slot_index slot r <= ranks - 2).
  { unfold slot_index. destruct (Z.ltb_spec slot r); lia. }
  assert (Hoff : wrap_ulong
            (wrap_ulong (chunk_size * wrap_ulong (slot_index slot r))
             + nread)
          = chunk_size * slot_index slot r + nread).
  { assert (Hmax : ULONG_MAX = 18446744073709551615) by reflexivity.
    rewrite (wrap_ulong_id (slot_index slot r))
      by (unfold in_ulong; nia).
    rewrite (wrap_ulong_id (chunk_size * slot_index slot r))
      by (unfold in_ulong; nia).
    apply wrap_ulong_id. unfold in_ulong. nia. }
  rewrite Hoff. reflexivity.
Qed.

Lemma partial_last nread count r :
  0 <= r < ranks ->
  partial nread count (ranks - 1) r
  = contribution chunk_size set nread count ((r + (ranks - 1)) mod ranks) r.
Proof.
  intros Hr. replace (ranks - (ranks - 1)) with 1 by lia.
  rewrite (seqZ_cons _ 1) by lia.
  rewrite (seqZ_nil _ (Z.pred 1)) by lia. cbn [map].
  rewrite Z.sub_0_r, (Z.mod_small r) by lia.
  apply xor_all_singleton, contribution_length.
Qed.

Lemma partial_step nread count k r :
  0 <= r < ranks -> 1 <= k < ranks - 1 ->
  xor_into (contribution chunk_size set nread count ((r + k) mod ranks) r)
    (partial nread count (k + 1) ((r - 1) mod ranks))
  = partial nread count k r.
Proof.
  intros Hr Hk.
  replace (ranks - k) with (ranks - (k + 1) + 1) by lia.
  rewrite (walk_down_cons ranks).
  all: try lia.
  cbn [map foldr xor_all].
  f_equal. rewrite Zplus_mod_idemp_l.
  replace (r - 1 + (k + 1)) with (r + k) by lia. reflexivity.
Qed.

Lemma partial_parity nread count slot :
  0 <= slot < ranks ->
  partial nread count 1 ((slot - 1) mod ranks)
  = parity_block chunk_size set nread count slot.
Proof.
  intros Hs. unfold parity_block.
  rewrite Zplus_mod_idemp_l.
  replace (slot - 1 + 1) with slot by lia. rewrite (Z.mod_small slot) by lia.
  apply xor_all_Permutation, fmap_Permutation, walk_down_others; lia.
Qed.

Lemma parity_block_length nread count slot :
  length (parity_block chunk_size set nread count slot) = Z.to_nat count.
Proof. apply xor_all_length, contributions_length. Qed.

Lemma reduce_scatter_block_spec nread count (k : nat) :
  forall recv_bufs,
  0 <= nread < chunk_size ->
  Z.of_nat k <= ranks - 1 ->
  (Z.of_nat k < ranks - 1 ->
   forall r files, set !! r = Some files ->
     recv_bufs !! r
     = Some (partial nread count (Z.of_nat k + 1)
               ((Z.of_nat r - 1) mod ranks))) ->
  reduce_scatter_block set ranks chunk_size nread count k recv_bufs
  = imap (fun r _ => parity_block chunk_size set nread count (Z.of_nat r))
      set.
Proof.
  induction k as [|k IH]; intros recv_bufs Hnread Hk Hrecv.
  - cbn [reduce_scatter_block]. apply imap_ext. intros r files Hfiles.
    pose proof (lookup_lt_Some _ _ _ Hfiles) as Hlt.
    rewrite (copy_xor_send_buf_spec (Z.of_nat r) 0 _ _ _ files);
      [|lia|lia|lia|rewrite Nat2Z.id; exact Hfiles].
    cbv zeta. change (0 >? 0) with false. cbv iota.
    destruct (Z.ltb_spec 0 (ranks - 1)) as [_|]; [|lia].
    rewrite (Hrecv ltac:(lia) r files Hfiles). cbn [default].
    change (Z.of_nat 0 + 1) with 1.
    rewrite partial_parity by lia.
    rewrite xor_into_comm. apply xor_into_zeros.
    rewrite parity_block_length. lia.
  - cbn [reduce_scatter_block].
    assert (Hsend :
      imap (fun my_rank files =>
              copy_xor_send_buf ranks (Z.of_nat my_rank) chunk_size files
                nread count (Z.of_nat (S k))
                (default [] (recv_bufs !! my_rank))) set
      = imap (fun r _ =>
                partial nread count (Z.of_nat (S k)) (Z.of_nat r)) set).
    { apply imap_ext. intros r files Hfiles.
      pose proof (lookup_lt_Some _ _ _ Hfiles) as Hlt.
      rewrite (copy_xor_send_buf_spec (Z.of_nat r) _ _ _ _ files);
        [|lia|lia|lia|rewrite Nat2Z.id; exact Hfiles].
      cbv zeta.
      destruct (Z.gtb_spec (Z.of_nat (S k)) 0) as [_|]; [|lia].
      destruct (Z.ltb_spec (Z.of_nat (S k)) (ranks - 1)) as [Hlt'|Hge].
      + rewrite (Hrecv Hlt' r files Hfiles). cbn [default].
        apply partial_step; lia.
      + replace (Z.of_nat (S k)) with (ranks - 1) by lia.
        symmetry. apply partial_last. lia. }
    rewrite Hsend. apply IH; [exact Hnread|lia|].
    intros _ r files Hfiles.
    pose proof (lookup_lt_Some _ _ _ Hfiles) as Hlt.
    unfold ring_exchange. rewrite !list_lookup_imap, Hfiles.
    rewrite lhs_rank_mod by lia.
    pose proof (mod_in_ring ranks Hranks (Z.of_nat r - 1)) as Hl.
    destruct (lookup_lt_is_Some_2 set
                (Z.to_nat ((Z.of_nat r - 1) mod ranks)) ltac:(lia))
      as [files' Hfiles'].
    rewrite Hfiles'. cbn [fmap option_fmap option_map default].
    rewrite Z2Nat.id by lia.
    replace (Z.of_nat k + 1) with (Z.of_nat (S k)) by lia. reflexivity.
Qed.

Lemma block_count_val nread scr_mpi_buf_size :
  0 <= nread < chunk_size ->
  block_count chunk_size nread scr_mpi_buf_size
  = Z.min (chunk_size - nread) scr_mpi_buf_size.
Proof.
  intros Hnread. unfold block_count.
  rewrite wrap_ulong_id by (unfold in_ulong; nia).
  destruct (Z.gtb_spec (chunk_size - nread) scr_mpi_buf_size); lia.
Qed.

Lemma slot_index_range slot r :
  0 <= slot < ranks -> 0 <= r < ranks -> r <> slot ->
  0 <= slot_index slot r <= ranks - 2.
Proof. intros Hs Hr Hne. unfold slot_index. destruct (Z.ltb_spec slot r); lia. Qed.

Lemma parity_block_take_drop nread count slot :
  0 <= slot < ranks ->
  0 <= nread -> 0 <= count -> nread + count <= chunk_size ->
  parity_block chunk_size set nread count slot
  = take (Z.to_nat count)
      (drop (Z.to_nat nread) (xor_parity chunk_size set slot)).
Proof.
  intros Hslot Hnread Hcount Hle. unfold xor_parity, parity_block.
  rewrite xor_all_take_drop by lia. f_equal.
  rewrite <- list_fmap_compose. apply list_fmap_ext. intros i r Hr. cbn.
  apply list_elem_of_lookup_2, others_spec in Hr as [Hr Hne].
  pose proof (slot_index_range slot r Hslot Hr Hne) as Hidx.
  unfold contribution.
  rewrite (scr_read_pad_n_block _ chunk_size) by nia.
  rewrite Z.add_0_r. reflexivity.
Qed.

Lemma xor_parity_length slot :
  length (xor_parity chunk_size set slot) = Z.to_nat chunk_size.
Proof. apply parity_block_length. Qed.

Lemma reduce_scatter_spec scr_mpi_buf_size (fuel : nat) :
  forall nread chunk_files,
  0 < scr_mpi_buf_size ->
  0 <= nread <= chunk_size ->
  (Z.to_nat (chunk_size - nread) <= fuel)%nat ->
  chunk_files
  = imap (fun r _ =>
            take (Z.to_nat nread) (xor_parity chunk_size set (Z.of_nat r)))
      set ->
  reduce_scatter fuel set ranks chunk_size scr_mpi_buf_size nread chunk_files
  = Some (imap (fun r _ => xor_parity chunk_size set (Z.of_nat r)) set).
Proof.
  induction fuel as [|fuel IH]; intros nread chunk_files Hbuf Hnread Hfuel ->.
  - cbn [reduce_scatter].
    destruct (Z.ltb_spec nread chunk_size) as [Hlt|Hge]; [lia|].
    f_equal. apply imap_ext. intros r _ _.
    apply take_ge. rewrite xor_parity_length. lia.
  - cbn [reduce_scatter].
    destruct (Z.ltb_spec nread chunk_size) as [Hlt|Hge].
    + rewrite block_count_val by lia.
      set (count := Z.min (chunk_size - nread) scr_mpi_buf_size).
      assert (Hcount : 0 < count <= chunk_size - nread)
        by (unfold count; lia).
      clearbody count.
      assert (Hsub : int_sub ranks 1 = ranks - 1).
      { unfold int_sub. apply wrap_int_id. int_range. }
      rewrite Hsub.
      rewrite reduce_scatter_block_spec by lia.
      rewrite wrap_ulong_id by (unfold in_ulong; nia).
      apply IH; [lia|lia|lia|].
      apply list_eq. intros r.
      rewrite lookup_zip_with, !list_lookup_imap.
      destruct (set !! r) as [files|] eqn:Hfiles; [|reflexivity]. cbn.
      pose proof (lookup_lt_Some _ _ _ Hfiles) as Hr.
      rewrite parity_block_take_drop by lia.
      rewrite take_take_drop. do 2 f_equal. lia.
    + f_equal. apply imap_ext. intros r _ _.
      apply take_ge. rewrite xor_parity_length. lia.
Qed.

End Encode.

(** *** The chunk size of a set *)

Lemma sum_filesizes_total files :
  Z.of_nat (length (concat files)) <= ULONG_MAX ->
  sum_filesizes (filesizes files) = Z.of_nat (length (concat files)).
Proof.
  unfold sum_filesizes, filesizes.
  assert (H : forall acc, 0 <= acc ->
    acc + Z.of_nat (length (concat files)) <= ULONG_MAX ->
    fold_left (fun my_bytes s => wrap_ulong (my_bytes + s))
      (map (fun file => Z.of_nat (length file)) files) acc
    = acc + Z.of_nat (length (concat files))).
  { induction files as [|file files IH]; intros acc Hacc Hle; cbn in *.
    - lia.
    - rewrite length_app in Hle.
      rewrite wrap_ulong_id by (unfold in_ulong; lia).
      rewrite IH by lia. rewrite length_app. lia. }
  intros Hle. rewrite H by lia. lia.
Qed.

Lemma total_filesizes files :
  foldr Z.add 0 (filesizes files) = Z.of_nat (length (concat files)).
Proof.
  induction files as [|file files IH]; cbn; [reflexivity|].
  fold (filesizes files). rewrite IH, length_app. lia.
Qed.

Lemma split_files_concat files :
  split_files (filesizes files) (concat files) = files.
Proof.
  induction files as [|file files IH]; cbn; [reflexivity|].
  fold (filesizes files). rewrite Nat2Z.id.
  rewrite take_app_length, drop_app_length, IH. reflexivity.
Qed.

Lemma chunk_size_facts (set : list (list (list Z))) :
  2 <= Z.of_nat (length set) <= INT_MAX ->
  Forall (fun files =>
            Z.of_nat (length (concat files)) + Z.of_nat (length set)
            <= ULONG_MAX) set ->
  let chunk_size :=
    scr_copy_xor_chunk_size
      (map (fun files => sum_filesizes (filesizes files)) set) in
  1 <= chunk_size /\
  chunk_size * (Z.of_nat (length set) - 1) <= ULONG_MAX /\
  Forall (fun files =>
            Z.of_nat (length (concat files))
            <= chunk_size * (Z.of_nat (length set) - 1)) set.
Proof.
  intros Hranks Hall. cbv zeta.
  set (n := Z.of_nat (length set)) in *.
  set (my_bytes := map (fun files => sum_filesizes (filesizes files)) set).
  assert (Hbytes : Forall (fun b => 0 <= b /\ b + n <= ULONG_MAX) my_bytes).
  { apply Forall_fmap. eapply Forall_impl; [exact Hall|].
    intros files Hle. unfold compose. cbv beta in *.
    rewrite sum_filesizes_total; lia. }
  assert (Hin : Forall in_ulong my_bytes).
  { eapply Forall_impl; [exact Hbytes|]. intros b Hb. cbv beta in Hb.
    unfold in_ulong. lia. }
  destruct (allreduce_max_ulong_bounds my_bytes Hin) as (HM & Hub & Hmem).
  unfold scr_copy_xor_chunk_size.
  replace (Z.of_nat (length my_bytes)) with n
    by (unfold my_bytes, n; rewrite length_map; reflexivity).
  set (M := allreduce_max_ulong my_bytes) in *.
  rewrite xor_chunk_size_ceil by (try exact HM; lia).
  assert (HMn : 0 <= M /\ M + n <= ULONG_MAX).
  { assert (Hne : my_bytes <> []).
    { unfold my_bytes. destruct set; [cbn in *; lia|discriminate]. }
    specialize (Hmem Hne).
    rewrite Forall_forall in Hbytes. apply (Hbytes _ Hmem). }
  unfold ceil_div.
  set (b := n - 1) in *. assert (Hb : 1 <= b) by (unfold b; lia).
  set (q := (M + b - 1) / b).
  pose proof (Z.div_mod (M + b - 1) b ltac:(lia)) as Hdm. fold q in Hdm.
  pose proof (Z.mod_pos_bound (M + b - 1) b ltac:(lia)) as Hmod.
  assert (Hq : 0 <= q) by (apply Z.div_pos; lia).
  split; [lia|]. split; [nia|].
  apply Forall_forall. intros files Hfiles.
  assert (Hle : Z.of_nat (length (concat files)) <= M).
  { rewrite Forall_forall in Hall. specialize (Hall files Hfiles).
    cbv beta in Hall.
    rewrite <- (sum_filesizes_total files) by lia.
    apply Hub. unfold my_bytes. apply list_elem_of_fmap.
    exists files. split; [reflexivity|exact Hfiles]. }
  nia.
Qed.

Lemma scr_copy_xor_spec scr_mpi_buf_size (set : list (list (list Z))) :
  2 <= Z.of_nat (length set) -> 3 * Z.of_nat (length set) <= INT_MAX ->
  0 < scr_mpi_buf_size ->
  Forall (fun files =>
            Z.of_nat (length (concat files)) + Z.of_nat (length set)
            <= ULONG_MAX) set ->
  let chunk_size :=
    scr_copy_xor_chunk_size
      (map (fun files => sum_filesizes (filesizes files)) set) in
  scr_copy_xor scr_mpi_buf_size set
  = Some (imap (fun r _ => xor_file_of chunk_size set (Z.of_nat r)) set).
Proof.
  intros Hranks Hint Hbuf Hall. cbv zeta.
  destruct (chunk_size_facts set) as (Hchunk & Hfit & _);
    [unfold INT_MAX in *; lia|exact Hall|].
  unfold scr_copy_xor.
  set (chunk_size := scr_copy_xor_chunk_size _) in *.
  rewrite (reduce_scatter_spec set chunk_size Hranks Hint Hchunk Hfit);
    [|exact Hbuf|lia|lia|].
  - cbn. f_equal. apply list_eq. intros r.
    rewrite !list_lookup_imap.
    destruct (set !! r) as [files|] eqn:Hfiles; [|reflexivity]. cbn.
    pose proof (lookup_lt_Some _ _ _ Hfiles) as Hr.
    rewrite lhs_rank_mod by lia. unfold xor_file_of.
    rewrite Nat2Z.id, Hfiles. reflexivity.
  - apply list_eq. intros r.
    rewrite list_lookup_fmap, list_lookup_imap.
    destruct (set !! r); reflexivity.
Qed.

Lemma scr_write_pad_n_spec files offset count :
  0 <= offset -> 0 < count ->
  scr_write_pad_n (filesizes files)
    (take (Z.to_nat offset) (concat files))
    (scr_read_pad_n files count offset) count offset
  = take (Z.to_nat (offset + count)) (concat files).
Proof.
  intros Hoff Hcount. unfold scr_write_pad_n, scr_read_pad_n. cbv zeta.
  rewrite total_filesizes. set (data := concat files).
  destruct (Z.le_gt_cases (Z.of_nat (length data)) offset) as [Hge|Hlt].
  - replace (Z.to_nat (Z.min count (Z.of_nat (length data) - offset)))
      with 0%nat by lia.
    rewrite take_0. rewrite !take_ge by lia. reflexivity.
  - set (m := Z.to_nat (Z.min count (Z.of_nat (length data) - offset))).
    assert (Hm : (1 <= m <= Z.to_nat count)%nat /\
                 (Z.to_nat offset + m <= length data)%nat)
      by (unfold m; lia).
    rewrite take_take, Nat.min_l by lia.
    rewrite take_app_le by (rewrite length_drop; lia).
    destruct (take m (drop (Z.to_nat offset) data)) as [|z inside] eqn:Hin.
    { apply (f_equal length) in Hin.
      rewrite length_take, length_drop in Hin. cbn in Hin. lia. }
    rewrite <- Hin. rewrite !length_take, length_drop.
    replace (Z.to_nat offset - Z.to_nat offset `min` length data)%nat
      with 0%nat by lia.
    cbn [replicate]. rewrite app_nil_r, take_take, Nat.min_id.
    rewrite (drop_ge (take _ _)) by (rewrite length_take; lia).
    rewrite app_nil_r, take_take_drop.
    destruct (decide (m = Z.to_nat count)) as [->|Hne].
    + f_equal. lia.
    + rewrite !take_ge by (unfold m in *; lia). reflexivity.
Qed.

(** *** The pipeline of [scr_rebuild_xor] *)

Section Rebuild.
Variable set : list (list (list Z)).
Variable chunk_size scr_mpi_buf_size root : Z.
Variable members : list survivor.
Local Abbreviation ranks := (Z.of_nat (length set)).
Hypothesis Hranks : 2 <= ranks.
Hypothesis Hint : 3 * ranks <= INT_MAX.
Hypothesis Hchunk : 1 <= chunk_size.
Hypothesis Hfit : chunk_size * (ranks - 1) <= ULONG_MAX.
Hypothesis Hbuf : 0 < scr_mpi_buf_size.
Hypothesis Hroot : 0 <= root < ranks.
Hypothesis Hmembers : forall r, 0 <= r < ranks -> r <> root ->
  exists m, members !! Z.to_nat r = Some m /\
    sv_files m = default [] (set !! Z.to_nat r) /\
    xf_payload (sv_xor m) = xor_parity chunk_size set r /\
    hdr_chunk_size (xf_header (sv_xor m)) = chunk_size.

(** What a member other than the root reads for the block at [nread] of
    [chunk_id]. *)
Local Abbreviation reads chunk_id nread count :=
  (fun r : Z =>
     if chunk_id =? r
     then take (Z.to_nat count)
            (drop (Z.to_nat nread) (xor_parity chunk_size set r))
     else contribution chunk_size set nread count chunk_id r).

Lemma reads_length chunk_id nread count r :
  0 <= nread -> 0 <= count -> nread + count <= chunk_size ->
  length (reads chunk_id nread count r) = Z.to_nat count.
Proof.
  intros Hnread Hcount Hle. cbv beta. destruct (chunk_id =? r).
  - rewrite length_take, length_drop, xor_parity_length. lia.
  - apply contribution_length.
Qed.

Lemma rebuild_read_spec r chunk_id nread count m :
  0 <= r < ranks -> 0 <= chunk_id < ranks ->
  0 <= nread -> 0 <= count -> nread + count <= chunk_size ->
  sv_files m = default [] (set !! Z.to_nat r) ->
  xf_payload (sv_xor m) = xor_parity chunk_size set r ->
  rebuild_read r chunk_id count m (read_pos_at chunk_size chunk_id nread r)
  = (reads chunk_id nread count r,
     read_pos_at chunk_size chunk_id (nread + count) r).
Proof.
  intros Hr Hc Hnread Hcount Hle Hfiles Hpayload.
  unfold rebuild_read, read_pos_at. cbn [rd_offset rd_chunk].
  destruct (Z.eqb_spec chunk_id r) as [->|Hne]; cbn [negb].
  - rewrite Hpayload, Z.ltb_irrefl, Z.leb_refl. reflexivity.
  - rewrite Hfiles. unfold contribution, slot_index.
    destruct (Z.leb_spec chunk_id r), (Z.ltb_spec chunk_id r),
      (Z.ltb_spec r chunk_id); try lia.
    + rewrite wrap_ulong_id by (unfold in_ulong; nia).
      do 2 f_equal. lia.
    + rewrite wrap_ulong_id by (unfold in_ulong; nia).
      do 2 f_equal. lia.
Qed.

Lemma read_pos_at_next chunk_id r :
  read_pos_at chunk_size chunk_id chunk_size r
  = read_pos_at chunk_size (chunk_id + 1) 0 r.
Proof.
  unfold read_pos_at.
  destruct (Z.leb_spec chunk_id r), (Z.leb_spec (chunk_id + 1) r),
    (Z.eqb_spec chunk_id r), (Z.eqb_spec (chunk_id + 1) r),
    (Z.ltb_spec r chunk_id), (Z.ltb_spec r (chunk_id + 1));
    try lia; f_equal; lia.
Qed.

(** The members in the order of the pipeline, from the right partner of
    the root on. *)
Local Abbreviation chain j :=
  (map (fun i => (root + 1 + i) mod ranks) (seqZ 0 j)).

Lemma chain_index r :
  0 <= r < ranks -> r <> root ->
  0 <= (r - root - 1) mod ranks < ranks - 1 /\
  (root + 1 + (r - root - 1) mod ranks) mod ranks = r.
Proof.
  intros Hr Hne. rewrite Zplus_mod_idemp_r.
  replace (root + 1 + (r - root - 1)) with r by lia.
  rewrite (Z.mod_small r) by lia. split; [|reflexivity].
  rewrite mod_cases by lia.
  destruct (Z.ltb_spec (r - root - 1) 0); [lia|].
  destruct (Z.ltb_spec (r - root - 1) ranks); lia.
Qed.

Lemma chain_member j :
  0 <= j < ranks - 1 ->
  0 <= (root + 1 + j) mod ranks < ranks /\
  (root + 1 + j) mod ranks <> root /\
  ((root + 1 + j) mod ranks - root - 1) mod ranks = j.
Proof.
  intros Hj. split; [apply mod_in_ring; lia|]. split.
  - rewrite mod_cases by lia.
    destruct (Z.ltb_spec (root + 1 + j) 0); [lia|].
    destruct (Z.ltb_spec (root + 1 + j) ranks); lia.
  - replace ((root + 1 + j) mod ranks - root - 1)
      with ((root + 1 + j) mod ranks - (root + 1)) by lia.
    rewrite Zminus_mod_idemp_l.
    replace (root + 1 + j - (root + 1)) with j by lia.
    apply Z.mod_small. lia.
Qed.

Lemma rebuild_pipeline_spec chunk_id nread count (hops : nat) :
  forall j recv_buf positions,
  0 <= chunk_id < ranks -> 0 <= nread < chunk_size ->
  count = Z.min (chunk_size - nread) scr_mpi_buf_size ->
  0 <= j -> j + Z.of_nat hops = ranks - 1 ->
  (forall r, 0 <= r < ranks -> r <> root ->
     positions !! Z.to_nat r
     = Some (read_pos_at chunk_size chunk_id
               (if (r - root - 1) mod ranks <? j then nread + count
                else nread) r)) ->
  (0 < j ->
   recv_buf = xor_all (Z.to_nat count)
                (map (reads chunk_id nread count) (rev (chain j)))) ->
  exists positions',
    rebuild_pipeline members ranks root scr_mpi_buf_size chunk_id nread
      hops ((root + 1 + j) mod ranks) recv_buf positions
    = (xor_all (Z.to_nat count)
         (map (reads chunk_id nread count) (rev (chain (ranks - 1)))),
       positions') /\
    forall r, 0 <= r < ranks -> r <> root ->
      positions' !! Z.to_nat r
      = Some (read_pos_at chunk_size chunk_id (nread + count) r).
Proof.
  induction hops as [|hops IH];
    intros j recv_buf positions Hc Hnread Hcount Hj Hhops Hpos Hrecv.
  - cbn [rebuild_pipeline]. exists positions. split.
    + rewrite Hrecv by lia. replace j with (ranks - 1) by lia. reflexivity.
    + intros r Hr Hne. rewrite (Hpos r Hr Hne).
      destruct (chain_index r Hr Hne) as [Hidx _].
      destruct (Z.ltb_spec ((r - root - 1) mod ranks) j); [reflexivity|lia].
  - cbn [rebuild_pipeline].
    destruct (chain_member j ltac:(lia)) as (Ha & Hne & Hidx).
    set (a := (root + 1 + j) mod ranks) in *.
    destruct (Hmembers a Ha Hne) as (m & Hm & Hfiles & Hpayload & Hsize).
    rewrite Hm, (Hpos a Ha Hne), Hidx, Z.ltb_irrefl, Hsize.
    rewrite (block_count_val set chunk_size) by (assumption || lia).
    rewrite <- Hcount.
    assert (Hcnt : 0 < count /\ nread + count <= chunk_size) by lia.
    rewrite (rebuild_read_spec a chunk_id nread count m)
      by (assumption || lia).
    rewrite lhs_rank_mod, rhs_rank_mod by lia.
    assert (Hnext : (a + 1) mod ranks = (root + 1 + (j + 1)) mod ranks).
    { unfold a. rewrite Zplus_mod_idemp_l. f_equal. lia. }
    rewrite Hnext.
    assert (Hprev : (a - 1) mod ranks = (root + j) mod ranks).
    { unfold a. rewrite Zminus_mod_idemp_l. f_equal. lia. }
    rewrite Hprev.
    apply IH; [exact Hc|exact Hnread|exact Hcount|lia|lia| |].
    + intros r Hr Hner.
      destruct (chain_index r Hr Hner) as [Hridx Hrback].
      destruct (decide (r = a)) as [Hra|Hra].
      * rewrite Hra. rewrite list_lookup_insert_eq
          by (apply lookup_lt_is_Some_1; rewrite (Hpos a Ha Hne); eauto).
        rewrite Hidx. destruct (Z.ltb_spec j (j + 1)); [reflexivity|lia].
      * rewrite list_lookup_insert_ne by lia.
        rewrite (Hpos r Hr Hner).
        assert (Hrj : (r - root - 1) mod ranks <> j).
        { intros Heq. apply Hra. rewrite <- Hrback, Heq. reflexivity. }
        destruct (Z.ltb_spec ((r - root - 1) mod ranks) j),
          (Z.ltb_spec ((r - root - 1) mod ranks) (j + 1));
          try lia; reflexivity.
    + intros _. rewrite (walk_up_snoc ranks (root + 1) j) by lia.
      rewrite rev_app_distr. cbn [rev app map].
      replace (root + 1 + j) with (root + 1 + j) by lia. fold a.
      destruct (Z.eqb_spec root ((root + j) mod ranks)) as [Heq|Hneq];
        cbn [negb].
      * assert (j = 0).
        { rewrite mod_cases in Heq by lia.
          destruct (Z.ltb_spec (root + j) 0); [lia|].
          destruct (Z.ltb_spec (root + j) ranks); lia. }
        rewrite (seqZ_nil 0 j) by lia. cbn [map rev].
        symmetry. apply xor_all_singleton.
        apply reads_length; lia.
      * assert (0 < j).
        { destruct (decide (j = 0)) as [Hj0|]; [|lia].
          rewrite Hj0, Z.add_0_r, Z.mod_small in Hneq by lia. congruence. }
        rewrite (Hrecv ltac:(lia)). reflexivity.
Qed.

(** What reaches the root: the parity of the root for its own chunk id,
    and for any other chunk id the bytes of the root's own logical
    file. *)
Lemma pipeline_value chunk_id nread count :
  0 <= chunk_id < ranks ->
  0 <= nread -> 0 <= count -> nread + count <= chunk_size ->
  xor_all (Z.to_nat count)
    (map (reads chunk_id nread count) (rev (chain (ranks - 1))))
  = if chunk_id =? root
    then take (Z.to_nat count)
           (drop (Z.to_nat nread) (xor_parity chunk_size set root))
    else contribution chunk_size set nread count chunk_id root.
Proof.
  intros Hc Hnread Hcount Hle.
  rewrite (xor_all_Permutation _ _
             (map (reads chunk_id nread count) (others ranks root))).
  2:{ apply fmap_Permutation. rewrite <- Permutation_rev.
      apply walk_up_others; lia. }
  destruct (Z.eqb_spec chunk_id root) as [->|Hne].
  - rewrite <- (parity_block_take_drop set chunk_size)
      by (assumption || lia).
    unfold parity_block. f_equal.
    apply list_fmap_ext. intros i r Hr.
    apply list_elem_of_lookup_2, others_spec in Hr as [Hr Hrne].
    destruct (Z.eqb_spec root r); [lia|reflexivity].
  - set (rest := List.filter (fun r => negb (r =? root))
                   (others ranks chunk_id)).
    assert (Hnd : NoDup rest).
    { apply NoDup_ListNoDup, List.NoDup_filter, NoDup_ListNoDup.
      apply others_NoDup. }
    assert (Hrest : forall r,
      r ∈ rest <-> 0 <= r < ranks /\ r <> chunk_id /\ r <> root).
    { intros r. unfold rest.
      rewrite list_elem_of_In, List.filter_In, <- list_elem_of_In.
      rewrite others_spec, negb_true_iff, Z.eqb_neq by lia. lia. }
    rewrite (xor_all_Permutation _ _
               (map (reads chunk_id nread count) (chunk_id :: rest))).
    2:{ apply fmap_Permutation, others_split; [lia|lia|exact Hnd|].
        intros r. rewrite Hrest. lia. }
    cbn [map foldr xor_all]. rewrite Z.eqb_refl.
    rewrite <- (parity_block_take_drop set chunk_size)
      by (assumption || lia).
    unfold parity_block at 1.
    rewrite (xor_all_Permutation _ _
               (map (contribution chunk_size set nread count chunk_id)
                  (root :: rest))).
    2:{ apply fmap_Permutation, others_split; [lia|lia|exact Hnd|].
        exact Hrest. }
    cbn [map foldr xor_all].
    assert (Hmap : map (reads chunk_id nread count) rest
                   = map (contribution chunk_size set nread count chunk_id)
                       rest).
    { apply list_fmap_ext. intros i r Hr.
      apply list_elem_of_lookup_2, Hrest in Hr.
      destruct (Z.eqb_spec chunk_id r); [lia|reflexivity]. }
    rewrite Hmap. apply xor_into_cancel.
    rewrite contribution_length.
    symmetry. apply xor_all_length, contributions_length.
Qed.

Lemma rebuild_write_spec chunk_id nread count :
  0 <= chunk_id < ranks ->
  0 <= nread -> 0 < count -> nread + count <= chunk_size ->
  rebuild_write (filesizes (default [] (set !! Z.to_nat root))) root
    chunk_id count
    (if chunk_id =? root
     then take (Z.to_nat count)
            (drop (Z.to_nat nread) (xor_parity chunk_size set root))
     else contribution chunk_size set nread count chunk_id root)
    (root_state_at chunk_size set root chunk_id nread)
  = root_state_at chunk_size set root chunk_id (nread + count).
Proof.
  intros Hc Hnread Hcount Hle.
  unfold rebuild_write, root_state_at, read_pos_at.
  cbn [rt_logical rt_offset rt_payload rd_offset rd_chunk].
  destruct (Z.eqb_spec chunk_id root) as [->|Hne]; cbn [negb].
  - rewrite Z.ltb_irrefl. rewrite take_take_drop.
    do 3 f_equal. lia.
  - unfold contribution, slot_index.
    destruct (Z.leb_spec chunk_id root), (Z.ltb_spec chunk_id root),
      (Z.ltb_spec root chunk_id); try lia.
    + rewrite scr_write_pad_n_spec by nia.
      rewrite wrap_ulong_id by (unfold in_ulong; nia).
      f_equal; [f_equal|]; lia.
    + rewrite scr_write_pad_n_spec by nia.
      rewrite wrap_ulong_id by (unfold in_ulong; nia).
      f_equal; [f_equal|]; lia.
Qed.

Lemma rebuild_chunk_spec chunk_id (fuel : nat) :
  forall nread positions,
  0 <= chunk_id < ranks -> 0 <= nread <= chunk_size ->
  (Z.to_nat (chunk_size - nread) <= fuel)%nat ->
  (forall r, 0 <= r < ranks -> r <> root ->
     positions !! Z.to_nat r
     = Some (read_pos_at chunk_size chunk_id nread r)) ->
  exists positions',
    rebuild_chunk fuel members
      (filesizes (default [] (set !! Z.to_nat root))) ranks root chunk_size
      scr_mpi_buf_size chunk_id nread positions
      (root_state_at chunk_size set root chunk_id nread)
    = Some (positions',
            root_state_at chunk_size set root chunk_id chunk_size) /\
    forall r, 0 <= r < ranks -> r <> root ->
      positions' !! Z.to_nat r
      = Some (read_pos_at chunk_size chunk_id chunk_size r).
Proof.
  induction fuel as [|fuel IH]; intros nread positions Hc Hnread Hfuel Hpos;
    cbn [rebuild_chunk];
    destruct (Z.ltb_spec nread chunk_size) as [Hlt|Hge]; try lia.
  - replace nread with chunk_size in * by lia. eauto.
  - rewrite (block_count_val set chunk_size) by (assumption || lia).
    set (count := Z.min (chunk_size - nread) scr_mpi_buf_size).
    assert (Hcount : 0 < count /\ nread + count <= chunk_size)
      by (unfold count; lia).
    rewrite rhs_rank_mod by lia.
    replace (root + 1) with (root + 1 + 0) by lia.
    destruct (rebuild_pipeline_spec chunk_id nread count
                (Z.to_nat (ranks - 1)) 0 [] positions)
      as (positions' & Hpipe & Hpos');
      [lia|lia|reflexivity|lia|lia| |lia|].
    { intros r Hr Hne. rewrite (Hpos r Hr Hne).
      destruct (chain_index r Hr Hne) as [Hidx _].
      destruct (Z.ltb_spec ((r - root - 1) mod ranks) 0);
        [lia|reflexivity]. }
    fold count. rewrite Hpipe.
    rewrite pipeline_value by lia.
    rewrite rebuild_write_spec by lia.
    rewrite wrap_ulong_id by (unfold in_ulong; nia).
    apply IH; [lia|lia|lia|exact Hpos'].
  - replace nread with chunk_size in * by lia. eauto.
Qed.

Lemma rebuild_chunks_spec (todo : nat) :
  forall chunk_id positions,
  0 <= chunk_id -> chunk_id + Z.of_nat todo = ranks ->
  (forall r, 0 <= r < ranks -> r <> root ->
     positions !! Z.to_nat r = Some (read_pos_at chunk_size chunk_id 0 r)) ->
  rebuild_chunks todo members
    (filesizes (default [] (set !! Z.to_nat root))) ranks root chunk_size
    scr_mpi_buf_size chunk_id positions
    (root_state_at chunk_size set root chunk_id 0)
  = Some (root_state_at chunk_size set root ranks 0).
Proof.
  induction todo as [|todo IH]; intros chunk_id positions Hc Htodo Hpos;
    cbn [rebuild_chunks].
  - replace chunk_id with ranks by lia. reflexivity.
  - destruct (rebuild_chunk_spec chunk_id (Z.to_nat chunk_size) 0 positions)
      as (positions' & Hchunk' & Hpos'); [lia|lia|lia|exact Hpos|].
    rewrite Hchunk'. cbn [mbind option_bind].
    assert (Hnext : int_add chunk_id 1 = chunk_id + 1).
    { unfold int_add. apply wrap_int_id. int_range. }
    rewrite Hnext.
    assert (Hstate : root_state_at chunk_size set root chunk_id chunk_size
                     = root_state_at chunk_size set root (chunk_id + 1) 0).
    { unfold root_state_at. rewrite read_pos_at_next. reflexivity. }
    rewrite Hstate. apply IH; [lia|lia|].
    intros r Hr Hne. rewrite (Hpos' r Hr Hne), read_pos_at_next.
    reflexivity.
Qed.

End Rebuild.

(** *** The parity byte by byte *)

Lemma xor_all_lookup count bufs (p : nat) :
  Forall (fun buf => length buf = count) bufs -> (p < count)%nat ->
  xor_all count bufs !! p
  = Some (foldr Z.lxor 0 (map (fun buf => nth p buf 0) bufs)).
Proof.
  intros Hall Hp. induction Hall as [|buf bufs Hbuf _ IH]; cbn.
  - apply lookup_replicate_2. exact Hp.
  - fold (xor_all count bufs). unfold xor_into.
    rewrite lookup_zip_with, IH.
    destruct (lookup_lt_is_Some_2 buf p ltac:(lia)) as [x Hx].
    rewrite Hx, (nth_lookup_Some _ _ _ _ Hx). reflexivity.
Qed.

Lemma scr_read_pad_n_nth files count offset (p : nat) :
  0 <= offset -> (p < Z.to_nat count)%nat ->
  nth p (scr_read_pad_n files count offset) 0
  = padded_byte files (offset + Z.of_nat p).
Proof.
  intros Hoff Hp. unfold scr_read_pad_n, padded_byte.
  rewrite !nth_lookup, lookup_take, decide_True by lia.
  replace (Z.to_nat (offset + Z.of_nat p)) with (Z.to_nat offset + p)%nat
    by lia.
  destruct (decide (Z.to_nat offset + p < length (concat files))%nat).
  - rewrite lookup_app_l by (rewrite length_drop; lia).
    rewrite lookup_drop. reflexivity.
  - rewrite lookup_app_r by (rewrite length_drop; lia).
    rewrite lookup_replicate_2 by (rewrite length_drop; lia).
    rewrite lookup_ge_None_2 by lia. reflexivity.
Qed.

Lemma xor_parity_lookup (set : list (list (list Z))) chunk_size slot p :
  0 <= slot < Z.of_nat (length set) -> 0 <= p < chunk_size ->
  xor_parity chunk_size set slot !! Z.to_nat p
  = Some (parity_byte chunk_size set slot p).
Proof.
  intros Hslot Hp. unfold xor_parity, parity_block, parity_byte.
  rewrite xor_all_lookup by (try apply contributions_length; lia).
  do 2 f_equal. rewrite <- list_fmap_compose.
  apply list_fmap_ext. intros i r Hr. cbn.
  apply list_elem_of_lookup_2, others_spec in Hr as [Hr Hne].
  unfold contribution.
  assert (Hidx : 0 <= slot_index slot r).
  { unfold slot_index. destruct (Z.ltb_spec slot r); lia. }
  rewrite scr_read_pad_n_nth by nia.
  f_equal. lia.
Qed.

Lemma total_bytes_map (set : list (list (list Z))) :
  Forall (fun files =>
            Z.of_nat (length (concat files)) + Z.of_nat (length set)
            <= ULONG_MAX) set ->
  map (fun files => sum_filesizes (filesizes files)) set
  = map (fun files => Z.of_nat (length (concat files))) set.
Proof.
  intros Hall. apply list_fmap_ext. intros i files Hfiles.
  rewrite Forall_forall in Hall.
  specialize (Hall files (list_elem_of_lookup_2 _ _ _ Hfiles)).
  cbv beta in Hall. apply sum_filesizes_total. lia.
Qed.

Lemma after_loss_lookup (set : list (list (list Z))) chunk_size root lost
    (r : nat) :
  (r < length set)%nat -> r <> root ->
  after_loss set
    (imap (fun r _ => xor_file_of chunk_size set (Z.of_nat r)) set)
    root lost !! r
  = Some {| sv_files := default [] (set !! r);
            sv_xor := xor_file_of chunk_size set (Z.of_nat r) |}.
Proof.
  intros Hr Hne. unfold after_loss.
  rewrite list_lookup_insert_ne by lia.
  rewrite lookup_zip_with, list_lookup_imap.
  destruct (lookup_lt_is_Some_2 set r Hr) as [files Hfiles].
  rewrite Hfiles. reflexivity.
Qed.

(** X17.  When the members of an XOR set of at least two processes run
    [scr_copy_xor], every member writes an XOR file whose header records
    the chunk size of the set, the sizes of its own files and the sizes of
    the files of its left partner, and whose payload has exactly
    [chunk_size] bytes: the byte at [p] is the XOR, over all the other
    members, of the byte at [p] of the chunk that the other member
    contributes, read from its zero-padded logical file.  A member splits
    its logical file into one chunk per other member, in the order of
    their ranks.  The reduce-scatter loop finishes for every buffer size
    of at least one byte. *)
Theorem scr_copy_xor_parity scr_mpi_buf_size (set : list (list (list Z))) :
  (2 <= length set)%nat ->
  3 * Z.of_nat (length set) <= INT_MAX ->
  0 < scr_mpi_buf_size <= INT_MAX ->
  Forall (fun files =>
            Z.of_nat (length (concat files)) + Z.of_nat (length set)
            <= ULONG_MAX) set ->
  let chunk_size :=
    scr_copy_xor_chunk_size
      (map (fun files => Z.of_nat (length (concat files))) set) in
  exists xors,
    scr_copy_xor scr_mpi_buf_size set = Some xors /\
    length xors = length set /\
    forall (r : nat) files, set !! r = Some files ->
      exists xor, xors !! r = Some xor /\
        hdr_chunk_size (xf_header xor) = chunk_size /\
        hdr_current (xf_header xor) = filesizes files /\
        hdr_partner (xf_header xor)
        = filesizes
            (default []
               (set !! Z.to_nat
                         ((Z.of_nat r - 1) mod Z.of_nat (length set)))) /\
        length (xf_payload xor) = Z.to_nat chunk_size /\
        forall p, 0 <= p < chunk_size ->
          xf_payload xor !! Z.to_nat p
          = Some (parity_byte chunk_size set (Z.of_nat r) p).
Proof.
  intros Hranks Hint Hbuf Hall. cbv zeta.
  rewrite <- (total_bytes_map set Hall).
  destruct (chunk_size_facts set) as (Hchunk & Hfit & _);
    [unfold INT_MAX in *; lia|exact Hall|].
  eexists. split; [apply scr_copy_xor_spec; (assumption || lia)|].
  split; [apply length_imap|].
  intros r files Hfiles. rewrite list_lookup_imap, Hfiles.
  pose proof (lookup_lt_Some _ _ _ Hfiles) as Hr.
  eexists. split; [reflexivity|]. unfold xor_file_of.
  cbn [xf_header xf_payload hdr_chunk_size hdr_current hdr_partner].
  rewrite Nat2Z.id, Hfiles. split; [reflexivity|].
  split; [reflexivity|]. split; [reflexivity|].
  split; [apply xor_parity_length|].
  intros p Hp. apply xor_parity_lookup; lia.
Qed.

Lemma scr_copy_xor_parity_witness :
  exists xors,
    scr_copy_xor 2 sample_xor_set = Some xors /\
    length xors = 3%nat /\
    forall (r : nat) files, sample_xor_set !! r = Some files ->
      exists xor, xors !! r = Some xor /\
        hdr_chunk_size (xf_header xor) = 3 /\
        hdr_current (xf_header xor) = filesizes files /\
        hdr_partner (xf_header xor)
        = filesizes
            (default []
               (sample_xor_set !! Z.to_nat ((Z.of_nat r - 1) mod 3))) /\
        length (xf_payload xor) = 3%nat /\
        forall p, 0 <= p < 3 ->
          xf_payload xor !! Z.to_nat p
          = Some (parity_byte 3 sample_xor_set (Z.of_nat r) p).
Proof.
  apply (scr_copy_xor_parity 2 sample_xor_set).
  - cbn. lia.
  - unfold INT_MAX. cbn. lia.
  - unfold INT_MAX. lia.
  - repeat constructor; unfold ULONG_MAX; cbn; lia.
Defined.

(** X18.  The XOR scheme restores a lost member.  Let the members of an
    XOR set of at least two processes encode their files with
    [scr_copy_xor], and let any one member then lose its files and its XOR
    file.  [scr_rebuild_xor], run by the set with that member as the root,
    finishes and writes on the root exactly the files that the member held
    at the encoding, with their sizes and contents, and exactly the XOR
    file that the member had written, header and payload.  What is left
    on the node of the root is not read, and the buffer sizes of the two
    runs need not agree. *)
Theorem scr_rebuild_xor_restores scr_mpi_buf_size rebuild_buf_size
    (set : list (list (list Z))) (root : nat) (lost : survivor) :
  (2 <= length set)%nat ->
  3 * Z.of_nat (length set) <= INT_MAX ->
  0 < scr_mpi_buf_size <= INT_MAX ->
  0 < rebuild_buf_size <= INT_MAX ->
  Forall (fun files =>
            Z.of_nat (length (concat files)) + Z.of_nat (length set)
            <= ULONG_MAX) set ->
  (root < length set)%nat ->
  exists xors files xor,
    scr_copy_xor scr_mpi_buf_size set = Some xors /\
    set !! root = Some files /\
    xors !! root = Some xor /\
    scr_rebuild_xor rebuild_buf_size (after_loss set xors root lost)
      (Z.of_nat root)
    = Some (files, xor).
Proof.
  intros Hranks Hint Hbuf Hbuf' Hall Hroot.
  destruct (chunk_size_facts set) as (Hchunk & Hfit & Hsizes);
    [unfold INT_MAX in *; lia|exact Hall|].
  set (chunk_size :=
         scr_copy_xor_chunk_size
           (map (fun files => sum_filesizes (filesizes files)) set)) in *.
  set (n := Z.of_nat (length set)) in *.
  destruct (lookup_lt_is_Some_2 set root Hroot) as [files Hfiles].
  exists (imap (fun r _ => xor_file_of chunk_size set (Z.of_nat r)) set),
    files, (xor_file_of chunk_size set (Z.of_nat root)).
  split; [apply scr_copy_xor_spec; (assumption || lia)|].
  split; [exact Hfiles|].
  split; [rewrite list_lookup_imap, Hfiles; reflexivity|].
  set (members := after_loss set _ root lost).
  assert (Hlen : length members = length set).
  { unfold members, after_loss.
    rewrite length_insert, length_zip_with, length_imap. lia. }
  assert (Hmembers : forall r, 0 <= r < n -> r <> Z.of_nat root ->
    members !! Z.to_nat r
    = Some {| sv_files := default [] (set !! Z.to_nat r);
              sv_xor := xor_file_of chunk_size set r |}).
  { intros r Hr Hne. unfold members.
    rewrite after_loss_lookup by lia. rewrite Z2Nat.id by lia.
    reflexivity. }
  unfold scr_rebuild_xor. rewrite Hlen. fold n.
  rewrite rhs_rank_mod, lhs_rank_mod by lia.
  assert (Hrhs : 0 <= (Z.of_nat root + 1) mod n < n /\
                 (Z.of_nat root + 1) mod n <> Z.of_nat root /\
                 ((Z.of_nat root + 1) mod n - 1) mod n = Z.of_nat root).
  { rewrite Zminus_mod_idemp_l.
    replace (Z.of_nat root + 1 - 1) with (Z.of_nat root) by lia.
    rewrite (Z.mod_small (Z.of_nat root)) by lia.
    rewrite mod_cases by lia.
    destruct (Z.ltb_spec (Z.of_nat root + 1) 0); [lia|].
    destruct (Z.ltb_spec (Z.of_nat root + 1) n); lia. }
  assert (Hlhs : 0 <= (Z.of_nat root - 1) mod n < n /\
                 (Z.of_nat root - 1) mod n <> Z.of_nat root).
  { rewrite mod_cases by lia.
    destruct (Z.ltb_spec (Z.of_nat root - 1) 0); [lia|].
    destruct (Z.ltb_spec (Z.of_nat root - 1) n); lia. }
  destruct Hrhs as (Hrhs & Hrhs_ne & Hback).
  destruct Hlhs as (Hlhs & Hlhs_ne).
  rewrite (Hmembers _ Hrhs Hrhs_ne), (Hmembers _ Hlhs Hlhs_ne).
  cbn [mbind option_bind sv_xor xor_file_of xf_header hdr_chunk_size
       hdr_current hdr_partner].
  fold n. rewrite Hback, Nat2Z.id, Hfiles. cbn [default].
  assert (Hstart :
    {| rt_logical := []; rt_offset := 0; rt_payload := [] |}
    = root_state_at chunk_size set (Z.of_nat root) 0 0).
  { unfold root_state_at, read_pos_at. cbn [rd_offset rd_chunk].
    destruct (Z.leb_spec 0 (Z.of_nat root)); [|lia].
    destruct (Z.ltb_spec (Z.of_nat root) 0); [lia|].
    destruct (Z.eqb_spec 0 (Z.of_nat root));
      rewrite Z.mul_0_r; reflexivity. }
  rewrite Hstart.
  replace files with (default [] (set !! Z.to_nat (Z.of_nat root))) at 1
    by (rewrite Nat2Z.id, Hfiles; reflexivity).
  rewrite (rebuild_chunks_spec set chunk_size rebuild_buf_size
             (Z.of_nat root) members);
    try (assumption || lia).
  - cbn [mbind option_bind]. unfold root_state_at, read_pos_at.
    cbn [rt_logical rt_payload rd_offset rd_chunk]. fold n.
    destruct (Z.leb_spec n (Z.of_nat root)); [lia|].
    destruct (Z.ltb_spec (Z.of_nat root) n); [|lia].
    destruct (Z.eqb_spec n (Z.of_nat root)); [lia|].
    rewrite Nat2Z.id, Hfiles. cbn [default from_option id].
    rewrite Forall_forall in Hsizes.
    specialize (Hsizes files (list_elem_of_lookup_2 _ _ _ Hfiles)).
    cbv beta in Hsizes.
    rewrite (take_ge (concat files)) by lia.
    rewrite take_ge by (rewrite xor_parity_length; lia).
    rewrite split_files_concat. unfold xor_file_of.
    rewrite Nat2Z.id, Hfiles. reflexivity.
  - intros r Hr Hne. rewrite (Hmembers r Hr Hne). eauto.
  - intros r Hr Hne. rewrite list_lookup_fmap, (Hmembers r Hr Hne).
    cbn [fmap option_fmap option_map]. f_equal.
    unfold read_pos_at.
    destruct (Z.leb_spec 0 r); [|lia].
    destruct (Z.ltb_spec r 0); [lia|].
    destruct (Z.eqb_spec 0 r); rewrite Z.mul_0_r; reflexivity.
Qed.

Lemma scr_rebuild_xor_restores_witness :
  exists xors files xor,
    scr_copy_xor 2 sample_xor_set = Some xors /\
    sample_xor_set !! 1%nat = Some files /\
    xors !! 1%nat = Some xor /\
    scr_rebuild_xor 1 (after_loss sample_xor_set xors 1 sample_lost) 1
    = Some (files, xor).
Proof.
  apply (scr_rebuild_xor_restores 2 1 sample_xor_set 1 sample_lost).
  - cbn. lia.
  - unfold INT_MAX. cbn. lia.
  - unfold INT_MAX. lia.
  - unfold INT_MAX. lia.
  - repeat constructor; unfold ULONG_MAX; cbn; lia.
  - cbn. lia.
Defined.

End XorCodeFacts.

(** ** The capacity of the cache *)

Module CapacityFacts.
Import Descriptors FileMap Library CIntFacts LibraryFacts FileFacts
  SessionFacts.

(** The eviction loop removes from the filemap the checkpoints whose
    deletion it records, and no other. *)
Lemma evict_until_room_removes cbase size : forall ckpts st nb fl r st',
  evict_until_room cbase size ckpts st nb fl = Ok r st' ->
  exists deleted,
    trace st' = trace st ++ List.map EvCheckpointDelete deleted /\
    scr_map st'
    = fold_left scr_filemap_remove_checkpoint deleted (scr_map st).
Proof.
  induction ckpts as [|id rest IH]; intros st nb fl r st' Hrun;
    cbn [evict_until_room] in Hrun.
  - inversion Hrun; subst. exists []. rewrite app_nil_r. auto.
  - destruct (nb >=? size);
      [|inversion Hrun; subst; exists []; rewrite app_nil_r; auto].
    destruct (scr_ckptdesc_base_from_filemap _ _ _); [|eauto].
    destruct (strcmp_eq _ _) as [[|]|]; [| eauto | discriminate].
    destruct (negb (truthy (scr_bool_is_flushing st id))).
    + apply IH in Hrun as (deleted & Htr & Hmap). exists (id :: deleted).
      rewrite Htr, Hmap, scr_checkpoint_delete_trace, <- app_assoc.
      split; reflexivity.
    + destruct (fl =? -1); eauto.
Qed.

Lemma fold_remove_lookup deleted : forall (map : scr_filemap) id,
  fold_left scr_filemap_remove_checkpoint deleted map !! id
  = if bool_decide (id ∈ deleted) then None else map !! id.
Proof.
  induction deleted as [|d deleted IH]; intros map id; cbn [fold_left].
  - rewrite bool_decide_eq_false_2 by apply not_elem_of_nil. reflexivity.
  - rewrite IH. unfold scr_filemap_remove_checkpoint.
    destruct (decide (id = d)) as [->|Hne].
    + rewrite lookup_delete_eq.
      rewrite (bool_decide_eq_true_2 (d ∈ d :: deleted)) by left.
      destruct (bool_decide _); reflexivity.
    + rewrite lookup_delete_ne by congruence.
      destruct (bool_decide (id ∈ deleted)) eqn:Hin.
      * apply bool_decide_eq_true in Hin.
        rewrite bool_decide_eq_true_2 by (right; exact Hin). reflexivity.
      * apply bool_decide_eq_false in Hin.
        rewrite bool_decide_eq_false_2; [reflexivity|].
        rewrite elem_of_cons. intros [?|?]; contradiction.
Qed.

Lemma EvCheckpointDelete_inj (l l' : list Z) :
  List.map EvCheckpointDelete l = List.map EvCheckpointDelete l' -> l = l'.
Proof.
  revert l'. induction l as [|x l IH]; intros [|y l'] Heq; cbn in Heq;
    try discriminate; [reflexivity|].
  inversion Heq; subst. f_equal. apply IH. assumption.
Qed.

Lemma in_base_lookup st st' b x :
  cfg st' = cfg st -> scr_map st' !! x = scr_map st !! x ->
  in_base st' b x = in_base st b x.
Proof.
  intros Hc Hm.
  unfold in_base, scr_ckptdesc_base_from_filemap, scr_filemap_get_desc.
  rewrite Hc, Hm. reflexivity.
Qed.

(** Counting: when every checkpoint left at the base is the new one or an
    old one that was not deleted, and a full base lost a checkpoint, the
    base is not over its capacity. *)
Lemma capacity_count (old left deleted : list Z) new size :
  NoDup old -> NoDup left ->
  (forall x, x ∈ left -> x = new \/ (x ∈ old /\ x ∉ deleted)) ->
  Z.of_nat (length old) <= size ->
  (Z.of_nat (length old) = size -> exists d, d ∈ deleted /\ d ∈ old) ->
  Z.of_nat (length left) <= size.
Proof.
  intros Hold Hleft Hin Hcap Hfull.
  set (kept := List.filter (fun x => negb (bool_decide (x ∈ deleted))) old).
  assert (Hkept : forall x, x ∈ kept <-> x ∈ old /\ x ∉ deleted).
  { intros x. unfold kept.
    rewrite list_elem_of_In, List.filter_In, <- list_elem_of_In.
    rewrite negb_true_iff, bool_decide_eq_false. reflexivity. }
  assert (Hnd : NoDup kept).
  { apply NoDup_ListNoDup, List.NoDup_filter, NoDup_ListNoDup, Hold. }
  assert (H1 : (length left <= S (length kept))%nat).
  { change (S (length kept)) with (length (new :: kept)).
    apply submseteq_length, NoDup_submseteq; [exact Hleft|].
    intros x Hx. apply elem_of_cons.
    destruct (Hin x Hx) as [->|Hk]; [left; reflexivity|].
    right. apply Hkept. exact Hk. }
  destruct (decide (Z.of_nat (length old) = size)) as [Heq|Hne].
  - destruct (Hfull Heq) as (d & Hd & Hdold).
    assert (H2 : (length (d :: kept) <= length old)%nat).
    { apply submseteq_length, NoDup_submseteq.
      - apply NoDup_cons. split; [|exact Hnd].
        rewrite Hkept. intros [_ Hcontra]. contradiction.
      - intros x Hx. apply elem_of_cons in Hx as [->|Hx]; [exact Hdold|].
        apply Hkept in Hx as [Hx _]. exact Hx. }
    cbn [length] in H2. lia.
  - assert (H2 : (length kept <= length old)%nat).
    { apply submseteq_length, NoDup_submseteq; [exact Hnd|].
      intros x Hx. apply Hkept in Hx as [Hx _]. exact Hx. }
    lia.
Qed.

(** X19.  [SCR_Start_checkpoint] keeps a base within its capacity.  Let
    the capacity configured for the base of the descriptor selected for
    the new checkpoint be at least 1, and let the cache hold at most that
    many checkpoints at the base before the call.  After a call that
    returns success the new checkpoint is cached at the base, and the
    number of checkpoints cached there, the new one included, as the
    counting loop of the next call computes it, is again at most the
    capacity.  Stated for a cache without the checkpoint id -1, which the
    code reserves for "no flushing checkpoint". *)
Theorem SCR_Start_checkpoint_keeps_capacity st st' c b size before :
  SCR_Start_checkpoint st = Ok SCR_SUCCESS st' ->
  selected_desc st (int_add (scr_checkpoint_id st) 1) = Some c ->
  base c = Some b ->
  scr_cachedesc_size (scr_cachedescs (cfg st)) (Some b) = Some size ->
  1 <= size ->
  Z.of_nat (length (scr_filemap_list_checkpoints (scr_map st))) < INT_MAX ->
  -1 ∉ scr_filemap_list_checkpoints (scr_map st) ->
  count_in_base (scr_map st) (scr_my_rank_world (cfg st)) (Some b)
    (scr_filemap_list_checkpoints (scr_map st)) 0 = Some before ->
  before <= size ->
  scr_checkpoint_id st' ∈ scr_filemap_list_checkpoints (scr_map st') /\
  in_base st' b (scr_checkpoint_id st') = true /\
  exists count,
    count_in_base (scr_map st') (scr_my_rank_world (cfg st')) (Some b)
      (scr_filemap_list_checkpoints (scr_map st')) 0 = Some count /\
    1 <= count <= size.
Proof.
  intros Hrun Hsel Hb Hsize Hpos Hlen Hids Hbefore Hcap.
  destruct (SCR_Start_checkpoint_cases st st' _ Hrun)
    as [[Hrc _]|(_ & He & Hi & Hc & Hin' & Hid' & Hcfg' & c' & Hsel' & Hdesc
                 & Hbase' & _)];
    [discriminate|].
  rewrite Hid' in Hsel'. assert (c' = c) by congruence. subst c'.
  set (rank := scr_my_rank_world (cfg st)) in *.
  set (new := scr_checkpoint_id st') in *.
  set (cached := scr_filemap_list_checkpoints (scr_map st)) in *.
  set (P := in_base st b).
  pose proof (count_in_base_counts st b cached 0 ltac:(lia) ltac:(lia))
    as Hcount. fold rank P in Hcount.
  rewrite Hcount in Hbefore. inversion Hbefore as [Hbefore'].
  rewrite <- Hbefore' in Hcap. clear Hbefore Hbefore'.
  destruct (scr_filemap_list_checkpoints_ascending (scr_map st))
    as [_ Hnd]. fold cached in Hnd.
  (* the new checkpoint *)
  assert (Hnew_in : new ∈ scr_filemap_list_checkpoints (scr_map st')).
  { apply scr_filemap_list_checkpoints_elem.
    unfold scr_filemap_get_desc in Hdesc.
    destruct (scr_map st' !! new); [eauto|discriminate]. }
  assert (Hnew_base : in_base st' b new = true).
  { unfold in_base. rewrite Hcfg'. fold rank. rewrite Hbase', Hb.
    apply bool_decide_eq_true_2. reflexivity. }
  split; [exact Hnew_in|]. split; [exact Hnew_base|].
  (* the filemap after the call *)
  assert (Hmap : exists deleted : list Z,
    (forall x, x ∈ deleted -> x ∈ cached /\ P x = true) /\
    (Z.of_nat (length (List.filter P cached)) = size ->
     exists d, d ∈ deleted) /\
    forall x, x <> new ->
      scr_map st' !! x
      = if bool_decide (x ∈ deleted) then None else scr_map st !! x).
  { unfold SCR_Start_checkpoint in Hrun. rewrite He, Hi, Hc in Hrun.
    cbn [negb truthy Z.eqb] in Hrun.
    set (st1 := with_checkpoint_id (with_in_checkpoint st 1)
                  (int_add (scr_checkpoint_id (with_in_checkpoint st 1)) 1))
      in Hrun.
    change (selected_desc st1 (scr_checkpoint_id st1))
      with (selected_desc st (int_add (scr_checkpoint_id st) 1)) in Hrun.
    rewrite Hsel, Hb in Hrun.
    change (scr_cachedescs (cfg st1)) with (scr_cachedescs (cfg st)) in Hrun.
    rewrite Hsize in Hrun.
    change (scr_map st1) with (scr_map st) in Hrun.
    change (scr_my_rank_world (cfg st1)) with rank in Hrun.
    fold cached in Hrun. rewrite Hcount in Hrun.
    set (F := marked_flushing st).
    set (count := 0 + Z.of_nat (length (List.filter P cached))) in *.
    assert (Hfilter_le :
      (length (List.filter P cached) <= length cached)%nat).
    { clear. induction cached as [|x l IH]; cbn; [lia|].
      destruct (P x); cbn; lia. }
    destruct (evict_until_room_follows_plan b size P F cached st1 count (-1)
                Hnd) as (st2 & Hevict & Htrace).
    { intros id _. split; reflexivity. }
    { unfold count. lia. }
    { unfold count. lia. }
    rewrite Hevict in Hrun.
    destruct (evict_until_room_removes _ _ _ _ _ _ _ _ Hevict)
      as (deleted & Htrace' & Hmap2).
    rewrite Htrace in Htrace'. apply app_inv_head in Htrace'.
    apply EvCheckpointDelete_inj in Htrace'. subst deleted.
    change (scr_map st1) with (scr_map st) in Hmap2.
    destruct (eviction_plan_closed P F size cached count (-1))
      as (Hdel & Hn & Hf).
    { unfold count. lia. }
    { intros id Hin ->. contradiction. }
    cbv zeta in Hdel, Hn, Hf.
    set (E := List.filter (fun id => negb (F id)) (List.filter P cached))
      in *.
    set (Fl := List.filter F (List.filter P cached)) in *.
    set (k := Z.to_nat (Z.min (Z.of_nat (length E)) (count - size + 1)))
      in *.
    rewrite Hdel in Hmap2. rewrite Hn in Hrun.
    assert (HE : forall x, x ∈ E -> x ∈ cached /\ P x = true).
    { intros x Hx. unfold E in Hx.
      rewrite list_elem_of_In, List.filter_In, List.filter_In,
        <- list_elem_of_In in Hx. tauto. }
    assert (HFl : forall x, x ∈ Fl -> x ∈ cached /\ P x = true).
    { intros x Hx. unfold Fl in Hx.
      rewrite list_elem_of_In, List.filter_In, List.filter_In,
        <- list_elem_of_In in Hx. tauto. }
    assert (Htake : forall x, x ∈ take k E -> x ∈ E).
    { intros x Hx. rewrite <- (take_drop k E). apply elem_of_app. auto. }
    (* the state after the optional deletion of the flushing checkpoint *)
    destruct (if (count - Z.of_nat k >=? size) && _ then _ else _)
      as [rc3 st3| |] eqn:Hroom; [|discriminate|discriminate].
    assert (Hst3 : exists deleted : list Z,
      (forall x, x ∈ deleted -> x ∈ cached /\ P x = true) /\
      (Z.of_nat (length (List.filter P cached)) = size ->
       exists d, d ∈ deleted) /\
      scr_map st3
      = fold_left scr_filemap_remove_checkpoint deleted (scr_map st) /\
      scr_checkpoint_id st3 = int_add (scr_checkpoint_id st) 1 /\
      cfg st3 = cfg st).
    { apply evict_until_room_frame in Hevict as (Hc2 & _ & Hid2 & _).
      destruct (Z.geb_spec (count - Z.of_nat k) size) as [Hge|Hlt];
        cbn [andb] in Hroom.
      - rewrite (Hf ltac:(lia)) in Hroom.
        change (-1 =? -1) with true in Hroom. cbv iota in Hroom.
        assert (Hk0 : k = 0%nat /\ count = size /\ length E = 0%nat)
          by (unfold k, count in *; lia).
        destruct Hk0 as (Hk0 & Hfull & HE0).
        apply length_zero_iff_nil in HE0.
        destruct Fl as [|oldest Fl'] eqn:HFleq.
        + (* nothing at the base is flushing and nothing is evictable *)
          exfalso.
          assert (Hall : List.filter P cached = []).
          { clear - HE0 HFleq. unfold E, Fl in *.
            induction (List.filter P cached) as [|x l IH];
              [reflexivity|].
            cbn in *. destruct (F x); cbn in *; discriminate. }
          unfold count in Hfull. rewrite Hall in Hfull. cbn in Hfull. lia.
        + cbn [hd] in Hroom.
          assert (Hold : oldest ∈ cached /\ P oldest = true).
          { apply HFl. left. }
          assert (Hne1 : oldest <> -1)
            by (intros ->; destruct Hold; contradiction).
          replace (oldest =? -1) with false in Hroom
            by (symmetry; apply Z.eqb_neq; exact Hne1).
          cbn [negb] in Hroom.
          destruct (LibraryFacts.scr_flush_async_wait_spec st2)
            as (stw & K & _ & [[Hw _]|[Hw _]]); rewrite Hw in Hroom;
            [|discriminate].
          inversion Hroom; subst rc3 st3.
          destruct K as (Hw1 & _ & Hw3 & Hw4 & _).
          exists (take k E ++ [oldest]).
          split; [|split; [|split; [|split]]].
          * intros x Hx. apply elem_of_app in Hx as [Hx|Hx].
            -- apply HE, Htake, Hx.
            -- apply list_elem_of_singleton in Hx. subst x. exact Hold.
          * intros _. exists oldest. apply elem_of_app. right. left.
          * change (scr_map (scr_checkpoint_delete stw oldest))
              with (scr_filemap_remove_checkpoint (scr_map stw) oldest).
            rewrite Hw4, Hmap2, fold_left_app. reflexivity.
          * change (scr_checkpoint_id (scr_checkpoint_delete stw oldest))
              with (scr_checkpoint_id stw).
            rewrite Hw3, Hid2. reflexivity.
          * change (cfg (scr_checkpoint_delete stw oldest))
              with (cfg stw).
            rewrite Hw1, Hc2. reflexivity.
      - inversion Hroom; subst rc3 st3.
        exists (take k E).
        split; [|split; [|split; [|split]]].
        + intros x Hx. apply HE, Htake, Hx.
        + intros Hfull.
          assert (Hk1 : (1 <= k)%nat /\ E <> []).
          { unfold k, count in *. destruct E; cbn [length] in *;
              split; try lia; discriminate. }
          destruct Hk1 as [Hk1 HEne].
          destruct E as [|e E'] eqn:HEeq; [contradiction|].
          exists e. destruct k; [lia|]. cbn [take]. left.
        + exact Hmap2.
        + rewrite Hid2. reflexivity.
        + rewrite Hc2. reflexivity. }
    destruct Hst3 as (deleted & Hdel_in & Hdel_full & Hmap3 & Hid3 & Hc3).
    set (st5 := scr_filemap_write
                  (with_map st3
                     (scr_filemap_set_desc (scr_map st3)
                        (scr_checkpoint_id st3) (scr_my_rank_world (cfg st3))
                        (scr_ckptdesc_store_to_hash c)))) in Hrun.
    change (scr_checkpoint_id st5) with (scr_checkpoint_id st3) in Hrun.
    assert (Hmap6 : scr_map st' = scr_map st5).
    { unfold scr_checkpoint_dir_create, scr_checkpoint_dir in Hrun.
      destruct (scr_my_rank_local (cfg st5) =? 0).
      - destruct (directory c); [|discriminate].
        destruct (mkdir_succeeds _ _); inversion Hrun; reflexivity.
      - inversion Hrun; reflexivity. }
    exists deleted. split; [exact Hdel_in|]. split; [exact Hdel_full|].
    intros x Hx. rewrite Hmap6. unfold st5. cbn [scr_map scr_filemap_write
      with_map with_node].
    unfold scr_filemap_set_desc, set_entry.
    rewrite lookup_insert_ne
      by (rewrite Hid3, <- Hid'; congruence).
    rewrite Hmap3. apply fold_remove_lookup. }
  destruct Hmap as (deleted & Hdel_in & Hdel_full & Hlookup).
  set (cached' := scr_filemap_list_checkpoints (scr_map st')) in *.
  destruct (scr_filemap_list_checkpoints_ascending (scr_map st'))
    as [_ Hnd']. fold cached' in Hnd'.
  set (P' := in_base st' b) in *.
  assert (Hleft : forall x, x ∈ List.filter P' cached' ->
    x = new \/ (x ∈ List.filter P cached /\ x ∉ deleted)).
  { intros x Hx.
    rewrite list_elem_of_In, List.filter_In, <- list_elem_of_In in Hx.
    destruct Hx as [Hx HP'].
    destruct (decide (x = new)) as [->|Hne]; [left; reflexivity|right].
    apply scr_filemap_list_checkpoints_elem in Hx.
    pose proof (Hlookup x Hne) as Hsame.
    destruct (bool_decide (x ∈ deleted)) eqn:Hd;
      [rewrite Hsame in Hx; destruct Hx; discriminate|].
    apply bool_decide_eq_false in Hd. split; [|exact Hd].
    rewrite list_elem_of_In, List.filter_In, <- list_elem_of_In.
    split.
    - apply scr_filemap_list_checkpoints_elem. rewrite <- Hsame. exact Hx.
    - unfold P. rewrite <- (in_base_lookup st st' b x Hcfg' Hsame).
      exact HP'. }
  assert (Hbound : Z.of_nat (length (List.filter P' cached')) <= size).
  { apply (capacity_count (List.filter P cached) _ deleted new).
    - apply NoDup_ListNoDup, List.NoDup_filter, NoDup_ListNoDup, Hnd.
    - apply NoDup_ListNoDup, List.NoDup_filter, NoDup_ListNoDup, Hnd'.
    - exact Hleft.
    - lia.
    - intros Hfull. destruct (Hdel_full Hfull) as [d Hd].
      exists d. split; [exact Hd|].
      rewrite list_elem_of_In, List.filter_In, <- list_elem_of_In.
      apply Hdel_in. exact Hd. }
  assert (Hlen' : (length cached' <= S (length cached))%nat).
  { change (S (length cached)) with (length (new :: cached)).
    apply submseteq_length, NoDup_submseteq; [exact Hnd'|].
    intros x Hx. apply elem_of_cons.
    destruct (decide (x = new)) as [->|Hne]; [left; reflexivity|right].
    apply scr_filemap_list_checkpoints_elem in Hx.
    rewrite (Hlookup x Hne) in Hx.
    destruct (bool_decide (x ∈ deleted)); [destruct Hx; discriminate|].
    apply scr_filemap_list_checkpoints_elem. exact Hx. }
  pose proof (count_in_base_counts st' b cached' 0 ltac:(lia) ltac:(lia))
    as Hcount'.
  fold P' in Hcount'. rewrite Hcount'. eexists. split; [reflexivity|].
  split; [|lia].
  assert (Hnew_filter : new ∈ List.filter P' cached').
  { rewrite list_elem_of_In, List.filter_In, <- list_elem_of_In.
    split; [exact Hnew_in|exact Hnew_base]. }
  destruct (List.filter P' cached'); [inversion Hnew_filter|cbn; lia].
Qed.

Lemma SCR_Start_checkpoint_keeps_capacity_witness :
  scr_checkpoint_id (result_state (SCR_Start_checkpoint sample_full_cache))
    ∈ scr_filemap_list_checkpoints
        (scr_map (result_state (SCR_Start_checkpoint sample_full_cache))) /\
  in_base (result_state (SCR_Start_checkpoint sample_full_cache)) "/ram"
    (scr_checkpoint_id (result_state (SCR_Start_checkpoint sample_full_cache)))
  = true /\
  exists count,
    count_in_base
      (scr_map (result_state (SCR_Start_checkpoint sample_full_cache)))
      (scr_my_rank_world
         (cfg (result_state (SCR_Start_checkpoint sample_full_cache))))
      (Some "/ram")
      (scr_filemap_list_checkpoints
         (scr_map (result_state (SCR_Start_checkpoint sample_full_cache))))
      0 = Some count /\
    1 <= count <= 2.
Proof.
  apply (SCR_Start_checkpoint_keeps_capacity sample_full_cache
           (result_state (SCR_Start_checkpoint sample_full_cache))
           (mk_desc 1 1 (Some "/ram")) "/ram" 2 2).
  - vm_compute. reflexivity.
  - vm_compute. reflexivity.
  - reflexivity.
  - reflexivity.
  - lia.
  - vm_compute. reflexivity.
  - vm_compute. intros Hin. inversion Hin as [|? ? ? Hin']; subst.
    inversion Hin' as [|? ? ? Hin'']; subst. inversion Hin''.
  - vm_compute. reflexivity.
  - lia.
Defined.

End CapacityFacts.

(** ** Eviction on a start *)

Module EvictionFacts.
Import Descriptors Meta FileMap Library CIntFacts LibraryFacts FileFacts
  SessionFacts CapacityFacts.

(** The files of a checkpoint are read off its entry in the filemap. *)
Lemma checkpoint_files_ext (map map' : scr_filemap) id :
  map' !! id = map !! id ->
  checkpoint_files map' id = checkpoint_files map id.
Proof.
  intros Heq.
  unfold checkpoint_files, scr_filemap_list_ranks_by_checkpoint,
    scr_filemap_list_files, entry.
  rewrite Heq. reflexivity.
Qed.

(** The cache and the flush file after [scr_checkpoint_delete]. *)
Lemma scr_checkpoint_delete_node st id :
  cache (node (scr_checkpoint_delete st id))
  = fold_left unlink_with_meta (checkpoint_files (scr_map st) id)
      (cache (node st)) /\
  flush_file (node (scr_checkpoint_delete st id))
  = (if scr_my_rank_local (cfg st) =? 0
     then delete id (flush_file (node st)) else flush_file (node st)) /\
  cfg (scr_checkpoint_delete st id) = cfg st /\
  env (scr_checkpoint_delete st id) = env st.
Proof.
  unfold scr_checkpoint_delete. cbn.
  destruct (scr_ckptdesc_dir_from_filemap (scr_map st) id
              (scr_my_rank_world (cfg st)));
    destruct (scr_my_rank_local (cfg st) =? 0); cbn; auto.
Qed.

(** Deleting a list of distinct checkpoints, one after the other. *)
Lemma fold_delete_spec : forall deleted st,
  NoDup deleted ->
  let st' := fold_left scr_checkpoint_delete deleted st in
  cfg st' = cfg st /\ env st' = env st /\
  scr_checkpoint_id st' = scr_checkpoint_id st /\
  scr_flush_async_in_progress st' = scr_flush_async_in_progress st /\
  scr_flush_async_checkpoint_id st' = scr_flush_async_checkpoint_id st /\
  scr_map st'
  = fold_left scr_filemap_remove_checkpoint deleted (scr_map st) /\
  trace st' = trace st ++ List.map EvCheckpointDelete deleted /\
  (forall file,
     let listed :=
       bool_decide
         (Exists (fun id => file ∈ checkpoint_files (scr_map st) id)
            deleted) in
     data (cache (node st')) !! file
     = (if listed then None else data (cache (node st)) !! file) /\
     sidecars (cache (node st')) !! file
     = (if listed then None else sidecars (cache (node st)) !! file)) /\
  (forall id,
     flush_file (node st') !! id
     = if (scr_my_rank_local (cfg st) =? 0) && bool_decide (id ∈ deleted)
       then None else flush_file (node st) !! id).
Proof.
  induction deleted as [|d rest IH]; intros st Hnd; cbv zeta.
  - cbn [fold_left List.map]. rewrite app_nil_r.
    do 7 (split; [reflexivity|]). split.
    + intros file. rewrite bool_decide_eq_false_2; [auto|].
      intros H. inversion H.
    + intros id. rewrite bool_decide_eq_false_2 by apply not_elem_of_nil.
      rewrite andb_false_r. reflexivity.
  - apply NoDup_cons in Hnd as [Hnotin Hnd].
    cbn [fold_left List.map].
    destruct (IH (scr_checkpoint_delete st d) Hnd)
      as (H1 & H2 & H3 & H4 & H5 & H6 & H7 & H8 & H9).
    cbv zeta in H8.
    destruct (scr_checkpoint_delete_node st d) as (Hc & Hf & Hcfg & Henv).
    rewrite H1, H2, H3, H4, H5, H6, H7, Hcfg, Henv.
    split; [reflexivity|]. split; [reflexivity|].
    split; [reflexivity|]. split; [reflexivity|]. split; [reflexivity|].
    split; [reflexivity|].
    split; [rewrite scr_checkpoint_delete_trace, <- app_assoc; reflexivity|].
    split.
    + intros file. destruct (H8 file) as [-> ->].
      assert (Hsame :
        Exists (fun id => file ∈ checkpoint_files
                         (scr_map (scr_checkpoint_delete st d)) id) rest
        <-> Exists (fun id => file ∈ checkpoint_files (scr_map st) id) rest).
      { rewrite !Exists_exists. split; intros (id & Hin & Hfile);
          exists id; (split; [exact Hin|]);
          assert (Hne : id <> d)
            by (intros ->; contradiction).
        - rewrite <- (checkpoint_files_ext (scr_map st)
                        (scr_map (scr_checkpoint_delete st d)) id).
          + exact Hfile.
          + cbn. unfold scr_filemap_remove_checkpoint.
            apply lookup_delete_ne. congruence.
        - rewrite (checkpoint_files_ext (scr_map st)
                     (scr_map (scr_checkpoint_delete st d)) id).
          + exact Hfile.
          + cbn. unfold scr_filemap_remove_checkpoint.
            apply lookup_delete_ne. congruence. }
      rewrite (bool_decide_ext _ _ Hsame). rewrite Hc.
      destruct (unlink_fold_spec (checkpoint_files (scr_map st) d)
                  (cache (node st)) file) as [-> ->].
      destruct (bool_decide (Exists _ rest)) eqn:Hrest.
      * apply bool_decide_eq_true in Hrest.
        rewrite bool_decide_eq_true_2 by (apply Exists_cons; auto).
        auto.
      * apply bool_decide_eq_false in Hrest.
        destruct (bool_decide (file ∈ checkpoint_files (scr_map st) d))
          eqn:Hd.
        -- apply bool_decide_eq_true in Hd.
           rewrite bool_decide_eq_true_2 by (apply Exists_cons; auto).
           auto.
        -- apply bool_decide_eq_false in Hd.
           rewrite bool_decide_eq_false_2; [auto|].
           rewrite Exists_cons. tauto.
    + intros id. rewrite H9, Hcfg, Hf.
      destruct (scr_my_rank_local (cfg st) =? 0); cbn [andb]; [|reflexivity].
      destruct (decide (id = d)) as [->|Hne].
      * rewrite lookup_delete_eq.
        rewrite (bool_decide_eq_true_2 (d ∈ d :: rest)) by left.
        destruct (bool_decide _); reflexivity.
      * rewrite lookup_delete_ne by congruence.
        destruct (bool_decide (id ∈ rest)) eqn:Hin.
        -- apply bool_decide_eq_true in Hin.
           rewrite bool_decide_eq_true_2 by (right; exact Hin). reflexivity.
        -- apply bool_decide_eq_false in Hin.
           rewrite bool_decide_eq_false_2; [reflexivity|].
           rewrite elem_of_cons. tauto.
Qed.

(** The eviction loop changes the state by its deletions alone. *)
Lemma evict_until_room_is_fold cbase size : forall ckpts st nb fl r st',
  evict_until_room cbase size ckpts st nb fl = Ok r st' ->
  exists deleted,
    st' = fold_left scr_checkpoint_delete deleted st /\
    trace st' = trace st ++ List.map EvCheckpointDelete deleted.
Proof.
  induction ckpts as [|id rest IH]; intros st nb fl r st' Hrun;
    cbn [evict_until_room] in Hrun.
  - inversion Hrun; subst. exists []. rewrite app_nil_r. auto.
  - destruct (nb >=? size);
      [|inversion Hrun; subst; exists []; rewrite app_nil_r; auto].
    destruct (scr_ckptdesc_base_from_filemap _ _ _); [|eauto].
    destruct (strcmp_eq _ _) as [[|]|]; [| eauto | discriminate].
    destruct (negb (truthy (scr_bool_is_flushing st id))).
    + apply IH in Hrun as (deleted & Hst & Htr). exists (id :: deleted).
      rewrite Htr, Hst, scr_checkpoint_delete_trace, <- app_assoc.
      split; reflexivity.
    + destruct (fl =? -1); eauto.
Qed.

(** Without a flush in progress, or with a checkpoint that is not marked
    as being flushed, [scr_flush_async_wait] returns at once. *)
Lemma scr_flush_async_wait_idle st :
  truthy (scr_flush_async_in_progress st) = false \/
  truthy (scr_bool_is_flushing st (scr_flush_async_checkpoint_id st))
  = false ->
  scr_flush_async_wait st
  = Ok SCR_SUCCESS (with_trace st (trace st ++ [EvFlushAsyncWait])).
Proof.
  intros Hidle. unfold scr_flush_async_wait.
  change (scr_flush_async_in_progress (with_trace st _))
    with (scr_flush_async_in_progress st).
  destruct (truthy (scr_flush_async_in_progress st)) eqn:Hin;
    [|reflexivity].
  destruct Hidle as [Hcontra|Hfl]; [discriminate|].
  destruct (transfer_polls _); cbn [flush_async_wait_loop];
    change (scr_bool_is_flushing (with_trace st _) _)
      with (scr_bool_is_flushing st (scr_flush_async_checkpoint_id st));
    rewrite Hfl; reflexivity.
Qed.

(** The end of [SCR_Start_checkpoint]: the descriptor is stored in the
    filemap under the new checkpoint, the filemap is written and the
    directory is made.  The call returns success, or it hands a [NULL]
    directory to [sprintf]. *)
Lemma start_finish c st3 :
  let st5 :=
    scr_filemap_write
      (with_map st3
         (scr_filemap_set_desc (scr_map st3) (scr_checkpoint_id st3)
            (scr_my_rank_world (cfg st3)) (scr_ckptdesc_store_to_hash c))) in
  exists st',
    (match scr_checkpoint_dir_create c (scr_checkpoint_id st5) st5 with
     | Ok _ st => Ok SCR_SUCCESS st
     | Crash st => Crash st
     | Hang st => Hang st
     end = Ok SCR_SUCCESS st' \/
     match scr_checkpoint_dir_create c (scr_checkpoint_id st5) st5 with
     | Ok _ st => Ok SCR_SUCCESS st
     | Crash st => Crash st
     | Hang st => Hang st
     end = Crash st') /\
    scr_checkpoint_id st' = scr_checkpoint_id st3 /\
    cache (node st') = cache (node st3) /\
    flush_file (node st') = flush_file (node st3) /\
    trace st' = trace st3 /\ cfg st' = cfg st3 /\
    (forall id, id <> scr_checkpoint_id st3 ->
       scr_map st' !! id = scr_map st3 !! id).
Proof.
  intros st5.
  assert (Hmap : forall id, id <> scr_checkpoint_id st3 ->
            scr_map st5 !! id = scr_map st3 !! id).
  { intros id Hne. unfold st5. cbn.
    unfold scr_filemap_set_desc, set_entry.
    apply lookup_insert_ne. congruence. }
  unfold scr_checkpoint_dir_create, scr_checkpoint_dir.
  destruct (scr_my_rank_local (cfg st5) =? 0).
  - destruct (directory c).
    + destruct (mkdir_succeeds _ _); eexists;
        (split; [left; reflexivity|]); cbn; repeat split; auto.
    + eexists. split; [right; reflexivity|]. cbn. repeat split; auto.
  - eexists. split; [left; reflexivity|]. cbn. repeat split; auto.
Qed.

(** A state shows the eviction of [deleted] when, seen from the state
    [sd] that the deletions alone lead to, it differs in the filemap at
    most by the entry of its own checkpoint, has the same cache, and on
    the master of the node no entry in the flush file for a deleted
    checkpoint. *)
Lemma evicted_intro st st0 st' deleted :
  NoDup deleted ->
  scr_map st0 = scr_map st -> node st0 = node st -> cfg st0 = cfg st ->
  (forall id, id <> scr_checkpoint_id st' ->
     scr_map st' !! id
     = scr_map (fold_left scr_checkpoint_delete deleted st0) !! id) ->
  cache (node st')
  = cache (node (fold_left scr_checkpoint_delete deleted st0)) ->
  (scr_my_rank_local (cfg st) = 0 ->
   forall id, id ∈ deleted -> flush_file (node st') !! id = None) ->
  evicted st st' deleted.
Proof.
  intros Hnd Hm0 Hn0 Hc0 Hmap Hcache Hflush.
  destruct (fold_delete_spec deleted st0 Hnd)
    as (_ & _ & _ & _ & _ & Hsd & _ & Hfiles & _).
  cbv zeta in Hfiles. rewrite Hm0, Hn0 in *.
  unfold evicted. split; [|split; [|split]].
  - intros id Hne. rewrite (Hmap id Hne), Hsd. apply fold_remove_lookup.
  - intros id file Hid Hfile. rewrite Hcache.
    destruct (Hfiles file) as [-> ->].
    rewrite bool_decide_eq_true_2; [auto|].
    apply Exists_exists. exists id. auto.
  - intros file Hnone. rewrite Hcache.
    destruct (Hfiles file) as [-> ->].
    rewrite bool_decide_eq_false_2; [auto|].
    rewrite Exists_exists. intros (id & Hid & Hfile).
    exact (Hnone id Hid Hfile).
  - exact Hflush.
Qed.

(** A checkpoint that is not marked as being flushed is not marked either
    once its entry has left the flush file. *)
Lemma not_flushing_without_entry st st' id :
  truthy (scr_bool_is_flushing st id) = false ->
  cfg st' = cfg st -> env st' = env st ->
  (scr_my_rank_local (cfg st) = 0 -> flush_file (node st') !! id = None) ->
  truthy (scr_bool_is_flushing st' id) = false.
Proof.
  intros Hfl Hc He Hnone. unfold scr_bool_is_flushing in *.
  rewrite Hc, He.
  destruct (peers_not_flushing (env st) id).
  - destruct (Z.eqb_spec (scr_my_rank_local (cfg st)) 0) as [Hm|Hm];
      [rewrite (Hnone Hm)|]; reflexivity.
  - exfalso. revert Hfl.
    match goal with
    | |- context [of_bool (?x =? 0)] => destruct (x =? 0)
    end; cbn; discriminate.
Qed.

(** C5.  [SCR_Start_checkpoint] past its guards, for the descriptor [c]
    selected for the new checkpoint id and its base [b], on any cache that
    holds no checkpoint with the id -1, which the code reserves for "no
    flushing checkpoint".  The cached ids are visited in ascending order.
    With [size] the capacity configured for [b] and [count] the number of
    cached checkpoints at [b], the first pass evicts the first [k]
    checkpoints at [b] that are not marked FLUSHING, [k] being the least
    number that brings the count below [size], or all of them.  Evicting
    a checkpoint takes it out of the filemap, unlinks its files and their
    sidecars and removes its entry from the flush file; every other
    checkpoint, and so every checkpoint marked FLUSHING, keeps its entry,
    its files and its mark.  If that makes room, or no checkpoint at [b]
    is marked FLUSHING, the call goes on to its end without waiting.
    Otherwise it waits for the asynchronous flush.  If the wait returns,
    the checkpoint of the flush in progress is no longer marked FLUSHING,
    and the call then evicts the oldest checkpoint at [b] that was
    marked FLUSHING and goes on to its end.  If the flush never
    completes the call does not return, and the oldest flushing
    checkpoint stays in the cache.  The wait returns when the test of
    the flush succeeds once the transfer has ended; it does not return
    when a flush is in progress for a checkpoint marked FLUSHING and
    flushes are switched off or a file of that checkpoint is missing
    from the cache of some process. *)
Theorem SCR_Start_checkpoint_evicts_in_order st c b :
  truthy (scr_enabled (cfg st)) = true ->
  truthy (scr_initialized (cfg st)) = true ->
  scr_in_checkpoint st = 0 ->
  selected_desc st (int_add (scr_checkpoint_id st) 1) = Some c ->
  base c = Some b ->
  Z.of_nat (length (scr_filemap_list_checkpoints (scr_map st))) <= INT_MAX ->
  -1 ∉ scr_filemap_list_checkpoints (scr_map st) ->
  let cached := scr_filemap_list_checkpoints (scr_map st) in
  let at_base := List.filter (in_base st b) cached in
  let evictable :=
    List.filter (fun id => negb (marked_flushing st id)) at_base in
  let flushing := List.filter (marked_flushing st) at_base in
  let count := Z.of_nat (length at_base) in
  let awaited := scr_flush_async_checkpoint_id st in
  exists size st_pass,
    scr_cachedesc_size (scr_cachedescs (cfg st)) (Some b) = Some size /\
    StronglySorted Z.le cached /\ NoDup cached /\
    let k :=
      Z.to_nat (Z.min (Z.of_nat (length evictable)) (count - size + 1)) in
    let first := take k evictable in
    (* the first pass *)
    evicted st st_pass first /\
    trace st_pass = trace st ++ List.map EvCheckpointDelete first /\
    (forall id, id ∉ first ->
       scr_map st_pass !! id = scr_map st !! id /\
       marked_flushing st_pass id = marked_flushing st id) /\
    (* room without a wait *)
    (count - Z.of_nat k < size \/ flushing = [] ->
     exists st',
       (SCR_Start_checkpoint st = Ok SCR_SUCCESS st' \/
        SCR_Start_checkpoint st = Crash st') /\
       evicted st st' first /\ trace st' = trace st_pass) /\
    (* the wait for the flush *)
    (forall oldest later,
       size <= count - Z.of_nat k -> flushing = oldest :: later ->
       ((exists st_w st',
           scr_flush_async_wait st_pass = Ok SCR_SUCCESS st_w /\
           (truthy (scr_flush_async_in_progress st) = true ->
            truthy (scr_bool_is_flushing st_w awaited) = false) /\
           (SCR_Start_checkpoint st = Ok SCR_SUCCESS st' \/
            SCR_Start_checkpoint st = Crash st') /\
           evicted st st' (first ++ [oldest]) /\
           trace st'
           = trace st_pass ++ [EvFlushAsyncWait; EvCheckpointDelete oldest])
        \/
        (exists st_h,
           scr_flush_async_wait st_pass = Hang st_h /\
           SCR_Start_checkpoint st = Hang st_h /\
           truthy (scr_flush_async_in_progress st) = true /\
           truthy (scr_bool_is_flushing st_h awaited) = true /\
           evicted st st_h first /\
           scr_map st_h !! oldest = scr_map st !! oldest /\
           trace st_h = trace st_pass ++ [EvFlushAsyncWait])) /\
       (* when the wait returns, and when it does not *)
       (scr_flush_async_test st_pass awaited (transfer_end (env st))
        = SCR_SUCCESS ->
        exists st_w, scr_flush_async_wait st_pass = Ok SCR_SUCCESS st_w) /\
       (truthy (scr_flush_async_in_progress st) = true ->
        marked_flushing st awaited = true ->
        scr_flush (cfg st) <= 0 \/
        truthy (all_have_files st_pass awaited) = false ->
        exists st_h, scr_flush_async_wait st_pass = Hang st_h)).
Proof.
  intros He Hi Hc Hsel Hb Hlen Hids cached at_base evictable flushing count
    awaited.
  destruct (scr_cachedesc_size_defined (scr_cachedescs (cfg st)) b)
    as [size Hsize].
  destruct (scr_filemap_list_checkpoints_ascending (scr_map st))
    as [Hsorted Hnd]. fold cached in Hsorted, Hnd.
  set (st1 := with_checkpoint_id (with_in_checkpoint st 1)
                (int_add (scr_checkpoint_id (with_in_checkpoint st 1)) 1)).
  set (P := in_base st b) in *. set (F := marked_flushing st) in *.
  fold cached in Hlen, Hids.
  assert (Hfilter_le : (length at_base <= length cached)%nat).
  { unfold at_base. generalize cached. clear.
    induction cached as [|x l IH]; cbn; [lia|].
    destruct (P x); cbn; lia. }
  assert (Hcount_max : count <= INT_MAX) by (unfold count; lia).
  destruct (evict_until_room_follows_plan b size P F cached st1 count (-1)
              Hnd) as (st2 & Hrun & Htrace).
  { intros id _. split; reflexivity. }
  { unfold count, at_base. lia. }
  { exact Hcount_max. }
  change (trace st1) with (trace st) in Htrace.
  destruct (eviction_plan_closed P F size cached count (-1))
    as (Hdel & Hn & Hf).
  { unfold count, at_base. lia. }
  { intros id Hin ->. contradiction. }
  cbv zeta in Hdel, Hn, Hf.
  fold at_base evictable flushing in Hdel, Hn, Hf.
  set (k := Z.to_nat (Z.min (Z.of_nat (length evictable))
                        (count - size + 1))) in *.
  set (first := take k evictable) in *.
  rewrite Hdel in Htrace. rewrite Hn in Hrun.
  set (fl := snd (eviction_plan P F size cached count (-1))) in *.
  (* the first pass is the deletion of [first] *)
  destruct (evict_until_room_is_fold _ _ _ _ _ _ _ _ Hrun)
    as (deleted & Hst2 & Htrace').
  change (trace st1) with (trace st) in Htrace'.
  rewrite Htrace in Htrace'. apply app_inv_head in Htrace'.
  apply EvCheckpointDelete_inj in Htrace'. subst deleted.
  assert (Hevictable : forall x, x ∈ evictable ->
            x ∈ cached /\ P x = true /\ F x = false).
  { intros x Hx. unfold evictable, at_base in Hx.
    rewrite list_elem_of_In, List.filter_In, List.filter_In,
      <- list_elem_of_In in Hx.
    destruct Hx as [[? ?] HF]. apply negb_true_iff in HF. auto. }
  assert (Hflushing : forall x, x ∈ flushing ->
            x ∈ cached /\ P x = true /\ F x = true).
  { intros x Hx. unfold flushing, at_base in Hx.
    rewrite list_elem_of_In, List.filter_In, List.filter_In,
      <- list_elem_of_In in Hx. tauto. }
  assert (Hfirst_in : forall x, x ∈ first -> x ∈ evictable).
  { intros x Hx. rewrite <- (take_drop k evictable).
    apply elem_of_app. auto. }
  assert (Hnd_first : NoDup first).
  { assert (Hev : NoDup evictable)
      by (unfold evictable, at_base; apply NoDup_ListNoDup;
          do 2 apply List.NoDup_filter; apply NoDup_ListNoDup; exact Hnd).
    rewrite <- (take_drop k evictable) in Hev.
    apply NoDup_app in Hev. apply Hev. }
  destruct (fold_delete_spec first st1 Hnd_first)
    as (S1 & S2 & S3 & S4 & S5 & S6 & S7 & S8 & S9).
  cbv zeta in S8. rewrite <- Hst2 in S1, S2, S3, S4, S5, S6, S7, S8, S9.
  change (cfg st1) with (cfg st) in *.
  change (env st1) with (env st) in *.
  change (scr_map st1) with (scr_map st) in *.
  change (node st1) with (node st) in *.
  change (scr_flush_async_in_progress st1)
    with (scr_flush_async_in_progress st) in *.
  change (scr_flush_async_checkpoint_id st1) with awaited in *.
  assert (Hflush2 : scr_my_rank_local (cfg st) = 0 ->
            forall id, id ∈ first -> flush_file (node st2) !! id = None).
  { intros Hm id Hid. rewrite S9, Hm. cbn.
    rewrite bool_decide_eq_true_2 by exact Hid. reflexivity. }
  assert (Hev2 : evicted st st2 first).
  { apply (evicted_intro st st1 st2 first Hnd_first); try reflexivity.
    - intros id _. rewrite Hst2. reflexivity.
    - rewrite Hst2. reflexivity.
    - exact Hflush2. }
  assert (Hkeep : forall id, id ∉ first ->
            scr_map st2 !! id = scr_map st !! id /\
            marked_flushing st2 id = marked_flushing st id).
  { intros id Hid. split.
    - rewrite S6, fold_remove_lookup.
      rewrite bool_decide_eq_false_2 by exact Hid. reflexivity.
    - unfold marked_flushing. f_equal.
      apply scr_bool_is_flushing_ext; [exact S1| |rewrite S2; reflexivity].
      rewrite S9. rewrite (bool_decide_eq_false_2 _ Hid).
      rewrite andb_false_r. reflexivity. }
  (* the call from the end of the first pass on *)
  assert (Hstart :
    SCR_Start_checkpoint st
    = match
        (if (count - Z.of_nat k >=? size) && negb (fl =? -1)
         then match scr_flush_async_wait st2 with
              | Ok _ st => Ok SCR_SUCCESS (scr_checkpoint_delete st fl)
              | Crash st => Crash st
              | Hang st => Hang st
              end
         else Ok SCR_SUCCESS st2)
      with
      | Crash st => Crash st
      | Hang st => Hang st
      | Ok _ st3 =>
          let st5 :=
            scr_filemap_write
              (with_map st3
                 (scr_filemap_set_desc (scr_map st3) (scr_checkpoint_id st3)
                    (scr_my_rank_world (cfg st3))
                    (scr_ckptdesc_store_to_hash c))) in
          match scr_checkpoint_dir_create c (scr_checkpoint_id st5) st5 with
          | Ok _ st => Ok SCR_SUCCESS st
          | Crash st => Crash st
          | Hang st => Hang st
          end
      end).
  { unfold SCR_Start_checkpoint. rewrite He, Hi, Hc.
    cbn [negb truthy Z.eqb]. fold st1.
    change (selected_desc st1 (scr_checkpoint_id st1))
      with (selected_desc st (int_add (scr_checkpoint_id st) 1)).
    rewrite Hsel, Hb.
    change (scr_cachedescs (cfg st1)) with (scr_cachedescs (cfg st)).
    rewrite Hsize. change (scr_map st1) with (scr_map st). fold cached.
    pose proof (count_in_base_counts st1 b cached 0 ltac:(lia) ltac:(lia))
      as Hcount.
    change (scr_map st1) with (scr_map st) in Hcount.
    change (in_base st1 b) with P in Hcount.
    rewrite Hcount.
    replace (0 + Z.of_nat (length (List.filter P cached))) with count
      by (unfold count, at_base; lia).
    rewrite Hrun. reflexivity. }
  exists size, st2.
  split; [exact Hsize|]. split; [exact Hsorted|]. split; [exact Hnd|].
  split; [exact Hev2|]. split; [exact Htrace|]. split; [exact Hkeep|].
  split.
  - (* room without a wait *)
    intros Hroom.
    assert (Hcond : (count - Z.of_nat k >=? size) && negb (fl =? -1)
                    = false).
    { destruct (Z.geb_spec (count - Z.of_nat k) size) as [Hge|Hlt];
        [|reflexivity].
      destruct Hroom as [Hlt|Hnil]; [lia|].
      rewrite (Hf ltac:(lia)), Hnil. reflexivity. }
    rewrite Hcond in Hstart.
    destruct (start_finish c st2)
      as (st' & Hout & Hid' & Hcache' & Hflush' & Htrace' & Hcfg' & Hmap').
    exists st'. rewrite Hstart. split; [exact Hout|].
    split; [|exact Htrace'].
    apply (evicted_intro st st1 st' first Hnd_first); try reflexivity.
    + intros id Hne. rewrite <- Hst2. apply Hmap'.
      rewrite <- Hid'. exact Hne.
    + rewrite <- Hst2. exact Hcache'.
    + intros Hm id Hid. rewrite Hflush'. apply Hflush2; assumption.
  - (* the wait *)
    intros oldest later Hfull Hfl.
    assert (Hold : oldest ∈ cached /\ P oldest = true /\ F oldest = true)
      by (apply Hflushing; rewrite Hfl; left).
    assert (Hold_first : oldest ∉ first).
    { intros Hin. apply Hfirst_in, Hevictable in Hin.
      destruct Hold as (_ & _ & HF1). destruct Hin as (_ & _ & HF2).
      congruence. }
    assert (Hfl_old : fl = oldest).
    { rewrite (Hf Hfull), Hfl. reflexivity. }
    assert (Hne1 : oldest <> -1)
      by (intros ->; destruct Hold; contradiction).
    assert (Hcond : (count - Z.of_nat k >=? size) && negb (fl =? -1)
                    = true).
    { rewrite Hfl_old. apply andb_true_iff. split.
      - apply Z.geb_le. lia.
      - apply negb_true_iff, Z.eqb_neq. exact Hne1. }
    rewrite Hcond, Hfl_old in Hstart.
    destruct (scr_flush_async_wait_spec st2)
      as (stw & K & Tw & Hcase). cbv zeta in K, Hcase.
    rewrite S5 in K, Hcase. rewrite S4 in Hcase.
    pose proof K as (K1 & K2 & K3 & K4 & K5 & K6 & K7 & K8 & K9 & K10
                     & K11 & K12 & K13 & K14).
    (* the entries of the evicted checkpoints stay out of the flush file *)
    assert (Hflushw : forall r,
      scr_flush_async_wait st2 = r ->
      r = Ok SCR_SUCCESS stw \/ r = Hang stw ->
      scr_my_rank_local (cfg st) = 0 ->
      forall id, id ∈ first -> flush_file (node stw) !! id = None).
    { intros r Hr Hrw Hm id Hid.
      destruct (decide (id = awaited)) as [->|Hne].
      - assert (Hidle : truthy (scr_bool_is_flushing st2 awaited) = false).
        { apply (not_flushing_without_entry st st2 awaited);
            [|exact S1|exact S2|intros _; apply Hflush2; assumption].
          apply Hfirst_in, Hevictable in Hid. apply Hid. }
        rewrite (scr_flush_async_wait_idle st2) in Hr
          by (right; rewrite S5; exact Hidle).
        destruct Hrw as [Hrw|Hrw]; rewrite Hrw in Hr;
          [|discriminate].
        inversion Hr; subst stw. cbn. apply Hflush2; assumption.
      - destruct (K14 id Hne) as [-> _]. apply Hflush2; assumption. }
    split; [|split].
    2:{ intros Hend.
        apply (scr_flush_async_wait_returns st2). rewrite S5, S2.
        exact Hend. }
    2:{ intros Hin Hmark Hstuck.
        apply (scr_flush_async_wait_hangs st2).
        - rewrite S4. exact Hin.
        - rewrite S5.
          assert (Hnot : awaited ∉ first).
          { intros Hx. apply Hfirst_in, Hevictable in Hx.
            destruct Hx as (_ & _ & HF). congruence. }
          destruct (Hkeep awaited Hnot) as [_ Hm].
          unfold F in Hmark. unfold marked_flushing in Hm, Hmark.
          rewrite Hm. exact Hmark.
        - rewrite S1, S5. exact Hstuck. }
    destruct Hcase as [[Hw Hdone]|(Hw & Hin & Hstill)].
    + (* the wait returns *)
      left. rewrite Hw in Hstart.
      destruct (start_finish c (scr_checkpoint_delete stw oldest))
        as (st' & Hout & Hid' & Hcache' & Hflush' & Htrace' & Hcfg'
            & Hmap').
      exists stw, st'. split; [exact Hw|]. split; [exact Hdone|].
      rewrite Hstart. split; [exact Hout|].
      destruct (scr_checkpoint_delete_node stw oldest)
        as (Hcw & Hfw & _ & _).
      destruct (scr_checkpoint_delete_node st2 oldest)
        as (Hc2 & _ & _ & _).
      split.
      * apply (evicted_intro st st1 st' (first ++ [oldest]));
          try reflexivity.
        -- apply NoDup_app. split; [exact Hnd_first|].
           split; [|apply NoDup_singleton].
           intros x Hx Hx'. apply list_elem_of_singleton in Hx'. subst x.
           contradiction.
        -- intros id Hne. rewrite fold_left_app, <- Hst2. cbn [fold_left].
           rewrite Hmap' by (rewrite <- Hid'; exact Hne).
           cbn. rewrite K4. reflexivity.
        -- rewrite fold_left_app, <- Hst2. cbn [fold_left].
           rewrite Hcache', Hcw, Hc2, K4, K7. reflexivity.
        -- intros Hm id Hid. rewrite Hflush', Hfw, K1, S1, Hm. cbn.
           apply elem_of_app in Hid as [Hid|Hid].
           ++ rewrite lookup_delete_ne
                by (intros ->; contradiction).
              apply (Hflushw _ Hw); auto.
           ++ apply list_elem_of_singleton in Hid. subst id.
              apply lookup_delete_eq.
      * rewrite Htrace', scr_checkpoint_delete_trace, Tw, <- app_assoc.
        reflexivity.
    + (* the wait does not end *)
      right. rewrite Hw in Hstart. exists stw.
      split; [exact Hw|]. split; [exact Hstart|].
      split; [exact Hin|]. split; [exact Hstill|].
      split; [|split].
      * apply (evicted_intro st st1 stw first Hnd_first); try reflexivity.
        -- intros id _. rewrite <- Hst2, K4. reflexivity.
        -- rewrite <- Hst2, K7. reflexivity.
        -- intros Hm id Hid. apply (Hflushw _ Hw); auto.
      * rewrite K4. apply Hkeep. exact Hold_first.
      * exact Tw.
Qed.

Lemma SCR_Start_checkpoint_evicts_in_order_witness :
  exists st',
    (SCR_Start_checkpoint sample_only_flushing = Ok SCR_SUCCESS st' \/
     SCR_Start_checkpoint sample_only_flushing = Crash st') /\
    evicted sample_only_flushing st' [1] /\
    trace st' = [EvFlushAsyncWait; EvCheckpointDelete 1].
Proof.
  destruct (SCR_Start_checkpoint_evicts_in_order sample_only_flushing
              (mk_desc 1 1 (Some "/ram")) "/ram")
    as (size & st_pass & Hsize & _ & _ & _ & Htr & _ & _ & Hwait).
  - reflexivity.
  - reflexivity.
  - reflexivity.
  - reflexivity.
  - reflexivity.
  - vm_compute. discriminate.
  - intros Hin. vm_compute in Hin.
    apply list_elem_of_singleton in Hin. discriminate.
  - vm_compute in Hsize. injection Hsize as <-.
    assert (Hfull : 1 <= 1 - 0) by lia.
    destruct (Hwait 1 [] Hfull eq_refl)
      as [[(st_w & st' & _ & _ & Hout & Hev & Htrace)
          |(st_h & _ & Hhang & _)] _].
    + exists st'. split; [exact Hout|]. split; [exact Hev|].
      rewrite Htrace, Htr. reflexivity.
    + vm_compute in Hhang. discriminate Hhang.
Defined.

(** On the sample the transfer completes at the second poll: the call
    waits, evicts checkpoint 1 and returns. *)
Example sample_only_flushing_returns :
  exists st',
    SCR_Start_checkpoint sample_only_flushing = Ok SCR_SUCCESS st' /\
    scr_map st' !! 1 = None /\
    trace st' = [EvFlushAsyncWait; EvCheckpointDelete 1].
Proof.
  eexists. split; [vm_compute; reflexivity|].
  split; vm_compute; reflexivity.
Qed.

(** When the transfer never completes the call does not return, and
    checkpoint 1 stays cached. *)
Example sample_transfer_stalled_hangs :
  exists st',
    SCR_Start_checkpoint sample_transfer_stalled = Hang st' /\
    scr_map st' !! 1 = scr_map sample_transfer_stalled !! 1 /\
    trace st' = [EvFlushAsyncWait].
Proof.
  eexists. split; [vm_compute; reflexivity|].
  split; vm_compute; reflexivity.
Qed.

(** When a file of the flushing checkpoint is missing from the cache the
    test of the flush fails in every round and the call does not return. *)
Example sample_flushing_file_lost_hangs :
  scr_check_files (cache (node sample_flushing_file_lost))
    (scr_map sample_flushing_file_lost) 1 = SCR_FAILURE /\
  exists st',
    SCR_Start_checkpoint sample_flushing_file_lost = Hang st' /\
    scr_map st' !! 1 = scr_map sample_flushing_file_lost !! 1 /\
    trace st' = [EvFlushAsyncWait].
Proof.
  split; [vm_compute; reflexivity|].
  eexists. split; [vm_compute; reflexivity|].
  split; vm_compute; reflexivity.
Qed.

End EvictionFacts.

(** ** Streaming a file to a partner *)

Module SwapFacts.
Import Swap CIntFacts.

Example frame_of_five_by_two :
  frame 2 [1; 2; 3; 4; 5] = [[1; 2]; [3; 4]; [5]].
Proof. reflexivity. Qed.

Example frame_of_four_by_two :
  frame 2 [1; 2; 3; 4] = [[1; 2]; [3; 4]; []].
Proof. reflexivity. Qed.

Example swap_copy_sample :
  swap_copy 2 (Some [1; 2; 3; 4; 5]) (Some (frame 2 [6; 7; 8; 9]))
  = Some {| sw_outgoing := frame 2 [1; 2; 3; 4; 5]; sw_unreceived := [];
            sw_file_send := Some [1; 2; 3; 4; 5];
            sw_file_recv := Some [6; 7; 8; 9] |}.
Proof. vm_compute. reflexivity. Qed.

Example swap_move_sample :
  swap_move 2 (Some [1; 2; 3; 4; 5]) (Some (frame 2 [6; 7; 8; 9; 10; 11; 12]))
  = Some {| sw_outgoing := frame 2 [1; 2; 3; 4; 5]; sw_unreceived := [];
            sw_file_send := None;
            sw_file_recv := Some [6; 7; 8; 9; 10; 11; 12] |}.
Proof. vm_compute. reflexivity. Qed.

Example swap_move_shorter :
  swap_move 2 (Some [1; 2; 3; 4; 5]) (Some (frame 2 [6]))
  = Some {| sw_outgoing := frame 2 [1; 2; 3; 4; 5]; sw_unreceived := [];
            sw_file_send := None;
            sw_file_recv := Some [6] |}.
Proof. vm_compute. reflexivity. Qed.

(** *** The framing *)

Lemma frame_from_fuel buf : 0 < buf -> forall fuel fuel' content,
  (length content <= fuel)%nat -> (length content <= fuel')%nat ->
  frame_from fuel buf content = frame_from fuel' buf content.
Proof.
  intros Hbuf. induction fuel as [|fuel IH]; intros fuel' content Hf Hf';
    destruct fuel' as [|fuel']; cbn [frame_from];
    destruct (Z.ltb_spec
                (Z.of_nat (length (take (Z.to_nat buf) content))) buf)
      as [Hlt|Hge]; try reflexivity;
    rewrite length_take in Hge; try lia.
  f_equal. apply IH; rewrite length_drop; lia.
Qed.

Lemma frame_unfold buf content :
  0 < buf ->
  frame buf content
  = if Z.of_nat (length content) <? buf then [content]
    else take (Z.to_nat buf) content
         :: frame buf (drop (Z.to_nat buf) content).
Proof.
  intros Hbuf. unfold frame.
  destruct (Z.ltb_spec (Z.of_nat (length content)) buf) as [Hlt|Hge].
  - destruct (length content) eqn:Hlen; cbn [frame_from];
      rewrite length_take, take_ge by lia;
      destruct (Z.ltb_spec (Z.of_nat (Z.to_nat buf `min` length content))
                  buf); (reflexivity || lia).
  - destruct (length content) as [|n] eqn:Hlen; [lia|].
    cbn [frame_from]. rewrite length_take.
    destruct (Z.ltb_spec (Z.of_nat (Z.to_nat buf `min` length content))
                buf); [lia|].
    f_equal. apply frame_from_fuel; [exact Hbuf| |lia].
    rewrite length_drop. lia.
Qed.

(** The messages of a file put together are the file; every message but
    the last fills the buffer, and the last does not. *)
Lemma frame_shape buf content :
  0 < buf ->
  concat (frame buf content) = content /\
  exists full last,
    frame buf content = full ++ [last] /\
    Forall (fun m => Z.of_nat (length m) = buf) full /\
    Z.of_nat (length last) < buf.
Proof.
  intros Hbuf.
  remember (length content) as n eqn:Hn. revert content Hn.
  induction n as [n IH] using lt_wf_ind. intros content Hn.
  rewrite frame_unfold by exact Hbuf.
  destruct (Z.ltb_spec (Z.of_nat (length content)) buf) as [Hlt|Hge].
  - split; [cbn; apply app_nil_r|].
    exists [], content. split; [reflexivity|]. split; [constructor|lia].
  - destruct (IH (length (drop (Z.to_nat buf) content))
                ltac:(rewrite length_drop; lia)
                (drop (Z.to_nat buf) content) eq_refl)
      as (Hcat & full & last & Hfr & Hfull & Hlast).
    split.
    + cbn [concat]. rewrite Hcat. apply take_drop.
    + exists (take (Z.to_nat buf) content :: full), last.
      rewrite Hfr. split; [reflexivity|]. split; [|exact Hlast].
      constructor; [rewrite length_take; lia|exact Hfull].
Qed.

Lemma frame_nonempty buf content : 0 < buf -> frame buf content <> [].
Proof.
  intros Hbuf. rewrite frame_unfold by exact Hbuf.
  destruct (_ <? _); discriminate.
Qed.

(** *** The loop *)

Lemma swap_loop_inv (step : swap_state -> option swap_state)
    (Inv : swap_state -> Prop) (measure : swap_state -> nat) :
  (forall s, Inv s ->
     truthy (sending s) || truthy (receiving s) = true ->
     exists s', step s = Some s' /\ Inv s' /\ (measure s' < measure s)%nat) ->
  forall fuel s, Inv s -> (measure s <= fuel)%nat ->
  exists s', swap_loop step fuel s = Some s' /\ Inv s' /\
    truthy (sending s') || truthy (receiving s') = false.
Proof.
  intros Hstep. induction fuel as [|fuel IH]; intros s Hinv Hfuel;
    cbn [swap_loop];
    destruct (truthy (sending s) || truthy (receiving s)) eqn:Hactive.
  - destruct (Hstep s Hinv Hactive) as (s' & _ & _ & Hlt). lia.
  - exists s. auto.
  - destruct (Hstep s Hinv Hactive) as (s' & Hs' & Hinv' & Hlt).
    rewrite Hs'. cbn. apply IH; [exact Hinv'|lia].
  - exists s. auto.
Qed.

Lemma bytes_read_length buf (buf_send : list Z) :
  0 < buf <= INT_MAX -> Z.of_nat (length buf_send) <= buf ->
  bytes_read buf_send = Z.of_nat (length buf_send).
Proof.
  intros Hbuf Hlen. unfold bytes_read.
  rewrite wrap_int_id by int_range.
  destruct (Z.ltb_spec (Z.of_nat (length buf_send)) 0); [lia|reflexivity].
Qed.

(** The part of the loop that sends and the part that receives, for
    [COPY_FILES]. *)
Section Copy.
Variable buf : Z.
Variable file : list Z.
Variable received : list Z.
Hypothesis Hbuf : 0 < buf <= INT_MAX.

Local Abbreviation pending s :=
  (if sending s =? 1
   then frame buf (drop (Z.to_nat (read_pos s)) file) else []).

Local Abbreviation to_send s :=
  (if sending s =? 1 then S (length file - Z.to_nat (read_pos s)) else 0%nat).

Local Abbreviation to_receive s :=
  (if receiving s =? 1 then length (incoming s) else 0%nat).

Local Abbreviation receive_inv s :=
  (if receiving s =? 1
   then exists rest, incoming s = frame buf rest /\
          written s ++ rest = received
   else incoming s = [] /\ written s = received).

Lemma copy_send_spec s :
  sending s = 0 \/ sending s = 1 -> 0 <= read_pos s ->
  (sending (copy_send buf file s) = 0 \/
   sending (copy_send buf file s) = 1) /\
  0 <= read_pos (copy_send buf file s) /\
  receiving (copy_send buf file s) = receiving s /\
  incoming (copy_send buf file s) = incoming s /\
  written (copy_send buf file s) = written s /\
  outgoing (copy_send buf file s) ++ pending (copy_send buf file s)
  = outgoing s ++ pending s /\
  (sending s = 1 ->
   (to_send (copy_send buf file s) < to_send s)%nat).
Proof.
  intros [Hs|Hs] Hpos; unfold copy_send, truthy; rewrite Hs; cbn [Z.eqb Pos.eqb negb].
  - rewrite Hs. cbn [Z.eqb Pos.eqb]. repeat split; auto. lia.
  - cbn [sending receiving read_pos write_pos written incoming outgoing].
    set (p := Z.to_nat (read_pos s)).
    assert (Hread : scr_read file (read_pos s) buf
                    = take (Z.to_nat buf) (drop p file)) by reflexivity.
    rewrite Hread.
    rewrite (bytes_read_length buf) by (rewrite ?length_take; lia).
    rewrite Nat2Z.id, (take_ge (take _ _)) by lia.
    rewrite (frame_unfold buf (drop p file)) by lia.
    rewrite length_take, length_drop.
    destruct (Z.ltb_spec (Z.of_nat (Z.to_nat buf `min` (length file - p)))
                buf) as [Hlt|Hge];
      destruct (Z.ltb_spec (Z.of_nat (length file - p)) buf)
        as [Hlt'|Hge']; try lia; cbn [Z.eqb Pos.eqb].
    + rewrite app_nil_r, take_ge by (rewrite length_drop; lia).
      repeat split; auto; lia.
    + rewrite <- app_assoc. cbn [app].
      rewrite drop_drop.
      replace (Z.to_nat (read_pos s
                 + Z.of_nat (Z.to_nat buf `min` (length file - p))))
        with (p + Z.to_nat buf)%nat by lia.
      repeat split; auto; lia.
Qed.

Lemma copy_recv_spec s :
  receiving s = 0 \/ receiving s = 1 -> receive_inv s ->
  exists s', copy_recv buf s = Some s' /\
    sending s' = sending s /\ read_pos s' = read_pos s /\
    outgoing s' = outgoing s /\
    (receiving s' = 0 \/ receiving s' = 1) /\
    receive_inv s' /\
    (receiving s = 1 -> (to_receive s' < to_receive s)%nat).
Proof.
  intros [Hr|Hr] Hinv; unfold copy_recv, truthy; rewrite Hr in *;
    cbn [Z.eqb Pos.eqb negb] in *.
  - exists s. rewrite Hr. cbn [Z.eqb Pos.eqb].
    destruct Hinv as [Hin Hw]. repeat split; auto. lia.
  - destruct Hinv as (rest & Hin & Hw).
    rewrite Hin, (frame_unfold buf rest) by lia.
    destruct (Z.ltb_spec (Z.of_nat (length rest)) buf) as [Hlt|Hge].
    + eexists. split; [reflexivity|].
      cbn [sending receiving read_pos write_pos written incoming outgoing].
      rewrite wrap_int_id by int_range.
      destruct (Z.ltb_spec (Z.of_nat (length rest)) buf); [|lia].
      cbn [Z.eqb Pos.eqb length]. rewrite Nat2Z.id, take_ge by lia.
      repeat split; auto; lia.
    + eexists. split; [reflexivity|].
      cbn [sending receiving read_pos write_pos written incoming outgoing].
      rewrite length_take, wrap_int_id by int_range.
      destruct (Z.ltb_spec (Z.of_nat (Z.to_nat buf `min` length rest)) buf);
        [lia|].
      cbn [Z.eqb Pos.eqb length]. rewrite Nat2Z.id, (take_ge (take _ _))
        by (rewrite length_take; lia).
      split; [reflexivity|]. split; [reflexivity|].
      split; [reflexivity|]. split; [auto|]. split.
      * exists (drop (Z.to_nat buf) rest). split; [reflexivity|].
        rewrite <- app_assoc, take_drop. exact Hw.
      * intros _. lia.
Qed.

Lemma swap_copy_loop fuel s :
  sending s = 0 \/ sending s = 1 -> receiving s = 0 \/ receiving s = 1 ->
  0 <= read_pos s -> receive_inv s ->
  (to_send s + to_receive s <= fuel)%nat ->
  exists s', swap_loop (copy_step buf file) fuel s = Some s' /\
    outgoing s' = outgoing s ++ pending s /\
    incoming s' = [] /\ written s' = received.
Proof.
  intros Hs Hr Hpos Hinv Hfuel.
  destruct (swap_loop_inv (copy_step buf file)
              (fun t =>
                 (sending t = 0 \/ sending t = 1) /\
                 (receiving t = 0 \/ receiving t = 1) /\
                 0 <= read_pos t /\ receive_inv t /\
                 outgoing t ++ pending t = outgoing s ++ pending s)
              (fun t => (to_send t + to_receive t)%nat))
    with (fuel := fuel) (s := s)
    as (s' & Hrun & (Hs' & Hr' & _ & Hinv' & Hout) & Hdone).
  - intros t (Hts & Htr & Htpos & Htinv & Htout) Hactive.
    destruct (copy_send_spec t Hts Htpos)
      as (Hs1 & Hpos1 & Hr1 & Hin1 & Hw1 & Hout1 & Hm1).
    set (t1 := copy_send buf file t) in *.
    assert (Hinv1 : receive_inv t1) by (rewrite Hr1, Hin1, Hw1; exact Htinv).
    destruct (copy_recv_spec t1 ltac:(rewrite Hr1; exact Htr) Hinv1)
      as (t2 & Hrun2 & Hs2 & Hpos2 & Hout2 & Hr2 & Hinv2 & Hm2).
    exists t2. split; [exact Hrun2|]. split.
    + rewrite Hs2, Hpos2, Hout2. repeat split; auto.
      rewrite Hout1. exact Htout.
    + rewrite Hs2, Hpos2.
      unfold truthy in Hactive.
      destruct Hts as [Hts|Hts], Htr as [Htr|Htr];
        rewrite Hts, Htr in Hactive; cbn in Hactive; try discriminate.
      * specialize (Hm2 ltac:(congruence)).
        assert (t1 = t) by (unfold t1, copy_send, truthy; rewrite Hts;
                            reflexivity).
        rewrite Hr1, Hin1 in Hm2. rewrite H. lia.
      * specialize (Hm1 Hts).
        assert (Hsame : copy_recv buf t1 = Some t1)
          by (unfold copy_recv, truthy; rewrite Hr1, Htr; reflexivity).
        rewrite Hsame in Hrun2. inversion Hrun2; subst t2.
        rewrite Hr1, Htr in *. cbn [Z.eqb Pos.eqb] in *. lia.
      * specialize (Hm1 Hts). specialize (Hm2 ltac:(congruence)).
        rewrite Hr1, Hin1 in Hm2. lia.
  - repeat split; auto.
  - exact Hfuel.
  - exists s'. split; [exact Hrun|].
    unfold truthy in Hdone.
    destruct Hs' as [Hs'|Hs'], Hr' as [Hr'|Hr'];
      rewrite Hs', Hr' in *; cbn in Hdone; try discriminate.
    cbn [Z.eqb Pos.eqb] in *. rewrite app_nil_r in Hout.
    destruct Hinv' as [Hin' Hw']. auto.
Qed.

End Copy.

(** X20.  Copying a file to a partner.  With [COPY_FILES], for every
    buffer size of at least one byte, every file to send and every file
    that the partner sends with the same buffer size: the loop ends, the
    messages sent are the file cut into chunks of the buffer size followed
    by one shorter, possibly empty, message, which is the only one that
    does not fill the buffer and so tells the receiver where the file
    ends; the receiver takes exactly the messages of its partner, none is
    left over and no receive waits for a message that is not sent; and the
    file received has the contents of the partner's file, while the file
    sent is unchanged.  The same holds when the process only sends or only
    receives. *)
Theorem swap_copy_transfers buf (file_send file_partner : option (list Z)) :
  0 < buf <= INT_MAX ->
  (forall content,
     concat (frame buf content) = content /\
     exists full last,
       frame buf content = full ++ [last] /\
       Forall (fun m => Z.of_nat (length m) = buf) full /\
       Z.of_nat (length last) < buf) /\
  swap_copy buf file_send (frame buf <$> file_partner)
  = Some {| sw_outgoing := from_option (frame buf) [] file_send;
            sw_unreceived := [];
            sw_file_send := file_send;
            sw_file_recv := file_partner |}.
Proof.
  intros Hbuf. split; [intros content; apply frame_shape; lia|].
  unfold swap_copy.
  set (s0 := swap_start [] (bool_decide (is_Some file_send))
               (bool_decide (is_Some (frame buf <$> file_partner)))
               (default [] (frame buf <$> file_partner))).
  destruct (swap_copy_loop buf (default [] file_send)
              (default [] file_partner) Hbuf
              (swap_fuel file_send (frame buf <$> file_partner)) s0)
    as (s' & Hrun & Hout & Hin & Hw).
  - unfold s0. destruct file_send; cbn; auto.
  - unfold s0. destruct file_partner; cbn; auto.
  - unfold s0. cbn. lia.
  - unfold s0. destruct file_partner as [r|]; cbn; [|auto].
    exists r. auto.
  - unfold s0, swap_fuel.
    destruct file_send, file_partner; cbn; lia.
  - rewrite Hrun. cbn [mbind option_bind]. rewrite Hout, Hin, Hw.
    unfold s0. destruct file_send, file_partner; reflexivity.
Qed.

Lemma swap_copy_transfers_witness :
  (forall content,
     concat (frame 2 content) = content /\
     exists full last,
       frame 2 content = full ++ [last] /\
       Forall (fun m => Z.of_nat (length m) = 2) full /\
       Z.of_nat (length last) < 2) /\
  swap_copy 2 (Some [1; 2; 3; 4]) (frame 2 <$> Some [5; 6; 7])
  = Some {| sw_outgoing := from_option (frame 2) [] (Some [1; 2; 3; 4]);
            sw_unreceived := [];
            sw_file_send := Some [1; 2; 3; 4];
            sw_file_recv := Some [5; 6; 7] |}.
Proof.
  apply (swap_copy_transfers 2 (Some [1; 2; 3; 4]) (Some [5; 6; 7])).
  unfold INT_MAX. lia.
Defined.

(** *** Overwriting in place *)

Lemma write_at_spec content pos buf_recv :
  0 <= pos -> (Z.to_nat pos <= length content)%nat ->
  write_at content pos buf_recv
  = take (Z.to_nat pos) content ++ buf_recv
    ++ drop (Z.to_nat pos + length buf_recv) content.
Proof.
  intros Hpos Hle. unfold write_at. destruct buf_recv as [|z buf_recv].
  - cbn [app length]. rewrite Nat.add_0_r, take_drop. reflexivity.
  - replace (Z.to_nat pos - length content)%nat with 0%nat by lia.
    cbn [replicate]. rewrite app_nil_r. reflexivity.
Qed.

Section Move.
Variable buf : Z.
Variable file : list Z.
Variable received : list Z.
Hypothesis Hbuf : 0 < buf <= INT_MAX.
Hypothesis Hsize : Z.of_nat (length file) <= ULONG_MAX.

Local Abbreviation filesize_send := (Z.of_nat (length file)).

Local Abbreviation pending s :=
  (if sending s =? 1
   then frame buf (drop (Z.to_nat (read_pos s)) file) else []).

Local Abbreviation to_send s :=
  (if sending s =? 1 then S (length file - Z.to_nat (read_pos s)) else 0%nat).

Local Abbreviation to_receive s :=
  (if receiving s =? 1 then length (incoming s) else 0%nat).

(** What was received so far is the front of the file. *)
Local Abbreviation receive_inv s :=
  (if receiving s =? 1
   then exists rest, incoming s = frame buf rest /\
          take (Z.to_nat (write_pos s)) (written s) ++ rest = received
   else incoming s = [] /\
        take (Z.to_nat (write_pos s)) (written s) = received).

(** The part of the file that is still to be sent has not been
    overwritten, with [slack] bytes to spare. *)
Local Abbreviation unsent_inv slack s :=
  (sending s = 1 ->
   write_pos s + slack <= read_pos s /\ 0 <= read_pos s <= filesize_send /\
   drop (Z.to_nat (read_pos s)) (written s)
   = drop (Z.to_nat (read_pos s)) file).

Local Abbreviation size_inv s :=
  (0 <= write_pos s /\
   Z.of_nat (length (written s)) = Z.max (write_pos s) filesize_send).

Lemma move_send_spec s :
  sending s = 0 \/ sending s = 1 -> size_inv s -> unsent_inv 0 s ->
  (sending (move_send buf filesize_send s) = 0 \/
   sending (move_send buf filesize_send s) = 1) /\
  receiving (move_send buf filesize_send s) = receiving s /\
  incoming (move_send buf filesize_send s) = incoming s /\
  written (move_send buf filesize_send s) = written s /\
  write_pos (move_send buf filesize_send s) = write_pos s /\
  unsent_inv buf (move_send buf filesize_send s) /\
  outgoing (move_send buf filesize_send s)
    ++ pending (move_send buf filesize_send s)
  = outgoing s ++ pending s /\
  (sending s = 1 ->
   (to_send (move_send buf filesize_send s) < to_send s)%nat).
Proof.
  intros [Hs|Hs] [Hwp Hlen] Hun; unfold move_send, truthy; rewrite Hs;
    cbn [Z.eqb Pos.eqb negb].
  - rewrite Hs. cbn [Z.eqb Pos.eqb]. repeat split; auto; try lia.
    all: intros Hcontra; rewrite Hs in Hcontra; discriminate.
  - destruct (Hun Hs) as (Hle & Hrp & Hdrop).
    cbn [sending receiving read_pos write_pos written incoming outgoing].
    set (p := Z.to_nat (read_pos s)) in *.
    rewrite wrap_ulong_id by (unfold in_ulong; lia).
    set (count := if filesize_send - read_pos s >? buf then buf
                  else filesize_send - read_pos s).
    assert (Hcount : count = Z.min (filesize_send - read_pos s) buf).
    { unfold count.
      destruct (Z.gtb_spec (filesize_send - read_pos s) buf); lia. }
    assert (Hread : scr_read (written s) (read_pos s) count
                    = take (Z.to_nat count) (drop p file)).
    { unfold scr_read. fold p. rewrite Hdrop. reflexivity. }
    rewrite Hread.
    assert (Hlenread : length (take (Z.to_nat count) (drop p file))
                       = Z.to_nat count).
    { rewrite length_take, length_drop. lia. }
    rewrite (bytes_read_length buf) by (rewrite ?Hlenread; lia).
    rewrite Hlenread, Z2Nat.id by lia.
    rewrite (take_ge (take _ _)) by lia.
    rewrite (frame_unfold buf (drop p file)) by lia.
    rewrite length_drop.
    destruct (Z.ltb_spec (Z.of_nat (length file - p)) buf) as [Hlt|Hge].
    + (* the last message *)
      assert (Hc : count = filesize_send - read_pos s) by lia.
      destruct (Z.eqb_spec filesize_send (read_pos s + count)); [|lia].
      destruct (Z.ltb_spec count buf); [|lia].
      cbn [andb Z.eqb Pos.eqb].
      rewrite app_nil_r, take_ge by (rewrite length_drop; lia).
      repeat split; auto; try lia. all: intros; discriminate.
    + (* a full buffer *)
      assert (Hc : count = buf) by lia.
      destruct (Z.ltb_spec count buf); [lia|].
      rewrite andb_false_r. cbn [Z.eqb Pos.eqb].
      rewrite <- app_assoc. cbn [app]. rewrite drop_drop, Hc.
      replace (Z.to_nat (read_pos s + buf)) with (p + Z.to_nat buf)%nat
        by lia.
      repeat split; auto; try lia.
      rewrite <- !drop_drop, Hdrop. reflexivity.
Qed.

Lemma move_recv_spec s :
  receiving s = 0 \/ receiving s = 1 -> size_inv s -> unsent_inv buf s ->
  receive_inv s ->
  exists s', move_recv buf s = Some s' /\
    sending s' = sending s /\ read_pos s' = read_pos s /\
    outgoing s' = outgoing s /\
    (receiving s' = 0 \/ receiving s' = 1) /\
    size_inv s' /\ unsent_inv 0 s' /\ receive_inv s' /\
    (receiving s = 1 -> (to_receive s' < to_receive s)%nat).
Proof.
  intros [Hr|Hr] [Hwp Hlen] Hun Hinv; unfold move_recv, truthy;
    rewrite Hr in *; cbn [Z.eqb Pos.eqb negb] in *.
  - exists s. rewrite Hr. cbn [Z.eqb Pos.eqb].
    destruct Hinv as [Hin Hw].
    split; [reflexivity|]. split; [reflexivity|]. split; [reflexivity|].
    split; [reflexivity|]. split; [auto|]. split; [auto|].
    split; [|split; [auto|lia]].
    intros Hs. destruct (Hun Hs) as (H1 & H2 & H3).
    split; [lia|]. auto.
  - destruct Hinv as (rest & Hin & Hw).
    assert (Hstep : forall m, Z.of_nat (length m) <= buf ->
      let s' :=
        {| sending := sending s;
           receiving := if Z.of_nat (length m) <? buf then 0 else 1;
           read_pos := read_pos s;
           write_pos := write_pos s + Z.of_nat (length m);
           written := write_at (written s) (write_pos s) m;
           incoming := [];
           outgoing := outgoing s |} in
      size_inv s' /\ unsent_inv 0 s' /\
      take (Z.to_nat (write_pos s')) (written s')
      = take (Z.to_nat (write_pos s)) (written s) ++ m).
    { intros m Hm. cbv zeta.
      cbn [sending receiving read_pos write_pos written incoming outgoing].
      rewrite write_at_spec by lia.
      set (w := written s) in *. set (wp := Z.to_nat (write_pos s)) in *.
      split; [split; [lia|]|split].
      - rewrite !length_app, length_take, length_drop. lia.
      - intros Hs. destruct (Hun Hs) as (Hle & Hrp & Hdrop).
        split; [lia|]. split; [lia|]. rewrite <- Hdrop.
        rewrite drop_app_ge by (rewrite length_take; lia).
        rewrite drop_app_ge by (rewrite length_take; lia).
        rewrite drop_drop, length_take. f_equal. lia.
      - replace (Z.to_nat (write_pos s + Z.of_nat (length m)))
          with (length (take wp w ++ m))
          by (rewrite length_app, length_take; lia).
        rewrite app_assoc, take_app_length. reflexivity. }
    rewrite Hin, (frame_unfold buf rest) by lia.
    destruct (Z.ltb_spec (Z.of_nat (length rest)) buf) as [Hlt|Hge].
    + eexists. split; [reflexivity|].
      cbn [sending receiving read_pos write_pos written incoming outgoing].
      rewrite wrap_int_id by int_range.
      rewrite Nat2Z.id, take_ge by lia.
      destruct (Hstep rest ltac:(lia)) as (Hsz & Hun' & Htake).
      cbv zeta in Hsz, Hun', Htake.
      cbn [sending receiving read_pos write_pos written incoming outgoing]
        in Hsz, Hun', Htake.
      destruct (Z.ltb_spec (Z.of_nat (length rest)) buf); [|lia].
      cbn [Z.eqb Pos.eqb length].
      split; [reflexivity|]. split; [reflexivity|].
      split; [reflexivity|]. split; [auto|]. split; [exact Hsz|].
      split; [exact Hun'|]. split.
      * split; [reflexivity|]. rewrite Htake. exact Hw.
      * intros _. lia.
    + eexists. split; [reflexivity|].
      cbn [sending receiving read_pos write_pos written incoming outgoing].
      rewrite length_take, wrap_int_id by int_range.
      replace (Z.of_nat (Z.to_nat buf `min` length rest)) with buf by lia.
      rewrite (take_ge (take _ _)) by (rewrite length_take; lia).
      destruct (Hstep (take (Z.to_nat buf) rest)
                  ltac:(rewrite length_take; lia)) as (Hsz & Hun' & Htake).
      cbv zeta in Hsz, Hun', Htake.
      cbn [sending receiving read_pos write_pos written incoming outgoing]
        in Hsz, Hun', Htake.
      rewrite length_take in Hsz, Hun', Htake.
      replace (Z.of_nat (Z.to_nat buf `min` length rest)) with buf
        in Hsz, Hun', Htake by lia.
      rewrite Z.ltb_irrefl. cbn [Z.eqb Pos.eqb length].
      split; [reflexivity|]. split; [reflexivity|].
      split; [reflexivity|]. split; [auto|]. split; [exact Hsz|].
      split; [exact Hun'|]. split.
      * exists (drop (Z.to_nat buf) rest). split; [reflexivity|].
        rewrite Htake, <- app_assoc, take_drop. exact Hw.
      * intros _. lia.
Qed.

Lemma swap_move_loop fuel s :
  sending s = 0 \/ sending s = 1 -> receiving s = 0 \/ receiving s = 1 ->
  size_inv s -> unsent_inv 0 s -> receive_inv s ->
  (to_send s + to_receive s <= fuel)%nat ->
  exists s', swap_loop (move_step buf filesize_send) fuel s = Some s' /\
    outgoing s' = outgoing s ++ pending s /\
    incoming s' = [] /\ size_inv s' /\
    take (Z.to_nat (write_pos s')) (written s') = received.
Proof.
  intros Hs Hr Hsz Hun Hinv Hfuel.
  destruct (swap_loop_inv (move_step buf filesize_send)
              (fun t =>
                 (sending t = 0 \/ sending t = 1) /\
                 (receiving t = 0 \/ receiving t = 1) /\
                 size_inv t /\ unsent_inv 0 t /\ receive_inv t /\
                 outgoing t ++ pending t = outgoing s ++ pending s)
              (fun t => (to_send t + to_receive t)%nat))
    with (fuel := fuel) (s := s)
    as (s' & Hrun & (Hs' & Hr' & Hsz' & _ & Hinv' & Hout) & Hdone).
  - intros t (Hts & Htr & Htsz & Htun & Htinv & Htout) Hactive.
    destruct (move_send_spec t Hts Htsz Htun)
      as (Hs1 & Hr1 & Hin1 & Hw1 & Hwp1 & Hun1 & Hout1 & Hm1).
    set (t1 := move_send buf filesize_send t) in *.
    assert (Hinv1 : receive_inv t1)
      by (rewrite Hr1, Hin1, Hw1, Hwp1; exact Htinv).
    assert (Hsz1 : size_inv t1) by (rewrite Hw1, Hwp1; exact Htsz).
    destruct (move_recv_spec t1 ltac:(rewrite Hr1; exact Htr) Hsz1 Hun1
                Hinv1)
      as (t2 & Hrun2 & Hs2 & Hpos2 & Hout2 & Hr2 & Hsz2 & Hun2 & Hinv2
          & Hm2).
    exists t2. split; [exact Hrun2|]. split.
    + split; [rewrite Hs2; exact Hs1|]. split; [exact Hr2|].
      split; [exact Hsz2|]. split; [exact Hun2|]. split; [exact Hinv2|].
      rewrite Hs2, Hpos2, Hout2, Hout1. exact Htout.
    + rewrite Hs2, Hpos2.
      unfold truthy in Hactive.
      destruct Hts as [Hts|Hts], Htr as [Htr|Htr];
        rewrite Hts, Htr in Hactive; cbn in Hactive; try discriminate.
      * specialize (Hm2 ltac:(congruence)).
        assert (t1 = t) by (unfold t1, move_send, truthy; rewrite Hts;
                            reflexivity).
        rewrite Hr1, Hin1 in Hm2. rewrite H. lia.
      * specialize (Hm1 Hts).
        assert (Hsame : move_recv buf t1 = Some t1)
          by (unfold move_recv, truthy; rewrite Hr1, Htr; reflexivity).
        rewrite Hsame in Hrun2. inversion Hrun2; subst t2.
        rewrite Hr1, Htr in *. cbn [Z.eqb Pos.eqb] in *. lia.
      * specialize (Hm1 Hts). specialize (Hm2 ltac:(congruence)).
        rewrite Hr1, Hin1 in Hm2. lia.
  - split; [exact Hs|]. split; [exact Hr|]. split; [exact Hsz|].
    split; [exact Hun|]. split; [exact Hinv|reflexivity].
  - exact Hfuel.
  - exists s'. split; [exact Hrun|].
    unfold truthy in Hdone.
    destruct Hs' as [Hs'|Hs'], Hr' as [Hr'|Hr'];
      rewrite Hs', Hr' in *; cbn in Hdone; try discriminate.
    cbn [Z.eqb Pos.eqb] in *. rewrite app_nil_r in Hout.
    destruct Hinv' as [Hin' Hw']. auto.
Qed.

End Move.

(** X21.  Moving a file in place.  With [MOVE_FILES] a process that
    sends a file and receives one overwrites the file it sends, block by
    block, with the file it receives.  For every buffer size of at least
    one byte, every file to send and every file that the partner sends
    with the same buffer size, shorter or longer than the own: the loop
    ends; the messages sent carry the original contents of the file, so
    no byte is overwritten before it has been sent; every message of the
    partner is received and none is left over; and after the truncation
    and the renaming the file received has exactly the contents of the
    partner's file, while the file sent exists no longer.  A process that
    only sends ends without a file, and one that only receives writes the
    partner's file from scratch. *)
Theorem swap_move_transfers buf (file_send file_partner : option (list Z)) :
  0 < buf <= INT_MAX ->
  Z.of_nat (length (default [] file_send)) <= ULONG_MAX ->
  swap_move buf file_send (frame buf <$> file_partner)
  = Some {| sw_outgoing := from_option (frame buf) [] file_send;
            sw_unreceived := [];
            sw_file_send := None;
            sw_file_recv := file_partner |}.
Proof.
  intros Hbuf Hsize. unfold swap_move. cbv zeta.
  set (s0 := swap_start (default [] file_send)
               (bool_decide (is_Some file_send))
               (bool_decide (is_Some (frame buf <$> file_partner)))
               (default [] (frame buf <$> file_partner))).
  destruct (swap_move_loop buf (default [] file_send)
              (default [] file_partner) Hbuf Hsize
              (swap_fuel file_send (frame buf <$> file_partner)) s0)
    as (s' & Hrun & Hout & Hin & [Hwp Hlen] & Hw).
  - unfold s0. destruct file_send; cbn; auto.
  - unfold s0. destruct file_partner; cbn; auto.
  - unfold s0. cbn. lia.
  - unfold s0. cbn. intros _. split; [lia|]. split; [lia|reflexivity].
  - unfold s0. destruct file_partner as [r|]; cbn; [|auto].
    exists r. auto.
  - unfold s0, swap_fuel.
    destruct file_send, file_partner; cbn; lia.
  - rewrite Hrun. cbn [mbind option_bind]. rewrite Hout, Hin.
    unfold s0.
    destruct file_send as [f|], file_partner as [r|];
      cbn [default from_option fmap option_fmap option_map id] in *;
      try reflexivity.
    + (* sent and received *)
      unfold truncate.
      replace (Z.to_nat (write_pos s') - length (written s'))%nat
        with 0%nat by lia.
      cbn [replicate]. rewrite app_nil_r, Hw. reflexivity.
    + (* only received *)
      rewrite <- Hw. rewrite take_ge by (cbn [length] in Hlen; lia).
      reflexivity.
Qed.

Lemma swap_move_transfers_witness :
  swap_move 2 (Some [1; 2; 3; 4]) (frame 2 <$> Some [5; 6; 7; 8; 9])
  = Some {| sw_outgoing := from_option (frame 2) [] (Some [1; 2; 3; 4]);
            sw_unreceived := [];
            sw_file_send := None;
            sw_file_recv := Some [5; 6; 7; 8; 9] |}.
Proof.
  apply (swap_move_transfers 2 (Some [1; 2; 3; 4]) (Some [5; 6; 7; 8; 9])).
  - unfold INT_MAX. lia.
  - unfold ULONG_MAX. cbn. lia.
Defined.

End SwapFacts.

(** ** Checking the files of a checkpoint before a flush *)

Module CheckFilesFacts.
Import Meta FileMap Library Redundancy CIntFacts MetaFacts FileFacts.

(** Whether [scr_check_files] rejects a file. *)
Local Abbreviation unreadable fs :=
  (fun file : string =>
     (access_R_OK fs file <? 0)
     || negb (fst (scr_meta_read fs file) =? SCR_SUCCESS)
     || negb (scr_meta_is_complete (snd (scr_meta_read fs file))
              =? SCR_SUCCESS)).

Lemma check_file_flag fs failed_read file :
  check_file fs failed_read file
  = if unreadable fs file then 1 else failed_read.
Proof.
  unfold check_file. cbv beta.
  destruct (scr_meta_read fs file) as [rc meta]. cbn [fst snd].
  destruct (access_R_OK fs file <? 0), (rc =? SCR_SUCCESS),
    (scr_meta_is_complete meta =? SCR_SUCCESS); reflexivity.
Qed.

Lemma unreadable_false fs file :
  unreadable fs file = false <->
  (exists f, data fs !! file = Some f /\ f_readable f = true) /\
  exists m, sidecars fs !! file = Some m /\
    exists v, meta_complete m = Some v /\ v <> 0.
Proof.
  cbv beta. rewrite !orb_false_iff, !negb_false_iff.
  rewrite access_R_OK_readable. unfold scr_meta_read.
  destruct (sidecars fs !! file) as [m|]; cbn [fst snd].
  - rewrite !Z.eqb_eq, scr_meta_is_complete_success. split.
    + intros [[Hr _] Hc]. split; [exact Hr|]. exists m. auto.
    + intros [Hr (m' & Hm' & Hc)]. inversion Hm'; subst m'.
      split; [split; [exact Hr|reflexivity]|exact Hc].
  - split.
    + intros [[_ Hcontra] _]. discriminate.
    + intros [_ (m & Hm & _)]. discriminate.
Qed.

Lemma checkpoint_files_elem (map : scr_filemap) id file :
  file ∈ checkpoint_files map id ->
  exists rank, file ∈ files (entry map id rank).
Proof.
  unfold checkpoint_files. intros Hin.
  apply list_elem_of_In, in_concat in Hin as (l & Hl & Hin).
  apply in_map_iff in Hl as (rank & <- & _).
  exists rank. apply list_elem_of_In in Hin.
  unfold scr_filemap_list_files in Hin.
  apply elem_of_elements in Hin. exact Hin.
Qed.

(** X22.  [scr_check_files] returns success or failure, and success
    exactly when every file listed under the checkpoint, for whatever
    rank, is readable and has a sidecar that can be read and is marked
    complete.  It asks less than [scr_bool_have_file]: it succeeds
    whenever every listed file passes [scr_bool_have_file] for the rank
    that lists it, and it looks at neither the size nor the checkpoint id,
    rank and number of ranks that the sidecar records. *)
Theorem scr_check_files_iff (fs : Meta.files) (map : scr_filemap)
    (checkpoint_id scr_ranks_world : Z) :
  (scr_check_files fs map checkpoint_id = SCR_SUCCESS \/
   scr_check_files fs map checkpoint_id = SCR_FAILURE) /\
  (scr_check_files fs map checkpoint_id = SCR_SUCCESS <->
   forall file, file ∈ checkpoint_files map checkpoint_id ->
     (exists f, data fs !! file = Some f /\ f_readable f = true) /\
     exists m, sidecars fs !! file = Some m /\
       exists v, meta_complete m = Some v /\ v <> 0) /\
  ((forall rank file, file ∈ files (entry map checkpoint_id rank) ->
      scr_bool_have_file fs checkpoint_id rank (Some file) scr_ranks_world
      = 1) ->
   scr_check_files fs map checkpoint_id = SCR_SUCCESS).
Proof.
  assert (Hfold : scr_check_files fs map checkpoint_id
    = if existsb (unreadable fs) (checkpoint_files map checkpoint_id)
      then SCR_FAILURE else SCR_SUCCESS).
  { unfold scr_check_files. cbv zeta.
    assert (Hext : forall l flag,
      fold_left (check_file fs) l flag
      = fold_left (fun flag x => if unreadable fs x then 1 else flag)
          l flag).
    { induction l as [|x l IH]; intros flag; cbn [fold_left];
        [reflexivity|].
      rewrite check_file_flag. apply IH. }
    rewrite Hext, fold_left_flag. destruct (existsb _ _); reflexivity. }
  assert (Hiff : scr_check_files fs map checkpoint_id = SCR_SUCCESS <->
    forall file, file ∈ checkpoint_files map checkpoint_id ->
      unreadable fs file = false).
  { rewrite Hfold.
    destruct (existsb _ _) eqn:Hex.
    - split; [discriminate|]. intros Hall.
      apply existsb_exists in Hex as (file & Hin & Hbad).
      rewrite (Hall file) in Hbad by (apply list_elem_of_In; exact Hin).
      discriminate.
    - split; [|reflexivity]. intros _ file Hin.
      destruct (unreadable fs file) eqn:Hbad; [|reflexivity].
      assert (Hex' : existsb (unreadable fs)
                       (checkpoint_files map checkpoint_id) = true).
      { apply existsb_exists. exists file.
        split; [apply list_elem_of_In; exact Hin|exact Hbad]. }
      congruence. }
  split; [|split].
  - rewrite Hfold. destruct (existsb _ _); auto.
  - rewrite Hiff. split; intros Hall file Hin.
    + apply unreadable_false, Hall, Hin.
    + apply unreadable_false, Hall, Hin.
  - intros Hall. apply Hiff. intros file Hin.
    destruct (checkpoint_files_elem map checkpoint_id file Hin)
      as [rank Hrank].
    specialize (Hall rank file Hrank).
    destruct (scr_bool_have_file_spec fs checkpoint_id rank file
                scr_ranks_world) as [[_ Hu]|[Hz _]]; [|congruence].
    destruct Hu as (_ & Hr & m & Hm & Hc & _).
    apply unreadable_false. split; [exact Hr|]. exists m. auto.
Qed.

End CheckFilesFacts.

(** ** The schedule of [scr_distribute_files] *)

Module DistributeFacts.
Import Descriptors FileMap Rebuild Distribute CIntFacts.

Example sample_restart_schedule :
  held 1 (sample_holder [1; 2]) = [1; 2] /\
  map (retrieve_of sample_restart 1) [0; 1; 2] = [(1, 0); (0, 0); (0, 1)] /\
  max_rounds sample_restart 1 = 1 /\
  map (send_rank sample_restart 1 0 (sample_holder [1; 2])) [0; 1]
  = [Some 1; Some 2] /\
  reaches_rounds sample_restart 1 SCR_COPY_LOCAL = true.
Proof. vm_compute. repeat split. Qed.

Lemma scr_hash_exchange_elem send_hashes me src round :
  (src, round) ∈ scr_hash_exchange send_hashes me <->
  exists (n : nat) send_hash rank,
    src = Z.of_nat n /\ send_hashes !! n = Some send_hash /\
    List.find (fun '(rank, _) => rank =? me) send_hash = Some (rank, round).
Proof.
  unfold scr_hash_exchange. rewrite list_elem_of_omap. split.
  - intros [o [Ho Hid]]. cbn in Hid. subst o.
    apply elem_of_lookup_imap in Ho as (n & send_hash & Heq & Hn).
    destruct (List.find _ send_hash) as [[rank round']|] eqn:Hfind;
      [|discriminate].
    injection Heq as -> ->. exists n, send_hash, rank. auto.
  - intros (n & send_hash & rank & -> & Hn & Hfind).
    exists (Some (Z.of_nat n, round)). split; [|reflexivity].
    apply elem_of_lookup_imap. exists n, send_hash. rewrite Hfind. auto.
Qed.

Lemma find_addressed (me : Z) (send_hash : list (Z * Z)) rank round :
  List.find (fun '(rank, _) => rank =? me) send_hash = Some (rank, round) ->
  rank = me /\ (me, round) ∈ send_hash.
Proof.
  intros Hfind. apply find_some in Hfind as [Hin Heq].
  apply Z.eqb_eq in Heq. subst rank. split; [reflexivity|].
  apply list_elem_of_In. exact Hin.
Qed.

Lemma retrieve_fold (recv_hash : list (Z * Z)) acc :
  let step := fun '(retrieve_rank, retrieve_round) '(rank, round) =>
       if (round <? retrieve_round) || (retrieve_round =? -1)
       then (rank, round) else (retrieve_rank, retrieve_round) in
  0 <= snd acc -> Forall (fun x => 0 <= snd x) recv_hash ->
  let r := fold_left step recv_hash acc in
  r ∈ acc :: recv_hash /\ snd r <= snd acc /\
  Forall (fun x => snd r <= snd x) recv_hash.
Proof.
  intros step. revert acc.
  induction recv_hash as [|[rank round] l IH]; intros acc Hacc Hall; cbn.
  - split; [left|]. split; [lia|constructor].
  - apply Forall_cons in Hall as [Hx Hall]. cbn in Hx.
    destruct acc as [retrieve_rank retrieve_round]. cbn in Hacc.
    cbn [step].
    destruct ((round <? retrieve_round) || (retrieve_round =? -1))
      eqn:Hlt.
    + assert (round < retrieve_round) by
        (apply orb_true_iff in Hlt as [Hlt|Hlt]; lia).
      destruct (IH (rank, round) Hx Hall) as (Hin & Hle & Hmin).
      cbn in Hle.
      split; [right; exact Hin|]. split; [cbn; lia|].
      constructor; [exact Hle|exact Hmin].
    + apply orb_false_iff in Hlt as [Hlt _]. apply Z.ltb_ge in Hlt.
      destruct (IH (retrieve_rank, retrieve_round) Hacc Hall)
        as (Hin & Hle & Hmin). cbn in Hle.
      split.
      * apply elem_of_cons in Hin as [Hin|Hin];
          [rewrite Hin; left|right; right; exact Hin].
      * split; [exact Hle|]. constructor; [cbn; lia|exact Hmin].
Qed.

(** The retrieved pair is the initial [(-1, -1)] exactly when nothing was
    received, and otherwise a received pair with the least round. *)
Lemma retrieve_spec (recv_hash : list (Z * Z)) :
  Forall (fun x => 0 <= snd x) recv_hash ->
  (recv_hash = [] /\ retrieve recv_hash = (-1, -1)) \/
  (retrieve recv_hash ∈ recv_hash /\
   Forall (fun x => snd (retrieve recv_hash) <= snd x) recv_hash).
Proof.
  intros Hall. destruct recv_hash as [|[rank round] l]; [left; auto|].
  right. apply Forall_cons in Hall as [Hx Hall]. cbn in Hx.
  unfold retrieve. cbn [fold_left].
  replace ((round <? -1) || (-1 =? -1)) with true
    by (symmetry; apply orb_true_r).
  destruct (retrieve_fold l (rank, round) Hx Hall) as (Hin & Hle & Hmin).
  split; [exact Hin|]. constructor; [exact Hle|exact Hmin].
Qed.

Lemma send_flags_fold (recv_hash : list (Z * Z)) nranks flags round :
  let step := fun send_flag_by_round '(_, round) =>
       if (round >=? 0) && (round <? nranks)
       then <[Z.to_nat round := 1]> send_flag_by_round
       else send_flag_by_round in
  0 <= round < nranks -> length flags = Z.to_nat nranks ->
  truthy (default 0 (fold_left step recv_hash flags !! Z.to_nat round))
  = true <->
  truthy (default 0 (flags !! Z.to_nat round)) = true \/
  exists src : Z, (src, round) ∈ recv_hash.
Proof.
  intros step Hround. revert flags.
  induction recv_hash as [|[src round'] l IH]; intros flags Hlen; cbn.
  - split; [auto|]. intros [H|[src Hsrc]]; [exact H|].
    apply elem_of_nil in Hsrc. contradiction.
  - cbn [step]. destruct ((round' >=? 0) && (round' <? nranks)) eqn:Hin.
    + apply andb_true_iff in Hin as [Hge Hlt].
      rewrite IH by (rewrite length_insert; exact Hlen).
      destruct (decide (round' = round)) as [->|Hne].
      * rewrite list_lookup_insert_eq by lia. cbn.
        split; intros _; [right; exists src; left|left; reflexivity].
      * rewrite list_lookup_insert_ne by lia.
        split; (intros [H|[src' Hsrc]]; [left; exact H|right]).
        -- exists src'. right. exact Hsrc.
        -- apply elem_of_cons in Hsrc as [Heq|Hsrc];
             [congruence|exists src'; exact Hsrc].
    + rewrite IH by exact Hlen.
      split; (intros [H|[src' Hsrc]]; [left; exact H|right]).
      * exists src'. right. exact Hsrc.
      * apply elem_of_cons in Hsrc as [Heq|Hsrc];
          [|exists src'; exact Hsrc].
        injection Heq as -> ->.
        apply andb_false_iff in Hin. lia.
Qed.

Lemma send_flags_spec (recv_hash : list (Z * Z)) nranks round :
  0 <= round < nranks ->
  truthy (default 0 (send_flags nranks recv_hash !! Z.to_nat round)) = true
  <-> exists src : Z, (src, round) ∈ recv_hash.
Proof.
  intros Hround. unfold send_flags.
  rewrite send_flags_fold by (try rewrite length_replicate; auto).
  rewrite lookup_replicate_2 by lia. cbn.
  split; [intros [H|H]; [discriminate|exact H]|auto].
Qed.

(** The scan of the ranks: the start index is an index of the list, and no
    invalid rank is found exactly when every rank is one of the world. *)
Lemma scan_ranks_fold scr_ranks_world me (l : list (Z * Z)) acc n :
  let step := fun '(start_index, invalid_rank_found) '(i, rank) =>
       (if rank >=? me then i else start_index,
        if (rank <? 0) || (rank >=? scr_ranks_world) then 1
        else invalid_rank_found) : Z * Z in
  Forall (fun x => 0 <= fst x < n) l -> 0 <= fst acc < n ->
  0 <= fst (fold_left step l acc) < n /\
  (snd (fold_left step l acc) = 0 <->
   snd acc = 0 /\ Forall (fun x => 0 <= snd x < scr_ranks_world) l).
Proof.
  intros step. revert acc.
  induction l as [|[i rank] l IH]; intros [start invalid] Hall Hacc; cbn.
  - split; [exact Hacc|]. split; [auto|tauto].
  - apply Forall_cons in Hall as [Hi Hall]. cbn in Hi, Hacc.
    cbn [step].
    match goal with
    | |- context [fold_left step l ?a] =>
        destruct (IH a Hall) as [Hrange Hvalid]
    end.
    { cbn. destruct (rank >=? me); lia. }
    split; [exact Hrange|]. rewrite Hvalid, Forall_cons. cbn.
    destruct ((rank <? 0) || (rank >=? scr_ranks_world)) eqn:Hbad.
    + apply orb_true_iff in Hbad. split; [lia|]. intros (_ & Hr & _). lia.
    + apply orb_false_iff in Hbad. split; [intros []|intros (? & ? & ?)];
        repeat split; auto; lia.
Qed.

Lemma scan_ranks_spec scr_ranks_world me ranks :
  (ranks <> [] ->
   0 <= fst (scan_ranks scr_ranks_world me ranks)
   < Z.of_nat (length ranks)) /\
  (snd (scan_ranks scr_ranks_world me ranks) = 0 <->
   Forall (fun rank => 0 <= rank < scr_ranks_world) ranks).
Proof.
  unfold scan_ranks.
  set (l := rev (imap (fun (i : nat) rank => (Z.of_nat i, rank)) ranks)).
  assert (Hidx : Forall (fun x : Z * Z =>
                           0 <= fst x < Z.max 1 (Z.of_nat (length ranks)))
                   l).
  { apply Forall_rev, Forall_forall. intros [i rank] Hin.
    apply elem_of_lookup_imap in Hin as (k & rank' & [= -> ->] & Hk).
    apply lookup_lt_Some in Hk. cbn. lia. }
  destruct (scan_ranks_fold scr_ranks_world me l (0, 0) _ Hidx)
    as [Hrange Hvalid]; [cbn; lia|].
  split.
  - intros Hne. destruct ranks; [congruence|]. cbn [length] in *. lia.
  - rewrite Hvalid. cbn. subst l.
    set (l := imap (fun (i : nat) rank => (Z.of_nat i, rank)) ranks).
    assert (Hrev : Forall (fun x : Z * Z => 0 <= snd x < scr_ranks_world)
                     (rev l)
                   <-> Forall (fun x : Z * Z => 0 <= snd x < scr_ranks_world)
                         l).
    { split; [|apply Forall_rev]. intros H. apply Forall_rev in H.
      rewrite rev_involutive in H. exact H. }
    rewrite Hrev. subst l. clear Hrev.
    split.
    + intros [_ Hall]. apply Forall_forall. intros rank Hin.
      apply list_elem_of_lookup in Hin as [i Hi].
      rewrite Forall_forall in Hall.
      apply (Hall (Z.of_nat i, rank)).
      apply elem_of_lookup_imap. exists i, rank. auto.
    + intros Hall. split; [reflexivity|]. apply Forall_forall.
      intros [i rank] Hin.
      apply elem_of_lookup_imap in Hin as (k & rank' & [= -> ->] & Hk).
      rewrite Forall_forall in Hall. cbn.
      apply Hall. eapply list_elem_of_lookup_2. exact Hk.
Qed.

(** The rounds visit every rank of the list. *)
Lemma have_rank_by_round_visits (ranks : list Z) start_index rank :
  2 * Z.of_nat (length ranks) <= INT_MAX ->
  0 <= start_index < Z.of_nat (length ranks) -> rank ∈ ranks ->
  exists round, 0 <= round < Z.of_nat (length ranks) /\
    have_rank_by_round ranks start_index round = Some rank.
Proof.
  intros Hfit Hstart Hin. apply list_elem_of_lookup in Hin as [i Hi].
  pose proof (lookup_lt_Some _ _ _ Hi) as Hlt.
  set (n := Z.of_nat (length ranks)) in *.
  assert (Hmax : INT_MAX = 2147483647) by reflexivity.
  assert (Hmin : INT_MIN = -2147483648) by reflexivity.
  unfold have_rank_by_round. fold n.
  destruct (Z_le_gt_dec start_index (Z.of_nat i)) as [Hle|Hgt].
  - exists (Z.of_nat i - start_index). split; [lia|].
    unfold int_add. rewrite wrap_int_id by (unfold in_int; lia).
    rewrite int_rem_nonneg by lia.
    replace (start_index + (Z.of_nat i - start_index)) with (Z.of_nat i)
      by lia.
    rewrite Z.mod_small by lia. rewrite Nat2Z.id. exact Hi.
  - exists (Z.of_nat i - start_index + n). split; [lia|].
    unfold int_add. rewrite wrap_int_id by (unfold in_int; lia).
    rewrite int_rem_nonneg by lia.
    replace (start_index + (Z.of_nat i - start_index + n))
      with (Z.of_nat i + 1 * n) by lia.
    rewrite Z_mod_plus_full, Z.mod_small by lia.
    rewrite Nat2Z.id. exact Hi.
Qed.

(** Two rounds never visit the same position of the list. *)
Lemma have_rank_by_round_inj (ranks : list Z) start_index round round' rank :
  NoDup ranks -> 2 * Z.of_nat (length ranks) <= INT_MAX ->
  0 <= start_index < Z.of_nat (length ranks) ->
  0 <= round < Z.of_nat (length ranks) ->
  0 <= round' < Z.of_nat (length ranks) ->
  have_rank_by_round ranks start_index round = Some rank ->
  have_rank_by_round ranks start_index round' = Some rank ->
  round = round'.
Proof.
  intros Hnd Hfit Hstart Hround Hround'.
  set (n := Z.of_nat (length ranks)) in *.
  assert (Hmax : INT_MAX = 2147483647) by reflexivity.
  assert (Hmin : INT_MIN = -2147483648) by reflexivity.
  assert (Hmod : forall s, 0 <= s < 2 * n -> 0 < n ->
            s mod n = if s <? n then s else s - n).
  { intros s Hs Hn. destruct (s <? n) eqn:Hlt.
    - apply Z.mod_small. lia.
    - apply Z.ltb_ge in Hlt.
      replace s with (s - n + 1 * n) at 1 by lia.
      rewrite Z_mod_plus_full. apply Z.mod_small. lia. }
  unfold have_rank_by_round. fold n. unfold int_add.
  rewrite !wrap_int_id by (unfold in_int; lia).
  rewrite !int_rem_nonneg by lia. rewrite !Hmod by lia.
  intros H1 H2.
  pose proof (NoDup_lookup _ _ _ _ Hnd H1 H2) as Heq.
  destruct (start_index + round <? n) eqn:E1;
    destruct (start_index + round' <? n) eqn:E2;
    try apply Z.ltb_lt in E1; try apply Z.ltb_ge in E1;
    try apply Z.ltb_lt in E2; try apply Z.ltb_ge in E2; lia.
Qed.

Lemma scr_alltrue_imap {A} (f : nat -> A -> bool) (l : list A) :
  truthy (scr_alltrue (imap (fun i x => of_bool (f i x)) l)) = true <->
  forall i x, l !! i = Some x -> f i x = true.
Proof.
  unfold scr_alltrue.
  destruct (forallb truthy _) eqn:Hall; cbn.
  - split; [intros _|reflexivity]. intros i x Hi.
    rewrite forallb_forall in Hall.
    specialize (Hall (of_bool (f i x))).
    destruct (f i x) eqn:Hf; [reflexivity|]. cbn in Hall.
    apply Hall, list_elem_of_In, elem_of_lookup_imap. exists i, x.
    rewrite Hf. auto.
  - split; [discriminate|]. intros Hf. exfalso.
    apply not_true_iff_false in Hall. apply Hall.
    apply forallb_forall. intros flag Hin.
    apply list_elem_of_In, elem_of_lookup_imap in Hin
      as (i & x & -> & Hi).
    rewrite (Hf i x Hi). reflexivity.
Qed.

Lemma none_or_some {A} (f : A -> bool) (l : list A) :
  ~ Forall (fun x => f x = false) l <-> Exists (fun x => f x = true) l.
Proof.
  induction l as [|x l IH].
  - split; [intros H; destruct H; constructor|intros H; inversion H].
  - rewrite Forall_cons, Exists_cons, <- IH.
    destruct (f x); split.
    + auto.
    + intros _ [H _]. discriminate.
    + intros H. right. intros Hl. apply H. auto.
    + intros [H|H]; [discriminate|]. intros [_ Hl]. auto.
Qed.

Lemma have_files_held fs scr_ranks_world map checkpoint_id rank :
  truthy (scr_bool_have_files fs scr_ranks_world map checkpoint_id rank)
  = true ->
  rank ∈ scr_filemap_list_ranks_by_checkpoint map checkpoint_id.
Proof.
  unfold scr_bool_have_files, scr_filemap_have_rank_by_checkpoint.
  destruct (bool_decide _) eqn:Hhave; [|discriminate]. intros _.
  apply bool_decide_eq_true in Hhave as [e He].
  apply LibraryFacts.scr_filemap_list_ranks_elem, elem_of_dom.
  destruct (map !! checkpoint_id) as [ranks|]; [|discriminate].
  cbn in *. eauto.
Qed.

Section Schedule.
Variable world : list holder.
Variable checkpoint_id : Z.

Lemma offers_elem me h rank round :
  (rank, round) ∈ offers world checkpoint_id me h <->
  0 <= round < Z.of_nat (length (held checkpoint_id h)) /\
  have_rank_by_round (held checkpoint_id h)
    (start_index world checkpoint_id me h) round = Some rank /\
  truthy (scr_bool_have_files (hl_cache h) (scr_ranks_world world)
            (hl_map h) checkpoint_id rank) = true.
Proof.
  unfold offers. rewrite list_elem_of_omap. split.
  - intros [round' [Hround Hsome]]. apply elem_of_seqZ in Hround.
    destruct (have_rank_by_round _ _ round') as [rank'|] eqn:Hrank;
      [|discriminate].
    destruct (truthy _) eqn:Hhave; [|discriminate].
    injection Hsome as -> ->. split; [lia|]. auto.
  - intros (Hround & Hrank & Hhave). exists round.
    split; [apply elem_of_seqZ; lia|]. rewrite Hrank, Hhave. reflexivity.
Qed.

(** What a process receives in the first exchange: the processes that hold
    all of its files, each with the round it gave. *)
Lemma offered_elem me src round :
  (src, round) ∈ scr_hash_exchange (all_offers world checkpoint_id) me ->
  exists (p : nat) hp,
    src = Z.of_nat p /\ world !! p = Some hp /\
    (me, round) ∈ offers world checkpoint_id (Z.of_nat p) hp.
Proof.
  intros Hin. apply scr_hash_exchange_elem in Hin
    as (m & send_hash & rank & -> & Hm & Hfind).
  unfold all_offers in Hm. rewrite list_lookup_imap in Hm.
  destruct (world !! m) as [hm|] eqn:Hw; [|discriminate].
  injection Hm as <-. apply find_addressed in Hfind as [_ Hin].
  exists m, hm. auto.
Qed.

Lemma received_rounds me :
  Forall (fun x => 0 <= snd x)
    (scr_hash_exchange (all_offers world checkpoint_id) me).
Proof.
  apply Forall_forall. intros [src round] Hin. cbn.
  apply offered_elem in Hin as (p & hp & _ & _ & Hin).
  apply offers_elem in Hin. lia.
Qed.

(** The process either retrieves nothing, with rank and round -1, or
    retrieves from a process that offered its files, in the least round
    offered to it. *)
Lemma retrieve_of_spec me :
  let recv_hash := scr_hash_exchange (all_offers world checkpoint_id) me in
  (recv_hash = [] /\ retrieve_of world checkpoint_id me = (-1, -1)) \/
  (retrieve_of world checkpoint_id me ∈ recv_hash /\
   0 <= snd (retrieve_of world checkpoint_id me) /\
   Forall (fun x => snd (retrieve_of world checkpoint_id me) <= snd x)
     recv_hash).
Proof.
  intros recv_hash. unfold retrieve_of. fold recv_hash.
  destruct (retrieve_spec recv_hash (received_rounds me))
    as [H|[Hin Hmin]]; [left; exact H|right].
  split; [exact Hin|]. split; [|exact Hmin].
  pose proof (received_rounds me) as Hall. fold recv_hash in Hall.
  rewrite Forall_forall in Hall. apply (Hall _ Hin).
Qed.

(** What a process receives in the second exchange: the processes that
    retrieve from it, each with its round. *)
Lemma requested_elem me src round :
  (src, round) ∈ scr_hash_exchange (all_requests world checkpoint_id) me <->
  exists q : nat,
    src = Z.of_nat q /\ (q < length world)%nat /\ me <> -1 /\
    retrieve_of world checkpoint_id (Z.of_nat q) = (me, round).
Proof.
  rewrite scr_hash_exchange_elem. unfold all_requests, request. split.
  - intros (q & send_hash & rank & -> & Hq & Hfind).
    rewrite list_lookup_imap in Hq.
    destruct (world !! q) as [hq|] eqn:Hw; [|discriminate].
    injection Hq as <-. exists q.
    split; [reflexivity|]. split; [eapply lookup_lt_Some; exact Hw|].
    destruct (retrieve_of world checkpoint_id (Z.of_nat q))
      as [retrieve_rank retrieve_round].
    destruct (retrieve_rank =? -1) eqn:Hnone; [discriminate|].
    apply Z.eqb_neq in Hnone. cbn in Hfind.
    destruct (retrieve_rank =? me) eqn:Hme; [|discriminate].
    apply Z.eqb_eq in Hme. injection Hfind as _ ->. subst me. auto.
  - intros (q & -> & Hq & Hme & Hret).
    apply lookup_lt_is_Some in Hq as [hq Hw].
    exists q, [(me, round)], me. split; [reflexivity|].
    rewrite list_lookup_imap, Hw, Hret. cbn.
    replace (me =? -1) with false by (symmetry; apply Z.eqb_neq; exact Hme).
    cbn. rewrite Z.eqb_refl. auto.
Qed.

(** The send side of a round in terms of the retrievals. *)
Lemma send_rank_spec (p : nat) hp round dst :
  world !! p = Some hp -> 0 <= round ->
  send_rank world checkpoint_id (Z.of_nat p) hp round = Some dst <->
  exists q : nat,
    dst = Z.of_nat q /\ (q < length world)%nat /\
    retrieve_of world checkpoint_id (Z.of_nat q) = (Z.of_nat p, round).
Proof.
  intros Hp Hround. unfold send_rank.
  assert (Hoffer : forall q : nat,
    retrieve_of world checkpoint_id (Z.of_nat q) = (Z.of_nat p, round) ->
    (Z.of_nat q, round) ∈ offers world checkpoint_id (Z.of_nat p) hp).
  { intros q Hret.
    destruct (retrieve_of_spec (Z.of_nat q)) as [[_ Hnone]|(Hin & _)];
      [rewrite Hret in Hnone; injection Hnone; lia|].
    rewrite Hret in Hin.
    apply offered_elem in Hin as (p' & hp' & Hsrc & Hp' & Hin).
    apply Nat2Z.inj in Hsrc. subst p'. congruence. }
  split.
  - destruct (round <? _) eqn:Hlt; [|discriminate].
    apply Z.ltb_lt in Hlt.
    destruct (truthy _) eqn:Hflag; [|discriminate].
    intros Hrank. unfold send_flag_by_round in Hflag.
    apply send_flags_spec in Hflag as [src Hsrc]; [|lia].
    apply requested_elem in Hsrc as (q & -> & Hq & _ & Hret).
    exists q. split; [|auto].
    apply Hoffer, offers_elem in Hret as (_ & Hrank' & _). congruence.
  - intros (q & -> & Hq & Hret).
    pose proof (Hoffer q Hret) as Hin.
    apply offers_elem in Hin as (Hrange & Hrank & _).
    replace (round <? _) with true by (symmetry; apply Z.ltb_lt; lia).
    replace (truthy _) with true; [exact Hrank|].
    symmetry. unfold send_flag_by_round.
    apply send_flags_spec; [lia|]. exists (Z.of_nat q).
    apply requested_elem. exists q. repeat split; auto. lia.
Qed.

(** A process retrieves nothing exactly when no process holds all of its
    files. *)
Lemma retrieve_of_none me :
  Forall (fun h => 2 * Z.of_nat (length (held checkpoint_id h)) <= INT_MAX)
    world ->
  fst (retrieve_of world checkpoint_id me) = -1 <->
  Forall (fun h =>
            truthy (scr_bool_have_files (hl_cache h) (scr_ranks_world world)
                      (hl_map h) checkpoint_id me) = false) world.
Proof.
  intros Hfit. split.
  - intros Hnone. apply Forall_forall. intros h Hin.
    destruct (truthy _) eqn:Hhave; [exfalso|reflexivity].
    apply list_elem_of_lookup in Hin as [p Hp].
    rewrite Forall_forall in Hfit.
    pose proof (Hfit h (list_elem_of_lookup_2 _ _ _ Hp)) as Hfit_h.
    cbv beta in Hfit_h.
    pose proof (have_files_held _ _ _ _ _ Hhave) as Hheld.
    fold (held checkpoint_id h) in Hheld.
    destruct (have_rank_by_round_visits (held checkpoint_id h)
                (start_index world checkpoint_id (Z.of_nat p) h) me Hfit_h)
      as (round & Hround & Hrank); [|exact Hheld|].
    { apply scan_ranks_spec. intros Hnil. rewrite Hnil in Hheld.
      apply elem_of_nil in Hheld. exact Hheld. }
    assert (Hoff : (me, round) ∈ offers world checkpoint_id (Z.of_nat p) h)
      by (apply offers_elem; auto).
    apply list_elem_of_In in Hoff.
    destruct (List.find (fun '(rank, _) => rank =? me)
                (offers world checkpoint_id (Z.of_nat p) h))
      as [[rank round']|] eqn:Hfind.
    + assert (Hrecv : (Z.of_nat p, round')
                ∈ scr_hash_exchange (all_offers world checkpoint_id) me).
      { apply scr_hash_exchange_elem.
        exists p, (offers world checkpoint_id (Z.of_nat p) h), rank.
        split; [reflexivity|]. split; [|exact Hfind].
        unfold all_offers. rewrite list_lookup_imap, Hp. reflexivity. }
      destruct (retrieve_of_spec me) as [[Hnil _]|(Hin & _)].
      * rewrite Hnil in Hrecv. apply elem_of_nil in Hrecv. exact Hrecv.
      * destruct (retrieve_of world checkpoint_id me) as [src r].
        apply offered_elem in Hin as (p' & _ & -> & _). cbn in Hnone. lia.
    + apply (find_none _ _ Hfind) in Hoff. cbn in Hoff.
      rewrite Z.eqb_refl in Hoff. discriminate.
  - intros Hall.
    destruct (retrieve_of_spec me) as [[_ ->]|(Hin & _)]; [reflexivity|].
    exfalso. destruct (retrieve_of world checkpoint_id me) as [src r].
    apply offered_elem in Hin as (p & hp & _ & Hp & Hin).
    apply offers_elem in Hin as (_ & _ & Hhave).
    rewrite Forall_forall in Hall.
    rewrite (Hall hp (list_elem_of_lookup_2 _ _ _ Hp)) in Hhave.
    discriminate.
Qed.

End Schedule.

(** X23. [scr_distribute_files] pairs its transfers.  In a round of the
    exchange loop (round at least 0), process p of the world decides to
    send to rank q exactly when q is a process of the world that decided
    to receive from p in the same round, so every send has its matching
    receive; the process sent to is a rank of the world whose files the
    sender holds completely ([scr_bool_have_files]), the round is below
    the count of ranks the sender holds files for, and it is at most
    [max_rounds], so the transfer is inside the loop. *)
Theorem scr_distribute_files_pairs world checkpoint_id (p : nat) hp round :
  world !! p = Some hp -> 0 <= round ->
  (forall q : nat, (q < length world)%nat ->
     send_rank world checkpoint_id (Z.of_nat p) hp round
     = Some (Z.of_nat q) <->
     recv_rank world checkpoint_id (Z.of_nat q) round
     = Some (Z.of_nat p)) /\
  (forall dst,
     send_rank world checkpoint_id (Z.of_nat p) hp round = Some dst ->
     0 <= dst < scr_ranks_world world /\
     truthy (scr_bool_have_files (hl_cache hp) (scr_ranks_world world)
               (hl_map hp) checkpoint_id dst) = true /\
     round < Z.of_nat (length (held checkpoint_id hp)) /\
     round <= max_rounds world checkpoint_id).
Proof.
  intros Hp Hround. split.
  - intros q Hq. rewrite (send_rank_spec _ _ _ _ _ _ Hp Hround).
    unfold recv_rank. split.
    + intros (q' & Heq & _ & Hret). apply Nat2Z.inj in Heq. subst q'.
      rewrite Hret. cbn. rewrite Z.eqb_refl. reflexivity.
    + destruct (retrieve_of world checkpoint_id (Z.of_nat q))
        as [retrieve_rank retrieve_round] eqn:Hret. cbn.
      destruct (retrieve_round =? round) eqn:Heq; [|discriminate].
      apply Z.eqb_eq in Heq. intros [= ->]. subst. exists q. auto.
  - intros dst Hsend.
    pose proof Hsend as Hflag.
    apply (send_rank_spec _ _ _ _ _ _ Hp Hround) in Hsend
      as (q & -> & Hq & Hret).
    unfold scr_ranks_world. split; [lia|].
    destruct (retrieve_of_spec world checkpoint_id (Z.of_nat q))
      as [[_ Hnone]|(Hin & _)];
      [rewrite Hret in Hnone; injection Hnone; lia|].
    rewrite Hret in Hin.
    apply offered_elem in Hin as (p' & hp' & Hsrc & Hp' & Hin).
    apply Nat2Z.inj in Hsrc. subst p'.
    assert (hp' = hp) by congruence. subst hp'.
    apply offers_elem in Hin as (Hrange & _ & Hhave).
    split; [exact Hhave|]. split; [lia|].
    unfold max_rounds.
    apply lookup_lt_is_Some in Hq as [hq Hw].
    assert (Hin : round ∈ imap (fun rank (_ : holder) =>
                snd (retrieve_of world checkpoint_id (Z.of_nat rank)))
              world).
    { apply elem_of_lookup_imap. exists q, hq. rewrite Hret. auto. }
    destruct (imap _ world) as [|v vals]; [apply elem_of_nil in Hin as []|].
    apply (RebuildFacts.allreduce_max_int_spec v vals). exact Hin.
Qed.

Lemma scr_distribute_files_pairs_witness :
  (forall q : nat, (q < length sample_restart)%nat ->
     send_rank sample_restart 1 0 (sample_holder [1; 2]) 1
     = Some (Z.of_nat q) <->
     recv_rank sample_restart 1 (Z.of_nat q) 1 = Some 0) /\
  (forall dst,
     send_rank sample_restart 1 0 (sample_holder [1; 2]) 1 = Some dst ->
     0 <= dst < scr_ranks_world sample_restart /\
     truthy (scr_bool_have_files (hl_cache (sample_holder [1; 2]))
               (scr_ranks_world sample_restart)
               (hl_map (sample_holder [1; 2])) 1 dst) = true /\
     1 < Z.of_nat (length (held 1 (sample_holder [1; 2]))) /\
     1 <= max_rounds sample_restart 1).
Proof.
  apply (scr_distribute_files_pairs sample_restart 1 0%nat
           (sample_holder [1; 2]) 1); [reflexivity|lia].
Defined.

(** X24. What a process retrieves in [scr_distribute_files], when twice
    the count of ranks any process holds files for fits an [int].  Its
    [retrieve_rank] stays -1 exactly when no process of the world holds
    all of its files ([scr_bool_have_files]).  Otherwise the retrieve
    rank is a process of the world that holds all of them and sends them
    in the retrieve round; and that round is the least one: no process
    that holds all of the files would send them in an earlier round. *)
Theorem scr_distribute_files_retrieves world checkpoint_id me :
  Forall (fun h => 2 * Z.of_nat (length (held checkpoint_id h)) <= INT_MAX)
    world ->
  let retrieve_rank := fst (retrieve_of world checkpoint_id me) in
  let retrieve_round := snd (retrieve_of world checkpoint_id me) in
  (retrieve_rank = -1 <->
   Forall (fun h =>
             truthy (scr_bool_have_files (hl_cache h)
                       (scr_ranks_world world) (hl_map h) checkpoint_id me)
             = false) world) /\
  (retrieve_rank <> -1 ->
   exists (p : nat) hp,
     retrieve_rank = Z.of_nat p /\ world !! p = Some hp /\
     truthy (scr_bool_have_files (hl_cache hp) (scr_ranks_world world)
               (hl_map hp) checkpoint_id me) = true /\
     0 <= retrieve_round < Z.of_nat (length (held checkpoint_id hp)) /\
     have_rank_by_round (held checkpoint_id hp)
       (start_index world checkpoint_id (Z.of_nat p) hp) retrieve_round
     = Some me) /\
  (forall (p : nat) hp round,
     world !! p = Some hp ->
     truthy (scr_bool_have_files (hl_cache hp) (scr_ranks_world world)
               (hl_map hp) checkpoint_id me) = true ->
     0 <= round < Z.of_nat (length (held checkpoint_id hp)) ->
     have_rank_by_round (held checkpoint_id hp)
       (start_index world checkpoint_id (Z.of_nat p) hp) round = Some me ->
     retrieve_round <= round).
Proof.
  intros Hfit retrieve_rank retrieve_round.
  split; [apply retrieve_of_none; exact Hfit|].
  subst retrieve_rank retrieve_round. split.
  - intros Hsome.
    destruct (retrieve_of_spec world checkpoint_id me)
      as [[_ Hnone]|(Hin & _)]; [rewrite Hnone in Hsome; contradiction|].
    destruct (retrieve_of world checkpoint_id me) as [src r]. cbn.
    apply offered_elem in Hin as (p & hp & -> & Hp & Hin).
    apply offers_elem in Hin as (Hround & Hrank & Hhave).
    exists p, hp. auto.
  - intros p hp round Hp Hhave Hround Hrank.
    assert (Hoff : (me, round) ∈ offers world checkpoint_id (Z.of_nat p) hp)
      by (apply offers_elem; auto).
    apply list_elem_of_In in Hoff.
    destruct (List.find (fun '(rank, _) => rank =? me)
                (offers world checkpoint_id (Z.of_nat p) hp))
      as [[rank round']|] eqn:Hfind.
    + assert (Hrecv : (Z.of_nat p, round')
                ∈ scr_hash_exchange (all_offers world checkpoint_id) me).
      { apply scr_hash_exchange_elem.
        exists p, (offers world checkpoint_id (Z.of_nat p) hp), rank.
        split; [reflexivity|]. split; [|exact Hfind].
        unfold all_offers. rewrite list_lookup_imap, Hp. reflexivity. }
      apply find_addressed in Hfind as [-> Hin'].
      apply offers_elem in Hin' as (Hround' & Hrank' & _).
      assert (round' = round).
      { rewrite Forall_forall in Hfit.
        pose proof (Hfit hp (list_elem_of_lookup_2 _ _ _ Hp)) as Hfit_hp.
        cbv beta in Hfit_hp.
        apply (have_rank_by_round_inj (held checkpoint_id hp)
                 (start_index world checkpoint_id (Z.of_nat p) hp)
                 round' round me); auto.
        - apply LibraryFacts.scr_filemap_list_ranks_ascending.
        - apply scan_ranks_spec. intros Hnil. rewrite Hnil in Hround.
          cbn in Hround. lia. }
      subst round'.
      destruct (retrieve_of_spec world checkpoint_id me)
        as [[Hnil _]|(_ & _ & Hmin)].
      * rewrite Hnil in Hrecv. apply elem_of_nil in Hrecv as [].
      * rewrite Forall_forall in Hmin. apply (Hmin _ Hrecv).
    + apply (find_none _ _ Hfind) in Hoff. cbn in Hoff.
      rewrite Z.eqb_refl in Hoff. discriminate.
Qed.

Lemma scr_distribute_files_retrieves_witness :
  (fst (retrieve_of sample_restart 1 2) = -1 <->
   Forall (fun h =>
             truthy (scr_bool_have_files (hl_cache h)
                       (scr_ranks_world sample_restart) (hl_map h) 1 2)
             = false) sample_restart) /\
  (fst (retrieve_of sample_restart 1 2) <> -1 ->
   exists (p : nat) hp,
     fst (retrieve_of sample_restart 1 2) = Z.of_nat p /\
     sample_restart !! p = Some hp /\
     truthy (scr_bool_have_files (hl_cache hp)
               (scr_ranks_world sample_restart) (hl_map hp) 1 2) = true /\
     0 <= snd (retrieve_of sample_restart 1 2)
     < Z.of_nat (length (held 1 hp)) /\
     have_rank_by_round (held 1 hp)
       (start_index sample_restart 1 (Z.of_nat p) hp)
       (snd (retrieve_of sample_restart 1 2)) = Some 2) /\
  (forall (p : nat) hp round,
     sample_restart !! p = Some hp ->
     truthy (scr_bool_have_files (hl_cache hp)
               (scr_ranks_world sample_restart) (hl_map hp) 1 2) = true ->
     0 <= round < Z.of_nat (length (held 1 hp)) ->
     have_rank_by_round (held 1 hp)
       (start_index sample_restart 1 (Z.of_nat p) hp) round = Some 2 ->
     snd (retrieve_of sample_restart 1 2) <= round).
Proof.
  apply (scr_distribute_files_retrieves sample_restart 1 2).
  repeat constructor; vm_compute; discriminate.
Defined.

(** X25. When [scr_distribute_files] goes on to exchange files (twice
    the count of ranks any process holds files for fits an [int]).  It
    returns [SCR_FAILURE] before the rounds unless every rank listed in
    the filemap of every process for the checkpoint is a rank of the world
    and, when the redundancy scheme is not XOR, every process of the world
    has its files held completely ([scr_bool_have_files]) by some
    process.  Under XOR missing files do not stop it. *)
Theorem scr_distribute_files_reaches_rounds world checkpoint_id copy_type :
  Forall (fun h => 2 * Z.of_nat (length (held checkpoint_id h)) <= INT_MAX)
    world ->
  reaches_rounds world checkpoint_id copy_type = true <->
  Forall (fun h =>
            Forall (fun rank => 0 <= rank < scr_ranks_world world)
              (held checkpoint_id h)) world /\
  (copy_type = SCR_COPY_XOR \/
   forall q : nat, (q < length world)%nat ->
     Exists (fun h =>
               truthy (scr_bool_have_files (hl_cache h)
                         (scr_ranks_world world) (hl_map h) checkpoint_id
                         (Z.of_nat q)) = true) world).
Proof.
  intros Hfit. unfold reaches_rounds.
  rewrite andb_true_iff, orb_true_iff, bool_decide_eq_true.
  rewrite !scr_alltrue_imap.
  assert (Hvalid :
    (forall (i : nat) h, world !! i = Some h ->
       (invalid_rank_found world checkpoint_id (Z.of_nat i) h =? 0) = true)
    <-> Forall (fun h =>
                  Forall (fun rank => 0 <= rank < scr_ranks_world world)
                    (held checkpoint_id h)) world).
  { rewrite Forall_forall. split.
    - intros H h Hin. apply list_elem_of_lookup in Hin as [i Hi].
      specialize (H i h Hi). apply Z.eqb_eq in H.
      apply scan_ranks_spec in H. exact H.
    - intros H i h Hi. apply Z.eqb_eq. apply scan_ranks_spec.
      apply H. eapply list_elem_of_lookup_2. exact Hi. }
  assert (Hget :
    (forall (i : nat) (h : holder), world !! i = Some h ->
       negb (fst (retrieve_of world checkpoint_id (Z.of_nat i)) =? -1)
       = true)
    <-> forall q : nat, (q < length world)%nat ->
          Exists (fun h =>
                    truthy (scr_bool_have_files (hl_cache h)
                              (scr_ranks_world world) (hl_map h)
                              checkpoint_id (Z.of_nat q)) = true) world).
  { split.
    - intros H q Hq. apply lookup_lt_is_Some in Hq as [h Hh].
      specialize (H q h Hh). apply negb_true_iff, Z.eqb_neq in H.
      apply none_or_some. intros Hnone. apply H.
      apply retrieve_of_none; assumption.
    - intros H i h Hi. apply negb_true_iff, Z.eqb_neq.
      intros Hnone. apply (retrieve_of_none _ _ _ Hfit) in Hnone.
      apply lookup_lt_Some in Hi. specialize (H i Hi).
      apply none_or_some in H. contradiction. }
  rewrite Hvalid, Hget. reflexivity.
Qed.

Lemma scr_distribute_files_reaches_rounds_witness :
  reaches_rounds sample_restart 1 SCR_COPY_PARTNER = true <->
  Forall (fun h =>
            Forall (fun rank => 0 <= rank < scr_ranks_world sample_restart)
              (held 1 h)) sample_restart /\
  (SCR_COPY_PARTNER = SCR_COPY_XOR \/
   forall q : nat, (q < length sample_restart)%nat ->
     Exists (fun h =>
               truthy (scr_bool_have_files (hl_cache h)
                         (scr_ranks_world sample_restart) (hl_map h) 1
                         (Z.of_nat q)) = true) sample_restart).
Proof.
  apply (scr_distribute_files_reaches_rounds sample_restart 1
           SCR_COPY_PARTNER).
  repeat constructor; vm_compute; discriminate.
Defined.

End DistributeFacts.

(** ** The partner copy *)

Module PartnerCopyFacts.
Import Descriptors FileMap Library Redundancy PartnerCopy CIntFacts.

Example scr_copy_partner_sample :
  (r ← scr_copy_partner 1024 sample_split_path sample_build_path
         (fun _ => SCR_SUCCESS) sample_pair 1 (sample_party 1 ["c.ckpt"]);
   Some (cp_rc r, cp_swaps r,
         scr_filemap_list_files (cp_map r) 1 0,
         scr_filemap_num_expected_files (cp_map r) 1 0))
  = Some
      (SCR_SUCCESS,
       [{| sc_file_send := Some "c.ckpt"; sc_rank_send := Some 0;
           sc_file_recv := Some "/ram/scr/checkpoint.1/a.ckpt";
           sc_rank_recv := Some 0 |};
        {| sc_file_send := None; sc_rank_send := None;
           sc_file_recv := Some "/ram/scr/checkpoint.1/b.ckpt";
           sc_rank_recv := Some 0 |}],
       ["/ram/scr/checkpoint.1/a.ckpt"; "/ram/scr/checkpoint.1/b.ckpt"], 2).
Proof. vm_compute. reflexivity. Qed.

Lemma checkpoint_dir_name_nonempty prefix checkpoint_id :
  checkpoint_dir_name prefix checkpoint_id <> EmptyString.
Proof.
  unfold checkpoint_dir_name. destruct prefix; cbn; discriminate.
Qed.

Lemma entry_set_entry_ne (map : scr_filemap) ckpt rank e ckpt' rank' :
  (ckpt', rank') <> (ckpt, rank) ->
  entry (set_entry map ckpt rank e) ckpt' rank' = entry map ckpt' rank'.
Proof.
  intros Hne. unfold entry, set_entry.
  destruct (decide (ckpt' = ckpt)) as [->|Hc].
  - rewrite lookup_insert_eq. cbn.
    rewrite lookup_insert_ne by congruence.
    destruct (map !! ckpt); reflexivity.
  - rewrite lookup_insert_ne by congruence. reflexivity.
Qed.

(** The entry of a rank after the names of files have been added. *)
Lemma add_files_entry (names : list string) (map : scr_filemap) ckpt rank :
  let map' :=
    fold_left (fun map name => scr_filemap_add_file map ckpt rank name)
      names map in
  files (entry map' ckpt rank)
  = list_to_set names ∪ files (entry map ckpt rank) /\
  expected_count (entry map' ckpt rank)
  = expected_count (entry map ckpt rank) /\
  descriptor_hash (entry map' ckpt rank)
  = descriptor_hash (entry map ckpt rank) /\
  tags (entry map' ckpt rank) = tags (entry map ckpt rank) /\
  forall ckpt' rank', (ckpt', rank') <> (ckpt, rank) ->
    entry map' ckpt' rank' = entry map ckpt' rank'.
Proof.
  revert map. induction names as [|name names IH]; intros map; cbn.
  - rewrite union_empty_l_L. repeat split; auto.
  - destruct (IH (scr_filemap_add_file map ckpt rank name))
      as (Hf & He & Hd & Ht & Hother).
    cbv zeta in Hf, He, Hd, Ht, Hother.
    rewrite Hf, He, Hd, Ht.
    unfold scr_filemap_add_file at 1 2 3 4.
    rewrite !LibraryFacts.entry_set_entry. cbn.
    split;
      [rewrite (union_comm_L {[name]} (list_to_set names));
       rewrite union_assoc_L; reflexivity|].
    repeat split; auto.
    intros ckpt' rank' Hne. rewrite (Hother _ _ Hne).
    unfold scr_filemap_add_file. apply entry_set_entry_ne. exact Hne.
Qed.

Lemma rc_after_spec (swap_rc : nat -> Z) (steps : list nat) rc :
  rc_after swap_rc rc steps
  = if forallb (fun step => swap_rc step =? SCR_SUCCESS) steps
    then rc else SCR_FAILURE.
Proof.
  revert rc. induction steps as [|step steps IH]; intros rc; cbn.
  - reflexivity.
  - unfold rc_after in IH. rewrite IH.
    destruct (swap_rc step =? SCR_SUCCESS); cbn; [reflexivity|].
    destruct (forallb _ steps); reflexivity.
Qed.

Section CopyPartner.
Variable SCR_MAX_FILENAME : Z.
Variable scr_split_path : string -> string * string.
Variable scr_build_path : Z -> string -> string -> Z * string.
Variable swap_rc : nat -> Z.
Variable comm : list party.
Variable checkpoint_id : Z.

Abbreviation own_files := (PartnerCopy.own_files checkpoint_id).
Abbreviation partner_name :=
  (PartnerCopy.partner_name SCR_MAX_FILENAME scr_split_path scr_build_path).
Abbreviation swap_in_step :=
  (PartnerCopy.swap_in_step SCR_MAX_FILENAME scr_split_path scr_build_path
     checkpoint_id).
Abbreviation rc_after := (PartnerCopy.rc_after swap_rc).
Abbreviation copy_loop :=
  (PartnerCopy.copy_loop SCR_MAX_FILENAME scr_split_path scr_build_path
     swap_rc checkpoint_id).

(** The loop from a step on: it ends after the larger of the two counts
    of files, records the names of the files of the left partner in their
    order, and calls [scr_swap_files] as [swap_in_step] says. *)
Lemma copy_loop_spec (p lhs : party) (ckpt_dir : string) :
  let c := pt_desc p in
  let n := length (own_files p) in
  let nl := length (own_files lhs) in
  Z.of_nat n <= INT_MAX -> Z.of_nat nl <= INT_MAX ->
  ckpt_dir <> EmptyString ->
  Forall (fun file =>
            file <> EmptyString /\
            Z.of_nat (String.length file) + 1 <= SCR_MAX_FILENAME)
    (own_files lhs) ->
  forall fuel step rc map map_file swaps,
    (Nat.max n nl - step <= fuel)%nat ->
    copy_loop fuel c lhs (own_files p) ckpt_dir step
      (Z.max 0 (Z.of_nat n - Z.of_nat step))
      (Z.max 0 (Z.of_nat nl - Z.of_nat step)) rc map map_file swaps
    = let map' :=
        fold_left
          (fun map name =>
             scr_filemap_add_file map checkpoint_id (lhs_rank_world c) name)
          (partner_name ckpt_dir <$> drop step (own_files lhs)) map in
      let steps := seq step (Nat.max n nl - step) in
      Some {| cp_rc := rc_after rc steps;
              cp_map := map';
              cp_map_file :=
                if decide (step < nl)%nat then map' else map_file;
              cp_swaps := swaps ++ (swap_in_step p lhs ckpt_dir <$> steps)
           |}.
Proof.
  intros c n nl Hn Hnl Hdir Hnames.
  assert (Hlen_n : length (own_files p) = n) by reflexivity.
  assert (Hlen_nl : length (own_files lhs) = nl) by reflexivity.
  clearbody n nl.
  assert (Hmax : INT_MAX = 2147483647) by reflexivity.
  assert (Hmin : INT_MIN = -2147483648) by reflexivity.
  assert (Hdone : forall step rc map map_file swaps fuel,
    (Nat.max n nl <= step)%nat ->
    copy_loop fuel c lhs (own_files p) ckpt_dir step
      (Z.max 0 (Z.of_nat n - Z.of_nat step))
      (Z.max 0 (Z.of_nat nl - Z.of_nat step)) rc map map_file swaps
    = let map' :=
        fold_left
          (fun map name =>
             scr_filemap_add_file map checkpoint_id (lhs_rank_world c) name)
          (partner_name ckpt_dir <$> drop step (own_files lhs)) map in
      let steps := seq step (Nat.max n nl - step) in
      Some {| cp_rc := rc_after rc steps;
              cp_map := map';
              cp_map_file :=
                if decide (step < nl)%nat then map' else map_file;
              cp_swaps := swaps ++ (swap_in_step p lhs ckpt_dir <$> steps)
           |}).
  { intros step rc map map_file swaps fuel Hle.
    replace (Nat.max n nl - step)%nat with 0%nat by lia.
    cbn [seq fmap list_fmap PartnerCopy.rc_after fold_left].
    rewrite drop_ge by lia. cbn [fmap list_fmap fold_left].
    rewrite (Z.max_l 0 (Z.of_nat n - Z.of_nat step)) by lia.
    rewrite (Z.max_l 0 (Z.of_nat nl - Z.of_nat step)) by lia.
    rewrite app_nil_r. destruct fuel; cbn; case_decide; try lia;
      reflexivity. }
  induction fuel as [|fuel IH]; intros step rc map map_file swaps Hfuel.
  { apply Hdone. lia. }
  destruct (decide (Nat.max n nl <= step)%nat) as [Hle|Hmore];
    [apply Hdone; exact Hle|].
  replace (Nat.max n nl - step)%nat
    with (S (Nat.max n nl - S step)) by lia.
  cbn [seq fmap list_fmap PartnerCopy.rc_after fold_left].
  cbn [PartnerCopy.copy_loop].
  replace ((Z.max 0 (Z.of_nat n - Z.of_nat step) >? 0)
           || (Z.max 0 (Z.of_nat nl - Z.of_nat step) >? 0))
    with true
    by (symmetry; apply orb_true_iff; rewrite !Z.gtb_ltb, !Z.ltb_lt; lia).
  unfold PartnerCopy.send_in_step. rewrite Hlen_n, Hlen_nl.
  assert (Hpos : forall a, 0 < a -> (a >? 0) = true)
    by (intros a Ha; rewrite Z.gtb_ltb; apply Z.ltb_lt; exact Ha).
  assert (Hzero : forall a, a <= 0 -> (a >? 0) = false)
    by (intros a Ha; rewrite Z.gtb_ltb; apply Z.ltb_ge; exact Ha).
  (* what this process sends in the step *)
  assert (Hsend :
    (if Z.max 0 (Z.of_nat n - Z.of_nat step) >? 0
     then (own_files p
             !! Z.to_nat (int_sub (Z.of_nat n)
                            (Z.max 0 (Z.of_nat n - Z.of_nat step))),
           Some (rhs_rank c),
           int_sub (Z.max 0 (Z.of_nat n - Z.of_nat step)) 1)
     else (None, None, Z.max 0 (Z.of_nat n - Z.of_nat step)))
    = (own_files p !! step,
       if decide (step < length (own_files p))%nat
       then Some (rhs_rank c) else None,
       Z.max 0 (Z.of_nat n - Z.of_nat (S step)))).
  { rewrite Hlen_n. case_decide.
    - rewrite (Z.max_r 0 (Z.of_nat n - Z.of_nat step)) by lia.
      rewrite Hpos by lia. unfold int_sub.
      rewrite !wrap_int_id by (unfold in_int; lia).
      replace (Z.to_nat (Z.of_nat n - (Z.of_nat n - Z.of_nat step)))
        with step by lia.
      replace (Z.of_nat n - Z.of_nat step - 1)
        with (Z.max 0 (Z.of_nat n - Z.of_nat (S step))) by lia.
      reflexivity.
    - rewrite (Z.max_l 0 (Z.of_nat n - Z.of_nat step)) by lia.
      rewrite Hzero by lia.
      rewrite (lookup_ge_None_2 (own_files p) step) by lia.
      replace (Z.max 0 (Z.of_nat n - Z.of_nat (S step))) with 0 by lia.
      reflexivity. }
  rewrite Hsend. clear Hsend.
  destruct (decide (step < nl)%nat) as [Hr|Hr].
  - (* a file of the left partner is received *)
    rewrite (Z.max_r 0 (Z.of_nat nl - Z.of_nat step)) by lia.
    rewrite !Hpos by lia. unfold int_sub at 1 2.
    rewrite !wrap_int_id by (unfold in_int; lia).
    replace (Z.to_nat (Z.of_nat nl - (Z.of_nat nl - Z.of_nat step)))
      with step by lia.
    destruct (lookup_lt_is_Some_2 (own_files lhs) step ltac:(lia))
      as [file Hfile].
    rewrite Hfile.
    rewrite Forall_forall in Hnames.
    destruct (Hnames file (list_elem_of_lookup_2 _ _ _ Hfile))
      as [Hne Hlen].
    unfold outgoing_name. rewrite bool_decide_true by exact Hne.
    unfold scr_swap_file_names.
    rewrite bool_decide_true by eauto.
    rewrite bool_decide_true by exact Hdir. cbn [andb].
    replace (Z.of_nat (String.length file) + 1 <=? SCR_MAX_FILENAME)
      with true by (symmetry; apply Z.leb_le; exact Hlen).
    assert (Hname :
      (let '(_, name) := scr_split_path file in
       Some (Some (snd (scr_build_path SCR_MAX_FILENAME ckpt_dir name))))
      = Some (Some (partner_name ckpt_dir file))).
    { unfold PartnerCopy.partner_name.
      destruct (scr_split_path file). reflexivity. }
    rewrite Hname. clear Hname.
    replace (Z.of_nat nl - Z.of_nat step - 1)
      with (Z.max 0 (Z.of_nat nl - Z.of_nat (S step))) by lia.
    rewrite IH by lia. cbv zeta.
    rewrite (drop_S _ _ _ Hfile). cbn [fmap list_fmap fold_left].
    rewrite <- app_assoc. cbn [app].
    f_equal. f_equal.
    + destruct (decide (S step < nl)%nat) as [Hs|Hs]; [reflexivity|].
      rewrite drop_ge by lia. reflexivity.
    + do 2 f_equal. unfold PartnerCopy.swap_in_step.
      fold c. rewrite Hfile. cbn [fmap option_fmap option_map].
      repeat case_decide; try lia; reflexivity.
  - (* nothing is received *)
    rewrite !Hzero by lia.
    unfold outgoing_name, scr_swap_file_names.
    rewrite bool_decide_false by (intros [? ?]; discriminate).
    cbn [andb].
    replace (Z.max 0 (Z.of_nat nl - Z.of_nat step))
      with (Z.max 0 (Z.of_nat nl - Z.of_nat (S step))) by lia.
    rewrite IH by lia. cbv zeta.
    rewrite !drop_ge by lia. cbn [fmap list_fmap fold_left].
    rewrite <- app_assoc. cbn [app].
    rewrite decide_False by lia.
    do 3 f_equal. unfold PartnerCopy.swap_in_step. fold c.
    rewrite (lookup_ge_None_2 (own_files lhs) step) by lia.
    cbn [fmap option_fmap option_map].
    repeat case_decide; try lia; reflexivity.
Qed.

Abbreviation scr_copy_partner :=
  (PartnerCopy.scr_copy_partner SCR_MAX_FILENAME scr_split_path
     scr_build_path swap_rc comm checkpoint_id).
Abbreviation peer := (PartnerCopy.peer comm).
Abbreviation files_fit :=
  (PartnerCopy.files_fit SCR_MAX_FILENAME checkpoint_id).

(** The whole function in closed form. *)
Lemma scr_copy_partner_spec (p lhs rhs : party) (dir : string) :
  let c := pt_desc p in
  peer (lhs_rank c) = Some lhs -> peer (rhs_rank c) = Some rhs ->
  rhs_rank (pt_desc lhs) = my_rank c -> lhs_rank (pt_desc rhs) = my_rank c ->
  directory c = Some dir ->
  Z.of_nat (length (own_files p)) <= INT_MAX -> files_fit lhs ->
  scr_copy_partner p
  = let ckpt_dir := checkpoint_dir_name dir checkpoint_id in
    let steps :=
      seq 0 (Nat.max (length (own_files p)) (length (own_files lhs))) in
    let map :=
      fold_left
        (fun map name =>
           scr_filemap_add_file map checkpoint_id (lhs_rank_world c) name)
        (partner_name ckpt_dir <$> own_files lhs)
        (scr_filemap_set_desc
           (scr_filemap_set_tag
              (scr_filemap_set_expected_files (pt_map p) checkpoint_id
                 (lhs_rank_world c)
                 (Z.of_nat (length (own_files lhs))))
              checkpoint_id (lhs_rank_world c) SCR_FILEMAP_KEY_PARTNER
              (lhs_hostname c))
           checkpoint_id (lhs_rank_world c)
           (scr_ckptdesc_store_to_hash (pt_desc lhs))) in
    Some {| cp_rc := rc_after SCR_SUCCESS steps; cp_map := map;
            cp_map_file := map;
            cp_swaps := swap_in_step p lhs ckpt_dir <$> steps |}.
Proof.
  intros c Hlhs Hrhs Hback Hforth Hdir Hn [Hnl Hnames].
  unfold PartnerCopy.scr_copy_partner, sendrecv. fold c.
  rewrite Hlhs, Hrhs. cbn [mbind option_bind].
  rewrite Hback, Hforth, Z.eqb_refl. cbn [andb mbind option_bind].
  rewrite Hdir. cbn [mbind option_bind].
  match goal with
  | |- PartnerCopy.copy_loop _ _ _ _ _ ?fuel _ _ _ _ _ _ _ ?rc ?map _ _ = _ =>
      pose proof (copy_loop_spec p lhs
                    (checkpoint_dir_name dir checkpoint_id) Hn Hnl
                    (checkpoint_dir_name_nonempty dir checkpoint_id)
                    Hnames fuel 0%nat rc map map []) as Hloop
  end.
  cbv zeta in Hloop. fold c in Hloop.
  rewrite Nat.sub_0_r, drop_0 in Hloop. cbn [app] in Hloop.
  replace (Z.max 0 (Z.of_nat (length (own_files p)) - Z.of_nat 0))
    with (Z.of_nat (length (own_files p))) in Hloop by lia.
  replace (Z.max 0 (Z.of_nat (length (own_files lhs)) - Z.of_nat 0))
    with (Z.of_nat (length (own_files lhs))) in Hloop by lia.
  rewrite Hloop by lia. cbv zeta.
  case_decide; [reflexivity|].
  destruct (own_files lhs); [reflexivity|cbn [length] in *; lia].
Qed.

End CopyPartner.

(** X26.  What [scr_copy_partner] records.  For a process whose left
    partner sends to it and whose right partner receives from it, whose
    descriptor has a directory and whose count of files is an [int], and
    whose left partner has files with names that are not empty and fit
    the receive buffer: the call returns; the filemap written to the map
    file is the one in memory; under the world rank of the left partner
    the filemap holds the count of that partner's files as expected
    count, the names of those files moved into the own checkpoint
    directory beside what was listed before, the hostname of the partner
    as [PARTNER] tag and the partner's descriptor hash; no other entry
    changes.  If the moved names differ from each other and nothing was
    listed before, the count of listed files equals the expected count.
    The code returned is [SCR_SUCCESS] exactly when every call of
    [scr_swap_files] returned it, otherwise [SCR_FAILURE]. *)
Theorem scr_copy_partner_records (SCR_MAX_FILENAME : Z)
    (scr_split_path : string -> string * string)
    (scr_build_path : Z -> string -> string -> Z * string)
    (swap_rc : nat -> Z) (comm : list party) (checkpoint_id : Z)
    (p lhs rhs : party) (dir : string) :
  let c := pt_desc p in
  let lhs_files := own_files checkpoint_id lhs in
  let names :=
    partner_name SCR_MAX_FILENAME scr_split_path scr_build_path
      (checkpoint_dir_name dir checkpoint_id) <$> lhs_files in
  let steps := Nat.max (length (own_files checkpoint_id p))
                 (length lhs_files) in
  peer comm (lhs_rank c) = Some lhs -> peer comm (rhs_rank c) = Some rhs ->
  rhs_rank (pt_desc lhs) = my_rank c -> lhs_rank (pt_desc rhs) = my_rank c ->
  directory c = Some dir ->
  Z.of_nat (length (own_files checkpoint_id p)) <= INT_MAX ->
  files_fit SCR_MAX_FILENAME checkpoint_id lhs ->
  exists r,
    scr_copy_partner SCR_MAX_FILENAME scr_split_path scr_build_path swap_rc
      comm checkpoint_id p = Some r /\
    cp_map_file r = cp_map r /\
    length (cp_swaps r) = steps /\
    (let e := entry (cp_map r) checkpoint_id (lhs_rank_world c) in
     let e0 := entry (pt_map p) checkpoint_id (lhs_rank_world c) in
     expected_count e = Some (Z.of_nat (length lhs_files)) /\
     files e = list_to_set names ∪ files e0 /\
     tags e = <[SCR_FILEMAP_KEY_PARTNER := lhs_hostname c]> (tags e0) /\
     descriptor_hash e = Some (scr_ckptdesc_store_to_hash (pt_desc lhs))) /\
    (forall ckpt rank, (ckpt, rank) <> (checkpoint_id, lhs_rank_world c) ->
       entry (cp_map r) ckpt rank = entry (pt_map p) ckpt rank) /\
    (NoDup names ->
     files (entry (pt_map p) checkpoint_id (lhs_rank_world c)) = ∅ ->
     scr_filemap_num_files (cp_map r) checkpoint_id (lhs_rank_world c)
     = scr_filemap_num_expected_files (cp_map r) checkpoint_id
         (lhs_rank_world c)) /\
    (cp_rc r = SCR_SUCCESS \/ cp_rc r = SCR_FAILURE) /\
    (cp_rc r = SCR_SUCCESS <->
     forall step : nat, (step < steps)%nat -> swap_rc step = SCR_SUCCESS).
Proof.
  intros c lhs_files names steps Hlhs Hrhs Hback Hforth Hdir Hn Hfit.
  rewrite (scr_copy_partner_spec _ _ _ _ _ _ p lhs rhs dir
             Hlhs Hrhs Hback Hforth Hdir Hn Hfit).
  cbv zeta. fold c lhs_files names steps.
  eexists. split; [reflexivity|]. cbn [cp_map cp_map_file cp_swaps cp_rc].
  split; [reflexivity|].
  split; [rewrite length_fmap, length_seq; reflexivity|].
  match goal with
  | |- context [fold_left ?f names ?m] =>
      destruct (add_files_entry names m checkpoint_id (lhs_rank_world c))
        as (Hf & He & Hd & Ht & Hother);
      set (map0 := m) in *
  end.
  cbv zeta in Hf, He, Hd, Ht, Hother.
  assert (Hentry0 :
    entry map0 checkpoint_id (lhs_rank_world c)
    = {| files := files (entry (pt_map p) checkpoint_id (lhs_rank_world c));
         expected_count := Some (Z.of_nat (length lhs_files));
         descriptor_hash :=
           Some (scr_ckptdesc_store_to_hash (pt_desc lhs));
         tags := <[SCR_FILEMAP_KEY_PARTNER := lhs_hostname c]>
                   (tags (entry (pt_map p) checkpoint_id
                            (lhs_rank_world c))) |}).
  { subst map0.
    unfold scr_filemap_set_desc, scr_filemap_set_tag,
      scr_filemap_set_expected_files.
    rewrite !LibraryFacts.entry_set_entry. reflexivity. }
  rewrite Hentry0 in Hf, He, Hd, Ht. cbn in Hf, He, Hd, Ht.
  split; [auto|].
  split.
  { intros ckpt rank Hne. rewrite (Hother _ _ Hne). subst map0.
    unfold scr_filemap_set_desc, scr_filemap_set_tag,
      scr_filemap_set_expected_files.
    rewrite !entry_set_entry_ne by exact Hne. reflexivity. }
  split.
  { intros Hnd Hempty.
    unfold scr_filemap_num_files, scr_filemap_num_expected_files.
    rewrite Hf, He, Hempty. cbn.
    rewrite union_empty_r_L, size_list_to_set by exact Hnd.
    subst names. rewrite length_fmap. reflexivity. }
  rewrite rc_after_spec.
  destruct (forallb _ (seq 0 steps)) eqn:Hall.
  - split; [left; reflexivity|]. split; [intros _|reflexivity].
    intros step Hstep. rewrite forallb_forall in Hall.
    apply Z.eqb_eq, Hall, in_seq. lia.
  - split; [right; reflexivity|]. split; [discriminate|].
    intros Hok. exfalso.
    apply not_true_iff_false in Hall. apply Hall.
    apply forallb_forall. intros step Hin. apply in_seq in Hin.
    apply Z.eqb_eq, Hok. lia.
Qed.

Lemma scr_copy_partner_records_witness :
  exists r,
    scr_copy_partner 1024 sample_split_path sample_build_path
      (fun _ => SCR_SUCCESS) sample_pair 1 (sample_party 1 ["c.ckpt"])
    = Some r /\
    cp_map_file r = cp_map r /\
    length (cp_swaps r) = 2%nat /\
    expected_count (entry (cp_map r) 1 0) = Some 2 /\
    cp_rc r = SCR_SUCCESS.
Proof.
  destruct (scr_copy_partner_records 1024 sample_split_path
              sample_build_path (fun _ => SCR_SUCCESS) sample_pair 1
              (sample_party 1 ["c.ckpt"])
              (sample_party 0 ["a.ckpt"; "b.ckpt"])
              (sample_party 0 ["a.ckpt"; "b.ckpt"]) "/ram/scr")
    as (r & Hr & Hfile & Hlen & (He & _) & _ & _ & _ & Hrc);
    try reflexivity.
  - vm_compute. discriminate.
  - split; [vm_compute; discriminate|].
    vm_compute. repeat constructor; discriminate.
  - exists r. repeat split; auto. apply Hrc. reflexivity.
Defined.

Lemma peer_lookup (comm : list party) (rank : Z) (q : party) :
  peer comm rank = Some q ->
  rank = Z.of_nat (Z.to_nat rank) /\ comm !! Z.to_nat rank = Some q.
Proof.
  unfold peer. destruct (rank <? 0) eqn:Hneg; [discriminate|].
  apply Z.ltb_ge in Hneg. intros H. split; [lia|exact H].
Qed.

(** X27.  [scr_copy_partner] pairs its transfers.  In a communicator in
    which every process is the right partner of its left partner and the
    left partner of its right partner, every descriptor has a directory
    and the files of every process can be sent (an [int] count, names
    that are not empty and fit the receive buffer): every process p and
    its right partner q return from the call, and step by step they
    agree.  In a step below the count of the files of p, p passes its
    file of that step and the rank of q to [scr_swap_files], and q in the
    same step receives from the rank of p into the name of that file
    moved into the checkpoint directory of q, the name that q has added
    to its filemap.  In every later step p sends nothing and q receives
    nothing. *)
Theorem scr_copy_partner_pairs (SCR_MAX_FILENAME : Z)
    (scr_split_path : string -> string * string)
    (scr_build_path : Z -> string -> string -> Z * string)
    (swap_rc : nat -> nat -> Z) (comm : list party) (checkpoint_id : Z)
    (i : nat) (p : party) :
  partners_agree comm ->
  Forall (fun q => is_Some (directory (pt_desc q)) /\
                   files_fit SCR_MAX_FILENAME checkpoint_id q) comm ->
  comm !! i = Some p ->
  exists (j : nat) (q : party) r rq dir_q,
    rhs_rank (pt_desc p) = Z.of_nat j /\ comm !! j = Some q /\
    lhs_rank (pt_desc q) = Z.of_nat i /\
    directory (pt_desc q) = Some dir_q /\
    scr_copy_partner SCR_MAX_FILENAME scr_split_path scr_build_path
      (swap_rc i) comm checkpoint_id p = Some r /\
    scr_copy_partner SCR_MAX_FILENAME scr_split_path scr_build_path
      (swap_rc j) comm checkpoint_id q = Some rq /\
    forall step : nat,
      match own_files checkpoint_id p !! step with
      | Some file =>
          let name :=
            partner_name SCR_MAX_FILENAME scr_split_path scr_build_path
              (checkpoint_dir_name dir_q checkpoint_id) file in
          exists call call_q,
            cp_swaps r !! step = Some call /\
            cp_swaps rq !! step = Some call_q /\
            sc_file_send call = Some file /\
            sc_rank_send call = Some (Z.of_nat j) /\
            sc_rank_recv call_q = Some (Z.of_nat i) /\
            sc_file_recv call_q = Some name /\
            name ∈ files (entry (cp_map rq) checkpoint_id
                            (lhs_rank_world (pt_desc q)))
      | None =>
          (forall call, cp_swaps r !! step = Some call ->
             sc_file_send call = None /\ sc_rank_send call = None) /\
          (forall call_q, cp_swaps rq !! step = Some call_q ->
             sc_file_recv call_q = None /\ sc_rank_recv call_q = None)
      end.
Proof.
  intros Hring Hfit Hp.
  rewrite Forall_forall in Hfit.
  destruct (Hring i p Hp) as (Hme & pl & q & Hpl & Hq & Hpl_back & Hq_back).
  destruct (peer_lookup _ _ _ Hq) as [Hj Hqj].
  set (j := Z.to_nat (rhs_rank (pt_desc p))) in *.
  destruct (Hring j q Hqj) as (Hme_q & ql & qr & Hql & Hqr & Hql_back
                               & Hqr_back).
  assert (ql = p).
  { rewrite Hq_back in Hql. unfold peer in Hql.
    replace (Z.of_nat i <? 0) with false in Hql
      by (symmetry; apply Z.ltb_ge; lia).
    rewrite Nat2Z.id in Hql. congruence. }
  subst ql.
  destruct (Hfit p (list_elem_of_lookup_2 _ _ _ Hp))
    as [[dir_p Hdir_p] Hfit_p].
  destruct (Hfit q (list_elem_of_lookup_2 _ _ _ Hqj))
    as [[dir_q Hdir_q] Hfit_q].
  destruct (peer_lookup _ _ _ Hpl) as [_ Hpl_in].
  destruct (Hfit pl (list_elem_of_lookup_2 _ _ _ Hpl_in))
    as [_ Hfit_pl].
  exists j, q. do 2 eexists. exists dir_q.
  split; [exact Hj|]. split; [exact Hqj|]. split; [exact Hq_back|].
  split; [exact Hdir_q|].
  split.
  { apply (scr_copy_partner_spec _ _ _ _ _ _ p pl q dir_p); auto;
      try congruence. apply Hfit_p. }
  split.
  { apply (scr_copy_partner_spec _ _ _ _ _ _ q p qr dir_q); auto;
      try congruence. apply Hfit_q. }
  intros step. cbv zeta. cbn [cp_swaps cp_map].
  rewrite !list_lookup_fmap.
  destruct (own_files checkpoint_id p !! step) as [file|] eqn:Hfile.
  - pose proof (lookup_lt_Some _ _ _ Hfile) as Hlt.
    rewrite !lookup_seq_lt by lia. cbn [fmap option_fmap option_map].
    do 2 eexists. split; [reflexivity|]. split; [reflexivity|].
    unfold swap_in_step. cbn. rewrite Hfile. cbn.
    rewrite !decide_True by exact Hlt.
    split; [reflexivity|]. split; [congruence|].
    split; [congruence|]. split; [reflexivity|].
    match goal with
    | |- context [fold_left ?f ?names ?m] =>
        destruct (add_files_entry names m checkpoint_id
                    (lhs_rank_world (pt_desc q))) as (Hf & _)
    end.
    cbv zeta in Hf. rewrite Hf.
    apply elem_of_union_l, elem_of_list_to_set, list_elem_of_fmap.
    exists file. split; [reflexivity|].
    eapply list_elem_of_lookup_2. exact Hfile.
  - pose proof (lookup_ge_None_1 _ _ Hfile) as Hge.
    split.
    + intros call Hcall.
      destruct (seq 0 _ !! step) as [k|] eqn:Hk; [|discriminate].
      apply lookup_seq in Hk as [-> _]. cbn in Hcall.
      injection Hcall as <-. unfold swap_in_step. cbn.
      rewrite Hfile. rewrite decide_False by lia. auto.
    + intros call Hcall.
      destruct (seq 0 _ !! step) as [k|] eqn:Hk; [|discriminate].
      apply lookup_seq in Hk as [-> _]. cbn in Hcall.
      injection Hcall as <-. unfold swap_in_step. cbn.
      rewrite Hfile. rewrite decide_False by lia. auto.
Qed.

Lemma scr_copy_partner_pairs_witness :
  exists (j : nat) (q : party) r rq dir_q,
    rhs_rank (pt_desc (sample_party 0 ["a.ckpt"; "b.ckpt"])) = Z.of_nat j /\
    sample_pair !! j = Some q /\
    lhs_rank (pt_desc q) = Z.of_nat 0 /\
    directory (pt_desc q) = Some dir_q /\
    scr_copy_partner 1024 sample_split_path sample_build_path
      (fun _ => SCR_SUCCESS) sample_pair 1
      (sample_party 0 ["a.ckpt"; "b.ckpt"]) = Some r /\
    scr_copy_partner 1024 sample_split_path sample_build_path
      (fun _ => SCR_SUCCESS) sample_pair 1 q = Some rq /\
    forall step : nat,
      match own_files 1 (sample_party 0 ["a.ckpt"; "b.ckpt"]) !! step with
      | Some file =>
          let name :=
            partner_name 1024 sample_split_path sample_build_path
              (checkpoint_dir_name dir_q 1) file in
          exists call call_q,
            cp_swaps r !! step = Some call /\
            cp_swaps rq !! step = Some call_q /\
            sc_file_send call = Some file /\
            sc_rank_send call = Some (Z.of_nat j) /\
            sc_rank_recv call_q = Some (Z.of_nat 0) /\
            sc_file_recv call_q = Some name /\
            name ∈ files (entry (cp_map rq) 1 (lhs_rank_world (pt_desc q)))
      | None =>
          (forall call, cp_swaps r !! step = Some call ->
             sc_file_send call = None /\ sc_rank_send call = None) /\
          (forall call_q, cp_swaps rq !! step = Some call_q ->
             sc_file_recv call_q = None /\ sc_rank_recv call_q = None)
      end.
Proof.
  assert (Hring : partners_agree sample_pair).
  { intros [|[|i]] p Hp; cbn in Hp; try discriminate;
      injection Hp as <-; (split; [reflexivity|]).
    + exists (sample_party 1 ["c.ckpt"]), (sample_party 1 ["c.ckpt"]).
      repeat split; reflexivity.
    + exists (sample_party 0 ["a.ckpt"; "b.ckpt"]),
        (sample_party 0 ["a.ckpt"; "b.ckpt"]).
      repeat split; reflexivity. }
  assert (Hfit : Forall (fun q => is_Some (directory (pt_desc q)) /\
                   files_fit 1024 1 q) sample_pair).
  { unfold sample_pair, files_fit.
    apply Forall_cons. split.
    - split; [eexists; reflexivity|].
      split; [vm_compute; discriminate|].
      vm_compute. repeat constructor; discriminate.
    - apply Forall_cons. split; [|constructor].
      split; [eexists; reflexivity|].
      split; [vm_compute; discriminate|].
      vm_compute. repeat constructor; discriminate. }
  exact (scr_copy_partner_pairs 1024 sample_split_path sample_build_path
           (fun _ _ => SCR_SUCCESS) sample_pair 1 0%nat
           (sample_party 0 ["a.ckpt"; "b.ckpt"]) Hring Hfit eq_refl).
Defined.

End PartnerCopyFacts.
